(* ===== verification/_CoqProject ===== *)
-Q . S2P
Prelude.v
Cells.v
Nom.v
NomImpl.v
ArrayDef.v
ArrayParser.v
Resources.v
Messages.v
Job.v
Status.v
State.v
Client.v
Server.v
Growth.v
Backend.v
Protocol.v
StreamServer.v
Streamer.v
LogFile.v
AutoAlloc.v
AutoAllocRun.v
Launcher.v
TaskRun.v
WorkerStart.v
Pipeline.v
ServerDir.v
Connection.v
System.v
Bootstrap.v
Borrows.v
Wait.v
JobView.v
Submit.v
Cli.v
WorkerMain.v
Main.v
WaitRun.v
Witnesses.v
WorkerWitnesses.v
ServerWitnesses.v
SystemWitnesses.v
ClientWitnesses.v
Conformance.v
ServerConformance.v
