(* ===== verification/Prelude.v ===== *)
(** * HyperQueue: a verification development

    HyperQueue ([src/]) runs many tasks on the nodes of a cluster.  A server keeps
    jobs and hands their tasks to the scheduler [tako] (an external crate, a git
    submodule); workers run the tasks and stream their output back; the program
    [hq] submits jobs, queries the server and reads the streamed logs.  This
    library models the program and states what makes its parts correct.  The file
    at hand is its prelude: the outcome monad, machine integers, decimal texts and
    the lemmas on lists and maps that all files share.

    ** The parts and how they interact

    [hq submit] builds a request ([Submit.v], [src/client/commands/submit.rs]) from
    its arguments, whose parsers are in [ArrayParser.v] ([common/arrayparser.rs]),
    [Resources.v] ([client/resources.rs]), [Status.v] ([client/status.rs]) over the
    combinators of [Nom.v] ([common/parser.rs]).  It finds the server through the
    access file of a server directory ([ServerDir.v]: [common/serverdir.rs],
    [common/fsutils.rs], [transfer/auth.rs], [server/bootstrap.rs]) and sends the
    request over an encrypted connection ([Connection.v]: [transfer/connection.rs]).
    The handlers of requests ([Client.v]: [server/client.rs]) change the state of
    the server ([State.v]: [server/state.rs], [server/worker.rs]), which is a table
    of jobs ([Job.v]: [server/job.rs]), and send messages to [tako] and to the
    stream server.  Notifications of [tako] change the same state.  [Server.v]
    ([server/rpc.rs]) is the event loop that interleaves all of this: an event is
    what runs between two awaits.  [Backend.v] has the channels and the two loops of
    the connection to [tako], [Protocol.v] says what the clients of a handler may
    expect of its messages, and [System.v] puts clients and their connections
    ([client_rpc_loop] of [server/client.rs]) around the event loop.  [Bootstrap.v]
    ([server/bootstrap.rs], [common/setup.rs]) is the process of the server from its
    start to its end.  A worker ([WorkerMain.v]: the start of its process;
    [WorkerStart.v]: its configuration, [common/manager/]; [Launcher.v]: the programs
    of its tasks, and [TaskRun.v]: their run, [worker/start.rs])
    runs a task and gives its output to its streamer ([Streamer.v]:
    [worker/streamer.rs]), which talks to the stream server ([StreamServer.v]:
    [stream/server/rpc.rs]), which writes a log file that [hq log] reads
    ([LogFile.v]: [stream/reader/logfile.rs]).  [Pipeline.v] composes the last four.
    [AutoAlloc.v] and [AutoAllocRun.v] ([server/autoalloc/]) ask a batch system for
    workers.  The shared state of these tasks is in cells whose borrows are checked at
    run time: [Cells.v] ([common/wrapped.rs]) has the cells and a language of borrows,
    and [Borrows.v] the borrows of the server, the stream server and the worker.  [Wait.v]
    ([client/commands/wait.rs]), [JobView.v] ([client/job.rs], [client/worker.rs],
    [client/commands/jobs.rs], [worker.rs], [stats.rs], [common/format.rs]) and
    [Cli.v] ([bin/hq.rs], [client/commands/log.rs]) are the other commands of [hq];
    [Main.v] dispatches to all of them and gives the exit code.  [WaitRun.v] puts
    [hq wait] beside the event loop; [Growth.v] says what the jobs do in the meantime.
    [ArrayDef.v] ([common/arraydef.rs]) and [Messages.v] ([transfer/messages.rs],
    [stream/server/control.rs]) hold the data they share.

    Interfaces between the parts and to code outside the repository are classes:
    [Profile] (overflow checks on or off), [Tako] (resource requests, worker
    configurations and the encoding of task bodies), [Nom] (the parser combinators,
    implemented in [NomImpl.v]), [ByteOrder] (the crate [byteorder]),
    [StreamCtlServer] (what the writers of a log need from the registrations),
    [QueueDescriptor] (the trait of allocation queues) with [QueueLaws], [Keys], [AccessFormat] and
    [HostEnv] (keys, JSON and the host), [Auth] with [AuthLaws] and [OpenSeal] (the
    handshake and the encryption), [Terminal] (formats and colours of the tables),
    [Commands] (what [main] dispatches to).  The files
    [Witnesses.v], [WorkerWitnesses.v], [ServerWitnesses.v], [SystemWitnesses.v] and
    [ClientWitnesses.v] instantiate them and apply the theorems to concrete runs.
    [Conformance.v] and [ServerConformance.v] run the unit tests of the repository on
    the model.

    ** The theorems

    - The server: [Server.server_invariant] (every interleaving keeps jobs, ids,
      the sparse map and the queue of suspended handlers consistent),
      [answer_reaches_sender], [resume_never_panics], [stream_registrations_safe];
      [Backend.backend_refines_server] (the channels and loops of the backend
      implement the queue that [Server.v] uses);
      [State.process_task_update_refines] and [Job.job_op_refines] refine the state
      machine of a task; [Job.job_run_invariant] is about whole runs of a job;
      [State.sparse_lookup_correct] compares the lookup with a scan of all jobs;
      [process_worker_lost_requeues], [process_task_failed_max_fails].
    - Requests: [Client.handle_submit_correct], [after_cancel_correct],
      [resubmit_selects_tasks], [submit_after_empty_job_panics];
      [System.requests_answered_in_order] (whatever the interleaving, a client
      receives the answers of its own requests, in their order) and
      [response_written_or_abort] (the only way in which an answer is lost).
    - From the command line: [Submit.each_line_submit], [array_request_well_typed],
      [default_outputs_distinct], [stepped_array_overflows];
      [ArrayParser.parse_array_correct] (the accepted language, exactly),
      [display_parse], [parse_array_end_of_range];
      [Launcher.submitted_task_program] follows a submit to the program of a worker.
    - Output: [Pipeline.streamed_output_is_printed] is end to end, over
      [LogFile.log_roundtrip], [show_prints_trace], [log_open_terminates],
      [StreamServer.stream_server_invariant], [end_is_answered] and
      [Streamer.streamer_loses_no_response]; [Streamer.late_connection_end] shows
      two races; [TaskRun.finished_output_was_streamed]: a task is reported as
      finished only when all of its output was confirmed.
    - Connections and start: [Connection.connection_is_fifo],
      [ServerDir.server_lifecycle], [dangling_link_blocks_start],
      [Bootstrap.server_start_to_end], [Main.no_server_exit],
      [WorkerStart.pbs_worker_time_limit], [Resources.detect_resource_numa].
    - Queries and waiting: [JobView.output_job_list_correct],
      [failed_tasks_report]; [WaitRun.wait_follows_server] is [hq wait] against a
      server that goes on running: over [Wait.wait_verdict] and [Growth.run_grows].
    - Allocation: [AutoAllocRun.autoalloc_keeps_targets] is about whole runs with any
      number of queues, over [AutoAlloc.process_descriptor_reaches_target] and
      [refresh_keeps_active].
    - Borrows: [Borrows.borrows_never_conflict] (no interleaving makes a cell panic),
      over [Cells.machine_run_ok], the soundness of a checker of borrows.  It is why the
      other files pass the state on without a check.

    ** How the code is modelled

    - A panic is the value [Panic]: both Cargo profiles set [panic = "abort"], so a
      panic ends the process and there is no state after it.  Errors are [Err] of
      the type [result].  [outcome (result E A)] is a Rust function that returns
      [Result] and may panic.
    - Integers are [Z] with the width written out ([u32_add], [as_u32], ...); the
      class [Profile] decides whether an overflow panics or wraps.
    - A [WrappedRcRefCell] is a state that is passed on; [Borrows.v] has its borrows.
    - The clock, files, sockets and the answers of other processes are arguments.
      The clock is read once per atomic segment.
    - The runtime of the server has one thread: an event of [Server.v] runs to the
      next await, and an event that cannot happen leaves the server unchanged.
    - Hash maps are [gmap]s; where the code iterates over one, the order is that of
      [map_to_list] or an argument, and the theorems hold for it whatever it is.
      [BTreeMap]s are iterated in key order.
    - Texts are strings of bytes.  A table is the list of the texts of its cells.
    - Fuel: the index of a log and [show] take the length of the file plus one,
      every step reads at least one byte; [schedule_loop] takes more than the number
      of missing workers, every round allocates at least one; [to_string] writes at
      most the 20 digits of an [u64]; the replacement of placeholders takes the
      length of the text plus one; the combinators take the length of the input;
      [wait_loop] takes the number of rounds.  Theorems state that this is enough,
      with the result of the run, wherever the loop of the code ends.

    ** Not modelled

    The scheduler [tako] (with its worker runtime), the runtime [tokio], the sockets
    and their framing ([transfer/protocol.rs] sets its limit), spawning of processes,
    signal handlers and the terminal: their results are arguments or events.  The
    parsing of options by [clap]; colours, justification and the printing of tables;
    log messages, except where they are the result of a command; the conversions of
    error types ([common/error.rs]) and of durations ([common/timeutils.rs], the crate
    [humantime]); back-pressure of channels; file permissions.  Of the tests, those
    that need sockets of [tako] or the CPU files of a host are left out.  Build files are not part of the program. *)

From Stdlib Require Export Ascii ZArith Lia.
From stdpp Require Export base sorting numbers strings gmap list.
#[export] Set Default Goal Selector "!".
#[export] Set Warnings "-clear-no-such-hyp".
Open Scope Z_scope.

Declare Scope hq_scope.
Delimit Scope hq_scope with hq.

(** ** Panics and the outcome monad *)

(** Why a Rust computation panicked.  Both Cargo profiles of the repository
    set [panic = "abort"], so a panic ends the process: there is no state
    after it. *)
Inductive panic_reason :=
| ArithmeticOverflow
| UnwrapFailed
| AssertionFailed
| UnreachableCode
| ExplicitPanic
| IndexOutOfRange
| BorrowFailed.

#[global] Instance panic_reason_eq_dec : EqDecision panic_reason.
Proof. solve_decision. Defined.

(** The result of a Rust computation that may panic. *)
Inductive outcome (A : Type) :=
| Ret (a : A)
| Panic (why : panic_reason).

Arguments Ret {A} a.
Arguments Panic {A} why.

#[global] Instance outcome_ret : MRet outcome := @Ret.

#[global] Instance outcome_bind : MBind outcome := fun A B f m =>
  match m with
  | Ret a => f a
  | Panic w => Panic w
  end.

(** [Option::unwrap] and [Option::expect]. *)
Definition unwrap {A} (o : option A) : outcome A :=
  match o with
  | Some a => Ret a
  | None => Panic UnwrapFailed
  end.

(** [assert!]. *)
Definition assert (b : bool) : outcome unit :=
  if b then Ret tt else Panic AssertionFailed.

(** A [for] loop that threads a state and may panic. *)
Fixpoint foldM {A B} (f : B -> A -> outcome B) (b : B) (l : list A) : outcome B :=
  match l with
  | [] => Ret b
  | a :: l' => b' ← f b a; foldM f b' l'
  end.

(** [iter().map(f).collect()] with a closure that may panic. *)
Fixpoint mapM {A B} (f : A -> outcome B) (l : list A) : outcome (list B) :=
  match l with
  | [] => Ret []
  | a :: l' => b ← f a; bs ← mapM f l'; Ret (b :: bs)
  end.

(** [anyhow::Result] and [crate::Result]: a value or an error. *)
Inductive result (E A : Type) :=
| Ok (a : A)
| Err (e : E).

Arguments Ok {E A} a.
Arguments Err {E A} e.

#[global] Instance result_ret {E} : MRet (result E) := @Ok E.

#[global] Instance result_bind {E} : MBind (result E) := fun A B f m =>
  match m with
  | Ok a => f a
  | Err e => Err e
  end.

(** ** Machine integers *)

(** The build profile: Cargo's [dev] profile checks integer overflow and runs
    [debug_assert!]; the [release] profile wraps around and drops them.  Every
    definition below is parametric in the profile. *)
Class Profile := {
  overflow_checks : bool;
  debug_assertions : bool
}.

Definition dev : Profile := {| overflow_checks := true; debug_assertions := true |}.
Definition release : Profile := {| overflow_checks := false; debug_assertions := false |}.

(** [debug_assert!]. *)
Definition debug_assert `{Profile} (b : bool) : outcome unit :=
  if debug_assertions then assert b else Ret tt.

(** The [w]-bit unsigned result of an arithmetic operation whose exact value
    is [z]. *)
Definition arith `{Profile} (w z : Z) : outcome Z :=
  if (0 <=? z) && (z <? 2 ^ w) then Ret z
  else if overflow_checks then Panic ArithmeticOverflow
  else Ret (z mod 2 ^ w).

Definition u32_add `{Profile} (a b : Z) : outcome Z := arith 32 (a + b).
Definition u32_sub `{Profile} (a b : Z) : outcome Z := arith 32 (a - b).
Definition u64_add `{Profile} (a b : Z) : outcome Z := arith 64 (a + b).
Definition u64_sub `{Profile} (a b : Z) : outcome Z := arith 64 (a - b).

(** [x as u32]. *)
Definition as_u32 (z : Z) : Z := z mod 2 ^ 32.

(** [saturating_sub] on an unsigned type. *)
Definition saturating_sub (a b : Z) : Z := Z.max 0 (a - b).

(** [x] is a value of [u32] (of [u64]). *)
Definition is_u32 (z : Z) : Prop := 0 <= z < 2 ^ 32.
Definition is_u64 (z : Z) : Prop := 0 <= z < 2 ^ 64.

#[global] Instance is_u32_dec z : Decision (is_u32 z).
Proof. unfold is_u32. apply _. Defined.
#[global] Instance is_u64_dec z : Decision (is_u64 z).
Proof. unfold is_u64. apply _. Defined.

(** [iter().sum()] on an unsigned type: repeated addition. *)
Definition u32_sum `{Profile} (l : list Z) : outcome Z := foldM u32_add 0 l.
Definition u64_sum `{Profile} (l : list Z) : outcome Z := foldM u64_add 0 l.

(** The exact sum. *)
Fixpoint sumZ (l : list Z) : Z :=
  match l with
  | [] => 0
  | x :: l' => x + sumZ l'
  end.

(** ** Decimal printing and reading of unsigned integers ([Display], [parse]) *)

Definition digit_char (d : Z) : ascii := ascii_of_nat (48 + Z.to_nat d).

Definition is_dec_digit (c : ascii) : bool :=
  ((48 <=? nat_of_ascii c) && (nat_of_ascii c <=? 57))%nat.

Definition digit_val (c : ascii) : Z := Z.of_nat (nat_of_ascii c) - 48.

Fixpoint show_aux (fuel : nat) (n : Z) (acc : string) : string :=
  let acc' := String (digit_char (n mod 10)) acc in
  match fuel with
  | O => acc'
  | S f => if n <? 10 then acc' else show_aux f (n / 10) acc'
  end.

(** [u32::to_string] and [u64::to_string]: twenty digits are enough for a
    value below [2 ^ 64]. *)
Definition to_string (n : Z) : string := show_aux 20 n EmptyString.

Fixpoint dec_value (acc : Z) (s : string) : Z :=
  match s with
  | EmptyString => acc
  | String c s' => dec_value (acc * 10 + digit_val c) s'
  end.

Fixpoint str_all (p : ascii -> bool) (s : string) : bool :=
  match s with
  | EmptyString => true
  | String c s' => p c && str_all p s'
  end.

(** ** Collections *)

(** [iter().collect()] into a hash map: a later pair replaces an earlier one. *)
Definition collect_map {A} (l : list (Z * A)) : gmap Z A :=
  foldl (fun m kv => <[kv.1 := kv.2]> m) ∅ l.

(** [map.values()], in the (unspecified) iteration order of the map. *)
Definition map_values {A} (m : gmap Z A) : list A := (map_to_list m).*2.

(** Number of elements that satisfy a boolean test. *)
Definition countb {A} (p : A -> bool) (l : list A) : Z := Z.of_nat (length (List.filter p l)).

(** [str::split] on a character. *)
Fixpoint split_on (c : ascii) (s : string) : list string :=
  match s with
  | EmptyString => [""]
  | String d s' =>
      if Ascii.eqb d c then "" :: split_on c s'
      else match split_on c s' with
           | p :: ps => String d p :: ps
           | [] => [String d ""]
           end
  end.

(** ** Automation *)

Create HintDb hq.

(** Invert [x ← m; k = Ret r] hypotheses. *)
Lemma bind_ret_inv {A B} (m : outcome A) (f : A -> outcome B) b :
  m ≫= f = Ret b -> exists a, m = Ret a /\ f a = Ret b.
Proof. destruct m; naive_solver. Qed.

Lemma bind_ret {A B} (a : A) (f : A -> outcome B) : Ret a ≫= f = f a.
Proof. done. Qed.

Lemma unwrap_ret {A} (o : option A) a : unwrap o = Ret a <-> o = Some a.
Proof. destruct o; naive_solver. Qed.

Lemma assert_ret b u : assert b = Ret u <-> b = true.
Proof. destruct b, u; naive_solver. Qed.

Ltac ret_step :=
  match goal with
  | H : Ret _ = Ret _ |- _ => injection H as H; simplify_eq
  | H : Panic _ = Ret _ |- _ => discriminate H
  | H : Ret _ = Panic _ |- _ => discriminate H
  | H : mret _ = Ret _ |- _ => unfold mret, outcome_ret in H
  | H : (_ ≫= _) = Ret _ |- _ =>
      let x := fresh "x" in let E := fresh "E" in
      apply bind_ret_inv in H as (x & E & H)
  | H : unwrap _ = Ret _ |- _ => apply unwrap_ret in H
  | H : assert _ = Ret _ |- _ => apply assert_ret in H
  end.

(** Decompose a successful monadic computation. *)
Ltac ret_inv := repeat (ret_step; simpl in *; simplify_eq).

(** ** Lemmas: the monad *)

Lemma foldM_cons {A B} (f : B -> A -> outcome B) b a l :
  foldM f b (a :: l) = f b a ≫= fun b' => foldM f b' l.
Proof. done. Qed.

Lemma foldM_app {A B} (f : B -> A -> outcome B) b l1 l2 :
  foldM f b (l1 ++ l2) = foldM f b l1 ≫= fun b' => foldM f b' l2.
Proof.
  revert b. induction l1 as [|a l1 IH]; intros b; [done|].
  simpl. destruct (f b a); simpl; [apply IH|done].
Qed.

(** A loop invariant. *)
Lemma foldM_inv {A B} (I : B -> Prop) (f : B -> A -> outcome B) b l b' :
  (forall c a c', a ∈ l -> I c -> f c a = Ret c' -> I c') ->
  I b -> foldM f b l = Ret b' -> I b'.
Proof.
  revert b. induction l as [|a l IH]; intros b Hstep Hb Hf; simpl in *; ret_inv; [done|].
  eapply IH; [|eapply Hstep, E; [set_solver|done]|done]. set_solver.
Qed.

Lemma mapM_ret {A B} (f : A -> outcome B) (g : A -> B) l :
  (forall a, a ∈ l -> f a = Ret (g a)) -> mapM f l = Ret (g <$> l).
Proof.
  induction l as [|a l IH]; intros Hf; simpl; [done|].
  rewrite Hf by set_solver. simpl. rewrite IH by set_solver. done.
Qed.

Lemma mapM_app {A B} (f : A -> outcome B) l1 l2 :
  mapM f (l1 ++ l2) = (b1 ← mapM f l1; b2 ← mapM f l2; Ret (b1 ++ b2)).
Proof.
  induction l1 as [|a l1 IH]; simpl.
  - by destruct (mapM f l2).
  - destruct (f a); simpl; [|done]. rewrite IH. destruct (mapM f l1); simpl; [|done].
    by destruct (mapM f l2).
Qed.

Lemma mapM_fmap {A B C} (f : B -> outcome C) (g : A -> B) l :
  mapM f (g <$> l) = mapM (fun a => f (g a)) l.
Proof. induction l as [|a l IH]; csimpl; [done|]. by rewrite IH. Qed.

Lemma mapM_ext {A B} (f g : A -> outcome B) l : (forall a, a ∈ l -> f a = g a) -> mapM f l = mapM g l.
Proof.
  induction l as [|a l IH]; intros Hfg; simpl; [done|].
  rewrite Hfg, IH by set_solver. done.
Qed.

Lemma mapM_Forall2 {A B} (f : A -> outcome B) l bs :
  mapM f l = Ret bs -> Forall2 (fun a b => f a = Ret b) l bs.
Proof.
  revert bs. induction l as [|a l IH]; intros bs H; simpl in *; ret_inv; constructor; auto.
Qed.

(** ** Lemmas: machine integers *)

Lemma arith_exact `{Profile} w z : 0 <= z < 2 ^ w -> arith w z = Ret z.
Proof.
  intros ?. unfold arith.
  destruct (Z.leb_spec 0 z), (Z.ltb_spec z (2 ^ w)); simpl; lia || done.
Qed.

Lemma arith_bound `{Profile} w z r : 0 <= w -> arith w z = Ret r -> 0 <= r < 2 ^ w.
Proof.
  intros ? Hr. pose proof (Z.pow_pos_nonneg 2 w ltac:(lia) ltac:(done)).
  unfold arith in Hr. destruct (_ && _) eqn:E.
  - apply andb_true_iff in E as [?%Z.leb_le ?%Z.ltb_lt]. by simplify_eq.
  - destruct overflow_checks; simplify_eq. by apply Z.mod_pos_bound.
Qed.

Lemma u32_add_exact `{Profile} a b : 0 <= a + b < 2 ^ 32 -> u32_add a b = Ret (a + b).
Proof. apply arith_exact. Qed.
Lemma u32_sub_exact `{Profile} a b : 0 <= a - b < 2 ^ 32 -> u32_sub a b = Ret (a - b).
Proof. apply arith_exact. Qed.
Lemma u64_add_exact `{Profile} a b : 0 <= a + b < 2 ^ 64 -> u64_add a b = Ret (a + b).
Proof. apply arith_exact. Qed.

Lemma u32_add_bound `{Profile} a b r : u32_add a b = Ret r -> is_u32 r.
Proof. by apply arith_bound. Qed.
Lemma u32_sub_bound `{Profile} a b r : u32_sub a b = Ret r -> is_u32 r.
Proof. by apply arith_bound. Qed.
Lemma u64_add_bound `{Profile} a b r : u64_add a b = Ret r -> is_u64 r.
Proof. by apply arith_bound. Qed.

#[export] Hint Resolve u32_add_bound u32_sub_bound u64_add_bound : hq.

Lemma as_u32_id z : is_u32 z -> as_u32 z = z.
Proof. intros. by apply Z.mod_small. Qed.

Lemma sumZ_app l1 l2 : sumZ (l1 ++ l2) = sumZ l1 + sumZ l2.
Proof. induction l1; simpl; lia. Qed.

Lemma sumZ_perm l1 l2 : l1 ≡ₚ l2 -> sumZ l1 = sumZ l2.
Proof. induction 1; simpl; lia. Qed.

Lemma sumZ_nonneg l : Forall (fun x => 0 <= x) l -> 0 <= sumZ l.
Proof. induction 1; simpl; lia. Qed.

(** The machine sum is the exact sum when the exact sum fits. *)
Lemma sum_exact_from `{Profile} w l acc :
  Forall (fun x => 0 <= x) l -> 0 <= acc -> acc + sumZ l < 2 ^ w ->
  foldM (fun a b => arith w (a + b)) acc l = Ret (acc + sumZ l).
Proof.
  intros Hl. revert acc. induction Hl as [|x l Hx Hl IH]; intros acc Hacc Hlt; simpl in *.
  - f_equal. lia.
  - pose proof (sumZ_nonneg _ Hl). rewrite arith_exact by lia.
    simpl. rewrite IH by lia. f_equal. lia.
Qed.

Lemma u32_sum_exact `{Profile} l :
  Forall (fun x => 0 <= x) l -> sumZ l < 2 ^ 32 -> u32_sum l = Ret (sumZ l).
Proof. intros. by apply sum_exact_from. Qed.

Lemma u64_sum_exact `{Profile} l :
  Forall (fun x => 0 <= x) l -> sumZ l < 2 ^ 64 -> u64_sum l = Ret (sumZ l).
Proof. intros. by apply sum_exact_from. Qed.

(** ** Lemmas: decimal printing *)

Lemma digit_char_spec d :
  0 <= d < 10 -> is_dec_digit (digit_char d) = true /\ digit_val (digit_char d) = d.
Proof.
  intros Hd. assert (Hs : Forall (fun d => is_dec_digit (digit_char d) = true
    /\ digit_val (digit_char d) = d) (seqZ 0 10)).
  { vm_compute. repeat constructor. }
  rewrite Forall_forall in Hs. apply Hs. apply elem_of_seqZ. lia.
Qed.

Lemma dec_value_show fuel n acc :
  0 <= n < 10 ^ (Z.of_nat fuel + 1) ->
  dec_value 0 (show_aux fuel n acc) = dec_value n acc.
Proof.
  revert n acc. induction fuel as [|f IH]; intros n acc Hn; cbn [show_aux].
  - simpl in Hn. cbn [dec_value]. destruct (digit_char_spec (n mod 10)) as [_ ->].
    + apply Z.mod_pos_bound. lia.
    + f_equal. rewrite Z.mod_small; lia.
  - destruct (Z.ltb_spec n 10).
    + cbn [dec_value]. destruct (digit_char_spec (n mod 10)) as [_ ->].
      * apply Z.mod_pos_bound. lia.
      * f_equal. rewrite Z.mod_small; lia.
    + rewrite IH.
      * cbn [dec_value]. destruct (digit_char_spec (n mod 10)) as [_ ->].
        -- apply Z.mod_pos_bound. lia.
        -- f_equal. pose proof (Z.div_mod n 10). lia.
      * split; [apply Z.div_pos; lia|]. apply Z.div_lt_upper_bound; [lia|].
        rewrite <- Z.pow_succ_r by lia.
        replace (Z.succ (Z.of_nat f + 1)) with (Z.of_nat (S f) + 1) by lia. lia.
Qed.

Lemma show_aux_digits fuel n acc :
  str_all is_dec_digit acc = true -> str_all is_dec_digit (show_aux fuel n acc) = true.
Proof.
  revert n acc. induction fuel as [|f IH]; intros n acc Hacc; cbn [show_aux];
    (destruct (digit_char_spec (n mod 10)) as [Hd _]; [apply Z.mod_pos_bound; lia|]).
  - cbn [str_all]. by rewrite Hd.
  - destruct (n <? 10); [|apply IH]; cbn [str_all]; by rewrite Hd.
Qed.

Lemma show_aux_nonempty fuel n acc : exists c s, show_aux fuel n acc = String c s.
Proof.
  revert n acc. induction fuel as [|f IH]; intros n acc; cbn [show_aux]; [eauto|].
  destruct (n <? 10); eauto.
Qed.

Lemma dec_value_to_string n : is_u64 n -> dec_value 0 (to_string n) = n.
Proof. intros. unfold to_string. rewrite dec_value_show; [done|unfold is_u64 in *; lia]. Qed.

Lemma to_string_digits n : str_all is_dec_digit (to_string n) = true.
Proof. by apply show_aux_digits. Qed.

(** ** Lemmas: collections *)

Lemma collect_map_lookup_None {A} (l : list (Z * A)) (m : gmap Z A) k :
  k ∉ l.*1 -> foldl (fun m kv => <[kv.1 := kv.2]> m) m l !! k = m !! k.
Proof.
  revert m. induction l as [|[k' a] l IH]; intros m Hk; simpl in *; [done|].
  rewrite IH by set_solver. apply lookup_insert_ne. set_solver.
Qed.

Lemma collect_map_list_to_map {A} (l : list (Z * A)) :
  NoDup l.*1 -> collect_map l = list_to_map l.
Proof.
  intros Hnd. apply map_eq. intros k. unfold collect_map.
  destruct (list_to_map l !! k) as [a|] eqn:Hk.
  - apply elem_of_list_to_map in Hk; [|done].
    apply list_elem_of_split in Hk as (l1 & l2 & ->).
    rewrite foldl_app. simpl. rewrite collect_map_lookup_None.
    + apply lookup_insert_eq.
    + rewrite fmap_app in Hnd. simpl in Hnd. apply NoDup_app in Hnd as (_ & _ & Hnd).
      by apply NoDup_cons in Hnd as [? _].
  - apply not_elem_of_list_to_map in Hk. by rewrite collect_map_lookup_None.
Qed.

Lemma map_values_insert_new {A} (m : gmap Z A) k x :
  m !! k = None -> map_values (<[k := x]> m) ≡ₚ x :: map_values m.
Proof. intros. unfold map_values. by rewrite map_to_list_insert. Qed.

Lemma map_values_delete {A} (m : gmap Z A) k x :
  m !! k = Some x -> x :: map_values (delete k m) ≡ₚ map_values m.
Proof. intros Hk. unfold map_values. by rewrite <- (map_to_list_delete m k x Hk). Qed.

Lemma StronglySorted_le_lt l : StronglySorted Z.le l -> NoDup l -> StronglySorted Z.lt l.
Proof.
  induction 1 as [|x l Hs IH Hx]; intros Hnd; [constructor|].
  apply NoDup_cons in Hnd as [Hnin Hnd]. constructor; [auto|].
  rewrite Forall_forall in Hx |- *. intros y Hy. pose proof (Hx y Hy).
  enough (x <> y) by lia. by intros ->.
Qed.

Lemma countb_nil {A} (p : A -> bool) : countb p [] = 0.
Proof. done. Qed.

Lemma countb_cons {A} (p : A -> bool) x l : countb p (x :: l) = (if p x then 1 else 0) + countb p l.
Proof. unfold countb. simpl. destruct (p x); simpl; lia. Qed.

Lemma countb_perm {A} (p : A -> bool) l1 l2 : l1 ≡ₚ l2 -> countb p l1 = countb p l2.
Proof. induction 1; rewrite ?countb_cons; lia. Qed.

Lemma countb_bounds {A} (p : A -> bool) l : 0 <= countb p l <= Z.of_nat (length l).
Proof. induction l as [|x l IH]; rewrite ?countb_nil, ?countb_cons; simpl; [|destruct (p x)]; lia. Qed.
