(* ===== verification/Cells.v ===== *)
(** * Shared cells: [src/common/wrapped.rs]

    [WrappedRcRefCell<T>] is a pointer to a reference-counted cell whose borrows are
    checked while the program runs.  The first part is the cell and its operations over
    a heap.  The second part is a language of the borrows that asynchronous code takes,
    a machine that interleaves tasks at their awaits as a single-threaded runtime does,
    and a checker for this language.  The soundness of the checker is what
    [Borrows.v] applies to the code of the server and of the worker. *)

From S2P Require Import Prelude.

(** ** The cell *)

(** The borrow flag of a [RefCell]: the number of shared borrows, or one mutable one. *)
Inductive BorrowFlag := Reading (n : nat) | Writing.

#[global] Instance BorrowFlag_eq_dec : EqDecision BorrowFlag.
Proof. solve_decision. Defined.

(** The allocation of an [Rc<RefCell<T>>]. *)
Record RcBox (T : Type) := {
  rc_strong : Z;
  rc_flag : BorrowFlag;
  rc_value : T
}.
Arguments rc_strong {T} _.
Arguments rc_flag {T} _.
Arguments rc_value {T} _.

Abbreviation Heap T := (gmap Z (RcBox T)).

(** [struct WrappedRcRefCell]: the pointer. *)
Record WrappedRcRefCell := { inner : Z }.

#[global] Instance WrappedRcRefCell_eq_dec : EqDecision WrappedRcRefCell.
Proof. solve_decision. Defined.

Section cell.
Context {T : Type}.

Definition with_flag (b : RcBox T) (f : BorrowFlag) : RcBox T :=
  {| rc_strong := rc_strong b; rc_flag := f; rc_value := rc_value b |}.

(** [wrap] *)
Definition wrap (h : Heap T) (t : T) : Heap T * WrappedRcRefCell :=
  let l := fresh (dom h) in
  (<[l := {| rc_strong := 1; rc_flag := Reading 0; rc_value := t |}]> h, {| inner := l |}).

(** [new_wrapped] *)
Definition new_wrapped (inner : Z) : WrappedRcRefCell := {| inner := inner |}.

(** The allocation behind a pointer; it lives as long as the pointer. *)
Definition deref (h : Heap T) (w : WrappedRcRefCell) : outcome (RcBox T) :=
  match h !! inner w with Some b => Ret b | None => Panic UnreachableCode end.

(** [get]: [RefCell::borrow] *)
Definition get (h : Heap T) (w : WrappedRcRefCell) : outcome (Heap T) :=
  b ← deref h w;
  match rc_flag b with
  | Reading n => Ret (<[inner w := with_flag b (Reading (S n))]> h)
  | Writing => Panic BorrowFailed
  end.

(** [get_mut]: [RefCell::borrow_mut] *)
Definition get_mut (h : Heap T) (w : WrappedRcRefCell) : outcome (Heap T) :=
  b ← deref h w;
  match rc_flag b with
  | Reading O => Ret (<[inner w := with_flag b Writing]> h)
  | _ => Panic BorrowFailed
  end.

(** The end of a [Ref] or of a [RefMut]. *)
Definition release (h : Heap T) (w : WrappedRcRefCell) : outcome (Heap T) :=
  b ← deref h w;
  Ret (<[inner w := with_flag b match rc_flag b with Reading n => Reading (pred n) | Writing => Reading 0 end]> h).

(** [get_num_refs] *)
Definition get_num_refs (h : Heap T) (w : WrappedRcRefCell) : outcome Z :=
  b ← deref h w; Ret (rc_strong b).

(** [Clone::clone]; [Rc] aborts when the counter overflows. *)
Definition clone (h : Heap T) (w : WrappedRcRefCell) : outcome (Heap T * WrappedRcRefCell) :=
  b ← deref h w;
  if rc_strong b + 1 =? 2 ^ 64 then Panic ExplicitPanic
  else
    Ret (<[inner w := {| rc_strong := rc_strong b + 1; rc_flag := rc_flag b; rc_value := rc_value b |}]> h,
         {| inner := inner w |}).

(** [Hash::hash]: the state of the hasher with the pointer. *)
Definition hash (w : WrappedRcRefCell) (state : list Z) : list Z := state ++ [inner w].

(** [PartialEq::eq]: [Rc::ptr_eq] *)
Definition eq (w other : WrappedRcRefCell) : bool := inner w =? inner other.

End cell.

(** ** The borrows of asynchronous code *)

(** What a piece of code does with cells.  [Either] and [Repeat] are decided by data;
    a guard lives for the body of its [With]; a task that is spawned starts later. *)
Inductive Code :=
| Nothing
| Then (a b : Code)
| Either (a b : Code)
| Repeat (a : Code)
| Await
| With (mutably : bool) (cell : WrappedRcRefCell) (body : Code)
| Spawn (body : Code).

(** The rest of a task: code, and the guards that end after it. *)
Inductive Frame :=
| Run (c : Code)
| Drop (mutably : bool) (cell : WrappedRcRefCell).

Abbreviation Task := (list Frame).

(** The tasks of one thread: the one that runs, and those that wait. *)
Record Machine := {
  heap : Heap unit;
  current : Task;
  waiting : list Task
}.

(** The runtime lets the [n]-th waiting task run, if there is one. *)
Definition switch (h : Heap unit) (tasks : list Task) (n : nat) : Machine :=
  match tasks !! n with
  | Some t => {| heap := h; current := t; waiting := delete n tasks |}
  | None => {| heap := h; current := []; waiting := tasks |}
  end.

(** What is decided at a step: the data of a branch, and the task that runs next. *)
Record Decision := { branch : bool; next_task : nat }.

(** One step of the running task; another task runs only at an await or after the end. *)
Definition machine_step (m : Machine) (d : Decision) : outcome Machine :=
  let continue h t := {| heap := h; current := t; waiting := waiting m |} in
  match current m with
  | [] => Ret (switch (heap m) (waiting m) (next_task d))
  | Run Nothing :: k => Ret (continue (heap m) k)
  | Run (Then a b) :: k => Ret (continue (heap m) (Run a :: Run b :: k))
  | Run (Either a b) :: k => Ret (continue (heap m) (Run (if branch d then a else b) :: k))
  | Run (Repeat a) :: k =>
      Ret (continue (heap m) (if branch d then Run a :: Run (Repeat a) :: k else k))
  | Run Await :: k => Ret (switch (heap m) (waiting m ++ [k]) (next_task d))
  | Run (With mutably cell body) :: k =>
      h ← (if mutably then get_mut (heap m) cell else get (heap m) cell);
      Ret (continue h (Run body :: Drop mutably cell :: k))
  | Run (Spawn body) :: k =>
      Ret {| heap := heap m; current := k; waiting := waiting m ++ [[Run body]] |}
  | Drop _ cell :: k => h ← release (heap m) cell; Ret (continue h k)
  end.

Definition machine_run (m : Machine) (ds : list Decision) : outcome Machine := foldM machine_step m ds.

(** ** The checker *)

Abbreviation Guard := (bool * WrappedRcRefCell)%type.

Definition on_cell (cell : WrappedRcRefCell) (g : Guard) : bool := eq g.2 cell.
Definition writes (cell : WrappedRcRefCell) (g : Guard) : bool := g.1 && eq g.2 cell.

Section check.
(** The cells of the program, and those that some code borrows mutably. *)
Context (cells mutated : list WrappedRcRefCell).

Definition member (cell : WrappedRcRefCell) (l : list WrappedRcRefCell) : bool := existsb (eq cell) l.

(** A guard may be held at an await when it is shared and its cell is never borrowed
    mutably. *)
Definition may_wait (g : Guard) : bool := negb g.1 && negb (member g.2 mutated).

(** [held]: the guards that live around the code. *)
Fixpoint check (held : list Guard) (c : Code) : bool :=
  match c with
  | Nothing => true
  | Then a b | Either a b => check held a && check held b
  | Repeat a => check held a
  | Await => forallb may_wait held
  | With mutably cell body =>
      member cell cells &&
      (if mutably then member cell mutated && negb (existsb (on_cell cell) held)
       else negb (existsb (writes cell) held)) &&
      check ((mutably, cell) :: held) body
  | Spawn body => check [] body
  end.

End check.

(** ** Invariant *)

Definition reads (cell : WrappedRcRefCell) (g : Guard) : bool := negb g.1 && eq g.2 cell.

(** The flag of a cell counts its guards. *)
Definition flag_ok (cell : WrappedRcRefCell) (l : list Guard) (f : BorrowFlag) : Prop :=
  match f with
  | Reading n => countb (reads cell) l = Z.of_nat n /\ countb (writes cell) l = 0
  | Writing => countb (reads cell) l = 0 /\ countb (writes cell) l = 1
  end.

(** The guards that a task holds. *)
Definition guards (t : Task) : list Guard :=
  omap (fun f => match f with Drop mutably cell => Some (mutably, cell) | Run _ => None end) t.

Definition guards_of (ts : list Task) : list Guard := concat (guards <$> ts).

#[global] Instance guards_of_perm : Proper ((≡ₚ) ==> (≡ₚ)) guards_of.
Proof.
  unfold guards_of. induction 1 as [|t ts ts' _ IH|t t' ts|? ? ? _ IH1 _ IH2]; csimpl; [done| | |by etransitivity].
  - by rewrite IH.
  - by rewrite !app_assoc, (Permutation_app_comm (guards t)).
Qed.

Section soundness.
Context (cells mutated : list WrappedRcRefCell).

Definition heap_ok (h : Heap unit) (l : list Guard) : Prop :=
  forall cell, member cell cells = true -> exists b, h !! inner cell = Some b /\ flag_ok cell l (rc_flag b).

(** Every part of a task passes the check with the guards that are around it. *)
Fixpoint task_ok (t : Task) : Prop :=
  match t with
  | [] => True
  | Run c :: k => check cells mutated (guards k) c = true /\ task_ok k
  | Drop _ cell :: k => member cell cells = true /\ task_ok k
  end.

Definition waits_ok (t : Task) : Prop := task_ok t /\ Forall (fun g => may_wait mutated g = true) (guards t).

Record machine_ok (m : Machine) : Prop := {
  mo_heap : heap_ok (heap m) (guards_of (current m :: waiting m));
  mo_current : task_ok (current m);
  mo_waiting : Forall waits_ok (waiting m)
}.

(** ** Lemmas: counting guards *)

Lemma eq_spec c d : eq c d = true <-> c = d.
Proof. unfold eq. destruct c, d. simpl. rewrite Z.eqb_eq. split; [by intros ->|by intros [= ->]]. Qed.

Lemma eq_false c d : eq c d = false <-> inner c <> inner d.
Proof. apply Z.eqb_neq. Qed.

Lemma member_spec c l : member c l = true <-> c ∈ l.
Proof.
  unfold member. rewrite existsb_exists. setoid_rewrite eq_spec. setoid_rewrite <- list_elem_of_In. naive_solver.
Qed.

Lemma countb_none {A} (p : A -> bool) l : Forall (fun x => p x = false) l -> countb p l = 0.
Proof. induction 1 as [|x l Hx _ IH]; [done|]. by rewrite countb_cons, Hx, IH. Qed.

Lemma countb_existsb {A} (p : A -> bool) l : existsb p l = false -> countb p l = 0.
Proof.
  induction l as [|x l IH]; [done|]. simpl. intros [Hx Hl]%orb_false_iff. by rewrite countb_cons, Hx, IH.
Qed.

Lemma countb_app {A} (p : A -> bool) l k : countb p (l ++ k) = countb p l + countb p k.
Proof. induction l as [|x l IH]; [done|]. simpl. rewrite !countb_cons, IH. lia. Qed.

(** What a guard adds to the counts of a cell. *)
Lemma count_guard c g l :
  countb (reads c) (g :: l) = (if negb g.1 && eq g.2 c then 1 else 0) + countb (reads c) l /\
  countb (writes c) (g :: l) = (if g.1 && eq g.2 c then 1 else 0) + countb (writes c) l.
Proof. split; by rewrite countb_cons. Qed.

Lemma on_cell_none c l :
  existsb (on_cell c) l = false -> countb (reads c) l = 0 /\ countb (writes c) l = 0.
Proof.
  intros Hl. assert (Forall (fun g => on_cell c g = false) l) as Hf.
  { induction l as [|g l IH]; [constructor|]. apply orb_false_iff in Hl as [??]. constructor; auto. }
  split; apply countb_none; eapply Forall_impl; try exact Hf; unfold on_cell, reads, writes;
    intros g ->; by destruct g.1.
Qed.

Lemma flag_ok_counts c l l' f :
  countb (reads c) l = countb (reads c) l' -> countb (writes c) l = countb (writes c) l' ->
  flag_ok c l f -> flag_ok c l' f.
Proof. intros Hr Hw. destruct f; simpl; by rewrite Hr, Hw. Qed.

#[local] Instance heap_ok_perm h : Proper ((≡ₚ) ==> iff) (heap_ok h).
Proof.
  intros l l' Hl. split; intros Ho c Hc; destruct (Ho c Hc) as (b & Hb & Hf); exists b; (split; [done|]);
    (eapply flag_ok_counts; [..|exact Hf]); apply countb_perm; by rewrite Hl.
Qed.

(** Only the cell of the guard has another flag. *)
Lemma heap_ok_update h l l' b f cell :
  heap_ok h l -> h !! inner cell = Some b -> flag_ok cell l' f ->
  (forall c, inner c <> inner cell ->
     countb (reads c) l = countb (reads c) l' /\ countb (writes c) l = countb (writes c) l') ->
  heap_ok (<[inner cell := with_flag b f]> h) l'.
Proof.
  intros Ho Hb Hf Hother c Hc. destruct (decide (inner c = inner cell)) as [He|Hne].
  - exists (with_flag b f). rewrite He, lookup_insert_eq. split; [done|]. by destruct c, cell; simpl in *; subst.
  - destruct (Ho c Hc) as (b' & Hb' & Hf'). exists b'. rewrite lookup_insert_ne by done. split; [done|].
    destruct (Hother c Hne). by eapply flag_ok_counts.
Qed.

Lemma other_guard c cell mutably l :
  inner c <> inner cell ->
  countb (reads c) l = countb (reads c) ((mutably, cell) :: l) /\
  countb (writes c) l = countb (writes c) ((mutably, cell) :: l).
Proof.
  intros Hne. destruct (count_guard c (mutably, cell) l) as [-> ->]. simpl.
  assert (eq cell c = false) as -> by (apply eq_false; congruence). by destruct mutably.
Qed.

Lemma own_guard cell mutably l :
  countb (reads cell) ((mutably, cell) :: l) = (if mutably then 0 else 1) + countb (reads cell) l /\
  countb (writes cell) ((mutably, cell) :: l) = (if mutably then 1 else 0) + countb (writes cell) l.
Proof.
  destruct (count_guard cell (mutably, cell) l) as [-> ->]. simpl.
  assert (eq cell cell = true) as -> by by apply eq_spec. by destruct mutably.
Qed.

(** ** Lemmas: the operations *)

Lemma get_ok h l cell :
  heap_ok h l -> member cell cells = true -> countb (writes cell) l = 0 ->
  exists h', get h cell = Ret h' /\ heap_ok h' ((false, cell) :: l).
Proof.
  intros Ho Hc Hw. destruct (Ho cell Hc) as (b & Hb & Hf). unfold get, deref. rewrite Hb. simpl.
  destruct (rc_flag b) as [n|] eqn:Hn; simpl in Hf; [|lia]. eexists. split; [done|].
  eapply heap_ok_update; [done..| |intros; by apply other_guard].
  destruct (own_guard cell false l) as [Hr' Hw']. simpl. lia.
Qed.

Lemma get_mut_ok h l cell :
  heap_ok h l -> member cell cells = true -> countb (reads cell) l = 0 -> countb (writes cell) l = 0 ->
  exists h', get_mut h cell = Ret h' /\ heap_ok h' ((true, cell) :: l).
Proof.
  intros Ho Hc Hr Hw. destruct (Ho cell Hc) as (b & Hb & Hf). unfold get_mut, deref. rewrite Hb. simpl.
  destruct (rc_flag b) as [[|n]|] eqn:Hn; simpl in Hf; [|lia..]. eexists. split; [done|].
  eapply heap_ok_update; [done..| |intros; by apply other_guard].
  destruct (own_guard cell true l) as [Hr' Hw']. simpl. lia.
Qed.

Lemma release_ok h l mutably cell :
  heap_ok h ((mutably, cell) :: l) -> member cell cells = true ->
  exists h', release h cell = Ret h' /\ heap_ok h' l.
Proof.
  intros Ho Hc. destruct (Ho cell Hc) as (b & Hb & Hf). unfold release, deref. rewrite Hb. simpl.
  eexists. split; [done|].
  eapply heap_ok_update; [done..| |intros; split; symmetry; by apply other_guard].
  destruct (own_guard cell mutably l) as [Hr' Hw'].
  pose proof (countb_bounds (reads cell) l). pose proof (countb_bounds (writes cell) l).
  destruct (rc_flag b) as [[|n]|], mutably; simpl in *; lia.
Qed.

(** ** Lemmas: tasks *)

Lemma waiting_guards t ts g : Forall waits_ok ts -> t ∈ ts -> g ∈ guards t -> may_wait mutated g = true.
Proof. rewrite Forall_forall. intros Hw Ht Hg. destruct (Hw t Ht) as [_ Hf]. rewrite Forall_forall in Hf. auto. Qed.

Lemma waiting_may_wait ts : Forall waits_ok ts -> Forall (fun g => may_wait mutated g = true) (guards_of ts).
Proof.
  intros Hw. apply Forall_forall. intros g. unfold guards_of.
  rewrite list_elem_of_In, in_concat. intros (l & Hl & Hg).
  apply list_elem_of_In, list_elem_of_fmap in Hl as (t & -> & Ht).
  apply list_elem_of_In in Hg. by eapply waiting_guards.
Qed.

(** Tasks that wait write no cell, and hold no cell that some code writes. *)
Lemma waiting_counts ts cell :
  Forall waits_ok ts ->
  countb (writes cell) (guards_of ts) = 0 /\
  (member cell mutated = true -> countb (reads cell) (guards_of ts) = 0).
Proof.
  intros Hw%waiting_may_wait.
  split; [|intros Hm]; apply countb_none; eapply Forall_impl; try exact Hw; intros [m c]; unfold may_wait;
    simpl; intros [Hf Hn]%andb_true_iff; apply negb_true_iff in Hf as ->; [done|].
  unfold reads. simpl. destruct (eq c cell) eqn:He; [|done]. apply eq_spec in He as ->. by rewrite Hm in Hn.
Qed.

Lemma switch_ok h ts n :
  heap_ok h (guards_of ts) -> Forall waits_ok ts -> machine_ok (switch h ts n).
Proof.
  intros Ho Hw. unfold switch. destruct (ts !! n) as [t|] eqn:Hn; [|by split].
  pose proof (delete_Permutation _ _ _ Hn) as Hp. rewrite Hp in Hw. apply Forall_cons in Hw as [[Ht _] Hw].
  split; [|done..]. simpl. rewrite <- Hp. done.
Qed.

(** ** Soundness *)

Lemma task_guard_ok h k ts cell mutably body :
  heap_ok h (guards_of (k :: ts)) -> Forall waits_ok ts ->
  check cells mutated (guards k) (With mutably cell body) = true ->
  exists h', (if mutably then get_mut h cell else get h cell) = Ret h' /\
    heap_ok h' ((mutably, cell) :: guards_of (k :: ts)).
Proof.
  intros Ho Hw Hc. simpl in Hc. apply andb_true_iff in Hc as [[Hcell Hc]%andb_true_iff _].
  destruct (waiting_counts ts cell Hw) as [Hw0 Hr0].
  assert (forall p, countb p (guards_of (k :: ts)) = countb p (guards k) + countb p (guards_of ts)) as Happ
    by (intros; apply countb_app).
  destruct mutably.
  - apply andb_true_iff in Hc as [Hm Hc%negb_true_iff]. apply on_cell_none in Hc as [Hr Hk].
    apply get_mut_ok; [done..| |]; rewrite Happ; [rewrite Hr, Hr0 by done|rewrite Hk, Hw0]; done.
  - apply negb_true_iff, countb_existsb in Hc. apply get_ok; [done..|]. by rewrite Happ, Hw0, Hc.
Qed.

Lemma machine_step_ok m d : machine_ok m -> exists m', machine_step m d = Ret m' /\ machine_ok m'.
Proof.
  intros [Ho Hc Hw]. destruct m as [h t ts]. simpl in *. unfold machine_step. simpl.
  destruct t as [|[c|mutably cell] k]; [| |].
  - eexists. split; [done|]. by apply switch_ok.
  - destruct Hc as [Hc Hk].
    destruct c as [|a b|a b|a| |mutably cell body|body]; simpl.
    + eexists. split; [done|]. by split.
    + apply andb_true_iff in Hc as [Ha Hb]. eexists. split; [done|]. by split.
    + apply andb_true_iff in Hc as [Ha Hb]. eexists. split; [done|]. split; [done| |done]. by destruct (branch d).
    + eexists. split; [done|]. simpl in Hc. by destruct (branch d); split.
    + eexists. split; [done|]. apply switch_ok.
      * by rewrite <- Permutation_cons_append.
      * apply Forall_app. split; [done|]. repeat constructor; [done|]. simpl in Hc.
        apply Forall_forall. intros g Hg. rewrite forallb_forall in Hc. by apply Hc, list_elem_of_In.
    + destruct (task_guard_ok h k ts cell mutably body) as (h' & -> & Ho'); [done..|].
      eexists. split; [done|]. split; [done| |done]. simpl in Hc |- *.
      by apply andb_true_iff in Hc as [[Hcell _]%andb_true_iff Hbody].
    + eexists. split; [done|]. split; [|done|].
      * simpl. unfold guards_of in *. simpl. rewrite fmap_app, concat_app. simpl. by rewrite app_nil_r.
      * apply Forall_app. split; [done|]. by repeat constructor.
  - destruct Hc as [Hcell Hk]. destruct (release_ok h _ mutably cell Ho Hcell) as (h' & -> & Ho').
    eexists. split; [done|]. by split.
Qed.

(** Every interleaving of tasks that pass the check runs without a failed borrow. *)
Lemma machine_run_ok m ds : machine_ok m -> exists m', machine_run m ds = Ret m' /\ machine_ok m'.
Proof.
  unfold machine_run. revert m. induction ds as [|d ds IH]; intros m Hm; simpl; [eauto|].
  destruct (machine_step_ok m d Hm) as (m' & -> & Hm'). simpl. auto.
Qed.

(** The start: no cell is borrowed, and the tasks have not begun. *)
Lemma machine_start_ok h codes :
  (forall cell, member cell cells = true -> exists b, h !! inner cell = Some b /\ rc_flag b = Reading 0) ->
  Forall (fun c => check cells mutated [] c = true) codes ->
  machine_ok {| heap := h; current := []; waiting := (fun c => [Run c]) <$> codes |}.
Proof.
  intros Hh Hc. split; simpl; [|done|].
  - assert (guards_of ([] :: ((fun c => [Run c]) <$> codes)) = []) as ->.
    { clear Hc. unfold guards_of. by induction codes. }
    intros cell Hcell. destruct (Hh cell Hcell) as (b & Hb & Hf). exists b. split; [done|]. by rewrite Hf.
  - apply Forall_fmap. eapply Forall_impl; [exact Hc|]. intros c Hck. by repeat constructor.
Qed.

End soundness.
