(* ===== verification/Nom.v ===== *)
(** * Parser combinators and numbers: [src/common/parser.rs]

    The external crate [nom] as an interface: its combinators with their
    documented behaviour as equations.  A parser takes the remaining input and
    may panic, because the closures given to the combinators may panic.  The
    text of an input is a [string] of bytes: every test of the sources is on
    ASCII characters, and no byte of a longer UTF-8 sequence is one. *)

From S2P Require Import Prelude.

(** ** Splitting a text *)

(** The longest prefix of characters that satisfy [p], and the rest. *)
Fixpoint str_span (p : ascii -> bool) (s : string) : string * string :=
  match s with
  | EmptyString => ("", "")
  | String c s' =>
      if p c then let '(a, b) := str_span p s' in (String c a, b) else ("", s)
  end.

(** The rest of [s] after the prefix [t]. *)
Fixpoint strip_prefix (t s : string) : option string :=
  match t, s with
  | EmptyString, _ => Some s
  | String c t', String d s' => if Ascii.eqb c d then strip_prefix t' s' else None
  | String _ _, EmptyString => None
  end.

Fixpoint str_of (l : list ascii) : string :=
  match l with
  | [] => ""
  | c :: l' => String c (str_of l')
  end.

(** [Debug for str], on ASCII text. *)
Definition hex_char (d : nat) : ascii := ascii_of_nat (if (d <? 10)%nat then 48 + d else 87 + d)%nat.

Definition debug_char (c : ascii) : string :=
  let n := nat_of_ascii c in
  if (n =? 34)%nat then "\" +:+ String c ""
  else if (n =? 92)%nat then "\\"
  else if (n =? 0)%nat then "\0"
  else if (n =? 9)%nat then "\t"
  else if (n =? 10)%nat then "\n"
  else if (n =? 13)%nat then "\r"
  else if (n <? 16)%nat then "\u{" +:+ String (hex_char n) "}"
  else if (n <? 32)%nat || (n =? 127)%nat
    then "\u{" +:+ String (hex_char (n / 16)) (String (hex_char (n mod 16)) "}")
  else String c "".

Fixpoint debug_chars (s : string) : string :=
  match s with
  | EmptyString => ""
  | String c s' => debug_char c +:+ debug_chars s'
  end.

Definition debug_str (s : string) : string :=
  let q := String (ascii_of_nat 34) "" in q +:+ debug_chars s +:+ q.

(** ** Errors *)

(** [enum ParserError]; [K] is the error kind of [nom]. *)
Inductive ParserError (K : Type) :=
| Custom (message : string)
| NomErr (input : string) (kind : K).

Arguments Custom {K} message.
Arguments NomErr {K} input kind.

(** [nom::Err], by the variants that [format_parse_error] tells apart. *)
Inductive nom_Err (K : Type) :=
| Error (e : ParserError K)
| Failure (e : ParserError K)
| Incomplete (shown : string).

Arguments Error {K} e.
Arguments Failure {K} e.
Arguments Incomplete {K} shown.

(** [Debug for ParserError] *)
Definition debug_error {K} (show_kind : K -> string) (e : ParserError K) : string :=
  match e with
  | Custom error => "Semantic error at " +:+ error
  | NomErr input error =>
      "Parser error at '" +:+ debug_str input +:+ "': expecting " +:+ show_kind error
  end.

(** [ParseError::from_error_kind] *)
Definition from_error_kind {K} (input : string) (kind : K) : ParserError K := NomErr input kind.

(** [ParseError::append] *)
Definition append_error {K} (_ : string) (_ : K) (other : ParserError K) : ParserError K := other.

(** [FromExternalError::from_external_error]; the error is its text. *)
Definition from_external_error {K} (input : string) (_ : K) (error : string) : ParserError K :=
  Custom ("'" +:+ input +:+ "': " +:+ error).

(** [format_parse_error] *)
Definition format_parse_error {K} (show_kind : K -> string) (error : nom_Err K) : string :=
  match error with
  | Error e | Failure e => debug_error show_kind e
  | Incomplete shown => shown
  end.

(** ** The crate [nom] *)

(** [NomResult]: the rest of the input and a value, or an error. *)
Definition NomResult (K A : Type) : Type := result (nom_Err K) (string * A).

Definition parser (K A : Type) : Type := string -> outcome (NomResult K A).

(** Continue after a parser that succeeds. *)
Definition and_then {K A B} (m : outcome (NomResult K A))
    (f : string -> A -> outcome (NomResult K B)) : outcome (NomResult K B) :=
  r ← m;
  match r with
  | Ok (rest, a) => f rest a
  | Err e => Ret (Err e)
  end.

(** A successful run shortens the input. *)
Definition consuming {K A} (p : parser K A) : Prop :=
  forall s rest a, p s = Ret (Ok (rest, a)) -> (String.length rest < String.length s)%nat.

Definition is_space (c : ascii) : bool := (nat_of_ascii c =? 32)%nat || (nat_of_ascii c =? 9)%nat.

Definition is_multispace (c : ascii) : bool :=
  is_space c || (nat_of_ascii c =? 10)%nat || (nat_of_ascii c =? 13)%nat.

(** The combinators the sources use, with their documented behaviour.  The
    repetitions stop at the first recoverable error; their protection against
    parsers that consume nothing is left open. *)
Class Nom := {
  ErrorKind : Type;
  show_kind : ErrorKind -> string;
  KSatisfy : ErrorKind;
  KTag : ErrorKind;
  KEof : ErrorKind;
  KMapRes : ErrorKind;
  KAlt : ErrorKind;
  KMultiSpace : ErrorKind;
  KChar : ErrorKind;
  satisfy : (ascii -> bool) -> parser ErrorKind ascii;
  satisfy_eq : forall p s, satisfy p s = Ret (
    match s with
    | String c s' =>
        if p c then Ok (s', c) else Err (Error (from_error_kind s KSatisfy))
    | EmptyString => Err (Error (from_error_kind s KSatisfy))
    end);
  tag : string -> parser ErrorKind string;
  tag_eq : forall t s, tag t s = Ret (
    match strip_prefix t s with
    | Some rest => Ok (rest, t)
    | None => Err (Error (from_error_kind s KTag))
    end);
  space0 : parser ErrorKind string;
  space0_eq : forall s, space0 s =
    Ret (let '(a, rest) := str_span is_space s in Ok (rest, a));
  multispace1 : parser ErrorKind string;
  multispace1_eq : forall s, multispace1 s = Ret (
    let '(a, rest) := str_span is_multispace s in
    match a with
    | EmptyString => Err (Error (from_error_kind s KMultiSpace))
    | _ => Ok (rest, a)
    end);
  newline : parser ErrorKind ascii;
  newline_eq : forall s, newline s = Ret (
    match s with
    | String c s' =>
        if (nat_of_ascii c =? 10)%nat then Ok (s', c)
        else Err (Error (from_error_kind s KChar))
    | EmptyString => Err (Error (from_error_kind s KChar))
    end);
  opt : forall {A}, parser ErrorKind A -> parser ErrorKind (option A);
  opt_eq : forall {A} (p : parser ErrorKind A) s, opt p s =
    (r ← p s;
     Ret match r with
     | Ok (rest, a) => Ok (rest, Some a)
     | Err (Error _) => Ok (s, None)
     | Err e => Err e
     end);
  tuple2 : forall {A B}, parser ErrorKind A -> parser ErrorKind B -> parser ErrorKind (A * B);
  tuple2_eq : forall {A B} (p : parser ErrorKind A) (q : parser ErrorKind B) s, tuple2 p q s =
    and_then (p s) (fun s1 a => and_then (q s1) (fun s2 b => Ret (Ok (s2, (a, b)))));
  tuple3 : forall {A B C}, parser ErrorKind A -> parser ErrorKind B -> parser ErrorKind C ->
    parser ErrorKind (A * B * C);
  tuple3_eq : forall {A B C} (p : parser ErrorKind A) (q : parser ErrorKind B)
      (r : parser ErrorKind C) s, tuple3 p q r s =
    and_then (p s) (fun s1 a => and_then (q s1) (fun s2 b =>
      and_then (r s2) (fun s3 c => Ret (Ok (s3, (a, b, c))))));
  preceded : forall {A B}, parser ErrorKind A -> parser ErrorKind B -> parser ErrorKind B;
  preceded_eq : forall {A B} (p : parser ErrorKind A) (q : parser ErrorKind B) s, preceded p q s =
    and_then (p s) (fun s1 _ => q s1);
  terminated : forall {A B}, parser ErrorKind A -> parser ErrorKind B -> parser ErrorKind A;
  terminated_eq : forall {A B} (p : parser ErrorKind A) (q : parser ErrorKind B) s,
    terminated p q s =
    and_then (p s) (fun s1 a => and_then (q s1) (fun s2 _ => Ret (Ok (s2, a))));
  pmap : forall {A B}, parser ErrorKind A -> (A -> outcome B) -> parser ErrorKind B;
  pmap_eq : forall {A B} (p : parser ErrorKind A) (f : A -> outcome B) s, pmap p f s =
    and_then (p s) (fun rest a => b ← f a; Ret (Ok (rest, b)));
  map_res : forall {A B}, parser ErrorKind A -> (A -> outcome (result string B)) ->
    parser ErrorKind B;
  map_res_eq : forall {A B} (p : parser ErrorKind A) (f : A -> outcome (result string B)) s,
    map_res p f s =
    and_then (p s) (fun rest a =>
      x ← f a;
      Ret match x with
      | Ok b => Ok (rest, b)
      | Err e => Err (Error (from_external_error s KMapRes e))
      end);
  alt : forall {A}, list (parser ErrorKind A) -> parser ErrorKind A;
  alt_one : forall {A} (p : parser ErrorKind A) s, alt [p] s = p s;
  alt_cons : forall {A} (p q : parser ErrorKind A) ps s, alt (p :: q :: ps) s =
    (r ← p s;
     match r with
     | Err (Error _) =>
         r' ← alt (q :: ps) s;
         Ret match r' with
         | Err (Error e) => Err (Error (append_error s KAlt e))
         | _ => r'
         end
     | _ => Ret r
     end);
  all_consuming : forall {A}, parser ErrorKind A -> parser ErrorKind A;
  all_consuming_eq : forall {A} (p : parser ErrorKind A) s, all_consuming p s =
    and_then (p s) (fun rest a =>
      Ret match rest with
      | EmptyString => Ok (rest, a)
      | _ => Err (Error (from_error_kind rest KEof))
      end);
  many0 : forall {A}, parser ErrorKind A -> parser ErrorKind (list A);
  many0_eq : forall {A} (p : parser ErrorKind A) s, consuming p -> many0 p s =
    (r ← p s;
     match r with
     | Err (Error _) => Ret (Ok (s, []))
     | Err e => Ret (Err e)
     | Ok (s1, a) => and_then (many0 p s1) (fun s2 l => Ret (Ok (s2, a :: l)))
     end);
  separated_list1 : forall {A B}, parser ErrorKind A -> parser ErrorKind B ->
    parser ErrorKind (list B);
  separated_list1_eq : forall {A B} (sep : parser ErrorKind A) (p : parser ErrorKind B) s,
    consuming sep -> consuming p -> separated_list1 sep p s =
    and_then (p s) (fun s1 b =>
      r ← sep s1;
      match r with
      | Err (Error _) => Ret (Ok (s1, [b]))
      | Err e => Ret (Err e)
      | Ok (s2, _) =>
          r' ← separated_list1 sep p s2;
          Ret match r' with
          | Ok (s3, l) => Ok (s3, b :: l)
          | Err (Error _) => Ok (s1, [b])
          | Err e => Err e
          end
      end)
}.

(** ** Numbers *)

(** [str::parse::<u32>] on a text of digits. *)
Definition parse_u32 (s : string) : result string Z :=
  let v := dec_value 0 s in
  if v <? 2 ^ 32 then Ok v else Err "number too large to fit in target type".

Definition is_digit_or_underscore (c : ascii) : bool :=
  is_dec_digit c || (nat_of_ascii c =? 95)%nat.

(** [p_u32] *)
Definition p_u32 `{Nom} : parser ErrorKind Z :=
  map_res
    (tuple2 (satisfy is_dec_digit) (many0 (satisfy is_digit_or_underscore)))
    (fun '(first, rest) => Ret (parse_u32 (String first (str_of (List.filter is_dec_digit rest))))).

(** ** What a parser accepts *)

(** [p] reads [a] from [s] and leaves [rest]. *)
Definition parses {K A} (p : parser K A) (s rest : string) (a : A) : Prop :=
  p s = Ret (Ok (rest, a)).

(** [p] fails on [s] with an error that an alternative can recover from. *)
Definition rejects {K A} (p : parser K A) (s : string) : Prop :=
  exists e, p s = Ret (Err (Error e)).

(** The first character of [s], if any, does not satisfy [p]. *)
Definition stops (p : ascii -> bool) (s : string) : Prop :=
  match s with
  | String c _ => p c = false
  | EmptyString => True
  end.

(** Every text that [p] reads is related to the value by [R]. *)
Definition sound {K A} (p : parser K A) (R : string -> A -> Prop) : Prop :=
  forall s rest a, parses p s rest a -> exists t, s = t +:+ rest /\ R t a.

(** [p] reads every text of [R] that is followed by a text of [F]. *)
Definition complete {K A} (p : parser K A) (R : string -> A -> Prop) (F : string -> Prop) : Prop :=
  forall t a rest, R t a -> F rest -> parses p (t +:+ rest) rest a.

(** The decimal digits of a text. *)
Fixpoint str_filter (p : ascii -> bool) (s : string) : string :=
  match s with
  | EmptyString => ""
  | String c s' => if p c then String c (str_filter p s') else str_filter p s'
  end.

(** A number on the command line: a digit, then digits and underscores. *)
Inductive number_text : string -> Z -> Prop :=
| number_text_intro c s v :
    is_dec_digit c = true -> str_all is_digit_or_underscore s = true ->
    v = dec_value 0 (String c (str_filter is_dec_digit s)) -> v < 2 ^ 32 ->
    number_text (String c s) v.

(** Elements separated by texts of [S]. *)
Inductive list_text {B} (S : string -> Prop) (R : string -> B -> Prop) :
    string -> list B -> Prop :=
| list_text_one t b : R t b -> list_text S R t [b]
| list_text_cons t u t' b l :
    R t b -> S u -> list_text S R t' l -> list_text S R (t +:+ u +:+ t') (b :: l).

(** ** Lemmas: texts *)

#[local] Arguments String.append !_ _ /.

Lemma app_str_assoc (a b c : string) : (a +:+ b) +:+ c = a +:+ b +:+ c.
Proof. induction a as [|x a IH]; simpl; [done|]. f_equal. apply IH. Qed.

Lemma app_str_nil (a : string) : a +:+ "" = a.
Proof. induction a as [|x a IH]; simpl; [done|]. f_equal. apply IH. Qed.

Lemma length_app_str (a b : string) :
  String.length (a +:+ b) = (String.length a + String.length b)%nat.
Proof. induction a as [|x a IH]; simpl; [done|]. f_equal. apply IH. Qed.

Lemma app_str_inj (a b c : string) : a +:+ b = a +:+ c -> b = c.
Proof. induction a as [|x a IH]; simpl; [done|]. intros [=]. by apply IH. Qed.

(** Two prefixes of a text are prefixes of one another. *)
Lemma app_str_compare (a b c d : string) :
  a +:+ b = c +:+ d -> (exists u, c = a +:+ u) \/ (exists u, a = c +:+ u).
Proof.
  revert c. induction a as [|x a IH]; intros [|y c] Heq; simpl in *; [eauto..|].
  injection Heq as <- Heq. destruct (IH _ Heq) as [[u ->]|[u ->]]; eauto.
Qed.

Lemma str_span_spec p s :
  s = (str_span p s).1 +:+ (str_span p s).2 /\ str_all p (str_span p s).1 = true
  /\ stops p (str_span p s).2.
Proof.
  induction s as [|c s IH]; simpl; [done|].
  destruct (p c) eqn:Hc; simpl; [|done].
  destruct (str_span p s) as [a b]. simpl in *. destruct IH as (-> & Ha & Hb).
  by rewrite Hc, Ha.
Qed.

Lemma str_span_app p t rest :
  str_all p t = true -> stops p rest -> str_span p (t +:+ rest) = (t, rest).
Proof.
  intros Ht Hr. induction t as [|c t IH]; simpl in *.
  - destruct rest as [|c rest]; simpl in *; [done|]. by rewrite Hr.
  - apply andb_true_iff in Ht as [-> Ht]. by rewrite IH.
Qed.

Lemma strip_prefix_Some t s rest : strip_prefix t s = Some rest <-> s = t +:+ rest.
Proof.
  revert s. induction t as [|c t IH]; intros [|d s]; simpl; try naive_solver.
  destruct (Ascii.eqb_spec c d) as [->|Hn].
  - rewrite IH. naive_solver.
  - split; [done|]. intros [=]. done.
Qed.

Lemma str_all_impl (p q : ascii -> bool) s :
  (forall c, p c = true -> q c = true) -> str_all p s = true -> str_all q s = true.
Proof.
  intros Hpq. induction s as [|c s IH]; simpl; [done|].
  rewrite !andb_true_iff. naive_solver.
Qed.

Lemma str_filter_all p s : str_all p s = true -> str_filter p s = s.
Proof.
  induction s as [|c s IH]; simpl; [done|]. rewrite andb_true_iff. intros [-> ?]. by rewrite IH.
Qed.

Lemma str_all_filter p s : str_all p (str_filter p s) = true.
Proof. induction s as [|c s IH]; simpl; [done|]. destruct (p c) eqn:Hc; simpl; by rewrite ?Hc. Qed.

Lemma dec_value_nonneg acc s : str_all is_dec_digit s = true -> 0 <= acc -> 0 <= dec_value acc s.
Proof.
  revert acc. induction s as [|c s IH]; intros acc Hs Hacc; simpl in *; [done|].
  apply andb_true_iff in Hs as [Hc Hs]. apply IH; [done|].
  unfold is_dec_digit, digit_val in *. rewrite andb_true_iff, Nat.leb_le in Hc. lia.
Qed.

(** ** Lemmas: combinators *)

Section combinators.
Context `{Nom}.

Lemma and_then_inv {K A B} (m : outcome (NomResult K A)) (f : string -> A -> outcome (NomResult K B)) x :
  and_then m f = Ret (Ok x) -> exists rest a, m = Ret (Ok (rest, a)) /\ f rest a = Ret (Ok x).
Proof. unfold and_then. intros. ret_inv. destruct x0 as [[rest a]|e]; naive_solver. Qed.

Lemma and_then_ok {K A B} (m : outcome (NomResult K A)) (f : string -> A -> outcome (NomResult K B)) rest a :
  m = Ret (Ok (rest, a)) -> and_then m f = f rest a.
Proof. by intros ->. Qed.

Lemma parses_tag t rest : parses (tag t) (t +:+ rest) rest t.
Proof. unfold parses. rewrite tag_eq. by rewrite (proj2 (strip_prefix_Some t _ rest) eq_refl). Qed.

Lemma tag_sound t : sound (tag t) (fun s a => s = t /\ a = t).
Proof.
  intros s rest a Hp. unfold parses in Hp. rewrite tag_eq in Hp.
  destruct (strip_prefix t s) as [r|] eqn:Hs; simplify_eq.
  apply strip_prefix_Some in Hs as ->. eauto.
Qed.

Lemma tag_rejects t s : strip_prefix t s = None -> rejects (tag t) s.
Proof. intros Hs. unfold rejects. rewrite tag_eq, Hs. eauto. Qed.

Lemma tag_consuming t : t <> "" -> consuming (tag t).
Proof.
  intros Ht s rest a (u & -> & -> & ->)%tag_sound. rewrite length_app_str.
  destruct t; simpl; [done|lia].
Qed.

Lemma satisfy_consuming p : consuming (satisfy p).
Proof.
  intros s rest a. rewrite satisfy_eq. destruct s as [|c s]; [done|].
  destruct (p c); intros; simplify_eq. simpl. lia.
Qed.

Lemma many0_satisfy p s :
  many0 (satisfy p) s =
  Ret (Ok ((str_span p s).2, String.list_ascii_of_string (str_span p s).1)).
Proof.
  induction s as [|c s IH]; rewrite many0_eq by apply satisfy_consuming;
    rewrite satisfy_eq; simpl; [done|].
  destruct (p c); simpl; [|done]. rewrite IH. simpl. by destruct (str_span p s).
Qed.

Lemma str_of_filter p s :
  str_of (List.filter p (String.list_ascii_of_string s)) = str_filter p s.
Proof. induction s as [|c s IH]; simpl; [done|]. destruct (p c); simpl; by rewrite IH. Qed.

(** [p_u32] as a function of the text. *)
Lemma p_u32_run s :
  p_u32 s = Ret (
    match s with
    | String c s' =>
        if is_dec_digit c then
          match parse_u32 (String c (str_filter is_dec_digit
                                       (str_span is_digit_or_underscore s').1)) with
          | Ok v => Ok ((str_span is_digit_or_underscore s').2, v)
          | Err e => Err (Error (from_external_error s KMapRes e))
          end
        else Err (Error (from_error_kind s KSatisfy))
    | EmptyString => Err (Error (from_error_kind s KSatisfy))
    end).
Proof.
  unfold p_u32. rewrite map_res_eq, tuple2_eq, satisfy_eq. destruct s as [|c s]; [done|].
  destruct (is_dec_digit c); [|done]. cbn [and_then mbind outcome_bind].
  rewrite many0_satisfy. cbn [and_then mbind outcome_bind]. by rewrite str_of_filter.
Qed.

Lemma p_u32_sound s rest v :
  parses p_u32 s rest v ->
  exists t, s = t +:+ rest /\ number_text t v /\ stops is_digit_or_underscore rest.
Proof.
  unfold parses. rewrite p_u32_run. destruct s as [|c s]; [done|].
  destruct (is_dec_digit c) eqn:Hc; [|done]. unfold parse_u32.
  destruct (Z.ltb_spec (dec_value 0 (String c (str_filter is_dec_digit
    (str_span is_digit_or_underscore s).1))) (2 ^ 32)) as [Hv|]; [|done].
  intros [= <- <-]. destruct (str_span_spec is_digit_or_underscore s) as (Hs & Ha & Hr).
  exists (String c (str_span is_digit_or_underscore s).1). split_and!; [|by econstructor|done].
  simpl. by rewrite <- Hs.
Qed.

Lemma p_u32_complete : complete p_u32 number_text (stops is_digit_or_underscore).
Proof.
  intros t v rest Ht Hr. inversion Ht as [c s ? Hc Hs Hv Hlt]; subst. unfold parses.
  rewrite p_u32_run. simpl. rewrite Hc, str_span_app by done. unfold parse_u32. simpl.
  destruct (Z.ltb_spec (dec_value (0 * 10 + digit_val c) (str_filter is_dec_digit s)) (2 ^ 32));
    [done|]. simpl in Hlt. lia.
Qed.

Lemma p_u32_consuming : consuming p_u32.
Proof.
  intros s rest v (t & -> & Ht & _)%p_u32_sound. rewrite length_app_str.
  inversion Ht; subst. simpl. lia.
Qed.

Lemma to_string_number_text n : is_u32 n -> number_text (to_string n) n.
Proof.
  intros Hn. assert (Hd := to_string_digits n).
  assert (Hv : dec_value 0 (to_string n) = n).
  { apply dec_value_to_string. unfold is_u32, is_u64 in *. lia. }
  unfold to_string in *. destruct (show_aux_nonempty 20 n "") as (c & s & Heq).
  rewrite Heq in *. simpl in Hd. apply andb_true_iff in Hd as [Hc Hs]. constructor; [done| | |].
  - eapply str_all_impl; [|done]. unfold is_digit_or_underscore. by intros ? ->.
  - by rewrite str_filter_all.
  - apply Hn.
Qed.

Lemma number_text_u32 t n : number_text t n -> is_u32 n.
Proof.
  intros [c s v Hc Hs Hv Hlt]. split; [|done]. rewrite Hv. apply dec_value_nonneg; [|done].
  simpl. by rewrite Hc, str_all_filter.
Qed.

(** ** Lemmas: separated lists *)

Section separated.
Context {A B : Type} (sep : parser ErrorKind A) (p : parser ErrorKind B).
Context (sep_consuming : consuming sep) (p_consuming : consuming p).

Lemma separated_list1_sound (S : string -> Prop) (R : string -> B -> Prop) :
  sound sep (fun t _ => S t) -> sound p R -> sound (separated_list1 sep p) (list_text S R).
Proof.
  intros Hsep Hp s. induction s as [s IH] using (well_founded_induction
    (Wf_nat.well_founded_ltof _ String.length)). unfold Wf_nat.ltof in IH.
  intros rest l Hrun. unfold parses in Hrun. rewrite separated_list1_eq in Hrun by done.
  apply and_then_inv in Hrun as (s1 & b & Hb & Hrun).
  pose proof (p_consuming _ _ _ Hb). apply Hp in Hb as (t & -> & Ht).
  destruct (sep s1) as [[[s2 a]|[e|e|e]]|] eqn:Ha; simpl in Hrun; simplify_eq.
  2: { exists t. split; [done|]. by constructor. }
  pose proof (sep_consuming _ _ _ Ha). apply Hsep in Ha as (u & -> & Hu).
  destruct (separated_list1 sep p s2) as [[[s3 l']|[e|e|e]]|] eqn:Hl; simpl in Hrun; simplify_eq.
  - apply IH in Hl as (t' & -> & Hl'); [|lia]. exists (t +:+ u +:+ t'). split.
    + by rewrite !app_str_assoc.
    + by constructor.
  - exists t. split; [done|]. by constructor.
Qed.

Lemma separated_list1_complete (S : string -> Prop) (R : string -> B -> Prop)
    (Fp F : string -> Prop) :
  complete p R Fp ->
  (forall u t b rest, S u -> R t b -> exists a, parses sep (u +:+ t +:+ rest) (t +:+ rest) a) ->
  (forall u rest, S u -> Fp (u +:+ rest)) ->
  (forall rest, F rest -> Fp rest /\ rejects sep rest) ->
  complete (separated_list1 sep p) (list_text S R) F.
Proof.
  intros Hp Hsep Hu HF t l rest Hl Hrest. unfold parses.
  induction Hl as [t b Hb|t u t' b l Hb HSu Hl IH];
    rewrite separated_list1_eq by done.
  - destruct (HF _ Hrest) as [Hfp [e He]].
    erewrite and_then_ok by (apply Hp; [exact Hb|exact Hfp]). by rewrite He.
  - rewrite !app_str_assoc. erewrite and_then_ok by (apply Hp; [exact Hb|apply Hu, HSu]).
    assert (exists a, parses sep (u +:+ t' +:+ rest) (t' +:+ rest) a) as [a ->].
    { inversion Hl as [? b' ?|t1 u1 t1' b' l' ? ? ?]; subst.
      - by eapply Hsep.
      - rewrite !app_str_assoc. by eapply Hsep. }
    simpl. by rewrite IH.
Qed.

End separated.

(** The text of a list whose elements are joined by a fixed separator. *)
Lemma list_text_concat {B} (S : string -> Prop) (R : string -> B -> Prop) u f (l : list B) :
  l <> [] -> S u -> Forall (fun b => R (f b) b) l ->
  list_text S R (String.concat u (f <$> l)) l.
Proof.
  intros Hl HS. induction l as [|b [|b' l] IH]; intros HR; [done| |].
  - apply Forall_cons in HR as [? _]. by constructor.
  - apply Forall_cons in HR as [Hb HR]. apply (list_text_cons S R _ u); [done..|].
    by apply IH.
Qed.

Lemma all_consuming_parses {A} (p : parser ErrorKind A) s a rest :
  parses (all_consuming p) s rest a <-> rest = "" /\ parses p s "" a.
Proof.
  unfold parses. rewrite all_consuming_eq. unfold and_then.
  destruct (p s) as [[[[|c r] b]|e]|]; simpl; naive_solver.
Qed.

Lemma opt_parses {A} (p : parser ErrorKind A) s rest o :
  parses (opt p) s rest o ->
  match o with
  | Some a => parses p s rest a
  | None => rest = s /\ rejects p s
  end.
Proof.
  unfold parses, rejects. rewrite opt_eq. intros. ret_inv.
  destruct x as [[r a]|[e|e|e]]; simplify_eq; [done|eauto].
Qed.

Lemma opt_some {A} (p : parser ErrorKind A) s rest a :
  parses p s rest a -> parses (opt p) s rest (Some a).
Proof. unfold parses. rewrite opt_eq. by intros ->. Qed.

Lemma opt_none {A} (p : parser ErrorKind A) s : rejects p s -> parses (opt p) s s None.
Proof. unfold parses. rewrite opt_eq. by intros [e ->]. Qed.

Lemma preceded_rejects {A B} (p : parser ErrorKind A) (q : parser ErrorKind B) s :
  rejects p s -> rejects (preceded p q) s.
Proof. intros [e He]. exists e. rewrite preceded_eq. unfold and_then. by rewrite He. Qed.

End combinators.
