(* ===== verification/NomImpl.v ===== *)
(** * A reference implementation of the combinators

    The interface [Nom] has an implementation: the combinators as recursive
    functions, with the length of the input as fuel for the repetitions.  It
    evaluates, so the parsers of the development run on concrete texts. *)

From S2P Require Import Prelude Nom.

(** The errors of the combinators in use. *)
Inductive Kind := KindSatisfy | KindTag | KindEof | KindMapRes | KindAlt | KindMultiSpace | KindChar.

Definition kind_name (k : Kind) : string :=
  match k with
  | KindSatisfy => "Satisfy"
  | KindTag => "Tag"
  | KindEof => "Eof"
  | KindMapRes => "MapRes"
  | KindAlt => "Alt"
  | KindMultiSpace => "MultiSpace"
  | KindChar => "Char"
  end.

Abbreviation P := (parser Kind).

Fixpoint many0_fuel {A} (n : nat) (p : P A) (s : string) : outcome (NomResult Kind (list A)) :=
  match n with
  | O => Ret (Ok (s, []))
  | S n =>
      r ← p s;
      match r with
      | Err (Error _) => Ret (Ok (s, []))
      | Err e => Ret (Err e)
      | Ok (s1, a) => and_then (many0_fuel n p s1) (fun s2 l => Ret (Ok (s2, a :: l)))
      end
  end.

Fixpoint separated_fuel {A B} (n : nat) (sep : P A) (p : P B) (s : string) :
    outcome (NomResult Kind (list B)) :=
  match n with
  | O => Ret (Err (Error (from_error_kind s KindEof)))
  | S n =>
      and_then (p s) (fun s1 b =>
        r ← sep s1;
        match r with
        | Err (Error _) => Ret (Ok (s1, [b]))
        | Err e => Ret (Err e)
        | Ok (s2, _) =>
            r' ← separated_fuel n sep p s2;
            Ret match r' with
            | Ok (s3, l) => Ok (s3, b :: l)
            | Err (Error _) => Ok (s1, [b])
            | Err e => Err e
            end
        end)
  end.

Fixpoint alt_list {A} (ps : list (P A)) (s : string) : outcome (NomResult Kind A) :=
  match ps with
  | [] => Ret (Err (Error (from_error_kind s KindAlt)))
  | [p] => p s
  | p :: ps =>
      r ← p s;
      match r with
      | Err (Error _) =>
          r' ← alt_list ps s;
          Ret match r' with
          | Err (Error e) => Err (Error (append_error s KindAlt e))
          | _ => r'
          end
      | _ => Ret r
      end
  end.

Lemma many0_fuel_enough {A} (p : P A) n m s :
  consuming p -> (String.length s < n)%nat -> (String.length s < m)%nat ->
  many0_fuel n p s = many0_fuel m p s.
Proof.
  intros Hp. revert m s. induction n as [|n IH]; intros [|m] s Hn Hm; [lia..|]. simpl.
  destruct (p s) as [[[s1 a]|e]|] eqn:Hs; simpl; [|done..].
  apply Hp in Hs. by rewrite (IH m s1) by lia.
Qed.

Lemma separated_fuel_enough {A B} (sep : P A) (p : P B) n m s :
  consuming sep -> consuming p -> (String.length s < n)%nat -> (String.length s < m)%nat ->
  separated_fuel n sep p s = separated_fuel m sep p s.
Proof.
  intros Hsep Hp. revert m s. induction n as [|n IH]; intros [|m] s Hn Hm; [lia..|].
  cbn [separated_fuel]. unfold and_then.
  destruct (p s) as [[[s1 b]|e]|] eqn:Hs; simpl; [|done..].
  apply Hp in Hs. destruct (sep s1) as [[[s2 a]|e]|] eqn:Hs1; simpl; [|done..].
  apply Hsep in Hs1. by rewrite (IH m s2) by lia.
Qed.

#[refine] Definition nom_impl : Nom := {|
  ErrorKind := Kind;
  show_kind := kind_name;
  KSatisfy := KindSatisfy; KTag := KindTag; KEof := KindEof; KMapRes := KindMapRes;
  KAlt := KindAlt; KMultiSpace := KindMultiSpace; KChar := KindChar;
  satisfy p s := Ret (
    match s with
    | String c s' => if p c then Ok (s', c) else Err (Error (from_error_kind s KindSatisfy))
    | EmptyString => Err (Error (from_error_kind s KindSatisfy))
    end);
  tag t s := Ret (
    match strip_prefix t s with
    | Some rest => Ok (rest, t)
    | None => Err (Error (from_error_kind s KindTag))
    end);
  space0 s := Ret (let '(a, rest) := str_span is_space s in Ok (rest, a));
  multispace1 s := Ret (
    let '(a, rest) := str_span is_multispace s in
    match a with
    | EmptyString => Err (Error (from_error_kind s KindMultiSpace))
    | _ => Ok (rest, a)
    end);
  newline s := Ret (
    match s with
    | String c s' =>
        if (nat_of_ascii c =? 10)%nat then Ok (s', c)
        else Err (Error (from_error_kind s KindChar))
    | EmptyString => Err (Error (from_error_kind s KindChar))
    end);
  opt A p s :=
    r ← p s;
    Ret match r with
    | Ok (rest, a) => Ok (rest, Some a)
    | Err (Error _) => Ok (s, None)
    | Err e => Err e
    end;
  tuple2 A B p q s := and_then (p s) (fun s1 a => and_then (q s1) (fun s2 b => Ret (Ok (s2, (a, b)))));
  tuple3 A B C p q r s :=
    and_then (p s) (fun s1 a => and_then (q s1) (fun s2 b =>
      and_then (r s2) (fun s3 c => Ret (Ok (s3, (a, b, c))))));
  preceded A B p q s := and_then (p s) (fun s1 _ => q s1);
  terminated A B p q s := and_then (p s) (fun s1 a => and_then (q s1) (fun s2 _ => Ret (Ok (s2, a))));
  pmap A B p f s := and_then (p s) (fun rest a => b ← f a; Ret (Ok (rest, b)));
  map_res A B p f s :=
    and_then (p s) (fun rest a =>
      x ← f a;
      Ret match x with
      | Ok b => Ok (rest, b)
      | Err e => Err (Error (from_external_error s KindMapRes e))
      end);
  alt A ps := alt_list ps;
  all_consuming A p s :=
    and_then (p s) (fun rest a =>
      Ret match rest with
      | EmptyString => Ok (rest, a)
      | _ => Err (Error (from_error_kind rest KindEof))
      end);
  many0 A p s := many0_fuel (S (String.length s)) p s;
  separated_list1 A B sep p s := separated_fuel (S (String.length s)) sep p s
|}.
Proof.
  all: try reflexivity.
  - intros A p s Hp. cbn [many0_fuel]. destruct (p s) as [[[s1 a]|e]|] eqn:Hs; simpl; [|done..].
    apply Hp in Hs. by rewrite (many0_fuel_enough p (String.length s) (S (String.length s1))) by (done || lia).
  - intros A B sep p s Hsep Hp. cbn [separated_fuel]. unfold and_then.
    destruct (p s) as [[[s1 b]|e]|] eqn:Hs; simpl; [|done..]. apply Hp in Hs.
    destruct (sep s1) as [[[s2 a]|e]|] eqn:Hs1; simpl; [|done..]. apply Hsep in Hs1.
    by rewrite (separated_fuel_enough sep p (String.length s) (S (String.length s2))) by (done || lia).
Defined.

(** Texts of the tests of [arrayparser.rs], [resources.rs] and [status.rs]. *)
#[local] Existing Instance nom_impl.

Example p_u32_underscores : p_u32 "1___0__0_0" = Ret (Ok ("", 1000)).
Proof. vm_compute. reflexivity. Qed.
