(* ===== verification/ArrayDef.v ===== *)
(** * Integer arrays: [src/common/arraydef.rs]

    The data type of task-id and job-id selections: ranges with a step,
    their iteration, [from_ids], the task count and the [Display] instance. *)

From S2P Require Import Prelude.

(** ** Data and operations *)

(** [struct IntRange] *)
Record IntRange := {
  start : Z;
  count : Z;
  step : Z
}.

#[global] Instance IntRange_eq_dec : EqDecision IntRange.
Proof. solve_decision. Defined.

(** [IntRange::new] *)
Definition IntRange_new (start count step : Z) : IntRange :=
  {| start := start; count := count; step := step |}.

(** [(lo..hi).step_by(step)] for a positive step. *)
Definition range_step_by (lo hi step : Z) : list Z :=
  (fun i => lo + step * i) <$> seqZ 0 ((hi - lo + step - 1) / step).

(** [IntRange::iter], run to its end.  [step_by] panics on a zero step. *)
Definition IntRange_iter `{Profile} (r : IntRange) : outcome (list Z) :=
  hi ← u32_add (start r) (count r);
  _ ← assert (negb (step r =? 0));
  Ret (range_step_by (start r) hi (step r)).

(** [struct IntArray] *)
Record IntArray := { ranges : list IntRange }.

(** [IntArray::new] *)
Definition IntArray_new (rs : list IntRange) : IntArray := {| ranges := rs |}.

(** [Iterator::position] with a closure that may panic. *)
Fixpoint position {A} (p : A -> outcome bool) (l : list A) : outcome (option nat) :=
  match l with
  | [] => Ret None
  | x :: l' =>
      b ← p x;
      if (b : bool) then Ret (Some O)
      else i ← position p l'; Ret (option_map S i)
  end.

(** One iteration of the loop of [IntArray::from_ids]. *)
Definition from_ids_step `{Profile} (ranges : list IntRange) (id : Z) : outcome (list IntRange) :=
  pos ← position (fun x => e ← u32_add (start x) (count x); Ret (id =? e)) ranges;
  match pos with
  | Some pos =>
      match ranges !! pos with
      | Some r =>
          c ← u32_add (count r) 1;
          Ret (<[pos := {| start := start r; count := c; step := step r |}]> ranges)
      | None => Panic IndexOutOfRange
      end
  | None => Ret (ranges ++ [IntRange_new id 1 1])
  end.

(** [IntArray::from_ids] *)
Definition from_ids `{Profile} (ids : list Z) : outcome IntArray :=
  rs ← foldM from_ids_step [] ids;
  Ret {| ranges := rs |}.

(** [IntArray::from_range] *)
Definition from_range (start count : Z) : IntArray :=
  {| ranges := [{| start := start; count := count; step := 1 |}] |}.

(** [IntArray::id_count] *)
Definition id_count `{Profile} (a : IntArray) : outcome Z := u32_sum (count <$> ranges a).

(** [IntArray::iter], run to its end *)
Definition IntArray_iter `{Profile} (a : IntArray) : outcome (list Z) :=
  ls ← mapM IntRange_iter (ranges a);
  Ret (concat ls).

(** One iteration of the loop of [Display::fmt]: the text pushed for a range. *)
Definition fmt_range `{Profile} (x : IntRange) : outcome string :=
  if count x =? 1 then Ret (to_string (start x) +:+ ", ")
  else
    s ← u32_add (start x) (count x);
    e ← u32_sub s 1;
    if step x =? 1 then Ret (to_string (start x) +:+ "-" +:+ to_string e +:+ ", ")
    else Ret (to_string (start x) +:+ "-" +:+ to_string e +:+ ":" +:+ to_string (step x) +:+ ", ").

(** [Display for IntArray]; the last two characters are cut off. *)
Definition IntArray_fmt `{Profile} (a : IntArray) : outcome string :=
  str ← foldM (fun acc x => t ← fmt_range x; Ret (acc +:+ t)) "" (ranges a);
  let len := String.length str in
  if (len <? 2)%nat then
    Panic (if overflow_checks then ArithmeticOverflow else IndexOutOfRange)
  else Ret (String.substring 0 (len - 2) str).

(** ** Well-formed arrays *)

(** What the command line, [from_range] and [from_ids] produce short of the
    end of the [u32] range: no id computation overflows. *)
Definition range_wf (r : IntRange) : Prop :=
  0 <= start r /\ 0 <= count r /\ start r + count r < 2 ^ 32 /\ 1 <= step r < 2 ^ 32.

Definition array_wf (a : IntArray) : Prop :=
  Forall range_wf (ranges a) /\ sumZ (count <$> ranges a) < 2 ^ 32.

#[global] Instance range_wf_dec r : Decision (range_wf r).
Proof. unfold range_wf. apply _. Defined.
#[global] Instance array_wf_dec a : Decision (array_wf a).
Proof. unfold array_wf. apply _. Defined.

(** The exact ids of a range and of an array. *)
Definition range_ids (r : IntRange) : list Z :=
  range_step_by (start r) (start r + count r) (step r).

Definition array_ids (a : IntArray) : list Z := concat (range_ids <$> ranges a).

(** ** Iteration *)

Lemma elem_of_range_step_by lo hi st x :
  1 <= st ->
  x ∈ range_step_by lo hi st <-> lo <= x < hi /\ (x - lo) mod st = 0.
Proof.
  intros Hst. unfold range_step_by. rewrite list_elem_of_fmap. split.
  - intros (i & -> & Hi%elem_of_seqZ).
    replace (lo + st * i - lo) with (i * st) by lia. rewrite Z.mod_mul by lia.
    split; [|done]. split; [nia|].
    assert (i <= (hi - lo + st - 1) / st - 1) by lia.
    pose proof (Z.mul_div_le (hi - lo + st - 1) st ltac:(lia)). nia.
  - intros [Hx Hm]. exists ((x - lo) / st).
    pose proof (Z.div_mod (x - lo) st ltac:(lia)).
    split; [lia|]. apply elem_of_seqZ. split; [apply Z.div_pos; lia|].
    apply Z.lt_le_trans with ((x - lo + st) / st).
    + replace (x - lo + st) with (x - lo + 1 * st) by lia. rewrite Z.div_add by lia. lia.
    + apply Z.div_le_mono; lia.
Qed.

Lemma range_step_by_NoDup lo hi st : 1 <= st -> NoDup (range_step_by lo hi st).
Proof.
  intros. apply NoDup_fmap_2_strong; [|apply NoDup_seqZ].
  intros x y _ _ ?. nia.
Qed.

Lemma range_step_by_one lo hi : range_step_by lo hi 1 = seqZ lo (hi - lo).
Proof.
  unfold range_step_by. rewrite Z.div_1_r.
  replace (hi - lo + 1 - 1) with (hi - lo) by lia.
  replace (seqZ lo (hi - lo)) with (seqZ (lo + 0) (hi - lo)) by (f_equal; lia).
  rewrite <- fmap_add_seqZ. apply list_fmap_ext. intros. lia.
Qed.

Lemma length_range_step_by lo hi st :
  Z.of_nat (length (range_step_by lo hi st)) = Z.max 0 ((hi - lo + st - 1) / st).
Proof. unfold range_step_by. rewrite length_fmap, length_seqZ. lia. Qed.

Section iteration.
Context `{Profile}.

Lemma IntRange_iter_wf r : range_wf r -> IntRange_iter r = Ret (range_ids r).
Proof.
  intros (? & ? & ? & ?). unfold IntRange_iter. rewrite u32_add_exact by lia. simpl.
  destruct (Z.eqb_spec (step r) 0); [lia|done].
Qed.

Lemma IntArray_iter_wf a : Forall range_wf (ranges a) -> IntArray_iter a = Ret (array_ids a).
Proof.
  intros Hwf. unfold IntArray_iter. rewrite (mapM_ret _ range_ids).
  - done.
  - intros r Hr. apply IntRange_iter_wf. by eapply Forall_forall in Hwf.
Qed.

End iteration.

(** ** [from_ids] *)

(** The ranges that [from_ids] builds. *)
Definition unit_range (r : IntRange) : Prop :=
  0 <= start r /\ 1 <= count r /\ start r + count r < 2 ^ 32 /\ step r = 1.

(** The ids [from_ids] can add without leaving the [u32] range. *)
Definition small_id (id : Z) : Prop := 0 <= id < 2 ^ 32 - 1.

#[global] Instance small_id_dec id : Decision (small_id id).
Proof. unfold small_id. apply _. Defined.

Lemma unit_range_wf r : unit_range r -> range_wf r.
Proof. unfold unit_range, range_wf. lia. Qed.

Lemma unit_range_ids r : unit_range r -> range_ids r = seqZ (start r) (count r).
Proof.
  intros (_ & _ & _ & Hs). unfold range_ids. rewrite Hs, range_step_by_one. f_equal. lia.
Qed.

Lemma unit_range_extend r :
  unit_range r -> start r + count r < 2 ^ 32 - 1 ->
  let r' := {| start := start r; count := count r + 1; step := step r |} in
  unit_range r' /\ range_ids r' = range_ids r ++ [start r + count r].
Proof.
  intros Hr Hlt r'. assert (Hr' : unit_range r') by (unfold unit_range in *; simpl; lia).
  split; [done|]. rewrite !unit_range_ids by done. simpl. destruct Hr as (? & ? & _).
  rewrite seqZ_app by lia. done.
Qed.

Lemma range_ids_single id : range_ids (IntRange_new id 1 1) = [id].
Proof.
  unfold range_ids. simpl. rewrite range_step_by_one.
  replace (id + 1 - id) with 1 by lia. done.
Qed.

Section from_ids.
Context `{Profile}.

Lemma from_ids_step_spec rs id :
  Forall unit_range rs -> small_id id ->
  (from_ids_step rs id = Ret (rs ++ [IntRange_new id 1 1]))
  \/ exists l1 r l2, rs = l1 ++ r :: l2 /\ start r + count r = id /\
     from_ids_step rs id =
       Ret (l1 ++ {| start := start r; count := count r + 1; step := step r |} :: l2).
Proof.
  intros Hrs Hid. unfold from_ids_step.
  assert (Hpos : position (fun x => e ← u32_add (start x) (count x); Ret (id =? e)) rs = Ret None
    \/ exists l1 r l2, rs = l1 ++ r :: l2 /\ start r + count r = id /\
       position (fun x => e ← u32_add (start x) (count x); Ret (id =? e)) rs
         = Ret (Some (length l1))).
  { induction Hrs as [|r rs (? & ? & ? & ?) Hrs IH]; [by left|]. simpl.
    rewrite u32_add_exact by lia. simpl. destruct (Z.eqb_spec id (start r + count r)) as [->|].
    - right. by exists [], r, rs.
    - destruct IH as [->|(l1 & r1 & l2 & -> & ? & ->)]; [by left|].
      right. by exists (r :: l1), r1, l2. }
  destruct Hpos as [->|(l1 & r & l2 & -> & Hr & ->)]; simpl; [by left|]. right.
  exists l1, r, l2. split_and!; [done..|]. rewrite list_lookup_middle by done.
  apply Forall_app in Hrs as [_ [(? & ? & ? & ?) _]%Forall_cons]. unfold small_id in Hid.
  rewrite u32_add_exact by lia. simpl. f_equal.
  rewrite <- (Nat.add_0_r (length l1)), insert_app_r. done.
Qed.

Lemma from_ids_loop rs ids :
  Forall unit_range rs -> Forall small_id ids ->
  exists rs', foldM from_ids_step rs ids = Ret rs' /\ Forall unit_range rs' /\
    concat (range_ids <$> rs') ≡ₚ concat (range_ids <$> rs) ++ ids.
Proof.
  revert rs. induction ids as [|id ids IH]; intros rs Hrs Hids; simpl.
  - exists rs. by rewrite app_nil_r.
  - apply Forall_cons in Hids as [Hid Hids].
    destruct (from_ids_step_spec rs id Hrs Hid) as [->|(l1 & r & l2 & -> & Hr & ->)]; simpl.
    + assert (Hu : unit_range (IntRange_new id 1 1))
        by (unfold unit_range, small_id in *; simpl; lia).
      destruct (IH (rs ++ [IntRange_new id 1 1])) as (rs' & -> & ? & Hp);
        [apply Forall_app; auto|done|].
      exists rs'. split_and!; [done..|]. rewrite Hp, fmap_app, concat_app. simpl.
      rewrite range_ids_single. solve_Permutation.
    + apply Forall_app in Hrs as [H1 [Hu H2]%Forall_cons].
      destruct (unit_range_extend r Hu) as [Hu' Hids']; [unfold small_id in Hid; lia|].
      destruct (IH (l1 ++ {| start := start r; count := count r + 1; step := step r |} :: l2))
        as (rs' & -> & ? & Hp); [by apply Forall_app; auto|done|].
      exists rs'. split_and!; [done..|]. rewrite Hp, !fmap_app, !concat_app. simpl.
      rewrite Hids', Hr. solve_Permutation.
Qed.

Lemma unit_array_wf rs :
  Forall unit_range rs ->
  sumZ (count <$> rs) = Z.of_nat (length (concat (range_ids <$> rs))).
Proof.
  induction 1 as [|r rs Hr _ IH]; csimpl; [done|].
  rewrite length_app, IH, unit_range_ids, length_seqZ by done. destruct Hr. lia.
Qed.

Lemma from_ids_wf ids :
  Forall small_id ids -> Z.of_nat (length ids) < 2 ^ 32 ->
  exists a, from_ids ids = Ret a /\ array_wf a /\ array_ids a ≡ₚ ids
    /\ sumZ (count <$> ranges a) = Z.of_nat (length ids).
Proof.
  intros Hids Hlen. destruct (from_ids_loop [] ids) as (rs & Hrs & Hu & Hp); [done|done|].
  exists {| ranges := rs |}. unfold from_ids. rewrite Hrs.
  unfold array_wf, array_ids. cbn [ranges]. rewrite unit_array_wf, Hp by done.
  split_and!; [done| |done..]. eapply Forall_impl; [done|]. apply unit_range_wf.
Qed.

(** On a strictly increasing list the loop only ever extends the last range. *)
Lemma from_ids_loop_sorted rs ids :
  Forall unit_range rs -> Forall small_id ids ->
  StronglySorted Z.lt (concat (range_ids <$> rs) ++ ids) ->
  exists rs', foldM from_ids_step rs ids = Ret rs' /\ Forall unit_range rs' /\
    concat (range_ids <$> rs') = concat (range_ids <$> rs) ++ ids.
Proof.
  revert rs. induction ids as [|id ids IH]; intros rs Hrs Hids Hs; simpl.
  - exists rs. by rewrite app_nil_r.
  - apply Forall_cons in Hids as [Hid Hids].
    destruct (from_ids_step_spec rs id Hrs Hid) as [->|(l1 & r & l2 & -> & Hr & ->)]; simpl.
    + assert (Hu : unit_range (IntRange_new id 1 1))
        by (unfold unit_range, small_id in *; simpl; lia).
      assert (Heq : concat (range_ids <$> rs ++ [IntRange_new id 1 1]) ++ ids
        = concat (range_ids <$> rs) ++ id :: ids).
      { rewrite fmap_app, concat_app. simpl. by rewrite range_ids_single, <- app_assoc. }
      rewrite <- Heq in Hs |- *. apply IH; [apply Forall_app; auto|done|done].
    + apply Forall_app in Hrs as [H1 [Hu H2]%Forall_cons].
      destruct (unit_range_extend r Hu) as [Hu' Hids']; [unfold small_id in Hid; lia|].
      destruct l2 as [|r2 l2].
      * assert (Heq : concat (range_ids <$>
            l1 ++ [{| start := start r; count := count r + 1; step := step r |}]) ++ ids
          = concat (range_ids <$> l1 ++ [r]) ++ id :: ids).
        { rewrite !fmap_app, !concat_app. simpl. rewrite Hids', Hr, !app_nil_r.
          by rewrite <- !app_assoc. }
        rewrite <- Heq in Hs |- *. apply IH; [apply Forall_app; auto|done|done].
      * exfalso. apply Forall_cons in H2 as [Hu2 _].
        rewrite fmap_app, concat_app in Hs. simpl in Hs. rewrite <- !app_assoc in Hs.
        apply StronglySorted_app_1_r in Hs.
        assert (start r + count r - 1 < start r2).
        { eapply (StronglySorted_app_1_elem_of Z.lt (range_ids r)); [done|..].
          - rewrite unit_range_ids, elem_of_seqZ by done. destruct Hu. lia.
          - apply elem_of_app. left. rewrite unit_range_ids, elem_of_seqZ by done.
            destruct Hu2. lia. }
        apply StronglySorted_app_1_r in Hs.
        assert (start r2 < id); [|lia].
        eapply (StronglySorted_app_1_elem_of Z.lt (range_ids r2)); [done|..].
        -- rewrite unit_range_ids, elem_of_seqZ by done. destruct Hu2. lia.
        -- set_solver.
Qed.

Lemma from_ids_sorted_wf ids :
  Forall small_id ids -> StronglySorted Z.lt ids ->
  exists a, from_ids ids = Ret a /\ Forall range_wf (ranges a) /\ array_ids a = ids.
Proof.
  intros Hids Hs. destruct (from_ids_loop_sorted [] ids) as (rs & Hrs & Hu & Heq); [done..|].
  exists {| ranges := rs |}. unfold from_ids. rewrite Hrs. split; [done|]. split; [|done].
  eapply Forall_impl; [done|]. apply unit_range_wf.
Qed.

(** ** Properties *)

(** [from_ids] keeps exactly the given ids, with multiplicity and in any
    order of the input (a set of job ids is passed in hash order): the array
    iterates over a permutation of them, its [id_count] is their number, and no
    arithmetic overflows. *)
Theorem from_ids_perm ids :
  Forall small_id ids -> Z.of_nat (length ids) < 2 ^ 32 ->
  exists a, from_ids ids = Ret a /\ array_wf a /\
    id_count a = Ret (Z.of_nat (length ids)) /\
    exists l, IntArray_iter a = Ret l /\ l ≡ₚ ids.
Proof.
  intros Hids Hlen. destruct (from_ids_wf ids Hids Hlen) as (a & Ha & Hwf & Hp & Hc).
  exists a. split_and!; [done..| |].
  - rewrite <- Hc. destruct Hwf as [Hwf ?]. apply u32_sum_exact; [|done].
    apply Forall_fmap. eapply Forall_impl; [done|]. unfold range_wf. simpl. lia.
  - exists (array_ids a). split; [|done]. apply IntArray_iter_wf, Hwf.
Qed.

(** On strictly increasing ids (what a resubmit passes), iteration gives
    back the same list. *)
Theorem from_ids_sorted ids :
  Forall small_id ids -> StronglySorted Z.lt ids ->
  exists a, from_ids ids = Ret a /\ IntArray_iter a = Ret ids.
Proof.
  intros Hids Hs. destruct (from_ids_sorted_wf ids Hids Hs) as (a & Ha & Hwf & Heq).
  exists a. split; [done|]. by rewrite IntArray_iter_wf, Heq.
Qed.

End from_ids.

(** ** Counting and membership *)

Lemma length_range_ids r :
  range_wf r -> Z.of_nat (length (range_ids r)) = (count r + step r - 1) / step r.
Proof.
  intros (? & ? & _ & ?). unfold range_ids. rewrite length_range_step_by.
  replace (start r + count r - start r) with (count r) by lia.
  rewrite Z.max_r; [done|]. apply Z.div_pos; lia.
Qed.

Lemma length_range_ids_le r : range_wf r -> Z.of_nat (length (range_ids r)) <= count r.
Proof.
  intros Hr. rewrite length_range_ids by done. destruct Hr as (_ & ? & _ & ?).
  destruct (decide (count r = 0)) as [->|].
  - rewrite Z.div_small; lia.
  - apply Z.div_le_upper_bound; nia.
Qed.

Lemma length_range_ids_lt r :
  range_wf r -> 2 <= count r -> 2 <= step r -> Z.of_nat (length (range_ids r)) < count r.
Proof.
  intros Hr ? ?. rewrite length_range_ids by done. destruct Hr as (_ & ? & _ & ?).
  apply Z.div_lt_upper_bound; nia.
Qed.

Lemma length_array_ids_le a :
  Forall range_wf (ranges a) -> Z.of_nat (length (array_ids a)) <= sumZ (count <$> ranges a).
Proof.
  unfold array_ids. induction 1 as [|r rs Hr _ IH]; csimpl; [done|].
  rewrite length_app. pose proof (length_range_ids_le r Hr). lia.
Qed.

(** An array that counts a single id has a single id, whatever its steps. *)
Lemma length_array_ids_one a :
  Forall range_wf (ranges a) -> sumZ (count <$> ranges a) = 1 -> length (array_ids a) = 1%nat.
Proof.
  intros Hwf Hone. enough (Z.of_nat (length (array_ids a)) = sumZ (count <$> ranges a)) by lia.
  assert (Hle : sumZ (count <$> ranges a) <= 1) by lia. revert Hle. clear Hone. unfold array_ids.
  induction Hwf as [|r rs Hr Hrs IH]; csimpl; [done|]. intros Hle.
  assert (0 <= sumZ (count <$> rs)).
  { apply sumZ_nonneg, Forall_fmap. eapply Forall_impl; [done|]. unfold range_wf. simpl. lia. }
  rewrite length_app, Nat2Z.inj_add, length_range_ids by done.
  destruct Hr as (? & ? & ? & ?). rewrite IH by lia. f_equal.
  destruct (decide (count r = 0)) as [->|]; [rewrite Z.div_small; lia|].
  replace (count r) with 1 by lia. replace (1 + step r - 1) with (step r) by lia.
  apply Z.div_same. lia.
Qed.

Lemma elem_of_array_ids a x :
  Forall range_wf (ranges a) ->
  x ∈ array_ids a <->
  exists r, r ∈ ranges a /\ start r <= x < start r + count r /\ (x - start r) mod step r = 0.
Proof.
  intros Hwf. unfold array_ids. rewrite list_elem_of_In, in_concat. split.
  - intros (l & Hl%list_elem_of_In & Hx%list_elem_of_In).
    apply list_elem_of_fmap in Hl as (r & -> & Hr). exists r. split; [done|].
    apply elem_of_range_step_by; [|done]. eapply Forall_forall in Hwf; [|done]. apply Hwf.
  - intros (r & Hr & Hx). exists (range_ids r). rewrite <- !list_elem_of_In. split.
    + apply list_elem_of_fmap. eauto.
    + apply elem_of_range_step_by; [|done]. eapply Forall_forall in Hwf; [|done]. apply Hwf.
Qed.

Lemma array_ids_small a : Forall range_wf (ranges a) -> Forall small_id (array_ids a).
Proof.
  intros Hwf. apply Forall_forall. intros x Hx.
  apply elem_of_array_ids in Hx as (r & Hr & ? & _); [|done].
  eapply Forall_forall in Hwf; [|done]. unfold range_wf in Hwf. unfold small_id. lia.
Qed.

(** Iterating a well-formed array visits exactly the ids of its ranges,
    and [id_count] bounds the number of ids from above; the bound is strict as
    soon as one range with at least two numbers has a step other than 1, so
    [id_count] is a reservation size and not the number of tasks. *)
Theorem IntArray_iter_spec `{Profile} a :
  array_wf a ->
  exists l n, IntArray_iter a = Ret l /\ id_count a = Ret n /\
    (forall x, x ∈ l <-> exists r, r ∈ ranges a /\
       start r <= x < start r + count r /\ (x - start r) mod step r = 0) /\
    Z.of_nat (length l) <= n /\
    (Z.of_nat (length l) < n <-> exists r, r ∈ ranges a /\ 2 <= count r /\ 2 <= step r).
Proof.
  intros [Hwf Hsum]. exists (array_ids a), (sumZ (count <$> ranges a)).
  split_and!.
  - by apply IntArray_iter_wf.
  - apply u32_sum_exact; [|done]. apply Forall_fmap.
    eapply Forall_impl; [done|]. unfold range_wf. simpl. lia.
  - intros x. by apply elem_of_array_ids.
  - by apply length_array_ids_le.
  - clear Hsum. unfold array_ids. induction Hwf as [|r rs Hr Hrs IH]; csimpl.
    + split; [lia|]. intros (? & ?%not_elem_of_nil & _). done.
    + rewrite length_app. pose proof (length_range_ids_le r Hr).
      pose proof (length_array_ids_le {| ranges := rs |} Hrs) as Hle.
      unfold array_ids in Hle. cbn [ranges] in Hle.
      destruct (decide (2 <= count r /\ 2 <= step r)) as [[? ?]|Hn].
      * pose proof (length_range_ids_lt r Hr). split; [|lia].
        intros _. exists r. split; [left|done].
      * assert (Z.of_nat (length (range_ids r)) = count r).
        { rewrite length_range_ids by done. destruct Hr as (? & ? & _ & ?).
          destruct (decide (step r = 1)) as [->|].
          - rewrite Z.div_1_r. lia.
          - assert (count r = 0 \/ count r = 1) as [Hc|Hc] by lia; rewrite Hc.
            + apply Z.div_small. lia.
            + replace (1 + step r - 1) with (step r) by lia. apply Z.div_same. lia. }
        setoid_rewrite elem_of_cons. naive_solver lia.
Qed.
