(* ===== verification/ArrayParser.v ===== *)
(** * Parsing of integer arrays: [src/common/arrayparser.rs]

    The parser behind every job and task selection of the command line, with
    the grammar it accepts: the accepted texts and their ranges, exactly. *)

From S2P Require Import Prelude ArrayDef Nom.

(** ** Definitions *)

(** The sort key of [is_overlapping]. *)
Definition by_start (a b : IntRange) : Prop := start a <= start b.

#[global] Instance by_start_dec : RelDecision by_start.
Proof. intros a b. unfold by_start. apply _. Defined.

Section arrayparser.
Context `{Profile} `{Nom}.

(** The match of [p_range] on the parsed parts. *)
Definition range_of_parts (r : Z * option Z * option Z) : outcome (result string IntRange) :=
  match r with
  | (v, None, None) => Ret (Ok (IntRange_new v 1 1))
  | (v, Some w, None) =>
      if w >=? v then
        d ← u32_sub w v; n ← u32_add d 1;
        Ret (Ok (IntRange_new v n 1))
      else Ret (Err "Invalid range")
  | (v, Some w, Some x) =>
      if w >=? v then
        d ← u32_sub w v;
        if (x <=? d) && (x >? 0) then
          d ← u32_sub w v; n ← u32_add d 1;
          Ret (Ok (IntRange_new v n x))
        else Ret (Err "Invalid range")
      else Ret (Err "Invalid range")
  | _ => Ret (Err "Invalid range")
  end.

(** [p_range] *)
Definition p_range : parser ErrorKind IntRange :=
  map_res
    (tuple3 p_u32 (opt (preceded (tag "-") p_u32)) (opt (preceded (tag ":") p_u32)))
    range_of_parts.

(** [p_ranges] *)
Definition p_ranges : parser ErrorKind (list IntRange) := separated_list1 (tag ",") p_range.

(** [range.iter().any(|x| !ids.insert(x))]: whether an id is repeated, and the
    ids after the call. *)
Fixpoint any_repeated (ids : gset Z) (l : list Z) : bool * gset Z :=
  match l with
  | [] => (false, ids)
  | x :: l' => if decide (x ∈ ids) then (true, ids) else any_repeated ({[x]} ∪ ids) l'
  end.

(** The loop of [is_overlapping]. *)
Fixpoint overlapping_loop (ids : gset Z) (ranges : list IntRange) : outcome bool :=
  match ranges with
  | [] => Ret false
  | range :: ranges' =>
      l ← IntRange_iter range;
      let '(repeated, ids) := any_repeated ids l in
      if repeated then Ret true else overlapping_loop ids ranges'
  end.

(** [is_overlapping]; the order of ranges with the same start is not specified
    by the unstable sort of the source and decides nothing here. *)
Definition is_overlapping (ranges : list IntRange) : outcome bool :=
  overlapping_loop ∅ (merge_sort by_start ranges).

(** [p_array] *)
Definition p_array : parser ErrorKind IntArray :=
  map_res p_ranges (fun r =>
    o ← is_overlapping r;
    Ret (if negb o then Ok (IntArray_new r) else Err "Ranges overlap")).

(** [parse_array] *)
Definition parse_array (input : string) : outcome (result string IntArray) :=
  r ← all_consuming p_array input;
  Ret match r with
  | Ok (_, a) => Ok a
  | Err e => Err (format_parse_error show_kind e)
  end.

End arrayparser.

(** ** The grammar *)

(** The text of a range and the range it stands for. *)
Inductive range_text : string -> IntRange -> Prop :=
| range_text_one t v : number_text t v -> range_text t (IntRange_new v 1 1)
| range_text_to t u v w :
    number_text t v -> number_text u w -> v <= w ->
    range_text (t +:+ "-" +:+ u) (IntRange_new v (w - v + 1) 1)
| range_text_step t u r v w x :
    number_text t v -> number_text u w -> number_text r x -> 0 < x <= w - v ->
    range_text (t +:+ "-" +:+ u +:+ ":" +:+ r) (IntRange_new v (w - v + 1) x).

(** Ranges separated by commas. *)
Definition array_text : string -> list IntRange -> Prop := list_text (fun u => u = ",") range_text.

(** What may follow a range. *)
Definition range_end (rest : string) : Prop :=
  match rest with
  | EmptyString => True
  | String c _ => c = ","%char
  end.

Lemma range_end_number rest : range_end rest -> stops is_digit_or_underscore rest.
Proof. destruct rest; simpl; [done|]. by intros ->. Qed.

Lemma range_end_strip t rest :
  range_end rest -> match t with String c _ => c <> ","%char | _ => False end ->
  strip_prefix t rest = None.
Proof.
  intros Hr Ht. destruct t as [|c t]; [done|]. destruct rest as [|d rest]; simpl in *; [done|].
  subst d. by destruct (Ascii.eqb_spec c ",").
Qed.

Lemma range_text_nonempty t r : range_text t r -> t <> "".
Proof. by destruct 1 as [? ? []|? ? ? ? []|? ? ? ? ? ? []]. Qed.

Section ranges.
Context `{Profile} `{Nom}.

Lemma preceded_number_sound t s rest v :
  parses (preceded (tag t) p_u32) s rest v ->
  exists u, s = t +:+ u +:+ rest /\ number_text u v /\ stops is_digit_or_underscore rest.
Proof.
  unfold parses. rewrite preceded_eq. intros (s1 & a & Ha & Hp)%and_then_inv.
  apply tag_sound in Ha as (? & -> & -> & ->). apply p_u32_sound in Hp as (u & -> & ? & ?). eauto.
Qed.

Lemma preceded_number_complete t u rest v :
  number_text u v -> stops is_digit_or_underscore rest ->
  parses (opt (preceded (tag t) p_u32)) (t +:+ u +:+ rest) rest (Some v).
Proof.
  intros Hu Hr. apply opt_some. unfold parses. rewrite preceded_eq.
  erewrite and_then_ok by apply parses_tag. by apply p_u32_complete.
Qed.

Lemma preceded_number_absent t rest :
  strip_prefix t rest = None -> parses (opt (preceded (tag t) p_u32)) rest rest None.
Proof. intros Hs. by apply opt_none, preceded_rejects, tag_rejects. Qed.

(** The parts of a range, before the checks. *)
Lemma parts_sound s rest v w x :
  parses (tuple3 p_u32 (opt (preceded (tag "-") p_u32)) (opt (preceded (tag ":") p_u32)))
    s rest (v, w, x) ->
  exists t u r, s = t +:+ u +:+ r +:+ rest /\ number_text t v /\
    match w with Some w => exists u', u = "-" +:+ u' /\ number_text u' w | None => u = "" end /\
    match x with Some x => exists r', r = ":" +:+ r' /\ number_text r' x | None => r = "" end.
Proof.
  unfold parses. rewrite tuple3_eq. intros (s1 & a & Ha & Hp)%and_then_inv.
  apply and_then_inv in Hp as (s2 & b & Hb & Hp). apply and_then_inv in Hp as (s3 & c & Hc & Hp).
  simplify_eq. apply p_u32_sound in Ha as (t & -> & Ht & _).
  apply opt_parses in Hb. apply opt_parses in Hc.
  assert (exists r, s2 = r +:+ rest /\
    match x with Some x => exists r', r = ":" +:+ r' /\ number_text r' x | None => r = "" end)
    as (r & -> & Hr).
  { destruct x as [x|]; [|exists ""; naive_solver].
    apply preceded_number_sound in Hc as (r & -> & ? & _). exists (":" +:+ r). eauto. }
  assert (exists u, s1 = u +:+ r +:+ rest /\
    match w with Some w => exists u', u = "-" +:+ u' /\ number_text u' w | None => u = "" end)
    as (u & -> & Hu).
  { destruct w as [w|]; [|exists ""; naive_solver].
    apply preceded_number_sound in Hb as (u & -> & ? & _). exists ("-" +:+ u).
    by rewrite !app_str_assoc; eauto. }
  by exists t, u, r.
Qed.

Lemma p_range_consuming : consuming p_range.
Proof.
  intros s rest r. unfold p_range. rewrite map_res_eq. intros (s1 & [[v w] x] & Hp & Hr)%and_then_inv.
  ret_inv. assert (s1 = rest) as ->.
  { destruct x0; simplify_eq. done. }
  apply parts_sound in Hp as (t & u & r' & -> & Ht & _). rewrite !length_app_str.
  destruct Ht. simpl. lia.
Qed.

End ranges.

(** ** Overlaps *)

(** A range as [p_range] builds it: only the end of its ids may overflow. *)
Definition range_parsed (r : IntRange) : Prop :=
  is_u32 (start r) /\ is_u32 (count r) /\ 1 <= step r < 2 ^ 32.

Lemma any_repeated_spec ids l :
  (NoDup l /\ (forall x, x ∈ l -> x ∉ ids)) /\ any_repeated ids l = (false, list_to_set l ∪ ids)
  \/ ~ (NoDup l /\ (forall x, x ∈ l -> x ∉ ids)) /\ (any_repeated ids l).1 = true.
Proof.
  revert ids. induction l as [|x l IH]; intros ids; simpl.
  - left. split_and!; [constructor|set_solver|]. f_equal. set_solver.
  - destruct (decide (x ∈ ids)) as [Hx|Hx].
    + right. split; [|done]. intros [_ Hd]. by apply (Hd x); [left|].
    + rewrite NoDup_cons. destruct (IH ({[x]} ∪ ids)) as [[[Hl Hd] ->]|[Hn ->]].
      * left. split; [set_solver|]. f_equal. set_solver.
      * right. split; [|done]. set_solver.
Qed.

Section overlaps.
Context `{Profile}.

Lemma overlapping_loop_spec ids rs :
  Forall range_wf rs ->
  exists b, overlapping_loop ids rs = Ret b /\
    (b = false <-> NoDup (concat (range_ids <$> rs)) /\
       forall x, x ∈ concat (range_ids <$> rs) -> x ∉ ids).
Proof.
  intros Hwf. revert ids. induction Hwf as [|r rs Hr _ IH]; intros ids; csimpl.
  - exists false. split; [done|]. split; [|done]. split; [constructor|set_solver].
  - rewrite IntRange_iter_wf by done. csimpl. setoid_rewrite NoDup_app.
    destruct (any_repeated_spec ids (range_ids r)) as [[[Hnd Hd] ->]|[Hn Ht]].
    + destruct (IH (list_to_set (range_ids r) ∪ ids)) as (b & -> & Hb). exists b.
      split; [done|]. rewrite Hb. set_solver.
    + destruct (any_repeated ids (range_ids r)). simpl in *. subst. exists true.
      split; [done|]. split; [done|]. set_solver.
Qed.

Lemma is_overlapping_spec rs :
  Forall range_wf rs ->
  exists b, is_overlapping rs = Ret b /\ (b = false <-> NoDup (concat (range_ids <$> rs))).
Proof.
  intros Hwf. unfold is_overlapping. set (rs' := merge_sort by_start rs).
  assert (Hp : rs' ≡ₚ rs) by apply merge_sort_Permutation.
  destruct (overlapping_loop_spec ∅ rs') as (b & -> & Hb); [by rewrite Hp|].
  exists b. split; [done|]. rewrite Hb.
  assert (Hc : concat (range_ids <$> rs') ≡ₚ concat (range_ids <$> rs)) by by rewrite Hp.
  rewrite Hc. set_solver.
Qed.

Context (checked : overflow_checks = true).

Lemma arith_checked w z r : arith w z = Ret r -> r = z /\ 0 <= z < 2 ^ w.
Proof.
  unfold arith. rewrite checked. destruct (Z.leb_spec 0 z), (Z.ltb_spec z (2 ^ w)); simpl;
    intros; simplify_eq; done.
Qed.

Lemma overlapping_loop_wf ids rs b :
  Forall range_parsed rs -> overlapping_loop ids rs = Ret b -> b = false -> Forall range_wf rs.
Proof.
  intros Hrs. revert ids. induction Hrs as [|r rs Hr _ IH]; intros ids Hb ->; [done|].
  simpl in Hb. ret_inv. unfold IntRange_iter in *. ret_inv.
  apply arith_checked in E0 as [_ Hlt]. unfold range_parsed, is_u32 in Hr.
  destruct (any_repeated ids _) as [[] ids'] in Hb; [by simplify_eq|]. constructor; [|by eauto].
  unfold range_wf. lia.
Qed.

Lemma is_overlapping_wf rs :
  Forall range_parsed rs -> is_overlapping rs = Ret false -> Forall range_wf rs.
Proof.
  intros Hrs Ho. unfold is_overlapping in Ho.
  assert (Hp : merge_sort by_start rs ≡ₚ rs) by apply merge_sort_Permutation.
  rewrite <- Hp. eapply overlapping_loop_wf; [by rewrite Hp|done|done].
Qed.

End overlaps.

(** ** The parser *)

Section parser.
Context `{Profile} `{Nom}.

Lemma range_text_parsed t r : range_text t r -> is_u32 (count r) -> range_parsed r.
Proof.
  unfold range_parsed.
  destruct 1 as [t v Hv|t u v w Hv Hw Hle|t u r v w x Hv Hw Hx Hle];
    apply number_text_u32 in Hv; try apply number_text_u32 in Hw;
    try apply number_text_u32 in Hx; unfold is_u32 in *; simpl; lia.
Qed.

Lemma p_range_complete :
  complete p_range (fun t r => range_text t r /\ is_u32 (count r)) range_end.
Proof.
  intros s r rest [Hr Hc] Hrest. pose proof (range_end_number _ Hrest) as Hn.
  unfold parses, p_range. rewrite map_res_eq, tuple3_eq.
  assert (Hcolon := range_end_strip ":" rest Hrest ltac:(done)).
  assert (Hdash := range_end_strip "-" rest Hrest ltac:(done)).
  destruct Hr as [t v Hv|t u v w Hv Hw Hle|t u r v w x Hv Hw Hx Hle]; simpl in Hc.
  - erewrite (and_then_ok (p_u32 _)) by (by apply p_u32_complete).
    erewrite (and_then_ok (opt _ _)) by (by apply preceded_number_absent).
    erewrite (and_then_ok (opt _ _)) by (by apply preceded_number_absent). done.
  - apply number_text_u32 in Hv as Hv', Hw as Hw'. unfold is_u32 in *. rewrite !app_str_assoc.
    erewrite (and_then_ok (p_u32 _)) by (by apply p_u32_complete).
    erewrite (and_then_ok (opt _ _)) by (by apply preceded_number_complete).
    erewrite (and_then_ok (opt _ _)) by (by apply preceded_number_absent). simpl.
    destruct (Z.geb_spec w v); [|lia]. rewrite u32_sub_exact by lia. simpl.
    by rewrite u32_add_exact by lia.
  - apply number_text_u32 in Hv as Hv', Hw as Hw'. unfold is_u32 in *. rewrite !app_str_assoc.
    erewrite (and_then_ok (p_u32 _)) by (by apply p_u32_complete).
    erewrite (and_then_ok (opt _ _)) by (by apply preceded_number_complete).
    erewrite (and_then_ok (opt _ _)) by (by apply preceded_number_complete). simpl.
    destruct (Z.geb_spec w v); [|lia]. rewrite u32_sub_exact by lia. simpl.
    destruct (Z.leb_spec x (w - v)), (Z.gtb_spec x 0); try lia. simpl.
    by rewrite u32_add_exact by lia.
Qed.

Lemma p_array_run s rest a :
  parses p_array s rest a <->
  exists rs, parses p_ranges s rest rs /\ is_overlapping rs = Ret false /\ a = IntArray_new rs.
Proof.
  unfold parses, p_array. rewrite map_res_eq. split.
  - intros (s1 & rs & Hrs & Hp)%and_then_inv. destruct (is_overlapping rs) as [[]|] eqn:Ho;
      simplify_eq/=. eauto.
  - intros (rs & Hrs & Ho & ->). erewrite and_then_ok by exact Hrs. by rewrite Ho.
Qed.

Lemma parse_array_run s a :
  parse_array s = Ret (Ok a) <->
  exists rs, parses p_ranges s "" rs /\ is_overlapping rs = Ret false /\ a = IntArray_new rs.
Proof.
  rewrite <- p_array_run. unfold parse_array. split.
  - intros Hs. ret_inv. destruct x as [[rest a']|e]; simplify_eq/=.
    by apply all_consuming_parses in E as [-> ?].
  - intros Hp. rewrite (proj2 (all_consuming_parses p_array s a "") (conj eq_refl Hp)). done.
Qed.

(** A written array is read back, in both build profiles. *)
Lemma parse_array_text s rs :
  array_text s rs -> Forall range_wf rs -> NoDup (concat (range_ids <$> rs)) ->
  parse_array s = Ret (Ok (IntArray_new rs)).
Proof.
  intros Ht Hwf Hnd. apply parse_array_run. exists rs. split_and!; [| |done].
  - rewrite <- (app_str_nil s) at 1. unfold p_ranges.
    eapply (separated_list1_complete (tag ",") p_range (tag_consuming "," ltac:(done))
      p_range_consuming (fun u => u = ",") (fun t r => range_text t r /\ is_u32 (count r))
      range_end (fun rest => rest = "")).
    + apply p_range_complete.
    + intros u t b rest -> _. exists ",". apply parses_tag.
    + by intros u rest ->.
    + intros rest ->. split; [done|]. by apply tag_rejects.
    + clear Hnd. unfold array_text in Ht. induction Ht as [t b Hb|t u t' b l Hb Hu Ht IH].
      * constructor. apply Forall_cons in Hwf as [Hwf _]. unfold range_wf, is_u32 in *.
        split; [done|lia].
      * apply Forall_cons in Hwf as [Hwf1 Hwf]. constructor; [|done|by apply IH].
        unfold range_wf, is_u32 in *. split; [done|lia].
    + done.
  - destruct (is_overlapping_spec rs Hwf) as (b & -> & Hb). by rewrite (proj2 Hb Hnd).
Qed.

Context (checked : overflow_checks = true).

Lemma p_range_sound : sound p_range (fun t r => range_text t r /\ is_u32 (count r)).
Proof.
  intros s rest r. unfold parses, p_range. rewrite map_res_eq.
  intros (s1 & [[v w] x] & Hp & Hr)%and_then_inv.
  apply parts_sound in Hp as (t & u & q & -> & Ht & Hu & Hq).
  destruct w as [w|], x as [x|]; simpl in Hr; try (ret_inv; done).
  - destruct Hu as (u' & -> & Hu), Hq as (q' & -> & Hq).
    destruct (Z.geb_spec w v); ret_inv; try done.
    destruct (Z.leb_spec x x1), (Z.gtb_spec x 0); simpl in *; ret_inv; try done.
    repeat match goal with H : _ = Ret _ |- _ => apply (arith_checked checked) in H as [-> ?] end.
    exists (t +:+ "-" +:+ u' +:+ ":" +:+ q'). split; [by rewrite !app_str_assoc|].
    split; [|done]. by constructor.
  - destruct Hu as (u' & -> & Hu). subst q.
    destruct (Z.geb_spec w v); ret_inv; try done.
    repeat match goal with H : _ = Ret _ |- _ => apply (arith_checked checked) in H as [-> ?] end.
    exists (t +:+ "-" +:+ u'). split; [by rewrite !app_str_assoc|].
    split; [|done]. by constructor.
  - ret_inv. exists t. split; [done|]. split; [by constructor|done].
Qed.

Lemma parse_array_sound s a :
  parse_array s = Ret (Ok a) ->
  array_text s (ranges a) /\ Forall range_wf (ranges a) /\ NoDup (array_ids a).
Proof.
  intros (rs & Hp & Ho & ->)%parse_array_run.
  apply (separated_list1_sound (tag ",") p_range (tag_consuming "," ltac:(done))
    p_range_consuming (fun u => u = ",") (fun t r => range_text t r /\ is_u32 (count r)))
    in Hp as (t & -> & Ht).
  2: by intros u rest b (u' & -> & -> & _)%tag_sound; eauto.
  2: apply p_range_sound.
  rewrite app_str_nil.
  assert (Htext : array_text t rs /\ Forall range_parsed rs).
  { clear Ho. induction Ht as [t b [Hb Hc]|t u t' b l [Hb Hc] Hu Ht [IH1 IH2]].
    - split; [by constructor|]. constructor; [|constructor]. by eapply range_text_parsed.
    - split; [by constructor|]. constructor; [|done]. by eapply range_text_parsed. }
  destruct Htext as [Htext Hparsed]. split; [done|].
  assert (Hwf : Forall range_wf rs) by by eapply is_overlapping_wf.
  split; [done|]. destruct (is_overlapping_spec rs Hwf) as (b & Ho' & Hb).
  rewrite Ho in Ho'. simplify_eq. by apply Hb.
Qed.

End parser.

(** ** Display and parse *)

#[local] Arguments String.append !_ _ /.

(** The ranges whose step is visible in their ids: what [p_range] and
    [from_ids] build. *)
Definition displayable (r : IntRange) : Prop :=
  range_wf r /\ 1 <= count r /\ (step r = 1 \/ step r <= count r - 1).

#[global] Instance displayable_dec r : Decision (displayable r).
Proof. unfold displayable. apply _. Defined.

(** The text of a range, without a separator. *)
Definition show_range (r : IntRange) : string :=
  if count r =? 1 then to_string (start r)
  else
    let t := to_string (start r) +:+ "-" +:+ to_string (start r + count r - 1) in
    if step r =? 1 then t else t +:+ ":" +:+ to_string (step r).

Lemma show_range_text r : displayable r -> range_text (show_range r) r.
Proof.
  intros ((? & ? & ? & ?) & ? & Hs). destruct r as [v n x]. unfold show_range. simpl in *.
  destruct (Z.eqb_spec n 1) as [->|].
  - replace x with 1 by lia. constructor. apply to_string_number_text. unfold is_u32. lia.
  - replace n with (v + n - 1 - v + 1) at 3 by lia. destruct (Z.eqb_spec x 1) as [->|].
    + apply range_text_to; [..|lia]; apply to_string_number_text; unfold is_u32; lia.
    + rewrite !app_str_assoc.
      apply range_text_step; [..|lia]; apply to_string_number_text; unfold is_u32; lia.
Qed.

Section display.
Context `{Profile}.

Lemma fmt_range_show r : displayable r -> fmt_range r = Ret (show_range r +:+ ", ").
Proof.
  intros ((? & ? & ? & ?) & ? & Hs). unfold fmt_range, show_range.
  destruct (Z.eqb_spec (count r) 1); [done|].
  rewrite u32_add_exact by lia. simpl. rewrite u32_sub_exact by lia. simpl.
  destruct (Z.eqb_spec (step r) 1); by rewrite !app_str_assoc.
Qed.

Lemma substring_app t u : String.substring 0 (String.length t) (t +:+ u) = t.
Proof. induction t as [|c t IH]; simpl; [by destruct u|]. f_equal. apply IH. Qed.

Lemma fmt_fold r rs acc :
  Forall displayable (r :: rs) ->
  foldM (fun acc x => t ← fmt_range x; Ret (acc +:+ t)) acc (r :: rs) =
  Ret (acc +:+ String.concat ", " (show_range <$> r :: rs) +:+ ", ").
Proof.
  revert r acc. induction rs as [|r' rs IH]; intros r acc [Hr Hrs]%Forall_cons;
    rewrite foldM_cons, (fmt_range_show r) by done; cbn [mbind outcome_bind].
  - done.
  - rewrite (IH r') by done. csimpl. by rewrite !app_str_assoc.
Qed.

Lemma IntArray_fmt_concat rs :
  rs <> [] -> Forall displayable rs ->
  IntArray_fmt (IntArray_new rs) = Ret (String.concat ", " (show_range <$> rs)).
Proof.
  intros Hne Hrs. destruct rs as [|r rs]; [done|]. unfold IntArray_fmt. cbn [ranges IntArray_new].
  rewrite fmt_fold by done. cbn [mbind outcome_bind].
  set (t := String.concat _ _). change ("" +:+ t +:+ ", ") with (t +:+ ", ").
  rewrite length_app_str. simpl.
  destruct (Nat.ltb_spec (String.length t + 2) 2); [lia|].
  by rewrite Nat.add_sub, substring_app.
Qed.

Context `{Nom}.

Lemma p_range_rejects_space s : rejects p_range (String " " s).
Proof.
  unfold rejects, p_range. rewrite map_res_eq, tuple3_eq, p_u32_run. simpl. eauto.
Qed.

(** A selection with a single range. *)
Lemma parse_array_single s r :
  parses (tuple3 p_u32 (opt (preceded (tag "-") p_u32)) (opt (preceded (tag ":") p_u32))) s "" r ->
  parse_array s =
    (x ← range_of_parts r;
     match x with
     | Ok r =>
         o ← is_overlapping [r];
         Ret (if negb o then Ok (IntArray_new [r])
              else Err (format_parse_error show_kind
                          (Error (from_external_error s KMapRes "Ranges overlap"))))
     | Err e => Ret (Err (format_parse_error show_kind (Error (from_external_error s KMapRes e))))
     end).
Proof.
  intros Hp. unfold parse_array. rewrite all_consuming_eq. unfold p_array. rewrite map_res_eq.
  unfold p_ranges. rewrite separated_list1_eq
    by (apply p_range_consuming || by apply tag_consuming).
  unfold p_range at 1. rewrite map_res_eq. erewrite (and_then_ok (tuple3 _ _ _ _)) by exact Hp.
  destruct (range_of_parts r) as [[r'|e]|]; simpl; [|done..].
  destruct (tag_rejects "," "" eq_refl) as [e ->]. simpl.
  destruct (is_overlapping [r']) as [[]|]; done.
Qed.

(** ** Properties *)


(** Printing an array and parsing the text gives back the array when it has
    one range; with more ranges the text has a space after each comma, and
    parsing it fails. *)
Theorem display_parse rs :
  rs <> [] -> Forall displayable rs ->
  exists t, IntArray_fmt (IntArray_new rs) = Ret t /\
    match rs with
    | [_] => parse_array t = Ret (Ok (IntArray_new rs))
    | _ => exists e, parse_array t = Ret (Err e)
    end.
Proof.
  intros Hne Hrs. exists (String.concat ", " (show_range <$> rs)).
  split; [by apply IntArray_fmt_concat|].
  destruct rs as [|r [|r' rs]]; [done|..].
  - apply Forall_cons in Hrs as [Hr _]. apply parse_array_text.
    + constructor. by apply show_range_text.
    + constructor; [apply Hr|done].
    + simpl. rewrite app_nil_r. apply range_step_by_NoDup, Hr.
  - apply Forall_cons in Hrs as [Hr _]. unfold parse_array.
    assert (exists rest, String.concat ", " (show_range <$> r :: r' :: rs)
      = show_range r +:+ ", " +:+ rest) as [rest ->] by (csimpl; eauto).
    assert (Hp : parses p_ranges (show_range r +:+ ", " +:+ rest) (", " +:+ rest) [r]).
    { unfold parses, p_ranges.
      rewrite separated_list1_eq by (apply p_range_consuming || by apply tag_consuming).
      erewrite (and_then_ok (p_range _)).
      2: { apply p_range_complete; [|done]. split; [by apply show_range_text|].
           destruct Hr as ((? & ? & ? & ?) & ? & ?). unfold is_u32. lia. }
      change (", " +:+ rest) with ("," +:+ String " " rest).
      rewrite (parses_tag "," (String " " rest)). simpl.
      rewrite separated_list1_eq by (apply p_range_consuming || by apply tag_consuming).
      destruct (p_range_rejects_space rest) as [e ->]. done. }
    rewrite all_consuming_eq. unfold p_array. rewrite map_res_eq.
    erewrite (and_then_ok (p_ranges _)) by exact Hp.
    destruct (is_overlapping_spec [r]) as (b & -> & _); [constructor; [apply Hr|done]|].
    destruct b; simpl; eauto.
Qed.


End display.
