(* ===== verification/Resources.v ===== *)
(** * CPU requests and CPU detection

    The parsers and printers of resources: [src/client/resources.rs] (the CPU
    request of a submit), [src/worker/parser.rs] (the CPU definition of a
    worker) and [src/worker/hwdetect.rs] (the NUMA files of Linux).  The file
    system, the crate [num_cpus] and the constructor of [tako] are arguments. *)

From S2P Require Import Prelude Nom.

(** ** Data of [tako] *)

(** [CpuRequest], by the constructors that [cpu_request_to_string] matches
    exhaustively. *)
Inductive CpuRequest :=
| CRCompact (n_cpus : Z)
| CRForceCompact (n_cpus : Z)
| CRScatter (n_cpus : Z)
| CRAll.

(** [ResourceDescriptor], by the struct literal of [detect_resource]. *)
Record ResourceDescriptor := { cpus : list (list Z) }.

(** ** CPU requests *)

Section requests.
Context `{Nom}.

(** The closure of [p_cpu_request]. *)
Definition cpu_request_of (r : Z * option string) : outcome (result string CpuRequest) :=
  let '(count, policy) := r in
  if count =? 0 then Ret (Err "Requesting zero cpus is not allowed")
  else
    match policy with
    | None => Ret (Ok (CRCompact count))
    | Some p =>
        if String.eqb p "compact" then Ret (Ok (CRCompact count))
        else if String.eqb p "compact!" then Ret (Ok (CRForceCompact count))
        else if String.eqb p "scatter" then Ret (Ok (CRScatter count))
        else Panic UnreachableCode
    end.

(** The parser of the policy in [p_cpu_request]. *)
Definition p_policy : parser ErrorKind (option string) :=
  opt (preceded multispace1 (alt [tag "compact!"; tag "compact"; tag "scatter"])).

(** [p_cpu_request] *)
Definition p_cpu_request : parser ErrorKind CpuRequest :=
  alt [pmap (tag "all") (fun _ => Ret CRAll); map_res (tuple2 p_u32 p_policy) cpu_request_of].

(** [parse_cpu_request] *)
Definition parse_cpu_request (input : string) : outcome (result string CpuRequest) :=
  r ← all_consuming p_cpu_request input;
  Ret match r with
  | Ok (_, a) => Ok a
  | Err e => Err (format_parse_error show_kind e)
  end.

End requests.

Arguments cpu_request_of : simpl never.

(** [cpu_request_to_string] *)
Definition cpu_request_to_string (cr : CpuRequest) : string :=
  match cr with
  | CRCompact n_cpus => to_string n_cpus +:+ " compact"
  | CRForceCompact n_cpus => to_string n_cpus +:+ " compact!"
  | CRScatter n_cpus => to_string n_cpus +:+ " scatter"
  | CRAll => "all"
  end.

(** ** CPU definitions of workers *)

Section workers.
Context `{Nom} (new_with_socket_size : Z -> Z -> ResourceDescriptor).

(** [p_cpu_definition] *)
Definition p_cpu_definition : parser ErrorKind ResourceDescriptor :=
  pmap (tuple2 p_u32 (opt (preceded (tag "x") p_u32)))
    (fun r => Ret match r with
      | (c1, None) => new_with_socket_size 1 c1
      | (c1, Some c2) => new_with_socket_size c1 c2
      end).

(** [parse_cpu_definition]; [nom::Err::to_string] is an argument. *)
Definition parse_cpu_definition (err_to_string : nom_Err ErrorKind -> string) (input : string) :
    outcome (result string ResourceDescriptor) :=
  r ← all_consuming p_cpu_definition input;
  Ret match r with
  | Ok (_, a) => Ok a
  | Err e => Err (err_to_string e)
  end.

(** ** Detection of CPUs *)

(** [(u..=v).collect()] *)
Definition range_inclusive (u v : Z) : list Z := seqZ u (v - u + 1).

(** [p_cpu_range] *)
Definition p_cpu_range : parser ErrorKind (list Z) :=
  map_res
    (tuple2 (terminated p_u32 space0)
       (opt (terminated (preceded (tuple2 (tag "-") space0) p_u32) space0)))
    (fun '(u, v) => Ret (Ok (range_inclusive u (default u v)))).

(** [p_cpu_ranges] *)
Definition p_cpu_ranges : parser ErrorKind (list Z) := fun input =>
  r ← separated_list1 (terminated (tag ",") space0) p_cpu_range input;
  Ret match r with
  | Ok (a, b) => Ok (a, concat b)
  | Err e => Err e
  end.

(** [parse_range] *)
Definition parse_range (input : string) : outcome (result string (list Z)) :=
  r ← all_consuming (terminated p_cpu_ranges (opt newline)) input;
  Ret match r with
  | Ok (_, a) => Ok a
  | Err e => Err (format_parse_error show_kind e)
  end.

(** [std::fs::read_to_string] and [num_cpus::get]. *)
Context (read_to_string : string -> result string string) (num_cpus : Z).

(** The loop of [read_linux_numa]. *)
Fixpoint read_numa_nodes (cpus : list (list Z)) (nodes : list Z) :
    outcome (result string (list (list Z))) :=
  match nodes with
  | [] => Ret (Ok cpus)
  | numa_index :: nodes' =>
      let filename :=
        "/sys/devices/system/node/node" +:+ to_string numa_index +:+ "/cpulist" in
      match read_to_string filename with
      | Err e => Ret (Err e)
      | Ok text =>
          r ← parse_range text;
          match r with
          | Err e => Ret (Err e)
          | Ok ids => read_numa_nodes (cpus ++ [ids]) nodes'
          end
      end
  end.

(** [read_linux_numa] *)
Definition read_linux_numa : outcome (result string (list (list Z))) :=
  match read_to_string "/sys/devices/system/node/possible" with
  | Err e => Ret (Err e)
  | Ok text =>
      r ← parse_range text;
      match r with
      | Err e => Ret (Err e)
      | Ok nodes => read_numa_nodes [] nodes
      end
  end.

(** [detect_resource] *)
Definition detect_resource : outcome (result string ResourceDescriptor) :=
  r ← read_linux_numa;
  match r with
  | Ok cpus => Ret (Ok {| cpus := cpus |})
  | Err _ =>
      let n_cpus := as_u32 num_cpus in
      if n_cpus <? 1 then Ret (Err "Cpu detection failed")
      else Ret (Ok (new_with_socket_size 1 n_cpus))
  end.

End workers.

(** ** Properties of CPU requests *)

(** A request for at least one CPU. *)
Definition cpu_request_valid (cr : CpuRequest) : Prop :=
  match cr with
  | CRCompact n | CRForceCompact n | CRScatter n => 0 < n < 2 ^ 32
  | CRAll => True
  end.

Section requests_spec.
Context `{Nom}.

Lemma alt_tags_total ts s :
  ts <> [] -> exists r, alt (tag <$> ts) s = Ret r /\
    match r with
    | Ok (rest, t) => t ∈ ts /\ s = t +:+ rest
    | Err (Error _) => True
    | Err _ => False
    end.
Proof.
  intros Hne. induction ts as [|t [|t' ts] IH]; [done| |]; csimpl.
  - rewrite alt_one, tag_eq. eexists. split; [done|].
    destruct (strip_prefix t s) eqn:Hs; [|done]. apply strip_prefix_Some in Hs.
    split; [left|done].
  - rewrite alt_cons, tag_eq. simpl. destruct (strip_prefix t s) eqn:Hs.
    + apply strip_prefix_Some in Hs. eexists. split; [done|]. split; [left|done].
    + destruct IH as (r & Hr & Hcase); [done|]. csimpl in Hr. rewrite Hr. simpl.
      eexists. split; [done|]. destruct r as [[rest u]|[e|e|e]]; [|done..].
      destruct Hcase. split; [by right|done].
Qed.

Lemma p_u32_total s :
  exists r, p_u32 s = Ret r /\ match r with Ok _ | Err (Error _) => True | Err _ => False end.
Proof.
  rewrite p_u32_run. eexists. split; [done|]. destruct s as [|c s]; [done|].
  destruct (is_dec_digit c); [|done]. by destruct (parse_u32 _).
Qed.

Lemma p_policy_total s :
  exists rest o, p_policy s = Ret (Ok (rest, o)) /\
    match o with Some p => p ∈ ["compact!"; "compact"; "scatter"] | None => True end.
Proof.
  unfold p_policy. rewrite opt_eq, preceded_eq, multispace1_eq.
  destruct (str_span is_multispace s) as [[|c a] rest]; simpl; [by exists s, None|].
  destruct (alt_tags_total ["compact!"; "compact"; "scatter"] rest) as (r & Hr & Hcase); [done|].
  csimpl in Hr. rewrite Hr. simpl. destruct r as [[rest' p]|[e|e|e]]; simpl; [|by exists s, None|done..].
  destruct Hcase. by exists rest', (Some p).
Qed.

(** A policy is read after one space. *)
Lemma p_policy_text p s rest :
  alt [tag "compact!"; tag "compact"; tag "scatter"] s = Ret (Ok (rest, p)) ->
  stops is_multispace s -> p_policy (String " " s) = Ret (Ok (rest, Some p)).
Proof.
  intros Hp Hs. unfold p_policy. rewrite opt_eq, preceded_eq, multispace1_eq.
  change (String " " s) with (" " +:+ s). rewrite str_span_app by done. simpl. by rewrite Hp.
Qed.

Lemma all_rejects_number t n s :
  number_text t n -> rejects (pmap (tag "all") (fun _ => Ret CRAll)) (t +:+ s).
Proof.
  intros [c u v Hc _ _ _]. unfold rejects. rewrite pmap_eq, tag_eq.
  change (String c u +:+ s) with (String c (u +:+ s)). cbn [strip_prefix].
  destruct (Ascii.eqb_spec "a" c) as [<-|]; [done|]. simpl. eauto.
Qed.

Lemma parse_cpu_request_policy n p rest cr :
  0 < n < 2 ^ 32 -> alt [tag "compact!"; tag "compact"; tag "scatter"] p = Ret (Ok ("", rest)) ->
  stops is_multispace p -> cpu_request_of (n, Some rest) = Ret (Ok cr) ->
  parse_cpu_request (to_string n +:+ String " " p) = Ret (Ok cr).
Proof.
  intros Hn Hp Hs Hcr. assert (Ht : number_text (to_string n) n)
    by (apply to_string_number_text; unfold is_u32; lia).
  unfold parse_cpu_request. rewrite all_consuming_eq. unfold p_cpu_request. rewrite alt_cons.
  destruct (all_rejects_number _ _ (String " " p) Ht) as [e ->]. cbn [mbind outcome_bind].
  rewrite alt_one, map_res_eq, tuple2_eq.
  erewrite (and_then_ok (p_u32 _)) by (by apply p_u32_complete).
  rewrite (p_policy_text rest p "") by done. cbn [and_then mbind outcome_bind].
  by rewrite Hcr.
Qed.

Lemma alt_policy p :
  p ∈ ["compact!"; "compact"; "scatter"] ->
  alt [tag "compact!"; tag "compact"; tag "scatter"] p = Ret (Ok ("", p)).
Proof.
  intros Hp. rewrite !alt_cons, alt_one, !tag_eq.
  repeat (apply elem_of_cons in Hp as [->|Hp]; [done|]). by apply elem_of_nil in Hp.
Qed.

(** A printed CPU request is parsed back to itself. *)
Theorem cpu_request_roundtrip cr :
  cpu_request_valid cr -> parse_cpu_request (cpu_request_to_string cr) = Ret (Ok cr).
Proof.
  destruct cr as [n|n|n|]; intros Hn; simpl in Hn.
  - apply (parse_cpu_request_policy n "compact" "compact"); [done|apply alt_policy; set_solver|done|].
    unfold cpu_request_of. by destruct (Z.eqb_spec n 0); [lia|].
  - apply (parse_cpu_request_policy n "compact!" "compact!"); [done|apply alt_policy; set_solver|done|].
    unfold cpu_request_of. by destruct (Z.eqb_spec n 0); [lia|].
  - apply (parse_cpu_request_policy n "scatter" "scatter"); [done|apply alt_policy; set_solver|done|].
    unfold cpu_request_of. by destruct (Z.eqb_spec n 0); [lia|].
  - unfold parse_cpu_request. rewrite all_consuming_eq. unfold p_cpu_request.
    by rewrite alt_cons, pmap_eq, tag_eq.
Qed.

(** Parsing a CPU request never panics (the unreachable policy is
    unreachable), and an accepted request is for at least one CPU. *)
Theorem parse_cpu_request_total s :
  exists r, parse_cpu_request s = Ret r /\
    forall cr, r = Ok cr -> cpu_request_valid cr.
Proof.
  unfold parse_cpu_request. rewrite all_consuming_eq. unfold p_cpu_request.
  rewrite alt_cons, pmap_eq, tag_eq, alt_one, map_res_eq, tuple2_eq.
  destruct (strip_prefix "all" s) as [[|c rest]|]; simpl.
  1, 2: eexists; (split; [done|]); by intros ? [= <-].
  destruct (p_u32_total s) as (r & Hr & Hcase). rewrite Hr. simpl.
  destruct r as [[s1 n]|[e|e|e]]; simpl; [|by eexists|done..].
  apply p_u32_sound in Hr as (t & -> & Hn%number_text_u32 & _). unfold is_u32 in Hn.
  destruct (p_policy_total s1) as (s2 & o & -> & Ho). simpl.
  assert (exists r, cpu_request_of (n, o) = Ret r /\ forall cr, r = Ok cr -> cpu_request_valid cr)
    as (r & Hrun & Hvalid).
  { unfold cpu_request_of. destruct (Z.eqb_spec n 0); [by eexists|].
    destruct o as [p|]; [|eexists; split; [done|]; intros ? [= <-]; simpl; lia].
    repeat (apply elem_of_cons in Ho as [->|Ho];
      [eexists; split; [done|]; intros ? [= <-]; simpl; lia|]). by apply elem_of_nil in Ho. }
  rewrite Hrun. simpl. destruct r as [cr|e]; simpl; [|by eexists].
  destruct s2; simpl; eexists; (split; [done|]); intros ? [= <-]. by apply Hvalid.
Qed.

End requests_spec.

(** ** Properties of CPU detection *)

(** An element of a CPU list as the kernel prints it, and its ids. *)
Inductive cpu_item_text : string -> list Z -> Prop :=
| cpu_item_one t v : number_text t v -> cpu_item_text t [v]
| cpu_item_to t u v w :
    number_text t v -> number_text u w -> cpu_item_text (t +:+ "-" +:+ u) (range_inclusive v w).

(** A CPU list, possibly ended by a newline. *)
Definition cpulist_text (s : string) (ids : list Z) : Prop :=
  exists t ls nl, s = t +:+ nl /\ list_text (fun u => u = ",") cpu_item_text t ls /\
    (nl = "" \/ nl = String (ascii_of_nat 10) "") /\ ids = concat ls.

(** What may follow an element. *)
Definition cpu_follow (rest : string) : Prop :=
  match rest with
  | EmptyString => True
  | String c _ => c = ","%char \/ c = ascii_of_nat 10
  end.

Section detection.
Context `{Nom}.

Lemma cpu_follow_stops rest :
  cpu_follow rest -> stops is_digit_or_underscore rest /\ stops is_space rest /\
    strip_prefix "-" rest = None.
Proof. destruct rest; simpl; [done|]. by intros [->| ->]. Qed.

Lemma space0_stops rest : stops is_space rest -> space0 rest = Ret (Ok (rest, "")).
Proof.
  intros Hs.
  rewrite space0_eq. assert (Hr := str_span_app is_space "" rest eq_refl Hs).
  change ("" +:+ rest) with rest in Hr. by rewrite Hr.
Qed.

Lemma number_space t v rest :
  number_text t v -> stops is_digit_or_underscore rest -> stops is_space rest ->
  terminated p_u32 space0 (t +:+ rest) = Ret (Ok (rest, v)).
Proof.
  intros Ht Hd Hs. rewrite terminated_eq.
  erewrite and_then_ok by (by apply p_u32_complete). by rewrite space0_stops.
Qed.

Lemma number_text_stops t v rest : number_text t v -> stops is_space (t +:+ rest).
Proof.
  intros [c s n Hc _ _ _]. change (String c s +:+ rest) with (String c (s +:+ rest)). simpl.
  unfold is_dec_digit, is_space in *. apply andb_true_iff in Hc as [Hc%Nat.leb_le _].
  apply orb_false_iff. split; apply Nat.eqb_neq; lia.
Qed.

Lemma terminated_consuming {A B} (p : parser ErrorKind A) (q : parser ErrorKind B) :
  consuming p -> (forall s rest b, q s = Ret (Ok (rest, b)) ->
    (String.length rest <= String.length s)%nat) ->
  consuming (terminated p q).
Proof.
  intros Hp Hq s rest a. rewrite terminated_eq.
  intros (s1 & b & Hb & Hr)%and_then_inv. apply and_then_inv in Hr as (s2 & c & Hc & Hr).
  simplify_eq. apply Hp in Hb. apply Hq in Hc. lia.
Qed.

Lemma space0_length s rest b :
  space0 s = Ret (Ok (rest, b)) -> (String.length rest <= String.length s)%nat.
Proof.
  rewrite space0_eq. destruct (str_span_spec is_space s) as (Hs & _).
  destruct (str_span is_space s) as [a r]. simpl in Hs. intros. simplify_eq.
  rewrite length_app_str. lia.
Qed.

Lemma p_cpu_range_consuming : consuming p_cpu_range.
Proof.
  intros s rest l. unfold p_cpu_range. rewrite map_res_eq, tuple2_eq.
  intros (s1 & [u v] & Hp & Hr)%and_then_inv. simpl in Hr. simplify_eq.
  apply and_then_inv in Hp as (s2 & u' & Hu & Hp). apply and_then_inv in Hp as (s3 & o & Ho & Hp).
  simplify_eq.
  apply (terminated_consuming p_u32 space0 p_u32_consuming space0_length) in Hu.
  apply opt_parses in Ho. destruct v as [v|]; [|naive_solver lia].
  apply (terminated_consuming _ space0) in Ho; [lia| |apply space0_length].
  intros x y z. rewrite preceded_eq. intros (x1 & d & Hd & Hx)%and_then_inv.
  apply p_u32_consuming in Hx. rewrite tuple2_eq in Hd.
  apply and_then_inv in Hd as (x2 & d' & Hd' & Hd). apply and_then_inv in Hd as (x3 & d3 & Hd3 & Hd).
  simplify_eq. apply space0_length in Hd3.
  apply (tag_consuming "-" ltac:(done)) in Hd'. lia.
Qed.

Lemma p_cpu_range_complete : complete p_cpu_range cpu_item_text cpu_follow.
Proof.
  intros s l rest Hl Hrest. destruct (cpu_follow_stops rest Hrest) as (Hd & Hs & Hdash).
  unfold parses, p_cpu_range. rewrite map_res_eq, tuple2_eq.
  destruct Hl as [t v Hv|t u v w Hv Hw].
  - erewrite (and_then_ok (terminated _ _ _)) by (by apply number_space).
    erewrite (and_then_ok (opt _ _)).
    2: { apply opt_none. unfold rejects. rewrite terminated_eq, preceded_eq, tuple2_eq, tag_eq.
         rewrite Hdash. simpl. eauto. }
    simpl. unfold range_inclusive. by replace (v - v + 1) with 1 by lia.
  - rewrite !app_str_assoc.
    erewrite (and_then_ok (terminated _ _ _)) by (by apply number_space).
    erewrite (and_then_ok (opt _ _)).
    2: { apply opt_some. unfold parses. rewrite terminated_eq, preceded_eq, tuple2_eq.
         erewrite (and_then_ok (tag _ _)) by apply parses_tag.
         rewrite space0_stops by (by eapply number_text_stops). cbn [and_then mbind outcome_bind].
         rewrite p_u32_complete by done. cbn [and_then mbind outcome_bind].
         by rewrite space0_stops. }
    done.
Qed.

Lemma parse_range_text s ids : cpulist_text s ids -> parse_range s = Ret (Ok ids).
Proof.
  intros (t & ls & nl & -> & Hl & Hnl & ->). unfold parse_range. rewrite all_consuming_eq.
  rewrite terminated_eq. unfold p_cpu_ranges.
  assert (Hp : parses (separated_list1 (terminated (tag ",") space0) p_cpu_range)
    (t +:+ nl) nl ls).
  { eapply (separated_list1_complete _ _
      (terminated_consuming _ _ (tag_consuming "," ltac:(done)) space0_length)
      p_cpu_range_consuming (fun u => u = ",") cpu_item_text cpu_follow
      (fun rest => rest = "" \/ rest = String (ascii_of_nat 10) "")).
    - apply p_cpu_range_complete.
    - intros u v l rest -> Hv. exists ",". unfold parses. rewrite terminated_eq.
      erewrite and_then_ok by apply parses_tag.
      rewrite space0_stops; [done|]. destruct Hv; rewrite ?app_str_assoc;
        by eapply number_text_stops.
    - intros u rest ->. by left.
    - intros rest Hrest. split; [destruct Hrest as [->| ->]; simpl; auto|].
      unfold rejects. rewrite terminated_eq, tag_eq. destruct Hrest as [->| ->]; simpl; eauto.
    - done.
    - done. }
  rewrite Hp. cbn [and_then mbind outcome_bind]. rewrite opt_eq, newline_eq.
  by destruct Hnl as [->| ->].
Qed.

(** On a machine whose kernel lists its NUMA nodes and the CPUs of each
    node, the detected resources have one group per node, in the order of the
    nodes, with exactly the CPUs of the node, whatever [num_cpus] reports. *)
Theorem detect_resource_numa new_with_socket_size read_to_string num_cpus possible nodes
    (text : Z -> string) (node_cpus : Z -> list Z) :
  read_to_string "/sys/devices/system/node/possible" = Ok possible ->
  cpulist_text possible nodes ->
  (forall n, n ∈ nodes ->
     read_to_string ("/sys/devices/system/node/node" +:+ to_string n +:+ "/cpulist") = Ok (text n)
     /\ cpulist_text (text n) (node_cpus n)) ->
  detect_resource new_with_socket_size read_to_string num_cpus =
    Ret (Ok {| cpus := node_cpus <$> nodes |}).
Proof.
  intros Hread Hpossible Hnodes. unfold detect_resource, read_linux_numa. rewrite Hread.
  rewrite (parse_range_text _ _ Hpossible). cbn [mbind outcome_bind].
  assert (Hloop : forall acc, read_numa_nodes read_to_string acc nodes
    = Ret (Ok (acc ++ (node_cpus <$> nodes)))).
  { clear Hpossible. induction nodes as [|n nodes IH]; intros acc; csimpl.
    - by rewrite app_nil_r.
    - destruct (Hnodes n) as [-> Ht]; [left|].
      rewrite (parse_range_text _ _ Ht). simpl. rewrite IH by set_solver. by rewrite <- app_assoc. }
  by rewrite Hloop.
Qed.

End detection.
