(* ===== verification/Messages.v ===== *)
(** * Messages and shared data types

    The data of [src/transfer/messages.rs], the data types of
    [src/server/job.rs] and [src/client/status.rs] they mention, the control
    messages of [src/stream/server/control.rs], and the interface of the
    external crate [tako] as the sources use it.

    Identifiers ([JobId], [JobTaskId], [JobTaskCount], [WorkerId]: [u32];
    [TakoTaskId]: [u64]), dates and durations are [Z]; paths, names and byte
    strings are [string]. *)

From S2P Require Import Prelude ArrayDef.

(** ** The external crate [tako] *)

(** [tako::messages::common::StdioDef], by the constructors that
    [stdio_to_cell] matches exhaustively. *)
Inductive StdioDef :=
| StdioNull
| StdioFile (path : string)
| StdioPipe.

(** [tako::messages::common::ProgramDefinition], by the fields of the struct
    literals in [submit_computation]. *)
Record ProgramDefinition := {
  pd_args : list string;
  pd_env : gmap string string;
  pd_stdout : StdioDef;
  pd_stderr : StdioDef;
  pd_cwd : option string
}.

(** [struct TaskBody] *)
Record TaskBody := {
  tb_program : ProgramDefinition;
  tb_pin : bool;
  tb_job_id : Z;
  tb_task_id : Z
}.

(** What the server uses of [tako]: opaque data, the validation of a resource
    request, and the serializer of task bodies ([None]: an error). *)
Class Tako := {
  ResourceRequest : Type;
  resources_validate : ResourceRequest -> bool;
  WorkerConfiguration : Type;
  TaskData : Type;
  serialize : TaskBody -> option TaskData
}.

(** ** Job data ([src/server/job.rs]) *)

(** [enum JobTaskState] *)
Inductive JobTaskState :=
| Waiting
| Running (worker start_date : Z)
| Finished (worker start_date end_date : Z)
| Failed (worker start_date end_date : Z) (error : string)
| Canceled.

#[global] Instance JobTaskState_eq_dec : EqDecision JobTaskState.
Proof. solve_decision. Defined.

(** [JobTaskState::get_worker] *)
Definition get_worker (s : JobTaskState) : option Z :=
  match s with
  | Running worker _ | Finished worker _ _ | Failed worker _ _ _ => Some worker
  | _ => None
  end.

(** [struct JobTaskInfo] *)
Record JobTaskInfo := {
  jti_state : JobTaskState;
  jti_task_id : Z
}.

(** [enum JobState] *)
Inductive JobState :=
| SingleTask (s : JobTaskState)
| ManyTasks (m : gmap Z JobTaskInfo).

(** [struct JobTaskCounters] *)
Record JobTaskCounters := {
  n_running_tasks : Z;
  n_finished_tasks : Z;
  n_failed_tasks : Z;
  n_canceled_tasks : Z
}.

#[global] Instance JobTaskCounters_eq_dec : EqDecision JobTaskCounters.
Proof. solve_decision. Defined.

(** [JobTaskCounters::default] *)
Definition counters_default : JobTaskCounters :=
  {| n_running_tasks := 0; n_finished_tasks := 0; n_failed_tasks := 0; n_canceled_tasks := 0 |}.

(** [Add for JobTaskCounters] *)
Definition counters_add `{Profile} (a b : JobTaskCounters) : outcome JobTaskCounters :=
  r ← u32_add (n_running_tasks a) (n_running_tasks b);
  f ← u32_add (n_finished_tasks a) (n_finished_tasks b);
  e ← u32_add (n_failed_tasks a) (n_failed_tasks b);
  c ← u32_add (n_canceled_tasks a) (n_canceled_tasks b);
  Ret {| n_running_tasks := r; n_finished_tasks := f;
         n_failed_tasks := e; n_canceled_tasks := c |}.

(** [JobTaskCounters::n_waiting_tasks] *)
Definition n_waiting_tasks `{Profile} (c : JobTaskCounters) (n_tasks : Z) : outcome Z :=
  a ← u32_sub n_tasks (n_running_tasks c);
  b ← u32_sub a (n_finished_tasks c);
  d ← u32_sub b (n_failed_tasks c);
  u32_sub d (n_canceled_tasks c).

(** [enum Status] ([src/client/status.rs]) *)
Inductive Status :=
| SWaiting
| SRunning
| SFinished
| SFailed
| SCanceled.

#[global] Instance Status_eq_dec : EqDecision Status.
Proof. solve_decision. Defined.

(** [enum JobType] *)
Inductive JobType :=
| Simple
| Array (a : IntArray).

(** [enum Selector] *)
Inductive Selector :=
| SelAll
| SelLastN (n : Z)
| SelSpecific (a : IntArray).

(** [enum LostWorkerReasonInfo] *)
Inductive LostWorkerReasonInfo :=
| InfoStopped
| InfoConnectionLost
| InfoHeartbeatLost
| InfoIdleTimeout.

(** [struct WorkerExitInfo] *)
Record WorkerExitInfo := {
  ended_at : Z;
  reason : LostWorkerReasonInfo
}.

(** ** Messages that mention [tako] data *)

Section messages.
Context `{Tako}.

(** [struct SubmitRequest] *)
Record SubmitRequest := {
  sr_job_type : JobType;
  sr_name : string;
  sr_max_fails : option Z;
  sr_spec : ProgramDefinition;
  sr_resources : ResourceRequest;
  sr_pin : bool;
  sr_entries : option (list string);
  sr_submit_dir : string;
  sr_priority : Z;
  sr_time_limit : option Z;
  sr_log : option string
}.

(** [struct ResubmitRequest] *)
Record ResubmitRequest := {
  rr_job_id : Z;
  rr_status : option (list Status)
}.

(** [enum FromClientMessage] with the payloads of its request structs *)
Inductive FromClientMessage :=
| Submit (r : SubmitRequest)
| Resubmit (r : ResubmitRequest)
| Cancel (selector : Selector)
| JobDetailRequest (selector : Selector) (include_tasks : bool)
| JobInfoRequest (selector : Selector)
| WorkerList
| WorkerInfoRequest (worker_id : Z)
| Stats
| StopWorker (selector : Selector)
| Stop.

(** [enum CancelJobResponse] *)
Inductive CancelJobResponse :=
| CJCanceled (ids : list Z) (already_finished : Z)
| CJInvalidJob
| CJFailed (message : string).

(** [enum StopWorkerResponse] *)
Inductive StopWorkerResponse :=
| SWStopped
| SWAlreadyStopped
| SWInvalidWorker
| SWFailed (message : string).

(** [struct JobInfo] *)
Record JobInfo := {
  ji_id : Z;
  ji_name : string;
  ji_n_tasks : Z;
  ji_counters : JobTaskCounters;
  ji_resources : ResourceRequest
}.

(** [struct JobDetail] *)
Record JobDetail := {
  jd_info : JobInfo;
  jd_job_type : JobType;
  jd_program_def : ProgramDefinition;
  jd_tasks : list JobTaskInfo;
  jd_resources : ResourceRequest;
  jd_pin : bool;
  jd_max_fails : option Z;
  jd_priority : Z;
  jd_time_limit : option Z;
  jd_submission_date : Z;
  jd_completion_date_or_now : Z
}.

(** [struct WorkerInfo] *)
Record WorkerInfo := {
  wi_id : Z;
  wi_configuration : WorkerConfiguration;
  wi_ended : option WorkerExitInfo
}.

(** [struct StreamStats] *)
Record StreamStats := {
  st_connections : list string;
  st_registrations : list (Z * string);
  st_files : list string
}.

(** [enum ToClientMessage] *)
Inductive ToClientMessage :=
| JobInfoResponse (jobs : list JobInfo)
| JobDetailResponse (jobs : list (Z * option JobDetail))
| SubmitResponse (job : JobDetail)
| WorkerListResponse (workers : list WorkerInfo)
| WorkerInfoResponse (w : option WorkerInfo)
| StatsResponse (s : StreamStats)
| StopWorkerResponseMsg (r : list (Z * StopWorkerResponse))
| CancelJobResponseMsg (r : list (Z * CancelJobResponse))
| ErrorMsg (message : string).

(** ** Gateway messages of [tako] (the constructors the sources use) *)

Record TaskDef := {
  td_id : Z;
  td_resources : ResourceRequest;
  td_n_outputs : Z;
  td_time_limit : option Z;
  td_type_id : Z;
  td_body : TaskData;
  td_keep : bool;
  td_observe : bool;
  td_priority : Z
}.

Inductive FromGatewayMessage :=
| CancelTasks (tasks : list Z)
| NewTasks (tasks : list TaskDef)
| StopWorkerReq (worker_id : Z).

Inductive TaskState :=
| TSInvalid
| TSWaiting
| TSRunning (worker : Z)
| TSFinished.

Inductive LostWorkerReason :=
| LWStopped
| LWConnectionLost
| LWHeartbeatLost
| LWIdleTimeout.

Inductive ToGatewayMessage :=
| TaskUpdateMsg (id : Z) (state : TaskState)
| TaskFailedMsg (id : Z) (message : string)
| NewWorkerMsg (worker_id : Z) (configuration : WorkerConfiguration)
| LostWorkerMsg (worker_id : Z) (running_tasks : list Z) (reason : LostWorkerReason)
| NewTasksResponse
| CancelTasksResponse (cancelled_tasks : list Z)
| WorkerStopped
| GatewayError (message : string)
| OtherResponse.

End messages.

(** [enum StreamServerControlMessage], as far as the server sends it: the
    response channels are left out. *)
Inductive StreamCtl :=
| RegisterStream (job_id : Z) (path : string)
| UnregisterStream (job_id : Z)
| StatsRequest.

(** ** The interface of the stream server *)

(** What the server relies on: the set of jobs registered for streaming, as
    the control messages change it; a job is registered at most once and
    unregistered only when it is registered. *)
Definition reg_step (regs : gset Z) (m : StreamCtl) : option (gset Z) :=
  match m with
  | RegisterStream id _ => if decide (id ∈ regs) then None else Some ({[id]} ∪ regs)
  | UnregisterStream id => if decide (id ∈ regs) then Some (regs ∖ {[id]}) else None
  | StatsRequest => Some regs
  end.

Fixpoint reg_run (regs : gset Z) (ms : list StreamCtl) : option (gset Z) :=
  match ms with
  | [] => Some regs
  | m :: ms' => regs' ← reg_step regs m; reg_run regs' ms'
  end.

(** A stream server implements the protocol when it accepts every message that
    the protocol allows. *)
Class StreamCtlServer (R : Type) := {
  ctl_apply : R -> StreamCtl -> outcome R;
  registered : R -> gset Z;
  ctl_apply_ok : forall r m regs, reg_step (registered r) m = Some regs ->
    exists r', ctl_apply r m = Ret r' /\ registered r' = regs
}.

Lemma reg_run_app regs ms1 ms2 :
  reg_run regs (ms1 ++ ms2) = (regs' ← reg_run regs ms1; reg_run regs' ms2).
Proof.
  revert regs. induction ms1 as [|m ms IH]; intros regs; simpl; [done|].
  destruct (reg_step regs m); simpl; [apply IH|done].
Qed.

Lemma ctl_run_ok `{StreamCtlServer R} r ms regs :
  reg_run (registered r) ms = Some regs ->
  exists r', foldM ctl_apply r ms = Ret r' /\ registered r' = regs.
Proof.
  revert r. induction ms as [|m ms IH]; intros r Hrun; simpl in *.
  - simplify_eq. eauto.
  - destruct (reg_step (registered r) m) as [regs'|] eqn:E; simpl in Hrun; [|done].
    apply ctl_apply_ok in E as (r1 & -> & <-). simpl. eauto.
Qed.

(** ** Helpers on statuses *)

(** [task_status] ([src/client/status.rs]) *)
Definition task_status (s : JobTaskState) : Status :=
  match s with
  | Waiting => SWaiting
  | Running _ _ => SRunning
  | Finished _ _ _ => SFinished
  | Failed _ _ _ _ => SFailed
  | Canceled => SCanceled
  end.
