(* ===== verification/Job.v ===== *)
(** * Jobs: [src/server/job.rs]

    A job, its task table, its counters and its operations.  The clock
    ([Utc::now]) is an argument [now] of the operations that read it; messages
    sent to the stream server through the [Backend] are returned. *)

From S2P Require Import Prelude ArrayDef Messages.

Section job.
Context `{Profile} `{Tako}.

(** ** Data *)

(** [struct Job] *)
Record Job := {
  job_id : Z;
  base_task_id : Z;
  max_fails : option Z;
  counters : JobTaskCounters;
  job_state : JobState;
  job_log : option string;
  job_type : JobType;
  job_name : string;
  program_def : ProgramDefinition;
  job_resources : ResourceRequest;
  job_pin : bool;
  job_entries : option (list string);
  job_priority : Z;
  job_time_limit : option Z;
  submission_date : Z;
  completion_date : option Z
}.

(** Assignments to the mutable fields. *)
Definition with_state (j : Job) (s : JobState) : Job :=
  {| job_id := job_id j; base_task_id := base_task_id j; max_fails := max_fails j;
     counters := counters j; job_state := s; job_log := job_log j; job_type := job_type j;
     job_name := job_name j; program_def := program_def j; job_resources := job_resources j;
     job_pin := job_pin j; job_entries := job_entries j; job_priority := job_priority j;
     job_time_limit := job_time_limit j; submission_date := submission_date j;
     completion_date := completion_date j |}.

Definition with_counters (j : Job) (c : JobTaskCounters) : Job :=
  {| job_id := job_id j; base_task_id := base_task_id j; max_fails := max_fails j;
     counters := c; job_state := job_state j; job_log := job_log j; job_type := job_type j;
     job_name := job_name j; program_def := program_def j; job_resources := job_resources j;
     job_pin := job_pin j; job_entries := job_entries j; job_priority := job_priority j;
     job_time_limit := job_time_limit j; submission_date := submission_date j;
     completion_date := completion_date j |}.

Definition with_completion (j : Job) (d : option Z) : Job :=
  {| job_id := job_id j; base_task_id := base_task_id j; max_fails := max_fails j;
     counters := counters j; job_state := job_state j; job_log := job_log j;
     job_type := job_type j; job_name := job_name j; program_def := program_def j;
     job_resources := job_resources j; job_pin := job_pin j; job_entries := job_entries j;
     job_priority := job_priority j; job_time_limit := job_time_limit j;
     submission_date := submission_date j; completion_date := d |}.

(** Assignments to single counters. *)
Definition set_n_running (c : JobTaskCounters) (n : Z) : JobTaskCounters :=
  {| n_running_tasks := n; n_finished_tasks := n_finished_tasks c;
     n_failed_tasks := n_failed_tasks c; n_canceled_tasks := n_canceled_tasks c |}.
Definition set_n_finished (c : JobTaskCounters) (n : Z) : JobTaskCounters :=
  {| n_running_tasks := n_running_tasks c; n_finished_tasks := n;
     n_failed_tasks := n_failed_tasks c; n_canceled_tasks := n_canceled_tasks c |}.
Definition set_n_failed (c : JobTaskCounters) (n : Z) : JobTaskCounters :=
  {| n_running_tasks := n_running_tasks c; n_finished_tasks := n_finished_tasks c;
     n_failed_tasks := n; n_canceled_tasks := n_canceled_tasks c |}.
Definition set_n_canceled (c : JobTaskCounters) (n : Z) : JobTaskCounters :=
  {| n_running_tasks := n_running_tasks c; n_finished_tasks := n_finished_tasks c;
     n_failed_tasks := n_failed_tasks c; n_canceled_tasks := n |}.

(** ** Operations *)

(** The task table that [Job::new] builds. *)
Definition initial_state (job_type : JobType) (base_task_id : Z) : outcome JobState :=
  match job_type with
  | Simple => Ret (SingleTask Waiting)
  | Array m =>
      n ← id_count m;
      if n =? 1 then Ret (SingleTask Waiting)
      else
        ids ← IntArray_iter m;
        entries ← mapM (fun '(i, task_id) =>
            tako_id ← u64_add base_task_id (Z.of_nat i);
            Ret (tako_id, {| jti_state := Waiting; jti_task_id := task_id |}))
          (imap pair ids);
        Ret (ManyTasks (collect_map entries))
  end.

(** [Job::new] *)
Definition Job_new (job_type : JobType) (job_id base_task_id : Z) (name : string)
    (program_def : ProgramDefinition) (resources : ResourceRequest) (pin : bool)
    (max_fails : option Z) (entries : option (list string)) (priority : Z)
    (time_limit : option Z) (job_log : option string) (now : Z) : outcome Job :=
  state ← initial_state job_type base_task_id;
  Ret {| job_type := job_type; job_id := job_id; counters := counters_default;
         base_task_id := base_task_id; job_name := name; job_state := state;
         program_def := program_def; job_resources := resources; job_pin := pin;
         max_fails := max_fails; job_entries := entries; job_priority := priority;
         job_log := job_log; job_time_limit := time_limit; submission_date := now;
         completion_date := None |}.

(** [Job::n_tasks] *)
Definition n_tasks (j : Job) : Z :=
  match job_state j with
  | SingleTask _ => 1
  | ManyTasks s => as_u32 (Z.of_nat (size s))
  end.

(** [Job::make_job_info] *)
Definition make_job_info (j : Job) : JobInfo :=
  {| ji_id := job_id j; ji_name := job_name j; ji_n_tasks := n_tasks j;
     ji_counters := counters j; ji_resources := job_resources j |}.

(** [Job::make_job_detail] *)
Definition make_job_detail (j : Job) (include_tasks : bool) (now : Z) : JobDetail :=
  {| jd_info := make_job_info j;
     jd_job_type := job_type j;
     jd_program_def := program_def j;
     jd_resources := job_resources j;
     jd_tasks :=
       if include_tasks then
         match job_state j with
         | SingleTask s => [{| jti_task_id := 0; jti_state := s |}]
         | ManyTasks m => map_values m
         end
       else [];
     jd_pin := job_pin j;
     jd_max_fails := max_fails j;
     jd_priority := job_priority j;
     jd_time_limit := job_time_limit j;
     jd_submission_date := submission_date j;
     jd_completion_date_or_now := default now (completion_date j) |}.

(** [Job::is_terminated] *)
Definition is_terminated (j : Job) : outcome bool :=
  if n_running_tasks (counters j) =? 0 then
    w ← n_waiting_tasks (counters j) (n_tasks j);
    Ret (w =? 0)
  else Ret false.

(** [Job::get_task_state_mut]: the value read through the returned reference. *)
Definition get_task_state_mut (j : Job) (tako_task_id : Z) : outcome (Z * JobTaskState) :=
  match job_state j with
  | SingleTask s =>
      _ ← debug_assert (tako_task_id =? base_task_id j);
      Ret (0, s)
  | ManyTasks m =>
      state ← unwrap (m !! tako_task_id);
      Ret (jti_task_id state, jti_state state)
  end.

(** A write [*state = s] through the reference of [get_task_state_mut]. *)
Definition write_task_state (j : Job) (tako_task_id : Z) (s : JobTaskState) : Job :=
  match job_state j with
  | SingleTask _ => with_state j (SingleTask s)
  | ManyTasks m =>
      with_state j (ManyTasks (alter (fun info =>
        {| jti_state := s; jti_task_id := jti_task_id info |}) tako_task_id m))
  end.

(** [Job::iter_task_states], run to its end *)
Definition iter_task_states (j : Job) : list (Z * Z * JobTaskState) :=
  match job_state j with
  | SingleTask s => [(base_task_id j, 0, s)]
  | ManyTasks m => (fun '(k, v) => (k, jti_task_id v, jti_state v)) <$> map_to_list m
  end.

(** The tasks a cancellation asks for. *)
Definition is_unfinished (s : JobTaskState) : bool :=
  match s with
  | Waiting | Running _ _ => true
  | Finished _ _ _ | Failed _ _ _ _ | Canceled => false
  end.

(** [Job::non_finished_task_ids] *)
Definition non_finished_task_ids (j : Job) : list Z :=
  foldl (fun result '(tako_id, _, state) =>
    if is_unfinished state then result ++ [tako_id] else result) [] (iter_task_states j).

(** [Job::set_running_state] *)
Definition set_running_state (j : Job) (tako_task_id worker now : Z) : outcome Job :=
  '(_, state) ← get_task_state_mut j tako_task_id;
  match state with
  | Waiting =>
      let j := write_task_state j tako_task_id (Running worker now) in
      n ← u32_add (n_running_tasks (counters j)) 1;
      Ret (with_counters j (set_n_running (counters j) n))
  | _ => Ret j
  end.

(** [Job::check_termination], with the control messages it sends *)
Definition check_termination (j : Job) (now : Z) : outcome (Job * list StreamCtl) :=
  t ← is_terminated j;
  if (t : bool) then
    let j := with_completion j (Some now) in
    Ret (j, match job_log j with Some _ => [UnregisterStream (job_id j)] | None => [] end)
  else Ret (j, []).

(** [Job::set_finished_state] *)
Definition set_finished_state (j : Job) (tako_task_id now : Z) : outcome (Job * list StreamCtl) :=
  '(_, state) ← get_task_state_mut j tako_task_id;
  match state with
  | Running worker start_date =>
      let j := write_task_state j tako_task_id (Finished worker start_date now) in
      r ← u32_sub (n_running_tasks (counters j)) 1;
      let j := with_counters j (set_n_running (counters j) r) in
      f ← u32_add (n_finished_tasks (counters j)) 1;
      let j := with_counters j (set_n_finished (counters j) f) in
      check_termination j now
  | _ => Panic ExplicitPanic
  end.

(** [Job::set_waiting_state] *)
Definition set_waiting_state (j : Job) (tako_task_id : Z) : outcome Job :=
  '(_, state) ← get_task_state_mut j tako_task_id;
  _ ← assert (match state with Running _ _ => true | _ => false end);
  let j := write_task_state j tako_task_id Waiting in
  r ← u32_sub (n_running_tasks (counters j)) 1;
  Ret (with_counters j (set_n_running (counters j) r)).

(** [Job::set_failed_state] *)
Definition set_failed_state (j : Job) (tako_task_id : Z) (error : string) (now : Z)
    : outcome (Job * list StreamCtl) :=
  '(_, state) ← get_task_state_mut j tako_task_id;
  match state with
  | Running worker start_date =>
      let j := write_task_state j tako_task_id (Failed worker start_date now error) in
      r ← u32_sub (n_running_tasks (counters j)) 1;
      let j := with_counters j (set_n_running (counters j) r) in
      f ← u32_add (n_failed_tasks (counters j)) 1;
      let j := with_counters j (set_n_failed (counters j) f) in
      check_termination j now
  | _ => Panic ExplicitPanic
  end.

(** [Job::set_cancel_state]: the task id, the job and the messages sent *)
Definition set_cancel_state (j : Job) (tako_task_id now : Z) : outcome (Z * Job * list StreamCtl) :=
  '(task_id, old_state) ← get_task_state_mut j tako_task_id;
  let j := write_task_state j tako_task_id Canceled in
  _ ← assert (match old_state with Running _ _ | Waiting => true | _ => false end);
  j ← match old_state with
      | Running _ _ =>
          r ← u32_sub (n_running_tasks (counters j)) 1;
          Ret (with_counters j (set_n_running (counters j) r))
      | _ => Ret j
      end;
  c ← u32_add (n_canceled_tasks (counters j)) 1;
  let j := with_counters j (set_n_canceled (counters j) c) in
  '(j, msgs) ← check_termination j now;
  Ret (task_id, j, msgs).

(** ** Abstraction: a job as a table of task states *)

(** The abstract job: the state of every task, by its [tako] id. *)
Definition job_tasks (j : Job) : gmap Z JobTaskState :=
  match job_state j with
  | SingleTask s => {[base_task_id j := s]}
  | ManyTasks m => jti_state <$> m
  end.

(** The job-level task ids, [None] for a single-task job. *)
Definition job_shape (j : Job) : option (gmap Z Z) :=
  match job_state j with
  | SingleTask _ => None
  | ManyTasks m => Some (jti_task_id <$> m)
  end.

(** The task whose state [get_task_state_mut] reads: a single-task job does not
    look at the id in a release build. *)
Definition task_key (j : Job) (tako_task_id : Z) : Z :=
  match job_state j with
  | SingleTask _ => base_task_id j
  | ManyTasks _ => tako_task_id
  end.

(** Everything but the task table, the counters and the completion date. *)
Definition job_static (j : Job) : Job :=
  with_completion (with_counters (with_state j (SingleTask Waiting)) counters_default) None.

Definition is_waiting (s : JobTaskState) : bool := match s with Waiting => true | _ => false end.
Definition is_running (s : JobTaskState) : bool := match s with Running _ _ => true | _ => false end.
Definition is_finished (s : JobTaskState) : bool := match s with Finished _ _ _ => true | _ => false end.
Definition is_failed (s : JobTaskState) : bool := match s with Failed _ _ _ _ => true | _ => false end.
Definition is_canceled (s : JobTaskState) : bool := match s with Canceled => true | _ => false end.

(** Number of tasks whose state satisfies a test. *)
Definition count_st (p : JobTaskState -> bool) (m : gmap Z JobTaskState) : Z :=
  countb p (map_values m).

(** The counters a task table determines. *)
Definition counters_of (m : gmap Z JobTaskState) : JobTaskCounters :=
  {| n_running_tasks := count_st is_running m; n_finished_tasks := count_st is_finished m;
     n_failed_tasks := count_st is_failed m; n_canceled_tasks := count_st is_canceled m |}.

(** No task of the table can change any more. *)
Definition all_terminal (m : gmap Z JobTaskState) : bool := count_st is_unfinished m =? 0.

(** The message sent when the last task of a job ends. *)
Definition unregister_msgs (j : Job) : list StreamCtl :=
  match job_log j with Some _ => [UnregisterStream (job_id j)] | None => [] end.

(** The messages of a job that goes from [j] to [j']: the unregistration of its
    stream, when it completes on the way. *)
Definition completion_msgs (j j' : Job) : list StreamCtl :=
  match completion_date j, completion_date j' with
  | None, Some _ => unregister_msgs j
  | _, _ => []
  end.

(** ** Invariant *)

(** Well-formedness of the task table and the counters. *)
Record job_core_wf (j : Job) : Prop := {
  jw_base : 0 <= base_task_id j;
  jw_dom : forall k, is_Some (job_tasks j !! k) <->
    base_task_id j <= k < base_task_id j + Z.of_nat (size (job_tasks j));
  jw_size : Z.of_nat (size (job_tasks j)) < 2 ^ 32;
  jw_ids : forall m k t, job_shape j = Some m -> m !! k = Some t -> small_id t;
  jw_counters : counters j = counters_of (job_tasks j)
}.

(** The job invariant: the completion date is set exactly when the job has
    tasks and all of them ended. *)
Record job_wf (j : Job) : Prop := {
  jw_core : job_core_wf j;
  jw_completion : is_Some (completion_date j) <->
    job_tasks j <> ∅ /\ all_terminal (job_tasks j) = true
}.

(** The effect of an operation that moves task [k] to state [new]. *)
Record job_updated (j : Job) (k : Z) (new : JobTaskState) (j' : Job) (msgs : list StreamCtl)
    : Prop := {
  ju_wf : job_wf j';
  ju_tasks : job_tasks j' = <[k := new]> (job_tasks j);
  ju_static : job_static j' = job_static j;
  ju_shape : job_shape j' = job_shape j;
  ju_msgs : msgs = if all_terminal (job_tasks j') then unregister_msgs j' else []
}.

(** ** Lemmas: counting *)

Lemma count_st_insert p m k old new :
  m !! k = Some old ->
  count_st p (<[k := new]> m) =
    count_st p m + (if p new then 1 else 0) - (if p old then 1 else 0).
Proof.
  intros Hk. unfold count_st. rewrite <- (insert_delete_eq m k new).
  rewrite (countb_perm p _ _ (map_values_insert_new _ _ _ (lookup_delete_eq m k))).
  rewrite <- (countb_perm p _ _ (map_values_delete _ _ _ Hk)), !countb_cons. lia.
Qed.

Lemma length_map_values {A} (m : gmap Z A) : length (map_values m) = size m.
Proof. unfold map_values. by rewrite length_fmap, length_map_to_list. Qed.

Lemma count_st_bounds p m : 0 <= count_st p m <= Z.of_nat (size m).
Proof. unfold count_st. rewrite <- length_map_values. apply countb_bounds. Qed.

(** Every task is in exactly one class. *)
Lemma count_st_total m :
  count_st is_waiting m + count_st is_running m + count_st is_finished m
    + count_st is_failed m + count_st is_canceled m = Z.of_nat (size m).
Proof.
  unfold count_st. rewrite <- length_map_values.
  induction (map_values m) as [|s l IH]; [done|].
  rewrite !countb_cons. simpl length. destruct s; simpl; lia.
Qed.

Lemma count_st_unfinished m :
  count_st is_unfinished m = count_st is_waiting m + count_st is_running m.
Proof.
  unfold count_st. induction (map_values m) as [|s l IH]; [done|].
  rewrite !countb_cons. destruct s; simpl; lia.
Qed.

Lemma count_st_pos p m k s : m !! k = Some s -> p s = true -> 0 < count_st p m.
Proof.
  intros Hk Hp. unfold count_st.
  rewrite <- (countb_perm p _ _ (map_values_delete _ _ _ Hk)), countb_cons, Hp.
  pose proof (countb_bounds p (map_values (delete k m))). lia.
Qed.

Lemma countb_zero {A} (p : A -> bool) l : countb p l = 0 <-> forall x, x ∈ l -> p x = false.
Proof.
  induction l as [|x l IH].
  - split; [|done]. intros _ ? ?%not_elem_of_nil. done.
  - rewrite countb_cons. pose proof (countb_bounds p l). setoid_rewrite elem_of_cons.
    split.
    + intros Hc y [->|Hy]; [by destruct (p x); [lia|]|]. apply IH; [|done]. destruct (p x); lia.
    + intros Hl. rewrite (Hl x) by auto. rewrite (proj2 IH) by auto. lia.
Qed.

Lemma elem_of_map_values {A} (m : gmap Z A) x : x ∈ map_values m <-> exists k, m !! k = Some x.
Proof.
  unfold map_values. rewrite list_elem_of_fmap. split.
  - intros ([k y] & -> & Hk%elem_of_map_to_list). eauto.
  - intros [k Hk]. exists (k, x). by rewrite elem_of_map_to_list.
Qed.

Lemma all_terminal_spec m :
  all_terminal m = true <-> forall k s, m !! k = Some s -> is_unfinished s = false.
Proof.
  unfold all_terminal, count_st. rewrite Z.eqb_eq, countb_zero.
  setoid_rewrite elem_of_map_values. naive_solver.
Qed.

(** ** Lemmas: the task reference *)

Lemma get_task_state_inv j id t s :
  get_task_state_mut j id = Ret (t, s) -> job_tasks j !! task_key j id = Some s.
Proof.
  unfold get_task_state_mut, job_tasks, task_key. destruct (job_state j); intros; ret_inv.
  - apply lookup_singleton_eq.
  - rewrite lookup_fmap. by rewrite E.
Qed.

Lemma get_task_state_ok j id s :
  job_tasks j !! id = Some s ->
  task_key j id = id /\ exists t, get_task_state_mut j id = Ret (t, s).
Proof.
  unfold get_task_state_mut, job_tasks, task_key. destruct (job_state j) as [s'|m].
  - intros [-> ->]%lookup_singleton_Some. split; [done|]. exists 0. rewrite Z.eqb_refl.
    unfold debug_assert. by destruct debug_assertions.
  - rewrite lookup_fmap. destruct (m !! id) as [info|]; [|done]. intros [= <-]. eauto.
Qed.

Lemma write_task_state_tasks j id s :
  is_Some (job_tasks j !! task_key j id) ->
  job_tasks (write_task_state j id s) = <[task_key j id := s]> (job_tasks j).
Proof.
  unfold write_task_state, job_tasks, task_key. destruct (job_state j) as [s'|m]; simpl.
  - intros _. by rewrite insert_singleton_eq.
  - rewrite lookup_fmap. intros Hs. apply map_eq. intros k.
    rewrite lookup_fmap, lookup_alter, lookup_insert, lookup_fmap.
    case_decide as Hk; [|done]. subst k. destruct (m !! id); [done|]. by destruct Hs.
Qed.

Lemma write_task_state_shape j id s : job_shape (write_task_state j id s) = job_shape j.
Proof.
  unfold write_task_state, job_shape. destruct (job_state j) as [s'|m]; simpl; [done|].
  f_equal. apply map_eq. intros k. rewrite !lookup_fmap, lookup_alter.
  case_decide; [subst k|done]. by destruct (m !! id).
Qed.

Lemma write_task_state_static j id s :
  job_static (write_task_state j id s) = job_static j.
Proof. unfold write_task_state. by destruct (job_state j). Qed.

(** ** Lemmas: termination and the operations *)

Lemma n_tasks_wf j : job_core_wf j -> n_tasks j = Z.of_nat (size (job_tasks j)).
Proof.
  intros Hwf. pose proof (jw_size j Hwf) as Hs. revert Hs. unfold n_tasks, job_tasks.
  destruct (job_state j) as [s|m].
  - by rewrite map_size_singleton.
  - rewrite map_size_fmap. intros. apply as_u32_id. unfold is_u32. lia.
Qed.

Lemma n_waiting_tasks_wf j :
  job_core_wf j ->
  n_waiting_tasks (counters j) (n_tasks j) = Ret (count_st is_waiting (job_tasks j)).
Proof.
  intros Hwf. rewrite n_tasks_wf, (jw_counters j Hwf) by done.
  pose proof (jw_size j Hwf). set (m := job_tasks j) in *.
  pose proof (count_st_total m).
  pose proof (count_st_bounds is_waiting m). pose proof (count_st_bounds is_running m).
  pose proof (count_st_bounds is_finished m). pose proof (count_st_bounds is_failed m).
  pose proof (count_st_bounds is_canceled m).
  unfold n_waiting_tasks, counters_of. simpl.
  rewrite u32_sub_exact by lia. rewrite bind_ret.
  rewrite u32_sub_exact by lia. rewrite bind_ret.
  rewrite u32_sub_exact by lia. rewrite bind_ret.
  rewrite u32_sub_exact by lia. f_equal. lia.
Qed.

Lemma is_terminated_wf j :
  job_core_wf j -> is_terminated j = Ret (all_terminal (job_tasks j)).
Proof.
  intros Hwf. unfold is_terminated. rewrite n_waiting_tasks_wf by done. simpl.
  rewrite (jw_counters j Hwf). unfold all_terminal. rewrite count_st_unfinished. simpl.
  pose proof (count_st_bounds is_waiting (job_tasks j)).
  pose proof (count_st_bounds is_running (job_tasks j)).
  destruct (Z.eqb_spec (count_st is_running (job_tasks j)) 0) as [->|]; simpl.
  - by rewrite Z.add_0_r.
  - f_equal. symmetry. apply Z.eqb_neq. lia.
Qed.

(** A job whose task [k] is not over has no completion date. *)
Lemma job_unfinished_open j k s :
  job_wf j -> job_tasks j !! k = Some s -> is_unfinished s = true -> completion_date j = None.
Proof.
  intros Hwf Hk Hs. destruct (completion_date j) as [d|] eqn:E; [|done]. exfalso.
  destruct (proj1 (jw_completion j Hwf)) as [_ Hall]; [eauto|].
  rewrite all_terminal_spec in Hall. apply Hall in Hk. congruence.
Qed.

(** Replacing the state of a task and the counters accordingly keeps the core
    invariant. *)
Lemma update_core_wf j id old new :
  job_core_wf j -> job_tasks j !! task_key j id = Some old ->
  job_core_wf (with_counters (write_task_state j id new)
    (counters_of (<[task_key j id := new]> (job_tasks j)))).
Proof.
  intros Hwf Hk. set (j' := with_counters _ _).
  assert (Ht : job_tasks j' = <[task_key j id := new]> (job_tasks j))
    by (apply write_task_state_tasks; eauto).
  assert (Hb : base_task_id j' = base_task_id j)
    by (unfold j', write_task_state; by destruct (job_state j)).
  assert (Hsz : size (job_tasks j') = size (job_tasks j))
    by (rewrite Ht; by apply map_size_insert_Some).
  split.
  - rewrite Hb. apply Hwf.
  - intros k. rewrite Hb, Hsz, <- (jw_dom j Hwf), Ht, lookup_insert_is_Some'.
    split; [intros [<-|]|]; eauto.
  - rewrite Hsz. apply Hwf.
  - intros m k t Hm. apply (jw_ids j Hwf). by rewrite <- Hm, <- (write_task_state_shape j id new).
  - by rewrite Ht.
Qed.

(** The counters after an update, field by field. *)
Lemma counters_of_insert m k old new :
  m !! k = Some old ->
  counters_of (<[k := new]> m) =
    {| n_running_tasks := count_st is_running m
         + (if is_running new then 1 else 0) - (if is_running old then 1 else 0);
       n_finished_tasks := count_st is_finished m
         + (if is_finished new then 1 else 0) - (if is_finished old then 1 else 0);
       n_failed_tasks := count_st is_failed m
         + (if is_failed new then 1 else 0) - (if is_failed old then 1 else 0);
       n_canceled_tasks := count_st is_canceled m
         + (if is_canceled new then 1 else 0) - (if is_canceled old then 1 else 0) |}.
Proof. intros Hk. unfold counters_of. by rewrite !(count_st_insert _ _ _ _ _ Hk). Qed.

(** [check_termination] on a job with tasks and no completion date. *)
Lemma check_termination_wf j now :
  job_core_wf j -> job_tasks j <> ∅ -> completion_date j = None ->
  exists j' msgs, check_termination j now = Ret (j', msgs) /\ job_wf j' /\
    job_tasks j' = job_tasks j /\ job_static j' = job_static j /\ job_shape j' = job_shape j /\
    msgs = (if all_terminal (job_tasks j) then unregister_msgs j else []) /\
    completion_date j' = (if all_terminal (job_tasks j) then Some now else None).
Proof.
  intros Hwf Hne Hc. unfold check_termination. rewrite is_terminated_wf by done. simpl.
  destruct (all_terminal (job_tasks j)) eqn:Hall.
  - eexists _, _. split; [done|]. split_and!; try done. split; [by destruct Hwf|].
    simpl. split; [|by eauto]. split; [done|]. done.
  - eexists _, _. split; [done|]. split_and!; try done. split; [done|].
    rewrite Hc. split; [by intros []|]. intros [_ ?]. congruence.
Qed.

Lemma counters_write j id s : counters (write_task_state j id s) = counters j.
Proof. unfold write_task_state. by destruct (job_state j). Qed.

Lemma completion_write j id s : completion_date (write_task_state j id s) = completion_date j.
Proof. unfold write_task_state. by destruct (job_state j). Qed.

Lemma with_counters_twice j a b : with_counters (with_counters j a) b = with_counters j b.
Proof. done. Qed.

(** The common tail of the operations that end a task. *)
Lemma end_task_update j id old new now c :
  job_wf j -> job_tasks j !! task_key j id = Some old -> is_unfinished old = true ->
  c = counters_of (<[task_key j id := new]> (job_tasks j)) ->
  exists j' msgs, check_termination (with_counters (write_task_state j id new) c) now
      = Ret (j', msgs) /\ job_updated j (task_key j id) new j' msgs.
Proof.
  intros Hwf Hk Hu ->. set (j1 := with_counters _ _).
  assert (Ht : job_tasks j1 = <[task_key j id := new]> (job_tasks j))
    by (apply write_task_state_tasks; eauto).
  destruct (check_termination_wf j1 now) as (j' & msgs & -> & Hwf' & Ht' & Hst & Hsh & Hm & _).
  - eapply update_core_wf; [apply Hwf|done].
  - rewrite Ht. apply insert_non_empty.
  - unfold j1. simpl. rewrite completion_write. by eapply job_unfinished_open.
  - exists j', msgs. split; [done|]. split; [done|congruence| | |].
    + rewrite Hst. apply write_task_state_static.
    + rewrite Hsh. apply write_task_state_shape.
    + rewrite Ht'. rewrite Hm. unfold unregister_msgs, j1, write_task_state. simpl.
      assert (Hl : job_log j' = job_log j /\ job_id j' = job_id j).
      { assert (job_static j' = job_static j) as Heq
          by (rewrite Hst; apply write_task_state_static).
        split; [exact (f_equal job_log Heq)|exact (f_equal job_id Heq)]. }
      destruct Hl as [-> ->]. by destruct (job_state j).
Qed.

(** The common tail of the operations that do not end a task. *)
Lemma move_task_update j id old new c :
  job_wf j -> job_tasks j !! task_key j id = Some old ->
  is_unfinished old = true -> is_unfinished new = true ->
  c = counters_of (<[task_key j id := new]> (job_tasks j)) ->
  job_updated j (task_key j id) new (with_counters (write_task_state j id new) c) [].
Proof.
  intros Hwf Hk Hu Hn ->. set (j1 := with_counters _ _).
  assert (Ht : job_tasks j1 = <[task_key j id := new]> (job_tasks j))
    by (apply write_task_state_tasks; eauto).
  assert (Hall : all_terminal (job_tasks j1) = false).
  { apply not_true_iff_false. rewrite all_terminal_spec, Ht. intros Hall.
    specialize (Hall (task_key j id) new). rewrite lookup_insert_eq in Hall.
    rewrite Hall in Hn; done. }
  split; [split| | | |].
  - eapply update_core_wf; [apply Hwf|done].
  - rewrite Hall. unfold j1. simpl. rewrite completion_write.
    rewrite (job_unfinished_open j _ _ Hwf Hk Hu). split; [by intros []|by intros [_ ?]].
  - done.
  - apply write_task_state_static.
  - apply write_task_state_shape.
  - by rewrite Hall.
Qed.

(** Bounds on the counters of a job. *)
Lemma counters_bounds j p :
  job_wf j -> 0 <= count_st p (job_tasks j) < 2 ^ 32.
Proof.
  intros Hwf. pose proof (jw_size j (jw_core j Hwf)).
  pose proof (count_st_bounds p (job_tasks j)). lia.
Qed.

(** A counter with room: the task [k] is not counted in it. *)
Lemma counters_room j p k s :
  job_wf j -> job_tasks j !! k = Some s -> p s = false ->
  0 <= count_st p (job_tasks j) + 1 < 2 ^ 32.
Proof.
  intros Hwf Hk Hp. pose proof (count_st_bounds p (job_tasks j)).
  pose proof (jw_size j (jw_core j Hwf)). split; [lia|].
  enough (count_st p (job_tasks j) < Z.of_nat (size (job_tasks j))) by lia.
  unfold count_st. rewrite <- length_map_values.
  rewrite <- (countb_perm p _ _ (map_values_delete _ _ _ Hk)).
  rewrite <- (Permutation_length (map_values_delete _ _ _ Hk)).
  rewrite countb_cons, Hp. simpl length.
  pose proof (countb_bounds p (map_values (delete k (job_tasks j)))). lia.
Qed.

Section operations.
Variables (j : Job) (id t : Z) (s : JobTaskState) (now : Z).
Hypothesis Hwf : job_wf j.
Hypothesis Hget : get_task_state_mut j id = Ret (t, s).

Let Hk : job_tasks j !! task_key j id = Some s := get_task_state_inv j id t s Hget.

Ltac counters_eq :=
  rewrite (counters_of_insert _ _ _ _ Hk); unfold set_n_running, set_n_finished,
    set_n_failed, set_n_canceled; simpl; f_equal; lia.

Lemma set_running_state_get worker :
  match s with
  | Waiting => exists j', set_running_state j id worker now = Ret j' /\
      job_updated j (task_key j id) (Running worker now) j' []
  | _ => set_running_state j id worker now = Ret j
  end.
Proof.
  unfold set_running_state. rewrite Hget. simpl. destruct s eqn:Es; try done.
  rewrite counters_write, (jw_counters j (jw_core j Hwf)). simpl n_running_tasks.
  rewrite u32_add_exact by (eapply counters_room; eauto).
  eexists. split; [done|]. eapply move_task_update; [done|done|done|done|]. counters_eq.
Qed.

Lemma set_waiting_state_get :
  match s with
  | Running _ _ => exists j', set_waiting_state j id = Ret j' /\
      job_updated j (task_key j id) Waiting j' []
  | _ => set_waiting_state j id = Panic AssertionFailed
  end.
Proof.
  unfold set_waiting_state. rewrite Hget. simpl. destruct s eqn:Es; try done. simpl.
  rewrite counters_write, (jw_counters j (jw_core j Hwf)). simpl n_running_tasks.
  pose proof (counters_bounds j is_running Hwf).
  pose proof (count_st_pos is_running _ _ _ Hk eq_refl).
  rewrite u32_sub_exact by lia.
  eexists. split; [done|]. eapply move_task_update; [done|done|done|done|]. counters_eq.
Qed.

Lemma set_finished_state_get :
  match s with
  | Running worker start_date => exists j' msgs, set_finished_state j id now = Ret (j', msgs) /\
      job_updated j (task_key j id) (Finished worker start_date now) j' msgs
  | _ => set_finished_state j id now = Panic ExplicitPanic
  end.
Proof.
  unfold set_finished_state. rewrite Hget. simpl. destruct s eqn:Es; try done.
  rewrite counters_write, (jw_counters j (jw_core j Hwf)). simpl n_running_tasks.
  pose proof (counters_bounds j is_running Hwf).
  pose proof (count_st_pos is_running _ _ _ Hk eq_refl).
  rewrite u32_sub_exact by lia. simpl.
  rewrite u32_add_exact by (eapply counters_room; eauto).
  eapply end_task_update; [done|done|done|]. counters_eq.
Qed.

Lemma set_failed_state_get error :
  match s with
  | Running worker start_date => exists j' msgs, set_failed_state j id error now = Ret (j', msgs) /\
      job_updated j (task_key j id) (Failed worker start_date now error) j' msgs
  | _ => set_failed_state j id error now = Panic ExplicitPanic
  end.
Proof.
  unfold set_failed_state. rewrite Hget. simpl. destruct s eqn:Es; try done.
  rewrite counters_write, (jw_counters j (jw_core j Hwf)). simpl n_running_tasks.
  pose proof (counters_bounds j is_running Hwf).
  pose proof (count_st_pos is_running _ _ _ Hk eq_refl).
  rewrite u32_sub_exact by lia. simpl.
  rewrite u32_add_exact by (eapply counters_room; eauto).
  eapply end_task_update; [done|done|done|]. counters_eq.
Qed.

Lemma set_cancel_state_get :
  match s with
  | Waiting | Running _ _ => exists j' msgs, set_cancel_state j id now = Ret (t, j', msgs) /\
      job_updated j (task_key j id) Canceled j' msgs
  | _ => set_cancel_state j id now = Panic AssertionFailed
  end.
Proof.
  unfold set_cancel_state. rewrite Hget. simpl. destruct s eqn:Es; try done; simpl.
  - rewrite counters_write, (jw_counters j (jw_core j Hwf)). simpl n_canceled_tasks.
    rewrite u32_add_exact by (eapply counters_room; eauto). simpl.
    edestruct end_task_update as (j' & msgs & -> & Hu); [done|done|done| |simpl; eauto].
    counters_eq.
  - rewrite counters_write, (jw_counters j (jw_core j Hwf)). simpl n_running_tasks.
    pose proof (counters_bounds j is_running Hwf).
    pose proof (count_st_pos is_running _ _ _ Hk eq_refl).
    rewrite u32_sub_exact by lia. simpl.
    rewrite u32_add_exact by (eapply counters_room; eauto). rewrite bind_ret, with_counters_twice.
    edestruct end_task_update as (j' & msgs & -> & Hu); [done|done|done| |simpl; eauto].
    counters_eq.
Qed.

End operations.

(** ** Lemmas: creation *)

(** The table of a fresh array job, as a segment of the id space. *)
Definition fresh_table (base : Z) (ids : list Z) : gmap Z JobTaskInfo :=
  map_seqZ base ((fun t => {| jti_state := Waiting; jti_task_id := t |}) <$> ids).

Lemma collect_map_snoc {A} (l : list (Z * A)) k x :
  collect_map (l ++ [(k, x)]) = <[k := x]> (collect_map l).
Proof. unfold collect_map. by rewrite foldl_app. Qed.

Lemma collect_fresh_table base ids :
  collect_map (imap (fun i t => (base + Z.of_nat i,
    {| jti_state := Waiting; jti_task_id := t |})) ids) = fresh_table base ids.
Proof.
  unfold fresh_table. induction ids as [|t ids IH] using rev_ind; [done|].
  rewrite imap_app, fmap_app. simpl.
  by rewrite map_seqZ_snoc, length_fmap, collect_map_snoc, IH, Nat.add_0_r.
Qed.

Lemma size_map_seqZ {A} base (l : list A) : size (map_seqZ base l : gmap Z A) = length l.
Proof.
  rewrite <- length_map_to_list. rewrite (map_to_list_seqZ base l).
  by rewrite length_zip_with, length_seqZ, Nat2Z.id, Nat.min_id.
Qed.

Lemma mapM_imap {A B C} (f : A -> outcome B) (g : nat -> C -> A) (h : nat -> C -> B) l :
  (forall i x, l !! i = Some x -> f (g i x) = Ret (h i x)) ->
  mapM f (imap g l) = Ret (imap h l).
Proof.
  revert g h. induction l as [|x l IH]; intros g h Hf; simpl; [done|].
  rewrite (Hf 0%nat x eq_refl). simpl.
  rewrite (IH (g ∘ S) (h ∘ S)); [done|]. intros i y Hy. by apply (Hf (S i)).
Qed.

Lemma initial_state_array a base :
  array_wf a -> 0 <= base -> base + sumZ (count <$> ranges a) < 2 ^ 64 ->
  initial_state (Array a) base =
    Ret (if sumZ (count <$> ranges a) =? 1 then SingleTask Waiting
         else ManyTasks (fresh_table base (array_ids a))).
Proof.
  intros [Hwf Hsum] Hb Hlt. simpl. unfold id_count.
  rewrite u32_sum_exact; [|apply Forall_fmap; eapply Forall_impl; [done|];
    unfold range_wf; simpl; lia|done]. simpl.
  destruct (_ =? 1); [done|]. rewrite IntArray_iter_wf by done. simpl.
  pose proof (length_array_ids_le a Hwf).
  rewrite (mapM_imap _ _ (fun i t => (base + Z.of_nat i,
    {| jti_state := Waiting; jti_task_id := t |}))).
  - simpl. by rewrite collect_fresh_table.
  - intros i t Hi%lookup_lt_Some. rewrite u64_add_exact by lia. done.
Qed.

(** ** The abstract task machine *)

(** The state diagram of [docs/jobs.md]. *)
Inductive task_step : JobTaskState -> JobTaskState -> Prop :=
| step_run w d : task_step Waiting (Running w d)
| step_requeue w d : task_step (Running w d) Waiting
| step_finish w d e : task_step (Running w d) (Finished w d e)
| step_fail w d e msg : task_step (Running w d) (Failed w d e msg)
| step_cancel_waiting : task_step Waiting Canceled
| step_cancel_running w d : task_step (Running w d) Canceled.

(** The operations of a job on one task. *)
Inductive job_op :=
| OpRunning (worker : Z)
| OpWaiting
| OpFinished
| OpFailed (error : string)
| OpCancel.

Definition apply_op (j : Job) (id : Z) (op : job_op) (now : Z) : outcome (Job * list StreamCtl) :=
  match op with
  | OpRunning worker => j' ← set_running_state j id worker now; Ret (j', [])
  | OpWaiting => j' ← set_waiting_state j id; Ret (j', [])
  | OpFinished => set_finished_state j id now
  | OpFailed error => set_failed_state j id error now
  | OpCancel => '(_, j', msgs) ← set_cancel_state j id now; Ret (j', msgs)
  end.

(** The abstract machine: the next state of the task, [None] when the
    operation is not allowed in the state. *)
Definition abstract_op (op : job_op) (s : JobTaskState) (now : Z) : option JobTaskState :=
  match op, s with
  | OpRunning worker, Waiting => Some (Running worker now)
  | OpRunning _, _ => Some s
  | OpWaiting, Running _ _ => Some Waiting
  | OpFinished, Running w d => Some (Finished w d now)
  | OpFailed error, Running w d => Some (Failed w d now error)
  | OpCancel, (Waiting | Running _ _) => Some Canceled
  | _, _ => None
  end.

(** A sequence of operations, as the messages of [tako] trigger them. *)
Definition job_run (j : Job) (ops : list (Z * job_op * Z)) : outcome (Job * list StreamCtl) :=
  foldM (fun '(j, msgs) '(id, op, now) =>
    '(j', new) ← apply_op j id op now; Ret (j', msgs ++ new)) (j, []) ops.

Lemma abstract_op_step op s now s' :
  abstract_op op s now = Some s' -> s' = s \/ task_step s s'.
Proof. destruct op, s; simpl; intros; simplify_eq; eauto using task_step. Qed.

Lemma task_step_unfinished s s' : task_step s s' -> is_unfinished s = true.
Proof. by destruct 1. Qed.

Lemma abstract_op_terminal op s now s' :
  abstract_op op s now = Some s' -> is_unfinished s = false -> s' = s.
Proof. destruct op, s; simpl; intros; simplify_eq; done. Qed.

(** An operation on a task of the job, seen through [get_task_state_mut]. *)
Lemma apply_op_get j id op now t s :
  job_wf j -> get_task_state_mut j id = Ret (t, s) ->
  match abstract_op op s now with
  | Some s' => exists j' msgs, apply_op j id op now = Ret (j', msgs) /\
      ((s' = s /\ is_waiting s = false /\ j' = j /\ msgs = [])
       \/ task_step s s' /\ job_updated j (task_key j id) s' j' msgs)
  | None => exists w, apply_op j id op now = Panic w
  end.
Proof.
  intros Hwf Hget. destruct op as [worker| | |error|]; simpl.
  - pose proof (set_running_state_get j id t s now Hwf Hget worker) as Hs. destruct s;
      [destruct Hs as (j' & -> & Hu); simpl; eauto 10 using task_step|
       rewrite Hs; simpl; eauto 10..].
  - pose proof (set_waiting_state_get j id t s Hwf Hget) as Hs. destruct s;
      [rewrite Hs; eauto|destruct Hs as (j' & -> & Hu); simpl; eauto 10 using task_step|
       rewrite Hs; eauto..].
  - pose proof (set_finished_state_get j id t s now Hwf Hget) as Hs. destruct s;
      [rewrite Hs; eauto|destruct Hs as (j' & msgs & -> & Hu); simpl; eauto 10 using task_step|
       rewrite Hs; eauto..].
  - pose proof (set_failed_state_get j id t s now Hwf Hget error) as Hs. destruct s;
      [rewrite Hs; eauto|destruct Hs as (j' & msgs & -> & Hu); simpl; eauto 10 using task_step|
       rewrite Hs; eauto..].
  - pose proof (set_cancel_state_get j id t s now Hwf Hget) as Hs. destruct s;
      [destruct Hs as (j' & msgs & -> & Hu); simpl; eauto 10 using task_step..|
       rewrite Hs; simpl; eauto|rewrite Hs; simpl; eauto|rewrite Hs; simpl; eauto].
Qed.

(** Inversion: a successful operation read the state of a task. *)
Lemma apply_op_inv j id op now j' msgs :
  job_wf j -> apply_op j id op now = Ret (j', msgs) ->
  exists t s, get_task_state_mut j id = Ret (t, s) /\
    ((is_waiting s = false /\ j' = j /\ msgs = [])
     \/ exists s', task_step s s' /\ job_updated j (task_key j id) s' j' msgs).
Proof.
  intros Hwf Hop. assert (exists t s, get_task_state_mut j id = Ret (t, s)) as (t & s & Hget).
  { destruct (get_task_state_mut j id) as [[t s]|w] eqn:Hget; [eauto|]. exfalso.
    destruct op; simpl in Hop; unfold set_running_state, set_waiting_state,
      set_finished_state, set_failed_state, set_cancel_state in Hop; rewrite Hget in Hop; done. }
  exists t, s. split; [done|].
  pose proof (apply_op_get j id op now t s Hwf Hget) as Hspec.
  destruct (abstract_op op s now) as [s'|].
  - destruct Hspec as (j1 & msgs1 & Heq & Hcase). rewrite Hop in Heq. simplify_eq.
    destruct Hcase as [(-> & ? & -> & ->)|[? ?]]; eauto.
  - destruct Hspec as [w Heq]. congruence.
Qed.

(** ** Lemmas: sequences of operations *)

Lemma unregister_static j j' : job_static j' = job_static j -> unregister_msgs j' = unregister_msgs j.
Proof.
  intros Heq. unfold unregister_msgs.
  by rewrite (f_equal job_log Heq : job_log j' = _), (f_equal job_id Heq : job_id j' = _).
Qed.

(** What any sequence of operations does to a job. *)
Record job_advance (j j' : Job) : Prop := {
  ja_wf : job_wf j';
  ja_static : job_static j' = job_static j;
  ja_shape : job_shape j' = job_shape j;
  ja_tasks : forall k s, job_tasks j !! k = Some s ->
    exists s', job_tasks j' !! k = Some s' /\ rtc task_step s s';
  ja_dom : dom (job_tasks j') = dom (job_tasks j);
  ja_completed : is_Some (completion_date j) -> j' = j
}.

Lemma job_advance_refl j : job_wf j -> job_advance j j.
Proof. split; eauto using rtc_refl. Qed.

Lemma job_advance_trans j1 j2 j3 : job_advance j1 j2 -> job_advance j2 j3 -> job_advance j1 j3.
Proof.
  intros [_ ? ? Ht1 ? Hc1] [? ? ? Ht2 ? Hc2]. split; [done|congruence..| |congruence|].
  - intros k s (s1 & Hs1 & ?)%Ht1. apply Ht2 in Hs1 as (s2 & ? & ?).
    exists s2. split; [done|]. by etrans.
  - intros Hd. pose proof (Hc1 Hd). subst. auto.
Qed.

Lemma completion_msgs_app j1 j2 j3 :
  job_advance j1 j2 -> job_advance j2 j3 ->
  completion_msgs j1 j2 ++ completion_msgs j2 j3 = completion_msgs j1 j3.
Proof.
  intros H1 H2. unfold completion_msgs. destruct (completion_date j1) eqn:E1.
  - rewrite (ja_completed _ _ H1 ltac:(eauto)), E1. done.
  - destruct (completion_date j2) eqn:E2; simpl.
    + rewrite (ja_completed _ _ H2 ltac:(eauto)), E2. by rewrite app_nil_r.
    + destruct (completion_date j3); [|done]. by rewrite (unregister_static _ _ (ja_static _ _ H1)).
Qed.

(** The messages of one step: the unregistration, when the job completes. *)
Lemma apply_op_step j id op now j' msgs :
  job_wf j -> apply_op j id op now = Ret (j', msgs) ->
  job_advance j j' /\ msgs = completion_msgs j j'.
Proof.
  intros Hwf Hop. apply apply_op_inv in Hop as (t & s & Hget & Hcase); [|done].
  pose proof (get_task_state_inv _ _ _ _ Hget) as Hk.
  destruct Hcase as [(Hw & -> & ->)|(s' & Hstep & Hu)].
  - split; [by apply job_advance_refl|]. unfold completion_msgs. by destruct (completion_date j).
  - pose proof (task_step_unfinished _ _ Hstep) as Hun.
    pose proof (job_unfinished_open _ _ _ Hwf Hk Hun) as Hopen.
    destruct Hu as [Hwf' Ht Hst Hsh ->]. split; [split|]; [done..| | | |].
    + intros k s0 Hs0. rewrite Ht, lookup_insert. case_decide as Heq.
      * subst k. simplify_eq. eauto using rtc_once.
      * eauto using rtc_refl.
    + rewrite Ht. apply dom_insert_lookup_L. eauto.
    + rewrite Hopen. by intros [].
    + unfold completion_msgs. rewrite Hopen, (unregister_static _ _ Hst).
      pose proof (jw_completion _ Hwf') as Hc.
      rewrite Ht in Hc |- *. destruct (completion_date j') as [d|].
      * destruct (proj1 Hc) as [_ ->]; [eauto|done].
      * destruct (all_terminal _) eqn:E; [|done]. destruct (proj2 Hc) as [? ?]; [|done].
        split; [apply insert_non_empty|done].
Qed.

Lemma rtc_task_step_terminal s s' : rtc task_step s s' -> is_unfinished s = false -> s' = s.
Proof.
  destruct 1 as [|s s1 s' Hstep _]; [done|]. apply task_step_unfinished in Hstep. congruence.
Qed.

Lemma job_run_from j msgs ops j' msgs' :
  job_wf j ->
  foldM (fun '(j, msgs) '(id, op, now) =>
    '(j', new) ← apply_op j id op now; Ret (j', msgs ++ new)) (j, msgs) ops = Ret (j', msgs') ->
  job_advance j j' /\ msgs' = msgs ++ completion_msgs j j'.
Proof.
  revert j msgs. induction ops as [|[[id op] now] ops IH]; intros j msgs Hwf Hrun; simpl in Hrun.
  - simplify_eq. split; [by apply job_advance_refl|].
    unfold completion_msgs. by destruct (completion_date j'); rewrite app_nil_r.
  - destruct (apply_op j id op now) as [[j1 new]|] eqn:Hop; simpl in Hrun; [|done].
    apply apply_op_step in Hop as [H1 ->]; [|done].
    apply IH in Hrun as [H2 ->]; [|apply H1].
    split; [by eapply job_advance_trans|]. by rewrite <- app_assoc, completion_msgs_app.
Qed.

Lemma non_finished_aux (l : list (Z * Z * JobTaskState)) acc :
  foldl (fun result '(tako_id, _, state) =>
    if is_unfinished state then result ++ [tako_id] else result) acc l
  = acc ++ ((fun x : Z * Z * JobTaskState => x.1.1) <$> List.filter (fun x => is_unfinished x.2) l).
Proof.
  revert acc. induction l as [|[[k t] s] l IH]; intros acc; simpl.
  - by rewrite app_nil_r.
  - rewrite IH. destruct (is_unfinished s); simpl; [by rewrite <- app_assoc|done].
Qed.

Lemma iter_task_states_spec j k s :
  (exists t, (k, t, s) ∈ iter_task_states j) <-> job_tasks j !! k = Some s.
Proof.
  unfold iter_task_states, job_tasks. destruct (job_state j) as [s'|m].
  - rewrite lookup_singleton_Some. setoid_rewrite list_elem_of_singleton. naive_solver.
  - rewrite lookup_fmap, fmap_Some. split.
    + intros (t & ([k' v] & Heq & Hk%elem_of_map_to_list)%list_elem_of_fmap). simplify_eq. eauto.
    + intros (v & Hk & ->). exists (jti_task_id v). apply list_elem_of_fmap.
      exists (k, v). by rewrite elem_of_map_to_list.
Qed.

Lemma iter_task_states_NoDup j : NoDup ((fun x => x.1.1) <$> iter_task_states j).
Proof.
  unfold iter_task_states. destruct (job_state j) as [s'|m]; [apply NoDup_singleton|].
  rewrite <- list_fmap_compose.
  rewrite (list_fmap_ext _ fst) by (intros ? [k v] _; done). apply NoDup_fst_map_to_list.
Qed.

Lemma NoDup_fmap_filter {A B} (f : A -> B) p l : NoDup (f <$> l) -> NoDup (f <$> List.filter p l).
Proof.
  induction l as [|x l IH]; csimpl; [done|]. intros [Hx Hl]%NoDup_cons.
  destruct (p x); csimpl; [|auto]. apply NoDup_cons. split; [|auto].
  intros (y & Hy & Hin)%list_elem_of_fmap. apply Hx, list_elem_of_fmap. exists y.
  split; [done|]. apply list_elem_of_In in Hin. apply filter_In in Hin as [Hin _].
  by apply list_elem_of_In.
Qed.

Lemma single_job_wf j :
  job_state j = SingleTask Waiting -> counters j = counters_default ->
  completion_date j = None -> 0 <= base_task_id j -> job_wf j.
Proof.
  intros Hs Hc Hd Hb.
  assert (Ht : job_tasks j = {[base_task_id j := Waiting]}) by (unfold job_tasks; by rewrite Hs).
  split; [split|].
  - done.
  - intros k. rewrite Ht, map_size_singleton, lookup_singleton_is_Some. lia.
  - rewrite Ht, map_size_singleton. lia.
  - unfold job_shape. by rewrite Hs.
  - rewrite Hc, Ht. unfold counters_of, count_st, map_values. by rewrite map_to_list_singleton.
  - rewrite Hd, Ht. split; [by intros []|]. intros [_ Hall].
    unfold all_terminal, count_st, map_values in Hall. by rewrite map_to_list_singleton in Hall.
Qed.

Lemma single_tasks_waiting j k s :
  job_state j = SingleTask Waiting -> job_tasks j !! k = Some s -> s = Waiting.
Proof. intros Hs. unfold job_tasks. rewrite Hs. by intros [_ <-]%lookup_singleton_Some. Qed.

Lemma fresh_tasks j base ids :
  job_state j = ManyTasks (fresh_table base ids) ->
  job_tasks j = map_seqZ base ((fun _ => Waiting) <$> ids).
Proof.
  intros Hs. unfold job_tasks. rewrite Hs. unfold fresh_table. rewrite fmap_map_seqZ.
  by rewrite <- list_fmap_compose.
Qed.

Lemma fresh_shape j base ids :
  job_state j = ManyTasks (fresh_table base ids) -> job_shape j = Some (map_seqZ base ids).
Proof.
  intros Hs. unfold job_shape. rewrite Hs. unfold fresh_table.
  rewrite fmap_map_seqZ, <- list_fmap_compose.
  by rewrite (list_fmap_ext _ id _ (fun _ _ _ => eq_refl)), list_fmap_id.
Qed.

Lemma fresh_tasks_waiting base (ids : list Z) k s :
  (map_seqZ base ((fun _ => Waiting) <$> ids) : gmap Z JobTaskState) !! k = Some s -> s = Waiting.
Proof. intros [_ Hi]%lookup_map_seqZ_Some. apply list_lookup_fmap_Some in Hi. naive_solver. Qed.

Lemma fresh_count base (ids : list Z) p :
  p Waiting = false -> count_st p (map_seqZ base ((fun _ => Waiting) <$> ids)) = 0.
Proof.
  intros Hp. apply countb_zero. intros s (k & Hk)%elem_of_map_values.
  by apply fresh_tasks_waiting in Hk as ->.
Qed.

Lemma fresh_job_wf j ids :
  job_state j = ManyTasks (fresh_table (base_task_id j) ids) -> counters j = counters_default ->
  completion_date j = None -> 0 <= base_task_id j -> Forall small_id ids ->
  Z.of_nat (length ids) < 2 ^ 32 -> job_wf j.
Proof.
  intros Hs Hc Hd Hb Hids Hlen. pose proof (fresh_tasks j _ _ Hs) as Ht.
  split; [split|].
  - done.
  - intros k. rewrite Ht, size_map_seqZ, lookup_map_seqZ_is_Some, length_fmap. lia.
  - by rewrite Ht, size_map_seqZ, length_fmap.
  - rewrite (fresh_shape j _ _ Hs). intros m k t [= <-] [_ Hi]%lookup_map_seqZ_Some.
    by eapply Forall_lookup_1.
  - rewrite Hc, Ht. unfold counters_of. by rewrite !fresh_count.
  - rewrite Hd, Ht. split; [by intros []|]. intros [Hne Hall]. exfalso. apply Hne.
    apply map_empty. intros k. destruct (_ !! k) as [s|] eqn:E; [|done].
    rewrite all_terminal_spec in Hall. pose proof (fresh_tasks_waiting _ _ _ _ E) as ->.
    by apply Hall in E.
Qed.

(** The job that [Job_new] builds. *)
Lemma Job_new_ok jt id base name pd res pin mf entries prio tl log now :
  match jt with
  | Simple => 0 <= base < 2 ^ 64
  | Array a => array_wf a /\ 0 <= base /\ base + sumZ (count <$> ranges a) < 2 ^ 64
  end ->
  exists j, Job_new jt id base name pd res pin mf entries prio tl log now = Ret j /\
    job_wf j /\ (forall k s, job_tasks j !! k = Some s -> s = Waiting) /\
    job_shape j = match jt with
                  | Simple => None
                  | Array a =>
                      if sumZ (count <$> ranges a) =? 1 then None else Some (map_seqZ base (array_ids a))
                  end /\
    job_id j = id /\ base_task_id j = base /\ job_log j = log /\ completion_date j = None.
Proof.
  unfold Job_new. destruct jt as [|a].
  - intros Hb. eexists. split; [done|].
    split_and!; try done; [|intros ? ?; by apply single_tasks_waiting].
    apply single_job_wf; simpl; lia || done.
  - intros (Hwf & Hb & Hlt). rewrite initial_state_array by done.
    eexists. split; [done|]. destruct (_ =? 1).
    + split_and!; try done; [|intros ? ?; by apply single_tasks_waiting].
      apply single_job_wf; simpl; lia || done.
    + split_and!; try done.
      * eapply fresh_job_wf; simpl; [done..|by apply array_ids_small, Hwf|].
        pose proof (length_array_ids_le a (proj1 Hwf)). destruct Hwf. lia.
      * intros k s. erewrite fresh_tasks by done. apply fresh_tasks_waiting.
      * by erewrite fresh_shape by done.
Qed.

Lemma job_shape_size j :
  size (job_tasks j) = match job_shape j with None => 1%nat | Some m => size m end.
Proof.
  unfold job_tasks, job_shape. destruct (job_state j) as [st|m].
  - apply map_size_singleton.
  - by rewrite !map_size_fmap.
Qed.

(** ** Properties *)

(** C4: every operation on a task of a well-formed job implements the abstract
    task machine: it succeeds exactly when the machine allows it (and panics
    otherwise), changes that task and no other, keeps every other field but the
    counters and the completion date, keeps the invariant, and no counter
    overflows. *)
Theorem job_op_refines j id op now s :
  job_wf j -> job_tasks j !! id = Some s ->
  match abstract_op op s now with
  | Some s' => exists j' msgs, apply_op j id op now = Ret (j', msgs) /\ job_wf j' /\
      job_tasks j' = <[id := s']> (job_tasks j) /\ job_static j' = job_static j
  | None => exists w, apply_op j id op now = Panic w
  end.
Proof.
  intros Hwf Hs. destruct (get_task_state_ok j id s Hs) as (Hkey & t & Hget).
  pose proof (apply_op_get j id op now t s Hwf Hget) as Hspec.
  destruct (abstract_op op s now) as [s'|]; [|done].
  destruct Hspec as (j' & msgs & -> & [(-> & _ & -> & ->)|[_ [? ? ? ? ?]]]);
    eexists _, _; (split; [done|]); split_and!; try done.
  - by rewrite insert_id.
  - by rewrite <- Hkey at 1.
Qed.

(** C20: along any sequence of operations that does not panic, the job stays
    well-formed (its counters are the numbers of tasks in each state), every
    task follows the documented state diagram, a task that ended never changes
    again, and the stream of the job is unregistered exactly once, when its last
    task ends. *)
Theorem job_run_invariant j ops j' msgs :
  job_wf j -> job_run j ops = Ret (j', msgs) ->
  job_wf j' /\ counters j' = counters_of (job_tasks j') /\
  (forall k s, job_tasks j !! k = Some s -> exists s', job_tasks j' !! k = Some s' /\
     rtc task_step s s' /\ (is_unfinished s = false -> s' = s)) /\
  msgs = completion_msgs j j'.
Proof.
  intros Hwf Hrun. apply job_run_from in Hrun as [Ha ->]; [|done].
  split_and!; [apply Ha|apply Ha| |done].
  intros k s (s' & ? & ?)%(ja_tasks _ _ Ha). eauto using rtc_task_step_terminal.
Qed.

(** A job created from a well-formed array (or a simple job) is
    well-formed; all its tasks wait; the [i]-th id of the array is task
    [base_task_id + i], except that an array that counts a single id becomes a
    single-task job. *)
Theorem Job_new_spec jt id base name pd res pin mf entries prio tl log now :
  match jt with
  | Simple => 0 <= base < 2 ^ 64
  | Array a => array_wf a /\ 0 <= base /\ base + sumZ (count <$> ranges a) < 2 ^ 64
  end ->
  exists j, Job_new jt id base name pd res pin mf entries prio tl log now = Ret j /\
    job_wf j /\ (forall k s, job_tasks j !! k = Some s -> s = Waiting) /\
    match jt with
    | Simple => job_shape j = None
    | Array a => job_shape j =
        if sumZ (count <$> ranges a) =? 1 then None else Some (map_seqZ base (array_ids a))
    end.
Proof.
  intros Hpre.
  destruct (Job_new_ok jt id base name pd res pin mf entries prio tl log now Hpre)
    as (j & -> & Hwf & Hw & Hs & _).
  exists j. split_and!; [done|done|done|]. by destruct jt.
Qed.

End job.
