(* ===== verification/Status.v ===== *)
(** * Job status: the status functions of [src/client/status.rs]

    The status of a job is computed from its counters only; the theorems relate
    it to the states of the tasks and to the rules of [docs/arrays.md]. *)

From S2P Require Import Prelude Nom ArrayDef Messages Job.

Section status.
Context `{Profile} `{Tako}.

(** [job_status] *)
Definition job_status (info : JobInfo) : outcome Status :=
  w ← n_waiting_tasks (ji_counters info) (ji_n_tasks info);
  let has_waiting := w >? 0 in
  if n_running_tasks (ji_counters info) >? 0 then Ret SRunning
  else if has_waiting then Ret SWaiting
  else if n_canceled_tasks (ji_counters info) >? 0 then Ret SCanceled
  else if n_failed_tasks (ji_counters info) >? 0 then Ret SFailed
  else
    _ ← assert (n_finished_tasks (ji_counters info) =? ji_n_tasks info);
    Ret SFinished.

(** [is_terminated] on a job description *)
Definition info_is_terminated (info : JobInfo) : outcome bool :=
  if n_running_tasks (ji_counters info) =? 0 then
    w ← n_waiting_tasks (ji_counters info) (ji_n_tasks info);
    Ret (w =? 0)
  else Ret false.

(** The rules of [docs/arrays.md], first match wins: a job is running if a task
    runs; waiting if a task has not been computed; canceled if a task was
    canceled; failed if a task failed; finished otherwise. *)
Definition documented_status (tasks : list JobTaskState) : Status :=
  if existsb is_running tasks then SRunning
  else if existsb is_unfinished tasks then SWaiting
  else if existsb is_canceled tasks then SCanceled
  else if existsb is_failed tasks then SFailed
  else SFinished.

(** ** Lemmas *)

Lemma existsb_count p m : existsb p (map_values m) = (count_st p m >? 0).
Proof.
  unfold count_st. induction (map_values m) as [|s l IH]; [done|].
  rewrite countb_cons. simpl. pose proof (countb_bounds p l). rewrite IH.
  destruct (p s); simpl; [|done]. symmetry. apply Z.gtb_lt. lia.
Qed.

(** ** The status of a well-formed job *)

(** The status computed from the counters of a well-formed job is the status the
    documented rules give on its tasks, and neither the subtractions nor the final
    assertion of [job_status] can fail. *)
Lemma job_status_documented j :
  job_wf j ->
  job_status (make_job_info j) = Ret (documented_status (map_values (job_tasks j))).
Proof.
  intros [Hwf _]. unfold job_status, documented_status. simpl.
  rewrite n_waiting_tasks_wf by done. simpl.
  rewrite n_tasks_wf, (jw_counters j Hwf), !existsb_count by done. simpl.
  set (m := job_tasks j). rewrite count_st_unfinished.
  pose proof (count_st_total m).
  pose proof (count_st_bounds is_waiting m). pose proof (count_st_bounds is_running m).
  pose proof (count_st_bounds is_failed m). pose proof (count_st_bounds is_canceled m).
  destruct (Z.gtb_spec (count_st is_running m) 0); [done|].
  replace (count_st is_running m) with 0 in * by lia. rewrite Z.add_0_r.
  destruct (Z.gtb_spec (count_st is_waiting m) 0); [done|].
  destruct (Z.gtb_spec (count_st is_canceled m) 0); [done|].
  destruct (Z.gtb_spec (count_st is_failed m) 0); [done|].
  destruct (Z.eqb_spec (count_st is_finished m) (Z.of_nat (size m))); [done|lia].
Qed.

(** the client-side and the server-side termination tests agree, and both
    hold exactly when every task of the job ended. *)
Theorem is_terminated_agree j :
  job_wf j ->
  exists b, is_terminated j = Ret b /\ info_is_terminated (make_job_info j) = Ret b /\
    (b = true <-> forall k s, job_tasks j !! k = Some s -> is_unfinished s = false).
Proof.
  intros [Hwf _]. exists (all_terminal (job_tasks j)).
  pose proof (is_terminated_wf j Hwf) as Ht. split_and!; [done| |apply all_terminal_spec].
  rewrite <- Ht. done.
Qed.

End status.

(** ** Status lists of the command line *)

(** [Status::from_str] *)
Definition Status_from_str (s : string) : result string Status :=
  if String.eqb s "waiting" then Ok SWaiting
  else if String.eqb s "running" then Ok SRunning
  else if String.eqb s "finished" then Ok SFinished
  else if String.eqb s "failed" then Ok SFailed
  else if String.eqb s "canceled" then Ok SCanceled
  else Err "Invalid job status".

Section status_list.
Context `{Nom}.

(** [p_status] *)
Definition p_status : parser ErrorKind Status :=
  alt [pmap (tag "waiting") (fun _ => Ret SWaiting);
       pmap (tag "running") (fun _ => Ret SRunning);
       pmap (tag "finished") (fun _ => Ret SFinished);
       pmap (tag "failed") (fun _ => Ret SFailed);
       pmap (tag "canceled") (fun _ => Ret SCanceled)].

(** [p_status_list] *)
Definition p_status_list : parser ErrorKind (list Status) :=
  separated_list1 (tuple2 (tag ",") space0) p_status.

(** [parse_status_list] *)
Definition parse_status_list (input : string) : outcome (result string (list Status)) :=
  r ← all_consuming p_status_list input;
  Ret match r with
  | Ok (_, a) => Ok a
  | Err e => Err (format_parse_error show_kind e)
  end.

(** [StatusList::from_str] and [StatusList::to_vec] *)
Definition StatusList_from_str (s : string) : outcome (result string (list Status)) :=
  parse_status_list s.

End status_list.

(** The name of a status on the command line. *)
Definition status_name (s : Status) : string :=
  match s with
  | SWaiting => "waiting"
  | SRunning => "running"
  | SFinished => "finished"
  | SFailed => "failed"
  | SCanceled => "canceled"
  end.

(** A comma and any number of spaces and tabs. *)
Definition comma_spaces (u : string) : Prop :=
  exists sp, u = "," +:+ sp /\ str_all is_space sp = true.

Section status_list_spec.
Context `{Nom}.

Lemma p_status_sound : sound p_status (fun t s => t = status_name s).
Proof.
  intros s rest st. unfold parses, p_status. rewrite !alt_cons, alt_one, !pmap_eq, !tag_eq.
  intros Hp. exists (status_name st). split; [|done].
  repeat match type of Hp with
  | context [strip_prefix ?t s] =>
      let Hs := fresh "Hs" in
      destruct (strip_prefix t s) eqn:Hs; cbn [and_then mbind outcome_bind mret] in Hp;
      [simplify_eq; by apply strip_prefix_Some in Hs|]
  end.
  done.
Qed.

Lemma p_status_complete : complete p_status (fun t s => t = status_name s) (fun _ => True).
Proof.
  intros t st rest -> _. unfold parses, p_status.
  rewrite !alt_cons, alt_one, !pmap_eq, !tag_eq. by destruct st.
Qed.

Lemma p_status_consuming : consuming p_status.
Proof.
  intros s rest st (t & -> & ->)%p_status_sound. rewrite length_app_str. destruct st; simpl; lia.
Qed.

Lemma comma_spaces_sound : sound (tuple2 (tag ",") space0) (fun u _ => comma_spaces u).
Proof.
  intros s rest a. unfold parses. rewrite tuple2_eq. intros (s1 & c & Hc & Hr)%and_then_inv.
  apply tag_sound in Hc as (u & -> & -> & ->). apply and_then_inv in Hr as (s2 & b & Hb & Hr).
  simplify_eq. rewrite space0_eq in Hb. destruct (str_span_spec is_space s1) as (Hs & Ha & _).
  destruct (str_span is_space s1) as [sp r]. simpl in *. simplify_eq.
  exists ("," +:+ b). split; [by rewrite app_str_assoc|]. by exists b.
Qed.

Lemma comma_spaces_consuming : consuming (tuple2 (tag ",") space0).
Proof.
  intros s rest a (u & -> & sp & -> & _)%comma_spaces_sound. rewrite !length_app_str. simpl. lia.
Qed.

Lemma status_list_complete :
  complete p_status_list (list_text comma_spaces (fun t s => t = status_name s))
    (fun rest => rest = "").
Proof.
  apply (separated_list1_complete _ _ comma_spaces_consuming p_status_consuming
    comma_spaces _ (fun _ => True)).
  - apply p_status_complete.
  - intros u t st rest (sp & -> & Hsp) ->. exists (",", sp). unfold parses.
    rewrite app_str_assoc, tuple2_eq. erewrite and_then_ok by apply parses_tag.
    rewrite space0_eq, str_span_app; [done|done|]. by destruct st.
  - done.
  - intros rest ->. split; [done|]. unfold rejects. rewrite tuple2_eq, tag_eq. simpl. eauto.
Qed.

(** The status filter of the command line accepts exactly the
    comma-separated lists of status names (spaces are allowed after a comma),
    with these statuses in this order; and it agrees with the parser of single
    statuses on every list with one name. *)
Theorem parse_status_list_correct s l :
  (parse_status_list s = Ret (Ok l) <->
   list_text comma_spaces (fun t s => t = status_name s) s l) /\
  (forall st, Status_from_str s = Ok st <-> parse_status_list s = Ret (Ok [st])).
Proof.
  assert (Hparse : forall l, parse_status_list s = Ret (Ok l) <->
    list_text comma_spaces (fun t s => t = status_name s) s l).
  { clear l. intros l. unfold parse_status_list. split.
    - intros Hp. ret_inv. destruct x as [[rest l']|e]; simplify_eq/=.
      apply all_consuming_parses in E as [-> Hp].
      apply (separated_list1_sound _ _ comma_spaces_consuming p_status_consuming
        _ _ comma_spaces_sound p_status_sound) in Hp as (t & -> & Ht). by rewrite app_str_nil.
    - intros Ht. assert (Hp : parses p_status_list s "" l).
      { rewrite <- (app_str_nil s). by apply status_list_complete. }
      rewrite (proj2 (all_consuming_parses p_status_list s l "") (conj eq_refl Hp)). done. }
  split; [done|]. intros st. rewrite Hparse. split.
  - intros Hs. constructor. unfold Status_from_str in Hs.
    repeat match type of Hs with
    | context [String.eqb s ?t] => destruct (String.eqb_spec s t) as [->|]; [by simplify_eq|]
    end. done.
  - intros Ht. inversion Ht as [? ? ->|? ? ? ? ? ? ? Hn]; subst; [by destruct st|]. inversion Hn.
Qed.

End status_list_spec.
