(* ===== verification/State.v ===== *)
(** * Server state: [src/server/state.rs] and [src/server/worker.rs]

    The job table, the sparse map from [tako] task ids to jobs, the worker
    table, and the processing of the notifications of [tako]. *)

From S2P Require Import Prelude ArrayDef Messages Job.

Section state.
Context `{Profile} `{Tako}.

(** ** Workers ([src/server/worker.rs]) *)

(** [enum WorkerState] *)
Inductive WorkerState :=
| Online
| Offline (info : WorkerExitInfo).

(** [struct Worker] *)
Record Worker := {
  worker_id : Z;
  worker_state : WorkerState;
  configuration : WorkerConfiguration
}.

(** [Worker::new] *)
Definition Worker_new (worker_id : Z) (configuration : WorkerConfiguration) : Worker :=
  {| worker_id := worker_id; configuration := configuration; worker_state := Online |}.

(** [Worker::set_offline_state] *)
Definition set_offline_state (w : Worker) (reason : LostWorkerReasonInfo) (now : Z) : Worker :=
  {| worker_id := worker_id w; configuration := configuration w;
     worker_state := Offline {| ended_at := now; reason := reason |} |}.

(** [Worker::make_info] *)
Definition make_info (w : Worker) : WorkerInfo :=
  {| wi_id := worker_id w; wi_configuration := configuration w;
     wi_ended := match worker_state w with Online => None | Offline d => Some d end |}.

(** ** The state *)

(** [struct State]; the state of the automatic allocation, behind its own
    [RefCell], is modelled on its own. *)
Record State := {
  jobs : gmap Z Job;
  workers : gmap Z Worker;
  base_task_id_to_job_id : gmap Z Z;
  job_id_counter : Z;
  task_id_counter : Z
}.

(** [StateRef::new] *)
Definition State_new : State :=
  {| jobs := ∅; workers := ∅; base_task_id_to_job_id := ∅;
     job_id_counter := 1; task_id_counter := 1 |}.

Definition with_jobs (s : State) (js : gmap Z Job) : State :=
  {| jobs := js; workers := workers s; base_task_id_to_job_id := base_task_id_to_job_id s;
     job_id_counter := job_id_counter s; task_id_counter := task_id_counter s |}.

Definition with_workers (s : State) (ws : gmap Z Worker) : State :=
  {| jobs := jobs s; workers := ws; base_task_id_to_job_id := base_task_id_to_job_id s;
     job_id_counter := job_id_counter s; task_id_counter := task_id_counter s |}.

(** A write through the reference of [get_job_mut]. *)
Definition put_job (s : State) (id : Z) (j : Job) : State := with_jobs s (<[id := j]> (jobs s)).

(** [State::get_job] *)
Definition get_job (s : State) (job_id : Z) : option Job := jobs s !! job_id.

(** [State::add_worker] *)
Definition add_worker (s : State) (w : Worker) : outcome State :=
  _ ← assert (bool_decide (workers s !! worker_id w = None));
  Ret (with_workers s (<[worker_id w := w]> (workers s))).

(** [State::add_job] *)
Definition add_job (s : State) (job : Job) : outcome State :=
  _ ← assert (bool_decide (base_task_id_to_job_id s !! base_task_id job = None));
  let s := {| jobs := jobs s; workers := workers s;
              base_task_id_to_job_id := <[base_task_id job := job_id job]> (base_task_id_to_job_id s);
              job_id_counter := job_id_counter s; task_id_counter := task_id_counter s |} in
  _ ← assert (bool_decide (jobs s !! job_id job = None));
  Ret (put_job s (job_id job) job).

(** [map.range(..=k).rev().next()] on an ordered map: the entry with the
    greatest key that is at most [k]. *)
Definition range_last (m : gmap Z Z) (k : Z) : option (Z * Z) :=
  foldr (fun kv acc =>
    if kv.1 <=? k then
      match acc with
      | Some best => if best.1 <? kv.1 then Some kv else acc
      | None => Some kv
      end
    else acc) None (map_to_list m).

(** [State::get_job_mut_by_tako_task_id]: the job and its key *)
Definition get_job_mut_by_tako_task_id (s : State) (task_id : Z) : outcome (option (Z * Job)) :=
  match range_last (base_task_id_to_job_id s) task_id with
  | None => Ret None
  | Some (_, job_id) =>
      match jobs s !! job_id with
      | None => Ret None
      | Some job =>
          e ← u64_add (base_task_id job) (n_tasks job);
          Ret (if task_id <? e then Some (job_id, job) else None)
      end
  end.

(** [State::new_job_id] *)
Definition new_job_id (s : State) : outcome (Z * State) :=
  let id := job_id_counter s in
  c ← u32_add (job_id_counter s) 1;
  Ret (id, {| jobs := jobs s; workers := workers s;
              base_task_id_to_job_id := base_task_id_to_job_id s;
              job_id_counter := c; task_id_counter := task_id_counter s |}).

(** [State::last_n_ids] *)
Definition last_n_ids (s : State) (n : Z) : outcome (list Z) :=
  m ← u32_sub (job_id_counter s) 1;
  let n := Z.min n m in
  lo ← u32_sub (job_id_counter s) n;
  Ret (seqZ lo (job_id_counter s - lo)).

(** [State::new_task_id] *)
Definition new_task_id (s : State) (task_count : Z) : outcome (Z * State) :=
  let id := task_id_counter s in
  c ← u64_add (task_id_counter s) task_count;
  Ret (id, {| jobs := jobs s; workers := workers s;
              base_task_id_to_job_id := base_task_id_to_job_id s;
              job_id_counter := job_id_counter s; task_id_counter := c |}).

(** The tasks that [cancel_tasks_from_callback] asks to cancel: nothing is
    spawned for an empty list. *)
Definition cancel_tasks_from_callback (job_id : Z) (tasks : list Z) : list (Z * list Z) :=
  match tasks with
  | [] => []
  | _ => [(job_id, tasks)]
  end.

(** [State::process_task_failed]: the state, the messages sent to the stream
    server and the cancellations spawned *)
Definition process_task_failed (s : State) (id : Z) (message : string) (now : Z)
    : outcome (State * list StreamCtl * list (Z * list Z)) :=
  o ← get_job_mut_by_tako_task_id s id;
  '(key, job) ← unwrap o;
  '(job, msgs) ← set_failed_state job id message now;
  let spawned :=
    match max_fails job with
    | Some max_fails =>
        if n_failed_tasks (counters job) >? max_fails then
          cancel_tasks_from_callback (job_id job) (non_finished_task_ids job)
        else []
    | None => []
    end in
  Ret (put_job s key job, msgs, spawned).

(** [State::process_task_update] *)
Definition process_task_update (s : State) (id : Z) (state : TaskState) (now : Z)
    : outcome (State * list StreamCtl) :=
  match state with
  | TSRunning worker_id =>
      o ← get_job_mut_by_tako_task_id s id;
      '(key, job) ← unwrap o;
      job ← set_running_state job id worker_id now;
      Ret (put_job s key job, [])
  | TSFinished =>
      o ← get_job_mut_by_tako_task_id s id;
      '(key, job) ← unwrap o;
      '(job, msgs) ← set_finished_state job id now;
      Ret (put_job s key job, msgs)
  | TSWaiting =>
      o ← get_job_mut_by_tako_task_id s id;
      '(key, job) ← unwrap o;
      job ← set_waiting_state job id;
      Ret (put_job s key job, [])
  | TSInvalid => Panic UnreachableCode
  end.

(** [State::process_worker_new] *)
Definition process_worker_new (s : State) (id : Z) (configuration : WorkerConfiguration)
    : outcome State := add_worker s (Worker_new id configuration).

(** The reason stored for a lost worker. *)
Definition lost_reason (reason : LostWorkerReason) : LostWorkerReasonInfo :=
  match reason with
  | LWStopped => InfoStopped
  | LWConnectionLost => InfoConnectionLost
  | LWHeartbeatLost => InfoHeartbeatLost
  | LWIdleTimeout => InfoIdleTimeout
  end.

(** One iteration of the loop of [process_worker_lost]. *)
Definition requeue_task (s : State) (task_id : Z) : outcome State :=
  o ← get_job_mut_by_tako_task_id s task_id;
  '(key, job) ← unwrap o;
  job ← set_waiting_state job task_id;
  Ret (put_job s key job).

(** [State::process_worker_lost] *)
Definition process_worker_lost (s : State) (id : Z) (running_tasks : list Z)
    (reason : LostWorkerReason) (now : Z) : outcome State :=
  worker ← unwrap (workers s !! id);
  let s := with_workers s (<[id := set_offline_state worker (lost_reason reason) now]> (workers s)) in
  foldM requeue_task s running_tasks.

(** ** Invariant *)

Definition job_size (j : Job) : Z := Z.of_nat (size (job_tasks j)).

(** The server invariant.  Job ids are allocated in sequence; every job owns a
    segment of the task id space below the counter; segments of different jobs
    do not overlap; the sparse map is the inverse of the base ids. *)
Record state_wf (s : State) : Prop := {
  sw_counter : 1 <= job_id_counter s < 2 ^ 32;
  sw_task_counter : 1 <= task_id_counter s <= 1 + (job_id_counter s - 1) * (2 ^ 32 - 1);
  sw_job : forall id j, jobs s !! id = Some j ->
    job_wf j /\ job_id j = id /\ 1 <= id < job_id_counter s
    /\ base_task_id j + job_size j <= task_id_counter s;
  sw_dense : forall id, 1 <= id < job_id_counter s -> is_Some (jobs s !! id);
  sw_base : forall b id, base_task_id_to_job_id s !! b = Some id <->
    exists j, jobs s !! id = Some j /\ base_task_id j = b;
  sw_disjoint : forall id1 id2 j1 j2, jobs s !! id1 = Some j1 -> jobs s !! id2 = Some j2 ->
    base_task_id j1 < base_task_id j2 -> base_task_id j1 + job_size j1 <= base_task_id j2;
  sw_workers : forall id w, workers s !! id = Some w -> worker_id w = id
}.

(** [x] is a task of [j]. *)
Definition owns (j : Job) (t : Z) : Prop := base_task_id j <= t < base_task_id j + job_size j.

(** Reference lookup: the state of task [t], by a search through all jobs. *)
Definition task_at (s : State) (t : Z) : option JobTaskState :=
  foldr (fun kv acc => match job_tasks kv.2 !! t with Some x => Some x | None => acc end)
    None (map_to_list (jobs s)).

(** The jobs whose stream is open: they have a log and are not complete. *)
Definition is_open (j : Job) : bool :=
  match job_log j, completion_date j with Some _, None => true | _, _ => false end.

Definition open_streams (s : State) : gset Z :=
  dom (filter (fun kv => is_open kv.2 = true) (jobs s)).

(** The job operation that a task state reported by [tako] stands for. *)
Definition update_op (state : TaskState) : option job_op :=
  match state with
  | TSRunning worker => Some (OpRunning worker)
  | TSFinished => Some OpFinished
  | TSWaiting => Some OpWaiting
  | TSInvalid => None
  end.

(** A job operation on the job that owns a task. *)
Definition task_op (s : State) (id : Z) (op : job_op) (now : Z) : outcome (State * list StreamCtl) :=
  o ← get_job_mut_by_tako_task_id s id;
  '(key, job) ← unwrap o;
  '(job, msgs) ← apply_op job id op now;
  Ret (put_job s key job, msgs).

(** What operations on tasks do to the state: the allocation of ids and the
    workers stay, every job advances, and the messages keep the stream server in
    step. *)
Record state_advance (s s' : State) (msgs : list StreamCtl) : Prop := {
  sa_wf : state_wf s';
  sa_counters : job_id_counter s' = job_id_counter s /\ task_id_counter s' = task_id_counter s;
  sa_base : base_task_id_to_job_id s' = base_task_id_to_job_id s;
  sa_jobs : forall id j, jobs s !! id = Some j ->
    exists j', jobs s' !! id = Some j' /\ job_advance j j';
  sa_dom : dom (jobs s') = dom (jobs s);
  sa_streams : reg_run (open_streams s) msgs = Some (open_streams s')
}.

(** The state after the allocation of the ids of a job with [c] tasks. *)
Definition allocated (s : State) (c : Z) : State :=
  {| jobs := jobs s; workers := workers s;
     base_task_id_to_job_id := base_task_id_to_job_id s;
     job_id_counter := job_id_counter s + 1; task_id_counter := task_id_counter s + c |}.

(** Reference definition of the lookup: the job of the table whose segment
    holds the id. *)
Definition owner_scan (s : State) (t : Z) : option (Z * Job) :=
  List.find (fun kv => (base_task_id kv.2 <=? t) && (t <? base_task_id kv.2 + job_size kv.2))
    (map_to_list (jobs s)).

(** The cancellation that a failed task of job [j] asks for: more tasks failed
    than [max_fails] allows and some tasks are not over. *)
Definition fail_limit_cancel (j : Job) : list (Z * list Z) :=
  match max_fails j with
  | Some limit =>
      if limit <? count_st is_failed (job_tasks j) then
        match (fun kv => kv.1) <$> List.filter (fun kv => is_unfinished kv.2) (map_to_list (job_tasks j)) with
        | [] => []
        | ids => [(job_id j, ids)]
        end
      else []
  | None => []
  end.

(** ** Lemmas: the sparse map *)

Lemma range_last_spec m k :
  match range_last m k with
  | Some (b, x) => m !! b = Some x /\ b <= k /\ forall b' x', m !! b' = Some x' -> b' <= k -> b' <= b
  | None => forall b x, m !! b = Some x -> k < b
  end.
Proof.
  enough (Hl : match range_last m k with
    | Some (b, x) => (b, x) ∈ map_to_list m /\ b <= k /\
        forall b' x', (b', x') ∈ map_to_list m -> b' <= k -> b' <= b
    | None => forall b x, (b, x) ∈ map_to_list m -> k < b
    end).
  { destruct (range_last m k) as [[b x]|]; setoid_rewrite elem_of_map_to_list in Hl; done. }
  unfold range_last. induction (map_to_list m) as [|[b x] l IH]; simpl.
  { intros ? ? ?%not_elem_of_nil. done. }
  destruct (foldr _ None l) as [[b1 x1]|]; simpl.
  - destruct IH as (Hin & Hle & Hmax). destruct (Z.leb_spec b k); simpl.
    + destruct (Z.ltb_spec b1 b).
      * split_and!; [left|done|]. intros b' x' [?|Hin']%elem_of_cons ?; simplify_eq; [done|].
        specialize (Hmax _ _ Hin'). lia.
      * split_and!; [by right|done|]. intros b' x' [?|Hin']%elem_of_cons ?; simplify_eq; [done|].
        eauto.
    + split_and!; [by right|done|]. intros b' x' [?|Hin']%elem_of_cons ?; simplify_eq; [lia|].
      eauto.
  - destruct (Z.leb_spec b k); simpl.
    + split_and!; [left|done|]. intros b' x' [?|Hin']%elem_of_cons ?; simplify_eq; [done|].
      apply IH in Hin'. lia.
    + intros b' x' [?|Hin']%elem_of_cons; simplify_eq; [lia|]. eauto.
Qed.

Lemma job_size_bounds j : job_wf j -> 0 <= job_size j < 2 ^ 32.
Proof. intros [Hwf _]. unfold job_size. pose proof (jw_size j Hwf). lia. Qed.

Lemma task_counter_bound s : state_wf s -> task_id_counter s < 2 ^ 64.
Proof. intros Hwf. pose proof (sw_counter s Hwf). pose proof (sw_task_counter s Hwf). nia. Qed.

Lemma owns_lookup j t : job_wf j -> owns j t <-> is_Some (job_tasks j !! t).
Proof. intros [Hwf _]. symmetry. apply (jw_dom j Hwf). Qed.

Lemma lookup_by_task_id s t :
  state_wf s ->
  exists o, get_job_mut_by_tako_task_id s t = Ret o /\
    forall id j, o = Some (id, j) <-> jobs s !! id = Some j /\ owns j t.
Proof.
  intros Hwf. unfold get_job_mut_by_tako_task_id.
  pose proof (range_last_spec (base_task_id_to_job_id s) t) as Hr.
  destruct (range_last _ t) as [[b jid]|].
  - destruct Hr as (Hb & Hle & Hmax). apply (sw_base s Hwf) in Hb as (job & Hjob & Hbase).
    rewrite Hjob. destruct (sw_job s Hwf _ _ Hjob) as (Hjwf & Hid & _ & Hcnt).
    pose proof (task_counter_bound s Hwf). pose proof (job_size_bounds _ Hjwf).
    pose proof (jw_base _ (jw_core _ Hjwf)).
    rewrite n_tasks_wf by apply Hjwf. fold (job_size job).
    rewrite u64_add_exact by lia. simpl. eexists. split; [done|]. intros id j.
    destruct (Z.ltb_spec t (base_task_id job + job_size job)) as [Hlt|Hge].
    + split; [intros [= <- <-]; split; [done|]; unfold owns; lia|].
      intros [Hj [Hlo Hhi]]. destruct (decide (id = jid)) as [->|Hne]; [congruence|]. exfalso.
      assert (base_task_id j <= b).
      { apply (Hmax _ id); [|lia]. apply (sw_base s Hwf). eauto. }
      destruct (decide (base_task_id j = b)) as [Heq|].
      * assert (base_task_id_to_job_id s !! b = Some id) by (apply (sw_base s Hwf); eauto).
        assert (base_task_id_to_job_id s !! b = Some jid) by (apply (sw_base s Hwf); eauto).
        congruence.
      * pose proof (sw_disjoint s Hwf _ _ _ _ Hj Hjob ltac:(lia)). lia.
    + split; [done|]. intros [Hj [Hlo Hhi]]. exfalso.
      assert (base_task_id j <= b).
      { apply (Hmax _ id); [|lia]. apply (sw_base s Hwf). eauto. }
      destruct (decide (base_task_id j = b)) as [Heq|].
      * assert (base_task_id_to_job_id s !! b = Some id) by (apply (sw_base s Hwf); eauto).
        assert (base_task_id_to_job_id s !! b = Some jid) by (apply (sw_base s Hwf); eauto).
        simplify_eq. lia.
      * pose proof (sw_disjoint s Hwf _ _ _ _ Hj Hjob ltac:(lia)). lia.
  - eexists. split; [done|]. intros id j. split; [done|]. intros [Hj [Hlo _]]. exfalso.
    assert (base_task_id_to_job_id s !! base_task_id j = Some id) as Hb
      by (apply (sw_base s Hwf); eauto).
    apply Hr in Hb. lia.
Qed.

(** ** Lemmas: the global table *)

Lemma task_at_spec s t st :
  state_wf s ->
  task_at s t = Some st <->
  exists id j, jobs s !! id = Some j /\ job_tasks j !! t = Some st.
Proof.
  intros Hwf. unfold task_at. split.
  - intros Hf. assert (exists kv, kv ∈ map_to_list (jobs s) /\ job_tasks kv.2 !! t = Some st)
      as ([id j] & Hin%elem_of_map_to_list & Ht); [|eauto].
    revert Hf. induction (map_to_list (jobs s)) as [|[id j] l IH]; simpl; [done|].
    destruct (job_tasks j !! t) eqn:E.
    + intros [= <-]. exists (id, j). split; [left|done].
    + intros (kv & ? & ?)%IH. exists kv. split; [by right|done].
  - intros (id & j & Hj & Ht).
    assert (Huniq : forall kv x, kv ∈ map_to_list (jobs s) -> job_tasks kv.2 !! t = Some x -> x = st).
    { intros [id' j'] x Hj'%elem_of_map_to_list Hx. simpl in *.
      destruct (lookup_by_task_id s t Hwf) as (o & _ & Ho).
      destruct (sw_job s Hwf _ _ Hj) as [Hw _]. destruct (sw_job s Hwf _ _ Hj') as [Hw' _].
      assert (o = Some (id, j)) by (apply Ho; split; [done|]; apply owns_lookup; eauto).
      assert (o = Some (id', j')) by (apply Ho; split; [done|]; apply owns_lookup; eauto).
      congruence. }
    assert (Hin : (id, j) ∈ map_to_list (jobs s)) by (by apply elem_of_map_to_list).
    revert Hin Huniq. induction (map_to_list (jobs s)) as [|[id' j'] l IH]; simpl.
    { by intros ?%not_elem_of_nil. }
    intros Hin Huniq. destruct (job_tasks j' !! t) eqn:E.
    + f_equal. apply (Huniq (id', j')); [left|done].
    + apply elem_of_cons in Hin as [?|Hin]; [simplify_eq; congruence|].
      apply IH; [done|]. intros kv x ? ?. apply (Huniq kv x); [by right|done].
Qed.

Lemma task_at_None s t :
  state_wf s ->
  task_at s t = None <-> get_job_mut_by_tako_task_id s t = Ret None.
Proof.
  intros Hwf. destruct (lookup_by_task_id s t Hwf) as (o & -> & Ho).
  destruct o as [[id j]|]; split; try done.
  - intros Hn. destruct (proj1 (Ho id j) eq_refl) as [Hj Hown].
    destruct (sw_job s Hwf _ _ Hj) as [Hw _].
    apply owns_lookup in Hown as [st Hst]; [|done].
    assert (task_at s t = Some st) by (apply task_at_spec; eauto). congruence.
  - intros _. destruct (task_at s t) as [st|] eqn:E; [|done]. exfalso.
    apply task_at_spec in E as (id & j & Hj & Hst); [|done].
    destruct (sw_job s Hwf _ _ Hj) as [Hw _].
    assert (None = Some (id, j)) as [=]. apply Ho. split; [done|]. apply owns_lookup; eauto.
Qed.

Lemma task_at_lookup s t st :
  state_wf s -> task_at s t = Some st ->
  exists id j, get_job_mut_by_tako_task_id s t = Ret (Some (id, j)) /\
    jobs s !! id = Some j /\ job_tasks j !! t = Some st.
Proof.
  intros Hwf (id & j & Hj & Hst)%task_at_spec; [|done].
  destruct (lookup_by_task_id s t Hwf) as (o & -> & Ho).
  destruct (sw_job s Hwf _ _ Hj) as [Hw _].
  assert (o = Some (id, j)) as ->; [|eauto].
  apply Ho. split; [done|]. apply owns_lookup; eauto.
Qed.

(** ** Lemmas: replacing a job *)

Lemma job_advance_same j j' :
  job_advance j j' -> job_id j' = job_id j /\ base_task_id j' = base_task_id j
  /\ job_log j' = job_log j /\ job_size j' = job_size j.
Proof.
  intros Ha. pose proof (ja_static _ _ Ha) as Hs. split_and!.
  - exact (f_equal job_id Hs).
  - exact (f_equal base_task_id Hs).
  - exact (f_equal job_log Hs).
  - unfold job_size. by rewrite <- !size_dom, (ja_dom _ _ Ha).
Qed.

Lemma put_job_lookup s id j' id1 j1 :
  jobs (put_job s id j') !! id1 = Some j1 ->
  (id1 = id /\ j1 = j') \/ (id1 <> id /\ jobs s !! id1 = Some j1).
Proof. simpl. rewrite lookup_insert_Some. naive_solver. Qed.

Lemma put_job_wf s id j j' :
  state_wf s -> jobs s !! id = Some j -> job_advance j j' -> state_wf (put_job s id j').
Proof.
  intros Hwf Hj Ha. destruct (job_advance_same _ _ Ha) as (Hid & Hb & _ & Hsz).
  assert (Hproj : forall id1 j1, jobs (put_job s id j') !! id1 = Some j1 -> exists j0,
    jobs s !! id1 = Some j0 /\ base_task_id j1 = base_task_id j0 /\ job_size j1 = job_size j0).
  { intros id1 j1 [[-> ->]|[_ ?]]%put_job_lookup; eauto. }
  split; try apply Hwf.
  - intros id1 j1 [[-> ->]|[_ H1]]%put_job_lookup; [|by apply Hwf].
    rewrite Hid, Hb, Hsz. destruct (sw_job s Hwf _ _ Hj) as (_ & ? & ? & ?).
    split; [apply Ha|]. split; [done|]. by split.
  - intros id1 Hr. simpl. apply lookup_insert_is_Some'. right. by apply (sw_dense s Hwf).
  - intros b id1. simpl. rewrite (sw_base s Hwf). setoid_rewrite lookup_insert.
    case_decide as Heq; [subst id1|done]. split; intros (j1 & ? & ?); simplify_eq; eauto.
  - intros id1 id2 j1 j2 (j1' & H1 & Hb1 & Hs1)%Hproj (j2' & H2 & Hb2 & Hs2)%Hproj.
    rewrite Hb1, Hb2, Hs1. by eapply (sw_disjoint s Hwf).
Qed.

Lemma elem_of_open_streams s id :
  id ∈ open_streams s <-> exists j, jobs s !! id = Some j /\ is_open j = true.
Proof.
  unfold open_streams. rewrite elem_of_dom. split.
  - intros [j [? ?]%map_lookup_filter_Some]. eauto.
  - intros (j & ? & ?). exists j. by apply map_lookup_filter_Some.
Qed.

Lemma put_job_open s id j j' :
  state_wf s -> jobs s !! id = Some j -> job_advance j j' ->
  reg_run (open_streams s) (completion_msgs j j') = Some (open_streams (put_job s id j')).
Proof.
  intros Hwf Hj Ha. destruct (job_advance_same _ _ Ha) as (Hid & _ & Hl & _).
  destruct (sw_job s Hwf _ _ Hj) as (_ & Hjid & _).
  assert (Hput : forall x, x ∈ open_streams (put_job s id j') <->
    (x = id /\ is_open j' = true) \/ (x <> id /\ x ∈ open_streams s)).
  { intros x. rewrite !elem_of_open_streams. simpl. setoid_rewrite lookup_insert_Some. naive_solver. }
  unfold completion_msgs, unregister_msgs.
  destruct (completion_date j) as [d|] eqn:Ed.
  - rewrite (ja_completed _ _ Ha ltac:(eauto)) in *. unfold put_job. rewrite insert_id by done.
    by destruct s.
  - destruct (completion_date j') as [d|] eqn:Ed', (job_log j) as [l|] eqn:El; simpl.
    + rewrite decide_True by (rewrite Hjid; apply elem_of_open_streams; exists j;
        split; [done|]; unfold is_open; by rewrite El, Ed).
      simpl. f_equal. apply set_eq. intros x. rewrite Hput. unfold is_open. rewrite Hl, Ed'.
      rewrite Hjid. set_solver.
    + f_equal. apply set_eq. intros x. rewrite Hput. unfold is_open. rewrite Hl.
      destruct (decide (x = id)) as [->|]; [|naive_solver].
      rewrite elem_of_open_streams. unfold is_open. setoid_rewrite Hj.
      split; [intros (? & ? & ?); simplify_eq; by rewrite El in *|naive_solver].
    + f_equal. apply set_eq. intros x. rewrite Hput. unfold is_open. rewrite Hl, Ed'.
      destruct (decide (x = id)) as [->|]; [|naive_solver].
      rewrite elem_of_open_streams. unfold is_open.
      split; [by left|]. intros _. exists j. by rewrite El, Ed.
    + f_equal. apply set_eq. intros x. rewrite Hput. unfold is_open. rewrite Hl.
      destruct (decide (x = id)) as [->|]; [|naive_solver].
      rewrite elem_of_open_streams. unfold is_open. setoid_rewrite Hj.
      split; [intros (? & ? & ?); simplify_eq; by rewrite El in *|naive_solver].
Qed.

(** ** Lemmas: operations on tasks *)

Lemma state_advance_refl s : state_wf s -> state_advance s s [].
Proof.
  intros Hwf. split; [done..| |done|done]. intros id j Hj. exists j.
  split; [done|]. apply job_advance_refl. by destruct (sw_job s Hwf _ _ Hj).
Qed.

Lemma state_advance_trans s1 s2 s3 m1 m2 :
  state_advance s1 s2 m1 -> state_advance s2 s3 m2 -> state_advance s1 s3 (m1 ++ m2).
Proof.
  intros [_ [? ?] ? Hj1 ? Hs1] [? [? ?] ? Hj2 ? Hs2].
  split; [done|split; congruence|congruence| |congruence|].
  - intros id j (j' & Hj' & ?)%Hj1. apply Hj2 in Hj' as (j'' & ? & ?).
    eauto using job_advance_trans.
  - rewrite reg_run_app, Hs1. done.
Qed.

Lemma put_job_advance s id j j' :
  state_wf s -> jobs s !! id = Some j -> job_advance j j' ->
  state_advance s (put_job s id j') (completion_msgs j j').
Proof.
  intros Hwf Hj Ha. split; [by eapply put_job_wf|done|done| | |by apply put_job_open].
  - intros id1 j1 H1. simpl. rewrite lookup_insert. case_decide; [subst; simplify_eq; eauto|].
    exists j1. split; [done|]. apply job_advance_refl. by destruct (sw_job s Hwf _ _ H1).
  - simpl. apply dom_insert_lookup_L. eauto.
Qed.

(** A job operation on a task that the server knows. *)
Lemma task_op_known s t op now old :
  state_wf s -> task_at s t = Some old ->
  match abstract_op op old now with
  | Some new => exists s' msgs, task_op s t op now = Ret (s', msgs) /\
      state_advance s s' msgs /\ workers s' = workers s /\
      forall t', task_at s' t' = if decide (t' = t) then Some new else task_at s t'
  | None => exists w, task_op s t op now = Panic w
  end.
Proof.
  intros Hwf Hat. destruct (task_at_lookup _ _ _ Hwf Hat) as (id & j & Hget & Hj & Hst).
  unfold task_op. rewrite Hget. simpl.
  destruct (sw_job s Hwf _ _ Hj) as [Hw _].
  destruct (get_task_state_ok j t old Hst) as (Hkey & t0 & Hts).
  pose proof (apply_op_get j t op now t0 old Hw Hts) as Hspec.
  destruct (abstract_op op old now) as [new|]; [|destruct Hspec as [w ->]; simpl; eauto].
  destruct Hspec as (j' & msgs & Hop & Hcase). rewrite Hop. simpl. eexists _, _. split; [done|].
  destruct (apply_op_step _ _ _ _ _ _ Hw Hop) as [Ha ->].
  assert (Ht : job_tasks j' = <[t := new]> (job_tasks j)).
  { destruct Hcase as [(-> & _ & -> & _)|[_ [_ Ht _ _ _]]]; [by rewrite insert_id|].
    by rewrite Hkey in Ht. }
  pose proof (put_job_advance _ _ _ _ Hwf Hj Ha) as Hs. split_and!; [done|done|].
  intros t'. apply option_eq. intros st. rewrite task_at_spec by apply Hs.
  simpl. setoid_rewrite lookup_insert_Some. case_decide as Heq.
  - subst t'. split.
    + intros (id1 & j1 & [[-> ->]|[Hne H1]] & Hst1).
      * by rewrite Ht, lookup_insert_eq in Hst1.
      * exfalso. destruct (sw_job s Hwf _ _ H1) as [Hw1 _].
        destruct (lookup_by_task_id s t Hwf) as (o & Ho & Hown). rewrite Hget in Ho. simplify_eq.
        assert (Some (id, j) = Some (id1, j1)) by (apply Hown; split; [done|];
          apply owns_lookup; eauto). congruence.
    + intros [= <-]. exists id, j'. split; [by left|]. by rewrite Ht, lookup_insert_eq.
  - rewrite task_at_spec by done. split.
    + intros (id1 & j1 & [[-> ->]|[Hne H1]] & Hst1); [|eauto].
      rewrite Ht, lookup_insert_ne in Hst1 by done. eauto.
    + intros (id1 & j1 & H1 & Hst1). destruct (decide (id = id1)) as [->|].
      * simplify_eq. exists id1, j'. split; [by left|]. by rewrite Ht, lookup_insert_ne.
      * eauto 10.
Qed.

(** A job operation on a task that the server does not know. *)
Lemma task_op_unknown s t op now :
  state_wf s -> task_at s t = None -> task_op s t op now = Panic UnwrapFailed.
Proof. intros Hwf Hn%task_at_None; [|done]. unfold task_op. by rewrite Hn. Qed.

Lemma process_task_update_op s t st now :
  process_task_update s t st now =
    match update_op st with
    | Some op => task_op s t op now
    | None => Panic UnreachableCode
    end.
Proof.
  unfold process_task_update, task_op. destruct st; simpl; [done|..];
    destruct (get_job_mut_by_tako_task_id s t) as [[[key j]|]|]; simpl; try done.
  - by destruct (set_waiting_state j t).
  - by destruct (set_running_state j t worker now).
Qed.

Lemma requeue_task_op s t :
  requeue_task s t = '(s', _) ← task_op s t OpWaiting 0; Ret s'.
Proof.
  unfold requeue_task, task_op.
  destruct (get_job_mut_by_tako_task_id s t) as [[[key j]|]|]; simpl; try done.
  by destruct (set_waiting_state j t).
Qed.

(** Any successful operation advances the state. *)
Lemma task_op_advance s t op now s' msgs :
  state_wf s -> task_op s t op now = Ret (s', msgs) ->
  state_advance s s' msgs /\ workers s' = workers s.
Proof.
  intros Hwf Hop. destruct (task_at s t) as [old|] eqn:Hat.
  - pose proof (task_op_known s t op now old Hwf Hat) as Hk.
    destruct (abstract_op op old now) as [new|].
    + destruct Hk as (s1 & m1 & Heq & ? & ? & _). rewrite Hop in Heq. by simplify_eq.
    + destruct Hk. congruence.
  - by rewrite task_op_unknown in Hop.
Qed.

(** ** Lemmas: failed tasks and lost workers *)

Lemma non_finished_task_ids_spec j :
  non_finished_task_ids j =
    (fun kv => kv.1) <$> List.filter (fun kv => is_unfinished kv.2) (map_to_list (job_tasks j)).
Proof.
  unfold non_finished_task_ids. rewrite non_finished_aux. simpl.
  unfold iter_task_states, job_tasks. destruct (job_state j) as [st|m].
  - rewrite map_to_list_singleton. simpl. by destruct (is_unfinished st).
  - rewrite map_to_list_fmap.
    induction (map_to_list m) as [|[k v] l IH]; csimpl; [done|].
    destruct (is_unfinished (jti_state v)); csimpl; [by f_equal|done].
Qed.

Lemma process_task_failed_op s t message now :
  state_wf s ->
  process_task_failed s t message now =
    '(s', msgs) ← task_op s t (OpFailed message) now;
    Ret (s', msgs, match get_job_mut_by_tako_task_id s' t with
                   | Ret (Some (_, j)) => fail_limit_cancel j
                   | _ => []
                   end).
Proof.
  intros Hwf. unfold process_task_failed, task_op.
  destruct (lookup_by_task_id s t Hwf) as (o & -> & Ho). simpl.
  destruct o as [[key j]|]; simpl; [|done].
  destruct (proj1 (Ho key j) eq_refl) as [Hj Hown].
  destruct (set_failed_state j t message now) as [[j' msgs]|] eqn:Hop; simpl; [|done].
  destruct (sw_job s Hwf _ _ Hj) as (Hw & Hid & _).
  destruct (apply_op_step j t (OpFailed message) now j' msgs Hw Hop) as [Ha ->].
  pose proof (put_job_advance _ _ _ _ Hwf Hj Ha) as Hs. f_equal. f_equal.
  destruct (job_advance_same _ _ Ha) as (Hid' & Hb & _ & Hsz).
  destruct (lookup_by_task_id (put_job s key j') t (sa_wf _ _ _ Hs)) as (o' & -> & Ho').
  assert (o' = Some (key, j')) as ->.
  { apply Ho'. split; [apply lookup_insert_eq|]. unfold owns in *. by rewrite Hb, Hsz. }
  unfold fail_limit_cancel. rewrite (jw_counters _ (jw_core _ (ja_wf _ _ Ha))). simpl.
  rewrite <- non_finished_task_ids_spec. destruct (max_fails j'); [|done].
  rewrite Z.gtb_ltb. destruct (_ <? _); [|done]. unfold cancel_tasks_from_callback.
  by destruct (non_finished_task_ids j').
Qed.

Lemma process_task_failed_advance s t message now s' msgs spawned :
  state_wf s -> process_task_failed s t message now = Ret (s', msgs, spawned) ->
  state_advance s s' msgs.
Proof.
  intros Hwf. rewrite process_task_failed_op by done.
  destruct (task_op s t (OpFailed message) now) as [[s1 m1]|] eqn:E; simpl; [|done].
  intros [= <- <- _]. by apply task_op_advance in E as [? _].
Qed.

Lemma with_workers_wf s ws :
  state_wf s -> (forall id w, ws !! id = Some w -> worker_id w = id) -> state_wf (with_workers s ws).
Proof. intros [] Hws. by split. Qed.

Lemma process_worker_new_wf s id conf s' :
  state_wf s -> process_worker_new s id conf = Ret s' -> state_advance s s' [].
Proof.
  intros Hwf Hp. unfold process_worker_new, add_worker in Hp. ret_inv.
  assert (state_wf (with_workers s (<[id := Worker_new id conf]> (workers s)))).
  { apply with_workers_wf; [done|]. intros id1 w [[<- <-]|[_ ?]]%lookup_insert_Some; [done|].
    by apply Hwf. }
  split; [done..| |done|done]. intros id1 j Hj. exists j.
  split; [done|]. apply job_advance_refl. by destruct (sw_job s Hwf _ _ Hj).
Qed.

Lemma set_offline_advance s id w info now :
  state_wf s -> workers s !! id = Some w ->
  state_advance s (with_workers s (<[id := set_offline_state w info now]> (workers s))) [].
Proof.
  intros Hwf Hw.
  assert (state_wf (with_workers s (<[id := set_offline_state w info now]> (workers s)))).
  { apply with_workers_wf; [done|]. intros id1 w1 [[<- <-]|[_ ?]]%lookup_insert_Some.
    - simpl. by apply Hwf in Hw.
    - by apply Hwf. }
  split; [done..| |done|done]. intros id1 j Hj. exists j.
  split; [done|]. apply job_advance_refl. by destruct (sw_job s Hwf _ _ Hj).
Qed.

Lemma requeue_msgs s t now s' msgs : state_wf s -> task_op s t OpWaiting now = Ret (s', msgs) -> msgs = [].
Proof.
  intros Hwf. unfold task_op.
  destruct (get_job_mut_by_tako_task_id s t) as [[[key j]|]|]; simpl; [|done..].
  destruct (set_waiting_state j t); simpl; [|done]. by intros [= _ <-].
Qed.

Lemma requeue_tasks_advance s ts s' :
  state_wf s -> foldM requeue_task s ts = Ret s' -> state_advance s s' [] /\ workers s' = workers s.
Proof.
  revert s. induction ts as [|t ts IH]; intros s Hwf Hf; simpl in Hf.
  - simplify_eq. by split; [apply state_advance_refl|].
  - rewrite requeue_task_op in Hf.
    destruct (task_op s t OpWaiting 0) as [[s1 m1]|] eqn:Hop; simpl in Hf; [|done].
    pose proof (requeue_msgs _ _ _ _ _ Hwf Hop) as ->.
    apply task_op_advance in Hop as [H1 Hw1]; [|done].
    apply IH in Hf as [H2 Hw2]; [|apply H1]. split; [|congruence].
    exact (state_advance_trans _ _ _ [] [] H1 H2).
Qed.

Lemma process_worker_lost_advance s id ts r now s' :
  state_wf s -> process_worker_lost s id ts r now = Ret s' -> state_advance s s' [].
Proof.
  intros Hwf Hp. unfold process_worker_lost in Hp. ret_inv.
  pose proof (set_offline_advance s id _ (lost_reason r) now Hwf E) as H1.
  apply requeue_tasks_advance in Hp as [H2 _]; [|apply H1].
  exact (state_advance_trans _ _ _ [] [] H1 H2).
Qed.

Lemma requeue_tasks_ok s ts :
  state_wf s -> NoDup ts ->
  (forall t, t ∈ ts -> exists w d, task_at s t = Some (Running w d)) ->
  exists s', foldM requeue_task s ts = Ret s' /\ state_wf s' /\ workers s' = workers s /\
    forall t, task_at s' t = if decide (t ∈ ts) then Some Waiting else task_at s t.
Proof.
  intros Hwf Hnd. revert s Hwf.
  induction Hnd as [|t ts Hnin Hnd IH]; intros s Hwf Hrun; simpl.
  - exists s. split_and!; try done.
  - destruct (Hrun t ltac:(set_solver)) as (w & d & Hat). rewrite requeue_task_op.
    destruct (task_op_known s t OpWaiting 0 _ Hwf Hat) as (s1 & m1 & -> & Hs1 & Hw1 & Ht1).
    simpl. destruct (IH s1 ltac:(apply Hs1)) as (s' & -> & Hwf' & Hw' & Ht').
    + intros t' Hin. rewrite Ht1, decide_False by (intros ->; done). apply Hrun. set_solver.
    + exists s'. split_and!; [done|done|congruence|]. intros t'. rewrite Ht', Ht1.
      destruct (decide (t' ∈ ts)).
      * by rewrite decide_True by set_solver.
      * destruct (decide (t' = t)) as [->|]; [by rewrite decide_True by set_solver|].
        by rewrite decide_False by set_solver.
Qed.

(** ** Lemmas: new jobs *)

Lemma State_new_wf : state_wf State_new.
Proof.
  split; simpl.
  - lia.
  - lia.
  - intros id j. by rewrite lookup_empty.
  - lia.
  - intros b id. rewrite lookup_empty. split; [done|]. intros (j & Hj & _).
    by rewrite lookup_empty in Hj.
  - intros id1 id2 j1 j2. by rewrite lookup_empty.
  - intros id w. by rewrite lookup_empty.
Qed.

Lemma allocate_ids s c :
  state_wf s -> job_id_counter s < 2 ^ 32 - 1 -> 0 <= c < 2 ^ 32 ->
  exists s1, new_job_id s = Ret (job_id_counter s, s1) /\
    new_task_id s1 c = Ret (task_id_counter s, allocated s c).
Proof.
  intros Hwf Hlt Hc. pose proof (sw_counter s Hwf). pose proof (sw_task_counter s Hwf).
  unfold new_job_id. rewrite u32_add_exact by lia. eexists. split; [done|].
  unfold new_task_id. simpl. by rewrite u64_add_exact by nia.
Qed.

Section new_job.
Variables (s : State) (c : Z) (j : Job).
Hypothesis Hwf : state_wf s.
Hypothesis Hlt : job_id_counter s < 2 ^ 32 - 1.
Hypothesis Hc : 0 <= c < 2 ^ 32.
Hypothesis Hj : job_wf j.
Hypothesis Hid : job_id j = job_id_counter s.
Hypothesis Hbase : base_task_id j = task_id_counter s.
Hypothesis Hsize : job_size j <= c.
Hypothesis Hopen : completion_date j = None.

Let s' : State :=
  {| jobs := <[job_id j := j]> (jobs s); workers := workers s;
     base_task_id_to_job_id := <[base_task_id j := job_id j]> (base_task_id_to_job_id s);
     job_id_counter := job_id_counter s + 1; task_id_counter := task_id_counter s + c |}.

Lemma new_id_fresh : jobs s !! job_id j = None.
Proof.
  destruct (jobs s !! job_id j) as [j1|] eqn:E; [|done]. exfalso.
  destruct (sw_job s Hwf _ _ E) as (_ & _ & ? & _). lia.
Qed.

(** The base id is free unless the last job that was added has no task. *)
Lemma new_base_fresh :
  base_task_id_to_job_id s !! base_task_id j = None <->
  forall id1 j1, jobs s !! id1 = Some j1 -> base_task_id j1 < task_id_counter s.
Proof.
  split.
  - intros Hn id1 j1 H1. destruct (sw_job s Hwf _ _ H1) as (Hw & _ & _ & Hle).
    pose proof (job_size_bounds _ Hw).
    destruct (decide (base_task_id j1 = task_id_counter s)) as [Heq|]; [|lia]. exfalso.
    assert (base_task_id_to_job_id s !! base_task_id j = Some id1); [|congruence].
    apply (sw_base s Hwf). exists j1. split; [done|lia].
  - intros Hall. destruct (base_task_id_to_job_id s !! base_task_id j) as [id1|] eqn:E; [|done].
    apply (sw_base s Hwf) in E as (j1 & H1 & Hb). apply Hall in H1. lia.
Qed.

Lemma add_job_eq :
  add_job (allocated s c) j =
    if bool_decide (base_task_id_to_job_id s !! base_task_id j = None)
    then Ret s' else Panic AssertionFailed.
Proof.
  unfold add_job. simpl. rewrite (bool_decide_true _ new_id_fresh). by destruct (bool_decide _).
Qed.

Lemma add_job_wf :
  base_task_id_to_job_id s !! base_task_id j = None -> state_wf s'.
Proof.
  intros Hfree. pose proof (proj1 new_base_fresh Hfree) as Hbelow.
  pose proof (sw_counter s Hwf). pose proof (sw_task_counter s Hwf).
  pose proof (job_size_bounds _ Hj). split; simpl.
  - lia.
  - nia.
  - intros id1 j1 [[<- <-]|[_ Hl1]]%lookup_insert_Some.
    + split_and!; done || lia.
    + destruct (sw_job s Hwf _ _ Hl1) as (? & ? & ? & ?). split_and!; done || lia.
  - intros id1 Hr. apply lookup_insert_is_Some'.
    destruct (decide (id1 = job_id_counter s)); [left; congruence|right].
    apply (sw_dense s Hwf). lia.
  - intros b id1. rewrite lookup_insert_Some, (sw_base s Hwf).
    setoid_rewrite lookup_insert_Some. split.
    + intros [[<- <-]|[Hne (j1 & Hl1 & Hb1)]]; [eauto|].
      exists j1. split; [|done]. right. split; [|done]. intros <-.
      rewrite new_id_fresh in Hl1. done.
    + intros (j1 & [[<- <-]|[Hne Hl1]] & <-); [eauto|]. right.
      apply Hbelow in Hl1 as Hlt1. split; [lia|eauto].
  - intros id1 id2 j1 j2 [[<- <-]|[_ Hl1]]%lookup_insert_Some
      [[<- <-]|[_ Hl2]]%lookup_insert_Some; [lia|..].
    + apply Hbelow in Hl2. lia.
    + destruct (sw_job s Hwf _ _ Hl1) as (_ & _ & _ & ?). lia.
    + by eapply (sw_disjoint s Hwf).
  - apply Hwf.
Qed.

Lemma add_job_open :
  open_streams s' = if job_log j is Some _ then {[job_id_counter s]} ∪ open_streams s else open_streams s.
Proof.
  apply set_eq. intros x. assert (Hx : x ∈ open_streams s' <->
    (x = job_id_counter s /\ is_open j = true) \/ x ∈ open_streams s).
  { rewrite !elem_of_open_streams. simpl. setoid_rewrite lookup_insert_Some.
    rewrite <- Hid. split; [naive_solver|].
    intros [[-> ?]|(j1 & H1 & ?)]; [eauto|]. exists j1. split; [|done]. right.
    split; [|done]. intros <-. by rewrite new_id_fresh in H1. }
  rewrite Hx. unfold is_open. rewrite Hopen. destruct (job_log j); set_solver.
Qed.

End new_job.

(** ** Properties *)

(** C12: the sparse map finds the job that a scan of all jobs finds: the lookup by
    the greatest base id that is at most the task id, followed by the bound
    check, never panics and returns the unique job whose segment of the id
    space holds the task. *)
Theorem sparse_lookup_correct s t :
  state_wf s -> get_job_mut_by_tako_task_id s t = Ret (owner_scan s t).
Proof.
  intros Hwf. destruct (lookup_by_task_id s t Hwf) as (o & -> & Ho). f_equal.
  unfold owner_scan. destruct (List.find _ _) as [[id j]|] eqn:Hf.
  - apply find_some in Hf as [Hin Hb]. apply Ho. apply list_elem_of_In, elem_of_map_to_list in Hin.
    split; [done|]. simpl in Hb. unfold owns. lia.
  - destruct o as [[id j]|]; [|done]. exfalso. destruct (proj1 (Ho id j) eq_refl) as [Hj Hown].
    apply elem_of_map_to_list, list_elem_of_In in Hj.
    apply (find_none _ _ Hf) in Hj. simpl in Hj. unfold owns in Hown. lia.
Qed.

(** C9: a task update of [tako] refines the abstract task machine on the global
    table of tasks: on a known task it changes that task only, keeps the
    invariant, and tells the stream server exactly what keeps its registrations
    equal to the open streams; it panics exactly when the machine does not
    allow the step, the task is unknown, or the state is [Invalid]. *)
Theorem process_task_update_refines s t state now :
  state_wf s ->
  match update_op state, task_at s t with
  | Some op, Some old =>
      match abstract_op op old now with
      | Some new => exists s' msgs, process_task_update s t state now = Ret (s', msgs) /\
          state_wf s' /\ (forall t', task_at s' t' = if decide (t' = t) then Some new else task_at s t') /\
          workers s' = workers s /\ reg_run (open_streams s) msgs = Some (open_streams s')
      | None => exists w, process_task_update s t state now = Panic w
      end
  | _, _ => exists w, process_task_update s t state now = Panic w
  end.
Proof.
  intros Hwf. rewrite process_task_update_op.
  destruct (update_op state) as [op|]; [|eauto]. destruct (task_at s t) as [old|] eqn:Hat.
  - pose proof (task_op_known s t op now old Hwf Hat) as Hk.
    destruct (abstract_op op old now); [|done].
    destruct Hk as (s' & msgs & -> & [] & ? & ?). eauto 10.
  - rewrite task_op_unknown by done. eauto.
Qed.

(** C23: when a running task fails, it becomes failed, nothing else changes, and
    the remaining tasks of its job are cancelled exactly when more tasks of the
    job have failed than [max_fails] allows. *)
Theorem process_task_failed_max_fails s t message now w d :
  state_wf s -> task_at s t = Some (Running w d) ->
  exists s' msgs id j', process_task_failed s t message now = Ret (s', msgs, fail_limit_cancel j') /\
    state_wf s' /\ jobs s' !! id = Some j' /\ owns j' t /\
    (forall t', task_at s' t' = if decide (t' = t) then Some (Failed w d now message) else task_at s t') /\
    reg_run (open_streams s) msgs = Some (open_streams s').
Proof.
  intros Hwf Hat. rewrite process_task_failed_op by done.
  destruct (task_op_known s t (OpFailed message) now _ Hwf Hat) as (s' & msgs & -> & Hs & _ & Ht).
  simpl. destruct (task_at_lookup s' t (Failed w d now message)) as (id & j' & Hget & Hj & Hst).
  - apply Hs.
  - by rewrite Ht, decide_True.
  - rewrite Hget. exists s', msgs, id, j'. split_and!; [done|apply Hs|done|..|done|apply Hs].
    + apply owns_lookup; [|by eauto]. by destruct (sw_job s' (sa_wf _ _ _ Hs) _ _ Hj).
Qed.

(** C22: losing a worker records the reason and the time of its end and puts
    exactly the tasks that ran on it back to waiting; it does not panic when
    those tasks are running tasks of the server. *)
Theorem process_worker_lost_requeues s id worker tasks r now :
  state_wf s -> workers s !! id = Some worker -> NoDup tasks ->
  (forall t, t ∈ tasks -> exists w d, task_at s t = Some (Running w d)) ->
  exists s', process_worker_lost s id tasks r now = Ret s' /\ state_wf s' /\
    (forall t, task_at s' t = if decide (t ∈ tasks) then Some Waiting else task_at s t) /\
    workers s' = <[id := set_offline_state worker (lost_reason r) now]> (workers s) /\
    open_streams s' = open_streams s.
Proof.
  intros Hwf Hw Hnd Hrun. unfold process_worker_lost. rewrite Hw. simpl.
  pose proof (set_offline_advance s id worker (lost_reason r) now Hwf Hw) as Ha.
  set (s1 := with_workers _ _) in *.
  destruct (requeue_tasks_ok s1 tasks) as (s' & Hf & Hwf' & Hws & Ht); [apply Ha|done|done|].
  exists s'. split_and!; [done|done|done|by rewrite Hws|].
  apply requeue_tasks_advance in Hf as [Hf _]; [|apply Ha].
  pose proof (sa_streams _ _ _ Hf) as Heq. simpl in Heq. by injection Heq.
Qed.

End state.
