(* ===== verification/Client.v ===== *)
(** * Client requests: [src/server/client.rs]

    The handlers of client requests.  A handler is split at its [await]s: the
    server runs on a single-threaded runtime, so the code between two [await]s
    is atomic.  A segment returns the new state, the control messages sent to
    the stream server, and what the handler does next ([Next]); what it does
    with the answer is data ([Cont]) that the event loop (file [Server.v])
    resumes.  The clock is read once per segment. *)

From S2P Require Import Prelude ArrayDef Messages Job Status State.

Section client.
Context `{Profile} `{Tako}.

(** ** Data *)

(** What a task does with the answer to [send_tako_message]. *)
Inductive Cont :=
| AfterNewTasks (job : JobDetail)
| AfterCancel (job_id : Z) (rest : list Z) (responses : list (Z * CancelJobResponse))
| AfterStopWorker (worker_id : Z) (rest : list Z) (responses : list (Z * StopWorkerResponse))
| AfterCallbackCancel (job_id : Z).

(** How a segment ends: with the response for the client, at
    [send_tako_message(m).await], at the [await] of the registration of a
    stream, at the [await] of the statistics, or with the end of a task that
    answers nobody. *)
Inductive Next :=
| Reply (m : ToClientMessage)
| AwaitTako (m : FromGatewayMessage) (k : Cont)
| AwaitRegistration (task_defs : list TaskDef) (job : JobDetail)
| AwaitStats
| Finish.

(** ** Environment variables of tasks ([src/common/env.rs]) *)

Definition HQ_JOB_ID : string := "HQ_JOB_ID".
Definition HQ_TASK_ID : string := "HQ_TASK_ID".
Definition HQ_SUBMIT_DIR : string := "HQ_SUBMIT_DIR".
Definition HQ_ENTRY : string := "HQ_ENTRY".

(** ** Submit *)

(** [make_program_def_for_task] *)
Definition make_program_def_for_task (def : ProgramDefinition) (job_id task_id : Z)
    (submit_dir : string) : ProgramDefinition :=
  {| pd_args := pd_args def;
     pd_env := <[HQ_SUBMIT_DIR := submit_dir]>
                 (<[HQ_TASK_ID := to_string task_id]>
                    (<[HQ_JOB_ID := to_string job_id]> (pd_env def)));
     pd_stdout := pd_stdout def; pd_stderr := pd_stderr def; pd_cwd := pd_cwd def |}.

(** [program.env.insert(HQ_ENTRY.into(), e)] *)
Definition add_entry (p : ProgramDefinition) (entry : option string) : ProgramDefinition :=
  match entry with
  | Some e => {| pd_args := pd_args p; pd_env := <[HQ_ENTRY := e]> (pd_env p);
                 pd_stdout := pd_stdout p; pd_stderr := pd_stderr p; pd_cwd := pd_cwd p |}
  | None => p
  end.

(** The closure [make_task] of [handle_submit] *)
Definition make_task (r : SubmitRequest) (job_id task_id tako_id : Z) (entry : option string)
    : outcome TaskDef :=
  let program := add_entry (make_program_def_for_task (sr_spec r) job_id task_id (sr_submit_dir r)) entry in
  body ← unwrap (serialize {| tb_program := program; tb_pin := sr_pin r;
                              tb_job_id := job_id; tb_task_id := task_id |});
  Ret {| td_id := tako_id; td_resources := sr_resources r; td_n_outputs := 0;
         td_time_limit := sr_time_limit r; td_type_id := 0; td_body := body;
         td_keep := false; td_observe := true; td_priority := sr_priority r |}.

(** The task definitions of a submit *)
Definition make_task_defs (r : SubmitRequest) (job_id tako_base_id : Z) : outcome (list TaskDef) :=
  match sr_job_type r, sr_entries r with
  | Simple, _ => d ← make_task r job_id 0 tako_base_id None; Ret [d]
  | Array a, None =>
      ids ← IntArray_iter a;
      mapM (fun '(i, task_id) =>
        tako_id ← u64_add tako_base_id (Z.of_nat i);
        make_task r job_id task_id tako_id None) (imap pair ids)
  | Array a, Some entries =>
      ids ← IntArray_iter a;
      mapM (fun '((i, task_id), entry) =>
        tako_id ← u64_add tako_base_id (Z.of_nat i);
        make_task r job_id task_id tako_id (Some entry)) (zip (imap pair ids) entries)
  end.

Fixpoint ends_with_slash (s : string) : bool :=
  match s with
  | EmptyString => false
  | String c EmptyString => (nat_of_ascii c =? 47)%nat
  | String _ s' => ends_with_slash s'
  end.

(** [PathBuf::join]: an absolute path replaces the base; a separator is added
    unless the base is empty or ends with one *)
Definition path_join (base p : string) : string :=
  match p, base with
  | String "/" _, _ => p
  | _, EmptyString => p
  | _, _ => if ends_with_slash base then (base ++ p)%string else (base ++ "/" ++ p)%string
  end.

(** The number of task ids reserved for a job *)
Definition task_count (t : JobType) : outcome Z :=
  match t with
  | Simple => Ret 1
  | Array a => id_count a
  end.

(** [handle_submit], up to its first [await] *)
Definition handle_submit (s : State) (message : SubmitRequest) (now : Z)
    : outcome (State * list StreamCtl * Next) :=
  if negb (resources_validate (sr_resources message)) then
    Ret (s, [], Reply (ErrorMsg "Invalid resource request"))
  else
    '(job_id, s) ← new_job_id s;
    n ← task_count (sr_job_type message);
    '(tako_base_id, s) ← new_task_id s n;
    task_defs ← make_task_defs message job_id tako_base_id;
    job ← Job_new (sr_job_type message) job_id tako_base_id (sr_name message) (sr_spec message)
            (sr_resources message) (sr_pin message) (sr_max_fails message) (sr_entries message)
            (sr_priority message) (sr_time_limit message) (sr_log message) now;
    let job_detail := make_job_detail job false now in
    s ← add_job s job;
    match sr_log message with
    | Some log =>
        Ret (s, [RegisterStream job_id (path_join (sr_submit_dir message) log)],
             AwaitRegistration task_defs job_detail)
    | None => Ret (s, [], AwaitTako (NewTasks task_defs) (AfterNewTasks job_detail))
    end.

(** [handle_submit] after the registration of the stream *)
Definition after_registration (task_defs : list TaskDef) (job : JobDetail) : Next :=
  AwaitTako (NewTasks task_defs) (AfterNewTasks job).

(** [handle_submit] after the answer of [tako] *)
Definition after_new_tasks (job : JobDetail) (m : ToGatewayMessage) : outcome Next :=
  match m with
  | NewTasksResponse => Ret (Reply (SubmitResponse job))
  | _ => Panic ExplicitPanic
  end.

(** ** Resubmit *)

(** [filter.contains(&task_status(s))], or no filter *)
Definition status_selected (filter : option (list Status)) (st : JobTaskState) : bool :=
  match filter with
  | Some f => bool_decide (task_status st ∈ f)
  | None => true
  end.

(** The job type of a resubmitted job, [None] when no task is selected *)
Definition resubmit_type (j : Job) (filter : option (list Status)) : outcome (option JobType) :=
  match job_state j with
  | SingleTask st => Ret (if status_selected filter st then Some Simple else None)
  | ManyTasks m =>
      let ids := jti_task_id <$> List.filter (fun v => status_selected filter (jti_state v)) (map_values m) in
      match ids with
      | [] => Ret None
      | _ => a ← from_ids (merge_sort Z.le ids); Ret (Some (Array a))
      end
  end.

(** The request built from a job; [cwd] is the directory of the server. *)
Definition resubmit_request (j : Job) (jt : JobType) (cwd : string) : SubmitRequest :=
  {| sr_job_type := jt; sr_name := job_name j; sr_max_fails := max_fails j;
     sr_spec := program_def j; sr_resources := job_resources j; sr_pin := job_pin j;
     sr_entries := job_entries j; sr_submit_dir := cwd; sr_priority := job_priority j;
     sr_time_limit := job_time_limit j; sr_log := None |}.

(** [handle_resubmit] *)
Definition handle_resubmit (s : State) (cwd : string) (message : ResubmitRequest) (now : Z)
    : outcome (State * list StreamCtl * Next) :=
  match get_job s (rr_job_id message) with
  | None => Ret (s, [], Reply (ErrorMsg "Invalid job_id"))
  | Some job =>
      jt ← resubmit_type job (rr_status message);
      match jt with
      | None => Ret (s, [], Reply (ErrorMsg "Nothing was resubmitted"))
      | Some jt => handle_submit s (resubmit_request job jt cwd) now
      end
  end.

(** ** Cancel *)

(** The jobs selected for cancellation *)
Definition cancel_selection (s : State) (sel : Selector) : outcome (list Z) :=
  match sel with
  | SelAll =>
      rows ← mapM (fun j => st ← job_status (make_job_info j); Ret (ji_id (make_job_info j), st))
               (map_values (jobs s));
      Ret (List.filter (fun row => match row.2 with SWaiting | SRunning => true | _ => false end) rows).*1
  | SelLastN n => last_n_ids s n
  | SelSpecific a => IntArray_iter a
  end.

(** The loop of [handle_job_cancel] up to the next [await]: unknown jobs and
    jobs without an unfinished task are answered at once. *)
Fixpoint cancel_loop (s : State) (job_ids : list Z) (responses : list (Z * CancelJobResponse)) : Next :=
  match job_ids with
  | [] => Reply (CancelJobResponseMsg responses)
  | job_id :: rest =>
      match get_job s job_id with
      | None => cancel_loop s rest (responses ++ [(job_id, CJInvalidJob)])
      | Some job =>
          match non_finished_task_ids job with
          | [] => cancel_loop s rest (responses ++ [(job_id, CJCanceled [] (n_tasks job))])
          | ids => AwaitTako (CancelTasks ids) (AfterCancel job_id rest responses)
          end
      end
  end.

(** [handle_job_cancel] up to its first [await] *)
Definition handle_job_cancel (s : State) (sel : Selector) : outcome Next :=
  ids ← cancel_selection s sel;
  Ret (cancel_loop s ids []).

(** [canceled_tasks.iter().map(|id| job.set_cancel_state(..))] *)
Fixpoint set_cancel_states (j : Job) (tako_ids : list Z) (now : Z)
    : outcome (list Z * Job * list StreamCtl) :=
  match tako_ids with
  | [] => Ret ([], j, [])
  | id :: rest =>
      '(t, j, msgs) ← set_cancel_state j id now;
      '(ts, j, msgs') ← set_cancel_states j rest now;
      Ret (t :: ts, j, msgs ++ msgs')
  end.

(** [handle_job_cancel] after an answer of [tako], up to the next [await] *)
Definition after_cancel (s : State) (job_id : Z) (rest : list Z)
    (responses : list (Z * CancelJobResponse)) (m : ToGatewayMessage) (now : Z)
    : outcome (State * list StreamCtl * Next) :=
  match m with
  | CancelTasksResponse canceled_tasks =>
      job ← unwrap (jobs s !! job_id);
      '(canceled_ids, job, msgs) ← set_cancel_states job canceled_tasks now;
      already_finished ← u32_sub (n_tasks job) (as_u32 (Z.of_nat (length canceled_ids)));
      let s := put_job s job_id job in
      Ret (s, msgs, cancel_loop s rest (responses ++ [(job_id, CJCanceled canceled_ids already_finished)]))
  | GatewayError message => Ret (s, [], cancel_loop s rest (responses ++ [(job_id, CJFailed message)]))
  | _ => Panic ExplicitPanic
  end.

(** The task spawned by [cancel_tasks_from_callback] ([src/server/state.rs])
    after the answer of [tako] *)
Definition after_callback_cancel (s : State) (job_id : Z) (m : ToGatewayMessage) (now : Z)
    : outcome (State * list StreamCtl * Next) :=
  match m with
  | CancelTasksResponse cancelled_tasks =>
      job ← unwrap (jobs s !! job_id);
      '(_, job, msgs) ← set_cancel_states job cancelled_tasks now;
      Ret (put_job s job_id job, msgs, Finish)
  | GatewayError _ => Ret (s, [], Finish)
  | _ => Panic ExplicitPanic
  end.

(** ** Workers *)

(** The loop of [handle_worker_stop] up to the next [await] *)
Fixpoint worker_stop_loop (s : State) (worker_ids : list Z)
    (responses : list (Z * StopWorkerResponse)) : Next :=
  match worker_ids with
  | [] => Reply (StopWorkerResponseMsg responses)
  | worker_id :: rest =>
      match workers s !! worker_id with
      | Some worker =>
          match wi_ended (make_info worker) with
          | Some _ => worker_stop_loop s rest (responses ++ [(worker_id, SWAlreadyStopped)])
          | None => AwaitTako (StopWorkerReq worker_id) (AfterStopWorker worker_id rest responses)
          end
      | None => worker_stop_loop s rest (responses ++ [(worker_id, SWInvalidWorker)])
      end
  end.

(** [handle_worker_stop] up to its first [await] *)
Definition handle_worker_stop (s : State) (sel : Selector) : outcome Next :=
  match sel with
  | SelSpecific a => ids ← IntArray_iter a; Ret (worker_stop_loop s ids [])
  | SelAll =>
      let ids := (fun kv => worker_id kv.2) <$>
        List.filter (fun kv => match wi_ended (make_info kv.2) with None => true | Some _ => false end)
          (map_to_list (workers s)) in
      Ret (worker_stop_loop s ids [])
  | SelLastN _ => Ret (Reply (ErrorMsg "Invalid command was provided"))
  end.

(** [handle_worker_stop] after an answer of [tako] ([send_tako_message] never
    returns an error) *)
Definition after_stop_worker (s : State) (worker_id : Z) (rest : list Z)
    (responses : list (Z * StopWorkerResponse)) (m : ToGatewayMessage) : outcome Next :=
  match m with
  | WorkerStopped => Ret (worker_stop_loop s rest (responses ++ [(worker_id, SWStopped)]))
  | GatewayError error => Ret (worker_stop_loop s rest (responses ++ [(worker_id, SWFailed error)]))
  | _ => Panic ExplicitPanic
  end.

(** [handle_worker_list] *)
Definition handle_worker_list (s : State) : ToClientMessage :=
  WorkerListResponse (make_info <$> map_values (workers s)).

(** [handle_worker_info] *)
Definition handle_worker_info (s : State) (worker_id : Z) : ToClientMessage :=
  WorkerInfoResponse (make_info <$> workers s !! worker_id).

(** ** Job queries *)

(** The jobs selected by a query *)
Definition query_selection (s : State) (sel : Selector) : outcome (list Z) :=
  match sel with
  | SelAll => Ret (job_id <$> map_values (jobs s))
  | SelLastN n => last_n_ids s n
  | SelSpecific a => IntArray_iter a
  end.

(** [compute_job_detail] *)
Definition compute_job_detail (s : State) (sel : Selector) (include_tasks : bool) (now : Z)
    : outcome ToClientMessage :=
  ids ← query_selection s sel;
  Ret (JobDetailResponse ((fun id =>
    (id, (fun j => make_job_detail j include_tasks now) <$> get_job s id)) <$> ids)).

(** [compute_job_info] *)
Definition compute_job_info (s : State) (sel : Selector) : outcome ToClientMessage :=
  match sel with
  | SelAll => Ret (JobInfoResponse (make_job_info <$> map_values (jobs s)))
  | SelLastN n =>
      ids ← last_n_ids s n;
      Ret (JobInfoResponse (make_job_info <$> omap (get_job s) ids))
  | SelSpecific a =>
      ids ← IntArray_iter a;
      Ret (JobInfoResponse (make_job_info <$> omap (get_job s) ids))
  end.

(** ** Specification of a submit *)

(** The submitted array is well-formed. *)
Definition job_type_wf (t : JobType) : Prop :=
  match t with Simple => True | Array a => array_wf a end.

(** The number of task ids reserved for a job, exactly. *)
Definition reserved (t : JobType) : Z :=
  match t with Simple => 1 | Array a => sumZ (count <$> ranges a) end.

(** The tasks of a submit: the job-level task id and the entry of each. *)
Definition submit_rows (r : SubmitRequest) : list (Z * option string) :=
  match sr_job_type r, sr_entries r with
  | Simple, _ => [(0, None)]
  | Array a, None => (fun t => (t, None)) <$> array_ids a
  | Array a, Some es => zip (array_ids a) (Some <$> es)
  end.

(** Every task of the job has an entry, when the job has entries. *)
Definition entries_cover (r : SubmitRequest) : Prop :=
  match sr_job_type r, sr_entries r with
  | Array a, Some es => (length (array_ids a) <= length es)%nat
  | _, _ => True
  end.

(** The environment of task [task_id] of job [job_id]. *)
Definition task_env (r : SubmitRequest) (job_id task_id : Z) (entry : option string)
    : gmap string string :=
  let env := <[HQ_SUBMIT_DIR := sr_submit_dir r]> (<[HQ_TASK_ID := to_string task_id]>
               (<[HQ_JOB_ID := to_string job_id]> (pd_env (sr_spec r)))) in
  match entry with Some e => <[HQ_ENTRY := e]> env | None => env end.

(** The definitions [defs] describe the tasks of the submit, from [base] on. *)
Definition describes (r : SubmitRequest) (job_id base : Z) (defs : list TaskDef) : Prop :=
  td_id <$> defs = seqZ base (Z.of_nat (length (submit_rows r))) /\
  Forall2 (fun (row : Z * option string) d =>
    exists program, serialize {| tb_program := program; tb_pin := sr_pin r;
        tb_job_id := job_id; tb_task_id := row.1 |} = Some (td_body d) /\
      pd_env program = task_env r job_id row.1 row.2 /\
      pd_args program = pd_args (sr_spec r) /\ pd_cwd program = pd_cwd (sr_spec r) /\
      pd_stdout program = pd_stdout (sr_spec r) /\ pd_stderr program = pd_stderr (sr_spec r) /\
      td_resources d = sr_resources r /\ td_priority d = sr_priority r /\
      td_time_limit d = sr_time_limit r) (submit_rows r) defs.

(** The job-level id of task [k]. *)
Definition job_task_id (j : Job) (k : Z) : Z :=
  match job_shape j with
  | None => 0
  | Some m => default 0 (m !! k)
  end.

(** The state after the submit of job [j] with [c] reserved task ids. *)
Definition submitted (s : State) (c : Z) (j : Job) : State :=
  {| jobs := <[job_id j := j]> (jobs s); workers := workers s;
     base_task_id_to_job_id := <[base_task_id j := job_id j]> (base_task_id_to_job_id s);
     job_id_counter := job_id_counter s + 1; task_id_counter := task_id_counter s + c |}.

(** How a submit goes on: with the registration of the stream or with the
    tasks sent to [tako]. *)
Definition submit_next (r : SubmitRequest) (job_id : Z) (defs : list TaskDef) (job : JobDetail)
    : list StreamCtl * Next :=
  match sr_log r with
  | Some log => ([RegisterStream job_id (path_join (sr_submit_dir r) log)],
                 AwaitRegistration defs job)
  | None => ([], AwaitTako (NewTasks defs) (AfterNewTasks job))
  end.

(** No job without tasks was added last: its base id would be taken again. *)
Definition base_free (s : State) : Prop :=
  forall id j, jobs s !! id = Some j -> base_task_id j < task_id_counter s.

(** ** Lemmas: submit *)

Lemma reserved_bounds t : job_type_wf t -> 0 <= reserved t < 2 ^ 32.
Proof.
  destruct t as [|a]; simpl; [lia|]. intros [Hr Hs]. split; [|done].
  apply sumZ_nonneg, Forall_fmap. eapply Forall_impl; [done|]. unfold range_wf. simpl. lia.
Qed.

Lemma task_count_wf t : job_type_wf t -> task_count t = Ret (reserved t).
Proof.
  destruct t as [|a]; simpl; [done|]. intros [Hr Hs]. unfold id_count.
  rewrite u32_sum_exact; [done| |done].
  apply Forall_fmap. eapply Forall_impl; [done|]. unfold range_wf. simpl. lia.
Qed.

(** A submit on a well-formed state: everything but the serialization of the
    tasks and the assertion of [add_job] succeeds. *)
Lemma handle_submit_eq s r now :
  state_wf s -> job_id_counter s < 2 ^ 32 - 1 -> job_type_wf (sr_job_type r) ->
  resources_validate (sr_resources r) = true ->
  exists j, job_wf j /\ (forall k st, job_tasks j !! k = Some st -> st = Waiting) /\
    job_shape j = match sr_job_type r with
                  | Simple => None
                  | Array a => if sumZ (count <$> ranges a) =? 1 then None
                               else Some (map_seqZ (task_id_counter s) (array_ids a))
                  end /\
    job_id j = job_id_counter s /\ base_task_id j = task_id_counter s /\
    job_log j = sr_log r /\ completion_date j = None /\
    job_size j <= reserved (sr_job_type r) /\
    handle_submit s r now =
      defs ← make_task_defs r (job_id j) (base_task_id j);
      if bool_decide (base_task_id_to_job_id s !! base_task_id j = None) then
        let next := submit_next r (job_id j) defs (make_job_detail j false now) in
        Ret (submitted s (reserved (sr_job_type r)) j, next.1, next.2)
      else Panic AssertionFailed.
Proof.
  intros Hwf Hlt Ht Hv. pose proof (reserved_bounds _ Ht) as Hr.
  pose proof (sw_counter s Hwf). pose proof (sw_task_counter s Hwf).
  destruct (allocate_ids s _ Hwf Hlt Hr) as (s1 & Hn1 & Hn2).
  destruct (Job_new_ok (sr_job_type r) (job_id_counter s) (task_id_counter s) (sr_name r)
    (sr_spec r) (sr_resources r) (sr_pin r) (sr_max_fails r) (sr_entries r) (sr_priority r)
    (sr_time_limit r) (sr_log r) now) as (j & Hnew & Hj & Hw & Hsh & Hid & Hb & Hl & Hc).
  { destruct (sr_job_type r) as [|a]; simpl in *; [nia|]. split_and!; [apply Ht..|lia|nia]. }
  exists j. split_and!; try done.
  { unfold job_size. rewrite job_shape_size, Hsh. destruct (sr_job_type r) as [|a]; simpl; [lia|].
    destruct (Z.eqb_spec (sumZ (count <$> ranges a)) 1) as [->|]; [lia|].
    rewrite size_map_seqZ. apply length_array_ids_le, Ht. }
  unfold handle_submit. rewrite Hv. simpl. rewrite Hn1. simpl.
  rewrite task_count_wf by done. simpl. rewrite Hn2. simpl. rewrite Hid, Hb.
  destruct (make_task_defs r _ _) as [defs|]; simpl; [|done].
  rewrite Hnew. simpl. rewrite (add_job_eq s (reserved (sr_job_type r)) j Hwf Hid). rewrite Hb.
  destruct (bool_decide _); simpl; [|done].
  unfold submit_next, submitted. rewrite Hid, Hb. by destruct (sr_log r).
Qed.

Section submit.
Hypothesis serialize_total : forall b, is_Some (serialize b).

Lemma make_task_ok r job_id task_id tako_id entry :
  exists d, make_task r job_id task_id tako_id entry = Ret d /\ td_id d = tako_id /\
    exists program, serialize {| tb_program := program; tb_pin := sr_pin r;
        tb_job_id := job_id; tb_task_id := task_id |} = Some (td_body d) /\
      pd_env program = task_env r job_id task_id entry /\
      pd_args program = pd_args (sr_spec r) /\ pd_cwd program = pd_cwd (sr_spec r) /\
      pd_stdout program = pd_stdout (sr_spec r) /\ pd_stderr program = pd_stderr (sr_spec r) /\
      td_resources d = sr_resources r /\ td_priority d = sr_priority r /\
      td_time_limit d = sr_time_limit r.
Proof.
  unfold make_task. set (p := add_entry _ entry).
  destruct (serialize_total {| tb_program := p; tb_pin := sr_pin r; tb_job_id := job_id;
    tb_task_id := task_id |}) as [b Hb]. rewrite Hb. simpl. eexists. split; [done|].
  split; [done|]. exists p. unfold p in *. destruct entry; simpl; eauto 15.
Qed.

(** The loop that makes the definitions of an array job. *)
Lemma make_rows_ok r job_id base (rows : list (Z * option string)) :
  0 <= base -> base + Z.of_nat (length rows) <= 2 ^ 64 ->
  exists defs, mapM (fun '(i, row) =>
      tako_id ← u64_add base (Z.of_nat i); make_task r job_id row.1 tako_id row.2)
      (imap pair rows) = Ret defs /\
    td_id <$> defs = seqZ base (Z.of_nat (length rows)) /\
    Forall2 (fun (row : Z * option string) d =>
      exists program, serialize {| tb_program := program; tb_pin := sr_pin r;
          tb_job_id := job_id; tb_task_id := row.1 |} = Some (td_body d) /\
        pd_env program = task_env r job_id row.1 row.2 /\
        pd_args program = pd_args (sr_spec r) /\ pd_cwd program = pd_cwd (sr_spec r) /\
        pd_stdout program = pd_stdout (sr_spec r) /\ pd_stderr program = pd_stderr (sr_spec r) /\
        td_resources d = sr_resources r /\ td_priority d = sr_priority r /\
        td_time_limit d = sr_time_limit r) rows defs.
Proof.
  intros Hb. induction rows as [|row rows IH] using rev_ind; intros Hlt.
  - exists []. split; [done|]. by rewrite seqZ_nil.
  - rewrite length_app in Hlt. simpl in Hlt.
    destruct IH as (defs & Hm & Hid & Hf); [lia|].
    destruct (make_task_ok r job_id row.1 (base + Z.of_nat (length rows)) row.2)
      as (d & Hd & Hdid & Hp).
    exists (defs ++ [d]). rewrite imap_app. simpl. split_and!.
    + rewrite mapM_app, Hm. simpl. rewrite Nat.add_0_r, u64_add_exact by lia.
      simpl. by rewrite Hd.
    + rewrite fmap_app, Hid, length_app. simpl. rewrite Hdid, Nat2Z.inj_add.
      rewrite seqZ_app by lia. simpl. done.
    + apply Forall2_app; [done|]. by constructor.
Qed.

Lemma imap_zip_entries (h : nat -> nat) (ids : list Z) (es : list string) :
  imap (fun i row => (h i, row)) (zip ids (Some <$> es)) =
    (fun '(i, t, e) => (i, (t, Some e))) <$> zip (imap (fun i t => (h i, t)) ids) es.
Proof.
  revert h es. induction ids as [|t ids IH]; intros h [|e es]; csimpl; try done.
  f_equal. apply (IH (fun i => h (S i))).
Qed.

Lemma submit_rows_length r :
  job_type_wf (sr_job_type r) -> Z.of_nat (length (submit_rows r)) <= reserved (sr_job_type r).
Proof.
  unfold submit_rows. destruct (sr_job_type r) as [|a]; simpl; [lia|].
  intros [Hr _]. pose proof (length_array_ids_le a Hr).
  destruct (sr_entries r) as [es|]; [rewrite length_zip_with|]; rewrite length_fmap; lia.
Qed.

Lemma make_task_defs_ok r job_id base :
  job_type_wf (sr_job_type r) -> 0 <= base -> base + reserved (sr_job_type r) <= 2 ^ 64 ->
  exists defs, make_task_defs r job_id base = Ret defs /\ describes r job_id base defs.
Proof.
  intros Hwf Hb Hlt. pose proof (submit_rows_length r Hwf).
  destruct (make_rows_ok r job_id base (submit_rows r)) as (defs & Hm & Hid & Hf); [done|lia|].
  exists defs. split; [|by split]. rewrite <- Hm.
  unfold make_task_defs, submit_rows in *. destruct (sr_job_type r) as [|a].
  - cbn [imap mapM]. rewrite u64_add_exact by (simpl in *; lia). simpl.
    rewrite Z.add_0_r. done.
  - rewrite IntArray_iter_wf by apply Hwf. simpl. destruct (sr_entries r) as [es|].
    + rewrite (imap_zip_entries (fun i => i)), mapM_fmap. apply mapM_ext. by intros [[i t] e] _.
    + rewrite imap_fmap.
      change (fun n => pair n ∘ _) with
        (fun n : nat => (fun '(i, t) => (i, (t, @None string))) ∘ (pair n : Z -> _)).
      rewrite <- fmap_imap, mapM_fmap. apply mapM_ext. by intros [i t] _.
Qed.

End submit.

(** Any submit that does not panic keeps the invariant and the stream server in
    step, and goes on as [submit_next] says. *)
Lemma handle_submit_inv s r now s' ctl next :
  state_wf s -> job_id_counter s < 2 ^ 32 - 1 -> job_type_wf (sr_job_type r) ->
  handle_submit s r now = Ret (s', ctl, next) ->
  (s' = s /\ ctl = [] /\ next = Reply (ErrorMsg "Invalid resource request")) \/
  (exists j defs, state_wf s' /\ jobs s' = <[job_id_counter s := j]> (jobs s) /\
    jobs s !! job_id_counter s = None /\
    job_id_counter s' = job_id_counter s + 1 /\ workers s' = workers s /\
    reg_run (open_streams s) ctl = Some (open_streams s') /\
    (ctl, next) = submit_next r (job_id_counter s) defs (make_job_detail j false now)).
Proof.
  intros Hwf Hlt Ht Hs. destruct (resources_validate (sr_resources r)) eqn:Hv.
  - right. destruct (handle_submit_eq s r now Hwf Hlt Ht Hv)
      as (j & Hj & _ & _ & Hid & Hb & Hl & Hc & Hsz & Heq).
    pose proof (reserved_bounds _ Ht) as Hr.
    rewrite Hs in Heq. symmetry in Heq.
    destruct (make_task_defs r _ _) as [defs|]; simpl in Heq; [|done].
    case_bool_decide as Hfree; [|done]. simplify_eq.
    pose proof (add_job_wf s _ j Hwf Hlt Hr Hj Hid Hb Hsz Hfree) as Hwf'.
    pose proof (add_job_open s (reserved (sr_job_type r)) j Hwf Hlt Hr Hj Hid Hb Hsz Hc) as Ho.
    pose proof (new_id_fresh s j Hwf Hid) as Hnone.
    exists j, defs. unfold submitted. simpl. rewrite Hid in *.
    split_and!; [done|done|done|done|done| |by rewrite <- surjective_pairing].
    unfold submit_next. rewrite Ho, Hl. destruct (sr_log r) as [log|]; simpl; [|done].
    rewrite decide_False; [done|]. intros (j1 & ? & _)%elem_of_open_streams. congruence.
  - left. unfold handle_submit in Hs. rewrite Hv in Hs. simpl in Hs. by simplify_eq.
Qed.

(** ** Lemmas: cancel *)

Lemma set_cancel_op j id now t j' msgs :
  set_cancel_state j id now = Ret (t, j', msgs) -> apply_op j id OpCancel now = Ret (j', msgs).
Proof. intros Hc. simpl. by rewrite Hc. Qed.

Lemma get_task_state_id j k t st :
  get_task_state_mut j k = Ret (t, st) -> t = job_task_id j k.
Proof.
  unfold get_task_state_mut, job_task_id, job_shape. destruct (job_state j) as [st'|m].
  - unfold debug_assert. destruct debug_assertions; intros; by ret_inv.
  - intros. ret_inv. rewrite lookup_fmap, E. done.
Qed.

Lemma set_cancel_states_advance j ids now ts j' msgs :
  job_wf j -> set_cancel_states j ids now = Ret (ts, j', msgs) ->
  job_advance j j' /\ msgs = completion_msgs j j' /\ length ts = length ids.
Proof.
  revert j ts msgs. induction ids as [|id ids IH]; intros j ts msgs Hwf Hs; simpl in Hs.
  - simplify_eq. split_and!; [by apply job_advance_refl| |done].
    unfold completion_msgs. by destruct (completion_date j').
  - destruct (set_cancel_state j id now) as [[[t j1] m1]|] eqn:Hc; simpl in Hs; [|done].
    destruct (set_cancel_states j1 ids now) as [[[ts1 j2] m2]|] eqn:Hr; simpl in Hs; [|done].
    simplify_eq. apply set_cancel_op, apply_op_step in Hc as [Ha ->]; [|done].
    apply IH in Hr as (Ha2 & -> & Hlen); [|apply Ha].
    split_and!; [by eapply job_advance_trans|by apply completion_msgs_app|simpl; lia].
Qed.

Lemma set_cancel_states_ok j ids now :
  job_wf j -> NoDup ids ->
  (forall k, k ∈ ids -> exists st, job_tasks j !! k = Some st /\ is_unfinished st = true) ->
  exists j' msgs, set_cancel_states j ids now = Ret (job_task_id j <$> ids, j', msgs) /\
    job_advance j j' /\ msgs = completion_msgs j j' /\
    forall k, job_tasks j' !! k = if decide (k ∈ ids) then Some Canceled else job_tasks j !! k.
Proof.
  intros Hwf Hnd. revert j Hwf.
  induction Hnd as [|id ids Hnin Hnd IH]; intros j Hwf Hun; simpl.
  - exists j, []. split_and!; [done|by apply job_advance_refl| |done].
    unfold completion_msgs. by destruct (completion_date j).
  - destruct (Hun id ltac:(set_solver)) as (st & Hst & Hu).
    destruct (get_task_state_ok j id st Hst) as (Hkey & t & Hget).
    pose proof (get_task_state_id _ _ _ _ Hget) as ->.
    assert (exists j1 m1, set_cancel_state j id now = Ret (job_task_id j id, j1, m1) /\
      job_updated j (task_key j id) Canceled j1 m1) as (j1 & m1 & Hc & Hup).
    { pose proof (set_cancel_state_get j id _ st now Hwf Hget) as Hs. by destruct st. }
    rewrite Hc. simpl. pose proof (set_cancel_op _ _ _ _ _ _ Hc) as Hop.
    apply apply_op_step in Hop as [Ha Hm]; [|done].
    assert (Ht1 : job_tasks j1 = <[id := Canceled]> (job_tasks j)) by (rewrite (ju_tasks _ _ _ _ _ Hup); congruence).
    destruct (IH j1 ltac:(apply Ha)) as (j' & msgs & Hr & Ha2 & Hm2 & Ht2).
    { intros k Hk. rewrite Ht1, lookup_insert_ne by set_solver. apply Hun. set_solver. }
    rewrite Hr. simpl. exists j', (m1 ++ msgs). split_and!.
    + f_equal. f_equal. f_equal. csimpl. f_equal. apply list_fmap_ext. intros i k _.
      unfold job_task_id. by rewrite (ja_shape _ _ Ha).
    + by eapply job_advance_trans.
    + subst m1 msgs. by apply completion_msgs_app.
    + intros k. rewrite Ht2, Ht1. destruct (decide (k ∈ ids)).
      * by rewrite decide_True by set_solver.
      * destruct (decide (k = id)) as [->|].
        -- by rewrite decide_True, lookup_insert_eq by set_solver.
        -- by rewrite decide_False, lookup_insert_ne by set_solver.
Qed.

(** The continuation of a cancellation accounts for every selected job, in order. *)
Definition cancel_progress (next : Next) (selected : list Z) : Prop :=
  match next with
  | Reply (CancelJobResponseMsg r) => r.*1 = selected
  | AwaitTako (CancelTasks ts) (AfterCancel id rest r) => r.*1 ++ id :: rest = selected /\ ts <> []
  | _ => False
  end.

Lemma cancel_loop_progress s ids r : cancel_progress (cancel_loop s ids r) (r.*1 ++ ids).
Proof.
  revert r. induction ids as [|id ids IH]; intros r; simpl; [by rewrite app_nil_r|].
  destruct (get_job s id) as [j|].
  - destruct (non_finished_task_ids j) as [|t ts].
    + specialize (IH (r ++ [(id, CJCanceled [] (n_tasks j))])).
      by rewrite fmap_app, <- app_assoc in IH.
    + simpl. split; [done|]. done.
  - specialize (IH (r ++ [(id, CJInvalidJob)])). by rewrite fmap_app, <- app_assoc in IH.
Qed.

Lemma after_cancel_advance s id rest r m now s' ctl next :
  state_wf s -> after_cancel s id rest r m now = Ret (s', ctl, next) ->
  state_advance s s' ctl /\ workers s' = workers s /\
  exists resp, next = cancel_loop s' rest (r ++ [(id, resp)]).
Proof.
  intros Hwf Ha. unfold after_cancel in Ha. destruct m; try done.
  - destruct (jobs s !! id) as [j|] eqn:Hj; simpl in Ha; [|done].
    destruct (set_cancel_states j cancelled_tasks now) as [[[ts j'] msgs]|] eqn:Hs; simpl in Ha; [|done].
    destruct (u32_sub _ _) as [n|]; simpl in Ha; [|done]. simplify_eq.
    destruct (sw_job s Hwf _ _ Hj) as [Hw _].
    apply set_cancel_states_advance in Hs as (Hadv & -> & _); [|done].
    split_and!; [by apply put_job_advance|done|eauto].
  - simplify_eq. split_and!; [by apply state_advance_refl|done|eauto].
Qed.

Lemma after_callback_cancel_advance s id m now s' ctl next :
  state_wf s -> after_callback_cancel s id m now = Ret (s', ctl, next) ->
  state_advance s s' ctl /\ workers s' = workers s /\ next = Finish.
Proof.
  intros Hwf Ha. unfold after_callback_cancel in Ha. destruct m; try done.
  - destruct (jobs s !! id) as [j|] eqn:Hj; simpl in Ha; [|done].
    destruct (set_cancel_states j cancelled_tasks now) as [[[ts j'] msgs]|] eqn:Hs; simpl in Ha; [|done].
    simplify_eq. destruct (sw_job s Hwf _ _ Hj) as [Hw _].
    apply set_cancel_states_advance in Hs as (Hadv & -> & _); [|done].
    split_and!; [by apply put_job_advance|done|done].
  - simplify_eq. split_and!; [by apply state_advance_refl|done|done].
Qed.

Lemma after_cancel_ok s id j rest r ids now :
  state_wf s -> jobs s !! id = Some j -> NoDup ids ->
  (forall t, t ∈ ids -> exists st, job_tasks j !! t = Some st /\ is_unfinished st = true) ->
  exists s' ctl,
    after_cancel s id rest r (CancelTasksResponse ids) now =
      Ret (s', ctl, cancel_loop s' rest
        (r ++ [(id, CJCanceled (job_task_id j <$> ids) (n_tasks j - Z.of_nat (length ids)))])) /\
    state_wf s' /\ reg_run (open_streams s) ctl = Some (open_streams s') /\
    exists j', jobs s' = <[id := j']> (jobs s) /\
      forall t, job_tasks j' !! t = if decide (t ∈ ids) then Some Canceled else job_tasks j !! t.
Proof.
  intros Hwf Hj Hnd Hun. destruct (sw_job s Hwf _ _ Hj) as [Hw _].
  destruct (set_cancel_states_ok j ids now Hw Hnd Hun) as (j' & msgs & Hs & Ha & -> & Ht).
  unfold after_cancel. rewrite Hj. simpl. rewrite Hs. simpl.
  assert (Hn : n_tasks j' = n_tasks j).
  { rewrite !n_tasks_wf by (apply Ha || apply Hw). by rewrite <- !size_dom, (ja_dom _ _ Ha). }
  assert (Hlen : Z.of_nat (length ids) <= n_tasks j < 2 ^ 32).
  { rewrite n_tasks_wf by apply Hw. split; [|apply Hw]. apply inj_le.
    rewrite <- size_dom, <- (size_list_to_set (C := gset Z) ids) by done.
    apply subseteq_size. intros t (st & Hst & _)%elem_of_list_to_set%Hun. by eapply elem_of_dom_2. }
  rewrite length_fmap, as_u32_id by (unfold is_u32; lia). rewrite Hn, u32_sub_exact by lia. simpl.
  pose proof (put_job_advance _ _ _ _ Hwf Hj Ha) as Hs'.
  eexists _, _. split_and!; [done|apply Hs'|apply Hs'|]. exists j'. split; [done|]. apply Ht.
Qed.

Lemma cancel_ok s id j rest r ids now :
  state_wf s -> jobs s !! id = Some j -> NoDup ids ->
  (forall t, t ∈ ids -> exists st, job_tasks j !! t = Some st /\ is_unfinished st = true) ->
  exists s' ctl next, after_cancel s id rest r (CancelTasksResponse ids) now = Ret (s', ctl, next).
Proof.
  intros Hwf Hj Hnd Hun.
  destruct (after_cancel_ok s id j rest r ids now Hwf Hj Hnd Hun) as (s' & ctl & -> & _). eauto.
Qed.

(** ** Lemmas: resubmit and queries *)

(** The job-level ids of the selected tasks. *)
Definition selected_ids (m : gmap Z JobTaskInfo) (filter : option (list Status)) : list Z :=
  jti_task_id <$> List.filter (fun v => status_selected filter (jti_state v)) (map_values m).

Lemma selected_ids_small j m filter :
  job_wf j -> job_state j = ManyTasks m ->
  Forall small_id (selected_ids m filter) /\ Z.of_nat (length (selected_ids m filter)) < 2 ^ 32.
Proof.
  intros [Hwf _] Hm. unfold selected_ids. split.
  - apply Forall_forall. intros x (v & -> & Hin)%list_elem_of_fmap.
    apply list_elem_of_In, filter_In in Hin as [Hin _].
    apply list_elem_of_In, elem_of_map_values in Hin as [k Hk].
    apply (jw_ids j Hwf (jti_task_id <$> m) k); [unfold job_shape; by rewrite Hm|].
    by rewrite lookup_fmap, Hk.
  - pose proof (jw_size j Hwf) as Hs. unfold job_tasks in Hs. rewrite Hm in Hs.
    rewrite map_size_fmap in Hs. rewrite length_fmap.
    pose proof (filter_length_le (fun v => status_selected filter (jti_state v)) (map_values m)).
    rewrite length_map_values in *. lia.
Qed.

Lemma resubmit_type_wf j filter :
  job_wf j -> exists o, resubmit_type j filter = Ret o /\ forall jt, o = Some jt -> job_type_wf jt.
Proof.
  intros Hwf. unfold resubmit_type. destruct (job_state j) as [st|m] eqn:Hm.
  - eexists. split; [done|]. intros jt. destruct (status_selected filter st); by intros [= <-].
  - destruct (selected_ids_small j m filter Hwf Hm) as [Hs Hl]. fold (selected_ids m filter).
    destruct (selected_ids m filter) as [|x l] eqn:E; [eexists; split; done|].
    pose proof (merge_sort_Permutation Z.le (x :: l)) as Hp.
    destruct (from_ids_wf (merge_sort Z.le (x :: l))) as (a & -> & Ha & _).
    + by rewrite Hp.
    + by rewrite Hp.
    + simpl. eexists. split; [done|]. by intros jt [= <-].
Qed.

Lemma last_n_ids_wf s n :
  state_wf s -> 0 <= n ->
  last_n_ids s n = Ret (seqZ (job_id_counter s - Z.min n (job_id_counter s - 1))
                              (Z.min n (job_id_counter s - 1))).
Proof.
  intros Hwf Hn. pose proof (sw_counter s Hwf). unfold last_n_ids.
  rewrite u32_sub_exact by lia. simpl. rewrite u32_sub_exact by lia. simpl. do 2 f_equal. lia.
Qed.

Lemma omap_all_Some {A B} (f : A -> option B) (g : A -> B) (l : list A) :
  (forall x, x ∈ l -> f x = Some (g x)) -> omap f l = g <$> l.
Proof.
  induction l as [|x l IH]; intros Hf; csimpl; [done|].
  rewrite (Hf x) by set_solver. rewrite IH by set_solver. done.
Qed.

(** ** Properties *)

(** A submit on a well-formed state. *)
Lemma submit_ok (serialize_total : forall b, is_Some (serialize b)) s r now :
  state_wf s -> job_id_counter s < 2 ^ 32 - 1 -> job_type_wf (sr_job_type r) ->
  resources_validate (sr_resources r) = true -> base_free s ->
  exists s' j defs,
    (let '(ctl, next) := submit_next r (job_id_counter s) defs (make_job_detail j false now) in
     handle_submit s r now = Ret (s', ctl, next) /\
     reg_run (open_streams s) ctl = Some (open_streams s')) /\
    state_wf s' /\ jobs s' = <[job_id_counter s := j]> (jobs s) /\
    jobs s !! job_id_counter s = None /\ job_wf j /\
    describes r (job_id_counter s) (task_id_counter s) defs /\
    (forall t st, job_tasks j !! t = Some st -> st = Waiting) /\
    (entries_cover r -> forall t, is_Some (job_tasks j !! t) <-> t ∈ td_id <$> defs).
Proof.
  intros Hwf Hlt Ht Hv Hfree.
  destruct (handle_submit_eq s r now Hwf Hlt Ht Hv)
    as (j & Hj & Hw & Hsh & Hid & Hb & Hl & Hc & Hsz & Heq).
  pose proof (reserved_bounds _ Ht) as Hr.
  pose proof (sw_counter s Hwf). pose proof (sw_task_counter s Hwf).
  destruct (make_task_defs_ok serialize_total r (job_id_counter s) (task_id_counter s)) as (defs & Hd & Hdesc);
    [done|lia|nia|].
  pose proof (proj2 (new_base_fresh s j Hwf Hb) Hfree) as Hnone.
  rewrite Hid, Hb, Hd in Heq. simpl in Heq. rewrite Hb in Hnone.
  rewrite bool_decide_true in Heq by done.
  exists (submitted s (reserved (sr_job_type r)) j), j, defs.
  destruct (submit_next r (job_id_counter s) defs _) as [ctl next] eqn:En. simpl in Heq.
  assert (Hinv := handle_submit_inv s r now _ _ _ Hwf Hlt Ht Heq).
  destruct Hinv as [(_ & _ & ->)|(j' & defs' & Hwf' & Hjobs & Hnew & _ & _ & Hreg & _)].
  { exfalso. unfold submit_next in En. by destruct (sr_log r). }
  split_and!; try done.
  - unfold submitted. simpl. by rewrite Hid.
  - intros Hcov t. rewrite (proj1 Hdesc), elem_of_seqZ, <- owns_lookup by done.
    unfold owns. rewrite Hb. unfold job_size. rewrite job_shape_size, Hsh.
    unfold submit_rows, entries_cover in *. destruct (sr_job_type r) as [|a]; [done|].
    assert (length (match sr_entries r with
      | Some es => zip (array_ids a) (Some <$> es)
      | None => (fun t => (t, None)) <$> array_ids a end) = length (array_ids a)) as ->.
    { destruct (sr_entries r); [rewrite length_zip_with|]; rewrite length_fmap; lia. }
    destruct (Z.eqb_spec (sumZ (count <$> ranges a)) 1) as [Hone|]; [|by rewrite size_map_seqZ].
    by rewrite length_array_ids_one by (done || apply Ht).
Qed.

(** C6: a submit on a well-formed state, with valid resources and a well-formed
    array, adds exactly one job with the next job id; all its tasks wait; the
    definitions sent to [tako] describe its tasks, one per task id, with the
    documented environment variables; the invariant is kept, and the stream of
    the job is registered exactly when the job has a log.  The hypothesis on
    the serializer is that it accepts every task body. *)
Theorem handle_submit_correct (serialize_total : forall b, is_Some (serialize b)) s r now :
  state_wf s -> job_id_counter s < 2 ^ 32 - 1 -> job_type_wf (sr_job_type r) ->
  resources_validate (sr_resources r) = true -> base_free s ->
  exists s' j defs,
    (let '(ctl, next) := submit_next r (job_id_counter s) defs (make_job_detail j false now) in
     handle_submit s r now = Ret (s', ctl, next) /\
     reg_run (open_streams s) ctl = Some (open_streams s')) /\
    state_wf s' /\ jobs s' = <[job_id_counter s := j]> (jobs s) /\
    jobs s !! job_id_counter s = None /\ job_wf j /\
    describes r (job_id_counter s) (task_id_counter s) defs /\
    (forall t st, job_tasks j !! t = Some st -> st = Waiting) /\
    (entries_cover r -> forall t, is_Some (job_tasks j !! t) <-> t ∈ td_id <$> defs).
Proof. apply submit_ok, serialize_total. Qed.

(** C28: a job without tasks (an array that counts no id, such as the one of an
    empty [--each-line] file) reserves no task id: the next submit finds its
    base id taken, and the assertion of [add_job] ends the server. *)
Theorem submit_after_empty_job_panics (serialize_total : forall b, is_Some (serialize b))
    s r r' now now' s1 ctl next :
  state_wf s -> job_id_counter s < 2 ^ 32 - 2 ->
  sr_job_type r = Array (from_range 0 0) -> job_type_wf (sr_job_type r') ->
  resources_validate (sr_resources r) = true -> resources_validate (sr_resources r') = true ->
  handle_submit s r now = Ret (s1, ctl, next) ->
  handle_submit s1 r' now' = Panic AssertionFailed.
Proof.
  intros Hwf Hlt Ht Ht' Hv Hv' Hs.
  assert (job_type_wf (sr_job_type r)) as Hwt.
  { rewrite Ht. split; [|simpl; lia]. repeat constructor; simpl; lia. }
  destruct (handle_submit_eq s r now Hwf ltac:(lia) Hwt Hv)
    as (j & Hj & _ & _ & Hid & Hb & _ & _ & Hsz & Heq).
  rewrite Hs in Heq. symmetry in Heq.
  destruct (make_task_defs r _ _) as [defs|]; simpl in Heq; [|done].
  assert (Hz : reserved (sr_job_type r) = 0) by (by rewrite Ht).
  rewrite Hz in *. case_bool_decide as Hfree; [|done]. injection Heq as <- _ _.
  assert (Hwf1 : state_wf (submitted s 0 j)).
  { apply (add_job_wf s 0 j); try done; lia. }
  destruct (handle_submit_eq (submitted s 0 j) r' now' Hwf1) as (j' & _ & _ & _ & _ & Hb' & _ & _ & _ & Heq');
    [simpl; lia|done|done|].
  rewrite Heq'. pose proof (sw_task_counter _ Hwf1). pose proof (sw_counter _ Hwf1).
  pose proof (reserved_bounds _ Ht').
  destruct (make_task_defs_ok serialize_total r' (job_id j') (base_task_id j')) as (defs' & -> & _);
    [done|lia|simpl in *; nia|].
  simpl. rewrite bool_decide_false; [done|].
  rewrite Hb'. simpl. rewrite Z.add_0_r, <- Hb, lookup_insert_eq. done.
Qed.

(** C13: cancelling the tasks that [tako] reports as cancelled, when they are
    unfinished tasks of the job, changes those tasks and no other to
    [Canceled], answers with their job-level ids and the number of the
    remaining tasks, and keeps the invariant and the stream server in step. *)
Theorem after_cancel_correct s id j rest r ids now :
  state_wf s -> jobs s !! id = Some j -> NoDup ids ->
  (forall t, t ∈ ids -> exists st, job_tasks j !! t = Some st /\ is_unfinished st = true) ->
  exists s' ctl,
    after_cancel s id rest r (CancelTasksResponse ids) now =
      Ret (s', ctl, cancel_loop s' rest
        (r ++ [(id, CJCanceled (job_task_id j <$> ids) (n_tasks j - Z.of_nat (length ids)))])) /\
    state_wf s' /\ reg_run (open_streams s) ctl = Some (open_streams s') /\
    exists j', jobs s' = <[id := j']> (jobs s) /\
      forall t, job_tasks j' !! t = if decide (t ∈ ids) then Some Canceled else job_tasks j !! t.
Proof. apply after_cancel_ok. Qed.

(** The answer to a cancellation accounts for every selected job, once per
    occurrence and in order: the loop keeps this over its [await]s, and only
    waits for [tako] with a non-empty list of tasks. *)
Theorem cancel_accounts_for_selection s sel next selected :
  handle_job_cancel s sel = Ret next -> cancel_selection s sel = Ret selected ->
  cancel_progress next selected /\
  forall s1 ts id rest r m now s2 ctl next',
    cancel_progress (AwaitTako (CancelTasks ts) (AfterCancel id rest r)) selected ->
    state_wf s1 -> after_cancel s1 id rest r m now = Ret (s2, ctl, next') ->
    cancel_progress next' selected.
Proof.
  intros Hc Hsel. split.
  - unfold handle_job_cancel in Hc. rewrite Hsel in Hc. simpl in Hc. simplify_eq.
    apply (cancel_loop_progress s selected []).
  - intros s1 ts id rest r m now s2 ctl next' [<- _] Hwf Ha.
    apply after_cancel_advance in Ha as (_ & _ & resp & ->); [|done].
    pose proof (cancel_loop_progress s2 rest (r ++ [(id, resp)])) as Hp.
    by rewrite fmap_app, <- app_assoc in Hp.
Qed.


(** A query for the last [n] jobs returns exactly the [n] youngest jobs (all
    jobs when there are fewer), oldest first. *)
Theorem job_info_last_n s n :
  state_wf s -> 0 <= n ->
  exists js, compute_job_info s (SelLastN n) = Ret (JobInfoResponse (make_job_info <$> js)) /\
    job_id <$> js = seqZ (job_id_counter s - Z.min n (job_id_counter s - 1))
                         (Z.min n (job_id_counter s - 1)) /\
    Forall (fun j => jobs s !! job_id j = Some j) js.
Proof.
  intros Hwf Hn. unfold compute_job_info. rewrite last_n_ids_wf by done. simpl.
  set (ids := seqZ _ _).
  assert (Hall : forall id, id ∈ ids -> exists j, jobs s !! id = Some j /\ job_id j = id).
  { intros id Hid%elem_of_seqZ. destruct (sw_dense s Hwf id) as [j Hj]; [lia|].
    exists j. split; [done|]. by destruct (sw_job s Hwf _ _ Hj) as (_ & ? & _). }
  exists (omap (get_job s) ids). split; [done|]. revert Hall. unfold get_job.
  induction ids as [|id ids IH]; intros Hall; csimpl; [done|].
  destruct (Hall id ltac:(set_solver)) as (j & Hj & Hid). rewrite Hj. csimpl.
  destruct IH as [IH1 IH2]; [set_solver|]. split; [by rewrite IH1, Hid|].
  constructor; [by rewrite Hid|done].
Qed.

End client.
