(* ===== verification/Server.v ===== *)
(** * The server as an event loop

    [src/server/rpc.rs] (the [Backend] and the reader of the messages of
    [tako]) and [client_rpc_loop] of [src/server/client.rs], over the handlers
    of [Client.v] and the notifications of [State.v].

    The server runs on a single thread: an event runs one atomic segment of one
    asynchronous task.  Every suspended task is in one of the lists of the
    record [Server]: in the queue of the senders that wait for an answer of
    [tako], woken by such an answer, waiting for the registration of a stream,
    waiting for statistics, or spawned and not started.  An event that no task
    is ready for leaves the server as it is.  A connection that ends while its loop
    waits for a request is [EvDisconnect].  Messages that leave the server
    are logged; whether a response can be written is in [System.v]. *)

From S2P Require Import Prelude ArrayDef Messages Job Status State Client.

Section server.
Context `{Profile} `{Tako}.

(** A task that waits for an answer of [tako]: its client connection, if any,
    and its continuation. *)
Definition Waiter : Type := option Z * Cont.

(** The server; [cwd] is its current directory. *)
Record Server := {
  sv_state : State;
  sv_idle : gset Z;                                  (* connections at [rx.next().await] *)
  sv_sent : list FromGatewayMessage;                 (* [tako_sender] *)
  sv_tako_responses : list Waiter;                   (* [tako_responses] *)
  sv_answers : list ToGatewayMessage;                (* the answers received from [tako] *)
  sv_woken : list (Waiter * ToGatewayMessage);       (* answered, not resumed yet *)
  sv_registering : list (Z * list TaskDef * JobDetail);
  sv_stats : list Z;
  sv_spawned : list (Z * list Z);
  sv_control : list StreamCtl;                       (* [stream_server_control] *)
  sv_replies : list (Z * ToClientMessage);
  sv_stopped : bool                                  (* [end_flag] *)
}.

Definition Server_new : Server :=
  {| sv_state := State_new; sv_idle := ∅; sv_sent := []; sv_tako_responses := [];
     sv_answers := []; sv_woken := []; sv_registering := []; sv_stats := [];
     sv_spawned := []; sv_control := []; sv_replies := []; sv_stopped := false |}.

(** Updates of the fields. *)
Definition with_sv_state (sv : Server) (s : State) : Server :=
  {| sv_state := s; sv_idle := sv_idle sv; sv_sent := sv_sent sv;
     sv_tako_responses := sv_tako_responses sv; sv_answers := sv_answers sv;
     sv_woken := sv_woken sv; sv_registering := sv_registering sv; sv_stats := sv_stats sv;
     sv_spawned := sv_spawned sv; sv_control := sv_control sv; sv_replies := sv_replies sv;
     sv_stopped := sv_stopped sv |}.

Definition with_idle (sv : Server) (idle : gset Z) : Server :=
  {| sv_state := sv_state sv; sv_idle := idle; sv_sent := sv_sent sv;
     sv_tako_responses := sv_tako_responses sv; sv_answers := sv_answers sv;
     sv_woken := sv_woken sv; sv_registering := sv_registering sv; sv_stats := sv_stats sv;
     sv_spawned := sv_spawned sv; sv_control := sv_control sv; sv_replies := sv_replies sv;
     sv_stopped := sv_stopped sv |}.

Definition with_woken (sv : Server) (w : list (Waiter * ToGatewayMessage)) : Server :=
  {| sv_state := sv_state sv; sv_idle := sv_idle sv; sv_sent := sv_sent sv;
     sv_tako_responses := sv_tako_responses sv; sv_answers := sv_answers sv;
     sv_woken := w; sv_registering := sv_registering sv; sv_stats := sv_stats sv;
     sv_spawned := sv_spawned sv; sv_control := sv_control sv; sv_replies := sv_replies sv;
     sv_stopped := sv_stopped sv |}.

Definition with_registering (sv : Server) (l : list (Z * list TaskDef * JobDetail)) : Server :=
  {| sv_state := sv_state sv; sv_idle := sv_idle sv; sv_sent := sv_sent sv;
     sv_tako_responses := sv_tako_responses sv; sv_answers := sv_answers sv;
     sv_woken := sv_woken sv; sv_registering := l; sv_stats := sv_stats sv;
     sv_spawned := sv_spawned sv; sv_control := sv_control sv; sv_replies := sv_replies sv;
     sv_stopped := sv_stopped sv |}.

Definition with_stats (sv : Server) (l : list Z) : Server :=
  {| sv_state := sv_state sv; sv_idle := sv_idle sv; sv_sent := sv_sent sv;
     sv_tako_responses := sv_tako_responses sv; sv_answers := sv_answers sv;
     sv_woken := sv_woken sv; sv_registering := sv_registering sv; sv_stats := l;
     sv_spawned := sv_spawned sv; sv_control := sv_control sv; sv_replies := sv_replies sv;
     sv_stopped := sv_stopped sv |}.

Definition with_spawned (sv : Server) (l : list (Z * list Z)) : Server :=
  {| sv_state := sv_state sv; sv_idle := sv_idle sv; sv_sent := sv_sent sv;
     sv_tako_responses := sv_tako_responses sv; sv_answers := sv_answers sv;
     sv_woken := sv_woken sv; sv_registering := sv_registering sv; sv_stats := sv_stats sv;
     sv_spawned := l; sv_control := sv_control sv; sv_replies := sv_replies sv;
     sv_stopped := sv_stopped sv |}.

Definition with_stopped (sv : Server) : Server :=
  {| sv_state := sv_state sv; sv_idle := sv_idle sv; sv_sent := sv_sent sv;
     sv_tako_responses := sv_tako_responses sv; sv_answers := sv_answers sv;
     sv_woken := sv_woken sv; sv_registering := sv_registering sv; sv_stats := sv_stats sv;
     sv_spawned := sv_spawned sv; sv_control := sv_control sv; sv_replies := sv_replies sv;
     sv_stopped := true |}.

(** ** The backend *)

(** [Backend::send_tako_message] up to its [await]: the sender of the answer is
    queued and the message sent, together. *)
Definition send_tako_message (sv : Server) (w : Waiter) (m : FromGatewayMessage) : Server :=
  {| sv_state := sv_state sv; sv_idle := sv_idle sv; sv_sent := sv_sent sv ++ [m];
     sv_tako_responses := sv_tako_responses sv ++ [w]; sv_answers := sv_answers sv;
     sv_woken := sv_woken sv; sv_registering := sv_registering sv; sv_stats := sv_stats sv;
     sv_spawned := sv_spawned sv; sv_control := sv_control sv; sv_replies := sv_replies sv;
     sv_stopped := sv_stopped sv |}.

(** [Backend::send_stream_control] *)
Definition send_stream_control (sv : Server) (ms : list StreamCtl) : Server :=
  {| sv_state := sv_state sv; sv_idle := sv_idle sv; sv_sent := sv_sent sv;
     sv_tako_responses := sv_tako_responses sv; sv_answers := sv_answers sv;
     sv_woken := sv_woken sv; sv_registering := sv_registering sv; sv_stats := sv_stats sv;
     sv_spawned := sv_spawned sv; sv_control := sv_control sv ++ ms; sv_replies := sv_replies sv;
     sv_stopped := sv_stopped sv |}.

(** [tako_responses.pop_front().unwrap().send(m)]: an answer of [tako] wakes
    the task at the front of the queue. *)
Definition pop_response (sv : Server) (m : ToGatewayMessage) : outcome Server :=
  match sv_tako_responses sv with
  | [] => Panic UnwrapFailed
  | w :: rest =>
      Ret {| sv_state := sv_state sv; sv_idle := sv_idle sv; sv_sent := sv_sent sv;
             sv_tako_responses := rest; sv_answers := sv_answers sv ++ [m];
             sv_woken := sv_woken sv ++ [(w, m)]; sv_registering := sv_registering sv;
             sv_stats := sv_stats sv; sv_spawned := sv_spawned sv; sv_control := sv_control sv;
             sv_replies := sv_replies sv; sv_stopped := sv_stopped sv |}
  end.

(** One message of the loop [tako_msg_reader] *)
Definition tako_msg_reader (sv : Server) (m : ToGatewayMessage) (now : Z) : outcome Server :=
  match m with
  | TaskUpdateMsg id state =>
      '(s, ctl) ← process_task_update (sv_state sv) id state now;
      Ret (send_stream_control (with_sv_state sv s) ctl)
  | TaskFailedMsg id message =>
      '(s, ctl, spawned) ← process_task_failed (sv_state sv) id message now;
      Ret (with_spawned (send_stream_control (with_sv_state sv s) ctl) (sv_spawned sv ++ spawned))
  | NewWorkerMsg worker_id configuration =>
      s ← process_worker_new (sv_state sv) worker_id configuration;
      Ret (with_sv_state sv s)
  | LostWorkerMsg worker_id running_tasks reason =>
      s ← process_worker_lost (sv_state sv) worker_id running_tasks reason now;
      Ret (with_sv_state sv s)
  | _ => pop_response sv m
  end.

(** ** Client connections *)

(** The response is sent and the loop of the connection goes on. *)
Definition reply (sv : Server) (c : Z) (m : ToClientMessage) : Server :=
  {| sv_state := sv_state sv; sv_idle := {[c]} ∪ sv_idle sv; sv_sent := sv_sent sv;
     sv_tako_responses := sv_tako_responses sv; sv_answers := sv_answers sv;
     sv_woken := sv_woken sv; sv_registering := sv_registering sv; sv_stats := sv_stats sv;
     sv_spawned := sv_spawned sv; sv_control := sv_control sv;
     sv_replies := sv_replies sv ++ [(c, m)]; sv_stopped := sv_stopped sv |}.

(** What the end of a segment does. *)
Definition continue_with (sv : Server) (c : option Z) (next : Next) : Server :=
  match next, c with
  | Reply m, Some c => reply sv c m
  | AwaitTako m k, _ => send_tako_message sv (c, k) m
  | AwaitRegistration defs job, Some c =>
      with_registering sv (sv_registering sv ++ [(c, defs, job)])
  | AwaitStats, Some c => with_stats sv (sv_stats sv ++ [c])
  | _, _ => sv
  end.

(** A segment that changed the state. *)
Definition commit (sv : Server) (c : option Z) (seg : State * list StreamCtl * Next) : Server :=
  let '(s, ctl, next) := seg in
  continue_with (send_stream_control (with_sv_state sv s) ctl) c next.

(** [client_rpc_loop]: a request (or an unreadable message) of connection [c] *)
Definition client_rpc_loop (cwd : string) (sv : Server) (c : Z)
    (message : result string FromClientMessage) (now : Z) : outcome Server :=
  let s := sv_state sv in
  match message with
  | Err e => Ret (with_idle (reply sv c (ErrorMsg ("Cannot parse message: " ++ e))) (sv_idle sv))
  | Ok (Submit msg) => seg ← handle_submit s msg now; Ret (commit sv (Some c) seg)
  | Ok (Resubmit msg) => seg ← handle_resubmit s cwd msg now; Ret (commit sv (Some c) seg)
  | Ok (JobInfoRequest sel) => m ← compute_job_info s sel; Ret (reply sv c m)
  | Ok Stop => Ret (with_stopped sv)
  | Ok WorkerList => Ret (reply sv c (handle_worker_list s))
  | Ok (WorkerInfoRequest id) => Ret (reply sv c (handle_worker_info s id))
  | Ok (StopWorker sel) => next ← handle_worker_stop s sel; Ret (continue_with sv (Some c) next)
  | Ok (Cancel sel) => next ← handle_job_cancel s sel; Ret (continue_with sv (Some c) next)
  | Ok (JobDetailRequest sel include_tasks) =>
      m ← compute_job_detail s sel include_tasks now; Ret (reply sv c m)
  | Ok Stats => Ret (continue_with (send_stream_control sv [StatsRequest]) (Some c) AwaitStats)
  end.

(** A task resumes with the answer of [tako]. *)
Definition resume (sv : Server) (w : Waiter) (m : ToGatewayMessage) (now : Z) : outcome Server :=
  let s := sv_state sv in
  match w.2 with
  | AfterNewTasks job => next ← after_new_tasks job m; Ret (continue_with sv w.1 next)
  | AfterCancel job_id rest responses =>
      seg ← after_cancel s job_id rest responses m now; Ret (commit sv w.1 seg)
  | AfterStopWorker worker_id rest responses =>
      next ← after_stop_worker s worker_id rest responses m; Ret (continue_with sv w.1 next)
  | AfterCallbackCancel job_id =>
      seg ← after_callback_cancel s job_id m now; Ret (commit sv w.1 seg)
  end.

(** ** Events *)

Inductive Event :=
| EvConnect (c : Z)
| EvClient (c : Z) (message : result string FromClientMessage) (now : Z)
| EvTako (m : ToGatewayMessage) (now : Z)
| EvResume (i : nat) (now : Z)
| EvRegistered (i : nat)
| EvStats (i : nat) (stats : StreamStats)
| EvSpawned (i : nat)
| EvDisconnect (c : Z).

(** One event. *)
Definition step (cwd : string) (sv : Server) (e : Event) : outcome Server :=
  match e with
  | EvConnect c => Ret (with_idle sv ({[c]} ∪ sv_idle sv))
  | EvClient c message now =>
      if decide (c ∈ sv_idle sv) then
        client_rpc_loop cwd (with_idle sv (sv_idle sv ∖ {[c]})) c message now
      else Ret sv
  | EvTako m now => tako_msg_reader sv m now
  | EvResume i now =>
      match sv_woken sv !! i with
      | Some (w, m) => resume (with_woken sv (delete i (sv_woken sv))) w m now
      | None => Ret sv
      end
  | EvRegistered i =>
      match sv_registering sv !! i with
      | Some (c, defs, job) =>
          Ret (continue_with (with_registering sv (delete i (sv_registering sv))) (Some c)
                 (after_registration defs job))
      | None => Ret sv
      end
  | EvStats i stats =>
      match sv_stats sv !! i with
      | Some c => Ret (reply (with_stats sv (delete i (sv_stats sv))) c (StatsResponse stats))
      | None => Ret sv
      end
  | EvSpawned i =>
      match sv_spawned sv !! i with
      | Some (job_id, tasks) =>
          Ret (send_tako_message (with_spawned sv (delete i (sv_spawned sv)))
                 (None, AfterCallbackCancel job_id) (CancelTasks tasks))
      | None => Ret sv
      end
  | EvDisconnect c => Ret (with_idle sv (sv_idle sv ∖ {[c]}))
  end.

Definition run (cwd : string) (sv : Server) (es : list Event) : outcome Server :=
  foldM (step cwd) sv es.

(** ** Invariant *)

(** The request a waiting task has sent. *)
Definition waits_for (w : Waiter) (m : FromGatewayMessage) : bool :=
  match w.2, m with
  | AfterNewTasks _, NewTasks _ => true
  | AfterCancel _ _ _, CancelTasks ts => negb (bool_decide (ts = []))
  | AfterStopWorker id _ _, StopWorkerReq id' => id =? id'
  | AfterCallbackCancel _, CancelTasks ts => negb (bool_decide (ts = []))
  | _, _ => false
  end.

(** The job a waiting task works on. *)
Definition cont_job (k : Cont) : option Z :=
  match k with
  | AfterCancel id _ _ | AfterCallbackCancel id => Some id
  | _ => None
  end.

(** The answers [tako] gives to a request. *)
Definition answer_kind (q : FromGatewayMessage) (m : ToGatewayMessage) : bool :=
  match q, m with
  | NewTasks _, NewTasksResponse => true
  | CancelTasks _, (CancelTasksResponse _ | GatewayError _) => true
  | StopWorkerReq _, (WorkerStopped | GatewayError _) => true
  | _, _ => false
  end.

(** The request that the next answer belongs to. *)
Definition next_request (sv : Server) : option FromGatewayMessage :=
  sv_sent sv !! length (sv_answers sv).

(** The messages of [tako] that are not answers. *)
Definition is_notification (m : ToGatewayMessage) : bool :=
  match m with
  | TaskUpdateMsg _ _ | TaskFailedMsg _ _ | NewWorkerMsg _ _ | LostWorkerMsg _ _ _ => true
  | _ => false
  end.

(** Documented behaviour of the environment: submitted arrays are well-formed,
    and an answer of [tako] answers the oldest open request ([tako] handles
    requests one by one). *)
Definition event_ok (sv : Server) (e : Event) : Prop :=
  match e with
  | EvClient _ (Ok (Submit r)) _ => job_type_wf (sr_job_type r)
  | EvTako m _ => is_notification m = true \/
      exists q, next_request sv = Some q /\ answer_kind q m = true
  | _ => True
  end.

(** A run in which every event is as documented. *)
Fixpoint run_ok (cwd : string) (sv : Server) (es : list Event) : Prop :=
  match es with
  | [] => True
  | e :: es' => event_ok sv e /\
      match step cwd sv e with Ret sv' => run_ok cwd sv' es' | Panic _ => True end
  end.

#[export] Instance event_ok_dec sv e : Decision (event_ok sv e).
Proof.
  destruct e as [c|c [[r|r|sel|sel t|sel| |w| |sel|]|err] now|m now|i now|i|i st|i|c]; simpl; try apply _.
  - destruct (sr_job_type r) as [|a]; simpl; [left; exact I|apply array_wf_dec].
  - destruct (is_notification m); [left; by left|].
    destruct (next_request sv) as [q|].
    + destruct (answer_kind q m) eqn:E; [left; right; eauto|].
      right. intros [?|(q' & ? & ?)]; congruence.
    + right. intros [?|(q' & ? & ?)]; congruence.
Defined.

#[export] Instance run_ok_dec cwd sv es : Decision (run_ok cwd sv es).
Proof.
  revert sv. induction es as [|e es IH]; intros sv; simpl; [left; exact I|].
  apply and_dec; [apply event_ok_dec|]. destruct (step cwd sv e); [apply IH|left; exact I].
Defined.

Definition known_job (sv : Server) (id : Z) : Prop := is_Some (jobs (sv_state sv) !! id).

Record server_inv (sv : Server) : Prop := {
  si_state : state_wf (sv_state sv);
  si_control : reg_run ∅ (sv_control sv) = Some (open_streams (sv_state sv));
  si_answers : (length (sv_answers sv) <= length (sv_sent sv))%nat;
  si_queue : Forall2 (fun w m => waits_for w m = true) (sv_tako_responses sv)
    (drop (length (sv_answers sv)) (sv_sent sv));
  si_woken : Forall (fun wm => exists q, waits_for wm.1 q = true /\ answer_kind q wm.2 = true)
    (sv_woken sv);
  si_jobs : Forall (fun w => forall id, cont_job w.2 = Some id -> known_job sv id)
    (sv_tako_responses sv ++ (sv_woken sv).*1);
  si_spawned : Forall (fun p => known_job sv p.1 /\ p.2 <> []) (sv_spawned sv)
}.

(** The invariant of the task that a segment leaves waiting. *)
Definition next_ok (sv : Server) (next : Next) : Prop :=
  match next with
  | AwaitTako m k => waits_for (None, k) m = true /\
      forall id, cont_job k = Some id -> known_job sv id
  | _ => True
  end.

(** ** Lemmas: frame *)

Lemma Server_new_inv : server_inv Server_new.
Proof.
  split; simpl; [apply State_new_wf|done|lia|constructor..].
Qed.

(** A segment replaces the state. *)
Lemma inv_state sv s ctl :
  server_inv sv -> state_wf s -> reg_run (open_streams (sv_state sv)) ctl = Some (open_streams s) ->
  (forall id, known_job sv id -> is_Some (jobs s !! id)) ->
  server_inv (send_stream_control (with_sv_state sv s) ctl).
Proof.
  intros [Hwf Hc Ha Hq Hw Hj Hs] Hwf' Hreg Hk. split; simpl; try done.
  - rewrite reg_run_app, Hc. done.
  - eapply Forall_impl; [exact Hj|]. intros w Hw' id Hid. by apply Hk, Hw'.
  - eapply Forall_impl; [exact Hs|]. intros p [? ?]. split; [by apply Hk|done].
Qed.

Lemma inv_advance sv s ctl :
  server_inv sv -> state_advance (sv_state sv) s ctl ->
  server_inv (send_stream_control (with_sv_state sv s) ctl).
Proof.
  intros Hinv Ha. apply inv_state; [done|apply Ha|apply Ha|].
  intros id [j Hj]. destruct (sa_jobs _ _ _ Ha _ _ Hj) as (j' & Hj' & _). unfold known_job. by rewrite Hj'.
Qed.

Lemma inv_send sv c k m :
  server_inv sv -> waits_for (None, k) m = true ->
  (forall id, cont_job k = Some id -> known_job sv id) ->
  server_inv (send_tako_message sv (c, k) m).
Proof.
  intros [Hwf Hc Ha Hq Hw Hj Hs] Hm Hk. split; simpl; try done.
  - rewrite length_app. lia.
  - rewrite drop_app_le by done. apply Forall2_app; [done|]. by constructor.
  - rewrite <- app_assoc. apply Forall_app in Hj as [Hj1 Hj2]. apply Forall_app. split; [done|].
    simpl. by constructor.
Qed.

Lemma inv_continue sv c next :
  server_inv sv -> next_ok sv next -> server_inv (continue_with sv c next).
Proof.
  intros Hinv Hn. destruct next; simpl in *; try by destruct c, Hinv.
  destruct Hn. by apply inv_send.
Qed.

Lemma next_ok_jobs sv sv' next : jobs (sv_state sv) = jobs (sv_state sv') -> next_ok sv next -> next_ok sv' next.
Proof. unfold next_ok, known_job. intros ->. done. Qed.

Lemma inv_commit sv c s ctl next :
  server_inv sv -> state_advance (sv_state sv) s ctl -> next_ok (with_sv_state sv s) next ->
  server_inv (commit sv c (s, ctl, next)).
Proof.
  intros Hinv Ha Hn. apply inv_continue; [by apply inv_advance|].
  by eapply next_ok_jobs.
Qed.

(** ** Lemmas: the segments *)

Lemma cancel_loop_ok sv ids r : next_ok sv (cancel_loop (sv_state sv) ids r).
Proof.
  revert r. induction ids as [|id ids IH]; intros r; simpl; [done|].
  unfold get_job. destruct (jobs (sv_state sv) !! id) as [j|] eqn:Hj; [|apply IH].
  destruct (non_finished_task_ids j); [apply IH|]. simpl. split; [done|].
  intros id' [= <-]. unfold known_job. eauto.
Qed.

Lemma worker_stop_loop_ok sv ids r : next_ok sv (worker_stop_loop (sv_state sv) ids r).
Proof.
  revert r. induction ids as [|id ids IH]; intros r; simpl; [done|].
  destruct (workers (sv_state sv) !! id) as [w|]; [|apply IH].
  destruct (worker_state w); simpl; [|apply IH]. split; [|done].
  unfold waits_for. simpl. by rewrite Z.eqb_refl.
Qed.

Lemma submit_inv sv c r now seg :
  server_inv sv -> job_id_counter (sv_state sv) < 2 ^ 32 - 1 -> job_type_wf (sr_job_type r) ->
  handle_submit (sv_state sv) r now = Ret seg ->
  server_inv (commit sv c seg) /\
  job_id_counter (sv_state (commit sv c seg)) <= job_id_counter (sv_state sv) + 1.
Proof.
  intros Hinv Hlt Ht Hs. destruct seg as [[s' ctl] next].
  assert (Hcount : forall sv1, job_id_counter (sv_state (continue_with sv1 c next))
    = job_id_counter (sv_state sv1)) by (intros sv1; by destruct next, c).
  unfold commit. rewrite Hcount. simpl.
  destruct (handle_submit_inv _ _ _ _ _ _ (si_state _ Hinv) Hlt Ht Hs)
    as [(-> & -> & ->)|(j & defs & Hwf & Hj & Hnone & Hc & _ & Hreg & Hnext)].
  - split; [|lia]. apply inv_continue; [|done].
    apply inv_advance; [done|]. apply state_advance_refl, Hinv.
  - split; [|lia]. apply inv_continue.
    + apply inv_state; [done|done|done|]. intros id Hk. rewrite Hj.
      apply lookup_insert_is_Some'. by right.
    + unfold submit_next in Hnext. destruct (sr_log r); by injection Hnext as -> ->.
Qed.

Lemma pop_inv sv m q :
  server_inv sv -> next_request sv = Some q -> answer_kind q m = true ->
  exists sv' w, pop_response sv m = Ret sv' /\ server_inv sv' /\ sv_state sv' = sv_state sv /\
    sv_tako_responses sv = w :: sv_tako_responses sv' /\ waits_for w q = true /\
    sv_woken sv' = sv_woken sv ++ [(w, m)].
Proof.
  intros [Hwf Hc Ha Hq Hw Hj Hs] Hn Hk. unfold next_request in Hn.
  rewrite (drop_S _ _ _ Hn) in Hq. unfold pop_response.
  destruct (sv_tako_responses sv) as [|w rest]; [by inversion Hq|].
  apply Forall2_cons in Hq as [Hwq Hq]. eexists _, w. split; [done|].
  split_and!; try done. pose proof (lookup_lt_Some _ _ _ Hn). split; simpl; try done.
  - rewrite length_app. simpl. lia.
  - by rewrite length_app, Nat.add_1_r.
  - apply Forall_app. split; [done|]. constructor; [|done]. eauto.
  - rewrite fmap_app. simpl in *. apply Forall_cons in Hj as [Hj1 Hj].
    apply Forall_app in Hj as [Hj2 Hj3]. apply Forall_app. split; [done|].
    apply Forall_app. split; [done|]. by constructor.
Qed.

Lemma inv_spawn sv l :
  server_inv sv -> Forall (fun p => known_job sv p.1 /\ p.2 <> []) l -> server_inv (with_spawned sv l).
Proof. intros [] Hl. by split. Qed.

Lemma failed_spawned s t message now s' ctl spawned :
  state_wf s -> process_task_failed s t message now = Ret (s', ctl, spawned) ->
  Forall (fun p => is_Some (jobs s' !! p.1) /\ p.2 <> []) spawned.
Proof.
  intros Hwf Hp. pose proof (process_task_failed_advance _ _ _ _ _ _ _ Hwf Hp) as Ha.
  rewrite process_task_failed_op in Hp by done.
  destruct (task_op s t (OpFailed message) now) as [[s1 m1]|]; simpl in Hp; [|done].
  injection Hp as -> -> <-. destruct (lookup_by_task_id s' t (sa_wf _ _ _ Ha)) as (o & -> & Ho).
  destruct o as [[id j]|]; [|constructor]. destruct (proj1 (Ho id j) eq_refl) as [Hj _].
  destruct (sw_job s' (sa_wf _ _ _ Ha) _ _ Hj) as (_ & Hid & _). unfold fail_limit_cancel.
  destruct (max_fails j); [|constructor]. destruct (_ <? _); [|constructor].
  destruct (_ <$> _); [constructor|]. constructor; [|constructor]. simpl. rewrite Hid. eauto.
Qed.

Lemma tako_msg_reader_inv sv m now sv' :
  server_inv sv -> event_ok sv (EvTako m now) -> tako_msg_reader sv m now = Ret sv' ->
  server_inv sv' /\ job_id_counter (sv_state sv') = job_id_counter (sv_state sv).
Proof.
  intros Hinv Hok Hr. pose proof (si_state _ Hinv) as Hwf.
  assert (Hpop : is_notification m = false -> pop_response sv m = Ret sv' ->
    server_inv sv' /\ job_id_counter (sv_state sv') = job_id_counter (sv_state sv)).
  { intros Hn Hp. destruct Hok as [?|(q & Hq & Hk)]; [congruence|].
    destruct (pop_inv sv m q Hinv Hq Hk) as (sv1 & w & Heq & Hinv1 & Hst & _).
    rewrite Hp in Heq. simplify_eq. by rewrite Hst. }
  destruct m; simpl in Hr; try (by apply Hpop).
  - destruct (process_task_update _ _ _ _) as [[s ctl]|] eqn:Hu; simpl in Hr; [|done].
    rewrite process_task_update_op in Hu. destruct (update_op state); [|done].
    apply task_op_advance in Hu as [Ha _]; [|done]. simplify_eq.
    split; [by apply inv_advance|]. apply Ha.
  - destruct (process_task_failed _ _ _ _) as [[[s ctl] sp]|] eqn:Hu; simpl in Hr; [|done].
    pose proof (failed_spawned _ _ _ _ _ _ _ Hwf Hu) as Hsp.
    apply process_task_failed_advance in Hu as Ha; [|done]. simplify_eq.
    split; [|apply Ha]. pose proof (inv_advance _ _ _ Hinv Ha) as Hinv1.
    apply inv_spawn; [done|]. apply Forall_app. split; [apply Hinv1|done].
  - destruct (process_worker_new _ _ _) as [s|] eqn:Hu; simpl in Hr; [|done].
    apply process_worker_new_wf in Hu as Ha; [|done]. simplify_eq. split; [|apply Ha].
    pose proof (inv_advance _ _ _ Hinv Ha) as Hinv1. unfold send_stream_control in Hinv1.
    rewrite app_nil_r in Hinv1. by destruct sv.
  - destruct (process_worker_lost _ _ _ _ _) as [s|] eqn:Hu; simpl in Hr; [|done].
    apply process_worker_lost_advance in Hu as Ha; [|done]. simplify_eq. split; [|apply Ha].
    pose proof (inv_advance _ _ _ Hinv Ha) as Hinv1. unfold send_stream_control in Hinv1.
    rewrite app_nil_r in Hinv1. by destruct sv.
Qed.

Lemma continue_state sv c next : sv_state (continue_with sv c next) = sv_state sv.
Proof. by destruct next, c. Qed.

Lemma client_rpc_loop_inv cwd sv c message now sv' :
  server_inv sv -> job_id_counter (sv_state sv) < 2 ^ 32 - 1 ->
  event_ok sv (EvClient c message now) -> client_rpc_loop cwd sv c message now = Ret sv' ->
  server_inv sv' /\ job_id_counter (sv_state sv') <= job_id_counter (sv_state sv) + 1.
Proof.
  intros Hinv Hlt Hok Hr. destruct message as [m|e]; simpl in Hr.
  2: { simplify_eq. split; [by destruct Hinv|simpl; lia]. }
  destruct m; simpl in Hr.
  - destruct (handle_submit _ _ _) as [seg|] eqn:Hs; simpl in Hr; [|done]. simplify_eq.
    by eapply submit_inv.
  - unfold handle_resubmit in Hr.
    destruct (get_job _ _) as [j|] eqn:Hj; simpl in Hr.
    2: { simplify_eq. split; [|simpl; lia]. apply (inv_commit sv (Some c) _ _ (Reply _)); [done| |done].
         apply state_advance_refl, Hinv. }
    destruct (sw_job _ (si_state _ Hinv) _ _ Hj) as [Hw _].
    destruct (resubmit_type_wf j (rr_status r) Hw) as (o & Hrt & Hjt). rewrite Hrt in Hr. simpl in Hr.
    destruct o as [jt|]; simpl in Hr.
    2: { simplify_eq. split; [|simpl; lia]. apply (inv_commit sv (Some c) _ _ (Reply _)); [done| |done].
         apply state_advance_refl, Hinv. }
    destruct (handle_submit _ _ _) as [seg|] eqn:Hs; simpl in Hr; [|done]. simplify_eq.
    eapply submit_inv; [done|done| |done]. by apply Hjt.
  - destruct (handle_job_cancel _ _) as [next|] eqn:Hc; simpl in Hr; [|done]. simplify_eq.
    rewrite continue_state. split; [|lia]. apply inv_continue; [done|].
    unfold handle_job_cancel in Hc. destruct (cancel_selection _ _); simpl in Hc; [|done].
    simplify_eq. apply cancel_loop_ok.
  - destruct (compute_job_detail _ _ _ _); simpl in Hr; [|done]. simplify_eq.
    split; [by destruct Hinv|simpl; lia].
  - destruct (compute_job_info _ _); simpl in Hr; [|done]. simplify_eq.
    split; [by destruct Hinv|simpl; lia].
  - simplify_eq. split; [by destruct Hinv|simpl; lia].
  - simplify_eq. split; [by destruct Hinv|simpl; lia].
  - simplify_eq. split; [|simpl; lia]. apply (inv_continue (send_stream_control sv _) (Some c) AwaitStats); [|done].
    destruct Hinv. split; simpl; try done. by rewrite reg_run_app, si_control0.
  - destruct (handle_worker_stop _ _) as [next|] eqn:Hc; simpl in Hr; [|done]. simplify_eq.
    rewrite continue_state. split; [|lia]. apply inv_continue; [done|].
    unfold handle_worker_stop in Hc. destruct selector; simplify_eq; [|done|].
    + apply worker_stop_loop_ok.
    + destruct (IntArray_iter a); simpl in Hc; [|done]. simplify_eq. apply worker_stop_loop_ok.
  - simplify_eq. split; [by destruct Hinv|simpl; lia].
Qed.

Lemma resume_inv sv w m now sv' :
  server_inv sv -> resume sv w m now = Ret sv' ->
  server_inv sv' /\ job_id_counter (sv_state sv') = job_id_counter (sv_state sv).
Proof.
  intros Hinv Hr. pose proof (si_state _ Hinv) as Hwf.
  unfold resume in Hr. destruct w as [c [job|id rest r|id rest r|id]]; simpl in Hr.
  - destruct m; simpl in Hr; try done. simplify_eq.
    split; [by destruct c, Hinv|by destruct c].
  - destruct (after_cancel _ _ _ _ _ _) as [[[s ctl] next]|] eqn:Ha; simpl in Hr; [|done].
    simplify_eq. apply after_cancel_advance in Ha as (Ha & _ & resp & ->); [|done].
    rewrite continue_state. split; [|apply Ha].
    apply (inv_commit sv c s ctl); [done|done|]. apply (cancel_loop_ok (with_sv_state sv s)).
  - unfold after_stop_worker in Hr. destruct m; simpl in Hr; try done; simplify_eq;
      rewrite continue_state; (split; [|done]); (apply inv_continue; [done|]); apply worker_stop_loop_ok.
  - destruct (after_callback_cancel _ _ _ _) as [[[s ctl] next]|] eqn:Ha; simpl in Hr; [|done].
    simplify_eq. apply after_callback_cancel_advance in Ha as (Ha & _ & ->); [|done].
    split; [|by destruct c; apply Ha]. by apply (inv_commit sv c s ctl Finish).
Qed.

Lemma inv_delete_woken sv i : server_inv sv -> server_inv (with_woken sv (delete i (sv_woken sv))).
Proof.
  intros [Hwf Hc Ha Hq Hw Hj Hs]. split; simpl; try done.
  - by apply Forall_delete.
  - apply Forall_app in Hj as [Hj1 Hj2]. apply Forall_app. split; [done|].
    apply Forall_fmap. apply Forall_fmap in Hj2. by apply Forall_delete.
Qed.

Lemma step_inv cwd sv e sv' :
  server_inv sv -> job_id_counter (sv_state sv) < 2 ^ 32 - 1 -> event_ok sv e ->
  step cwd sv e = Ret sv' ->
  server_inv sv' /\ job_id_counter (sv_state sv') <= job_id_counter (sv_state sv) + 1.
Proof.
  intros Hinv Hlt Hok Hs. destruct e as [c|c m now|m now|i now|i|i st|i|c]; simpl in Hs.
  - simplify_eq. split; [by destruct Hinv|simpl; lia].
  - case_decide; [|simplify_eq; split; [done|lia]].
    apply client_rpc_loop_inv in Hs as [? Hc]; [by split|by destruct Hinv|done|done].
  - apply tako_msg_reader_inv in Hs as [? ->]; [split; [done|lia]|done|done].
  - destruct (sv_woken sv !! i) as [[w m]|]; [|simplify_eq; split; [done|lia]].
    apply resume_inv in Hs as [? ->]; [split; [done|simpl; lia]|by apply inv_delete_woken].
  - destruct (sv_registering sv !! i) as [[[c defs] job]|]; simplify_eq; [|split; [done|lia]].
    split; [|simpl; lia]. by apply inv_send; [destruct Hinv|..].
  - destruct (sv_stats sv !! i) as [c|]; simplify_eq; (split; [by destruct Hinv|simpl; lia]).
  - destruct (sv_spawned sv !! i) as [[id tasks]|] eqn:Hi; simplify_eq; [|split; [done|lia]].
    split; [|simpl; lia]. pose proof (si_spawned _ Hinv) as Hsp.
    destruct (Forall_lookup_1 _ _ _ _ Hsp Hi) as [Hk Hne]. apply inv_send.
    + apply inv_spawn; [done|]. by apply Forall_delete.
    + unfold waits_for. simpl in *. by rewrite bool_decide_false.
    + by intros id' [= <-].
  - simplify_eq. split; [by destruct Hinv|simpl; lia].
Qed.

Lemma run_inv cwd sv es sv' :
  server_inv sv -> job_id_counter (sv_state sv) + Z.of_nat (length es) < 2 ^ 32 ->
  run_ok cwd sv es -> run cwd sv es = Ret sv' -> server_inv sv'.
Proof.
  unfold run. revert sv. induction es as [|e es IH]; intros sv Hinv Hlt Hok Hr; simpl in *.
  - by simplify_eq.
  - destruct Hok as [He Hok]. destruct (step cwd sv e) as [sv1|] eqn:Hs; simpl in Hr; [|done].
    apply step_inv in Hs as [Hinv1 Hc]; [|done|lia|done]. eapply IH; [done|lia|done|done].
Qed.

Lemma reachable_inv cwd es sv :
  Z.of_nat (length es) < 2 ^ 32 - 1 -> run_ok cwd Server_new es ->
  run cwd Server_new es = Ret sv -> server_inv sv.
Proof.
  intros Hlen Hok Hr. eapply run_inv; [apply Server_new_inv| |done|done].
  change (job_id_counter (sv_state Server_new)) with 1. lia.
Qed.

(** ** Properties *)

(** C1: in every run of the server (any interleaving of client requests,
    messages of [tako], resumed tasks and registrations) that does not panic,
    the invariant holds: every job is well-formed, jobs own disjoint segments
    of the task id space that the sparse map indexes, the queue of waiting
    tasks matches the open requests to [tako] one by one and in order, and
    every suspended cancellation works on an existing job.  Submits are fewer
    than the number of job ids. *)
Theorem server_invariant cwd es sv :
  Z.of_nat (length es) < 2 ^ 32 - 1 -> run_ok cwd Server_new es ->
  run cwd Server_new es = Ret sv -> server_inv sv.
Proof. apply reachable_inv. Qed.

(** C11: the assertions of the stream server never fail: any stream server that
    implements the registration protocol accepts all control messages of a run
    of the server, and ends with exactly the jobs that have a log and are not
    complete registered. *)
Theorem stream_registrations_safe `{StreamCtlServer R} cwd es sv r0 :
  Z.of_nat (length es) < 2 ^ 32 - 1 -> run_ok cwd Server_new es ->
  run cwd Server_new es = Ret sv -> registered r0 = ∅ ->
  exists r, foldM ctl_apply r0 (sv_control sv) = Ret r /\
    registered r = open_streams (sv_state sv).
Proof.
  intros Hlen Hok Hr Hr0. pose proof (reachable_inv _ _ _ Hlen Hok Hr) as Hinv.
  apply ctl_run_ok. rewrite Hr0. apply Hinv.
Qed.

(** An answer of [tako] reaches the task that sent the request it answers:
    the front of the queue waits for the oldest open request, taking it never
    fails, and that task is woken with the answer. *)
Theorem answer_reaches_sender cwd sv m now q :
  server_inv sv -> next_request sv = Some q -> answer_kind q m = true ->
  exists sv' w, step cwd sv (EvTako m now) = Ret sv' /\ server_inv sv' /\
    sv_tako_responses sv = w :: sv_tako_responses sv' /\ waits_for w q = true /\
    sv_woken sv' = sv_woken sv ++ [(w, m)].
Proof.
  intros Hinv Hq Hk. destruct (pop_inv sv m q Hinv Hq Hk) as (sv' & w & Hp & ? & _ & ? & ? & ?).
  exists sv', w. split; [|done]. destruct q, m; done.
Qed.

(** C16: resuming a woken task never panics when the tasks that [tako] reports as
    cancelled are distinct unfinished tasks of the job: the answer is of the
    right kind and the job still exists. *)
Theorem resume_never_panics cwd sv i (w : Waiter) m now :
  server_inv sv -> sv_woken sv !! i = Some (w, m) ->
  (forall ids id j, m = CancelTasksResponse ids -> cont_job w.2 = Some id ->
     jobs (sv_state sv) !! id = Some j ->
     NoDup ids /\ forall t, t ∈ ids -> exists st, job_tasks j !! t = Some st /\ is_unfinished st = true) ->
  exists sv', step cwd sv (EvResume i now) = Ret sv' /\ server_inv sv'.
Proof.
  intros Hinv Hi Hids. pose proof (inv_delete_woken sv i Hinv) as Hinv'.
  destruct (Forall_lookup_1 _ _ _ _ (si_woken _ Hinv) Hi) as (q & Hq & Hk). simpl in Hq, Hk.
  assert (Hj : forall id, cont_job w.2 = Some id -> known_job sv id).
  { pose proof (si_jobs _ Hinv) as Hj. apply Forall_app in Hj as [_ Hj].
    apply (Forall_lookup_1 _ _ i w Hj). apply list_lookup_fmap_Some.
    by exists (w, m). }
  assert (Hres : exists sv', resume (with_woken sv (delete i (sv_woken sv))) w m now = Ret sv').
  { destruct w as [c [job|id rest r|id rest r|id]], q, m; try done; unfold resume; cbn [fst snd];
      try (by simpl; eauto).
    - destruct (Hj id eq_refl) as [j Hjob]. destruct (Hids _ id j eq_refl eq_refl Hjob) as [Hnd Hun].
      destruct (cancel_ok (sv_state sv) id j rest r cancelled_tasks now) as (s' & ctl & next & Hc);
        [apply Hinv|done|done|done|]. eexists. change (sv_state (with_woken sv _)) with (sv_state sv).
      rewrite Hc. done.
    - destruct (Hj id eq_refl) as [j Hjob]. destruct (Hids _ id j eq_refl eq_refl Hjob) as [Hnd Hun].
      destruct (sw_job _ (si_state _ Hinv) _ _ Hjob) as [Hw _].
      destruct (set_cancel_states_ok j cancelled_tasks now Hw Hnd Hun) as (j' & msgs & Hs & _).
      unfold after_callback_cancel. simpl. rewrite Hjob. simpl. rewrite Hs. simpl. eauto. }
  destruct Hres as [sv' Hr]. exists sv'. unfold step. rewrite Hi. split; [done|].
  by apply resume_inv in Hr as [? _].
Qed.

End server.
