(* ===== verification/Growth.v ===== *)
(** * What happens to the jobs along a run of the server

    A job that was submitted stays, its tasks only take steps of the task machine, and
    a job that is complete does not change.  [Server.v] has the event loop. *)

From S2P Require Import Prelude ArrayDef Messages Job State Client Server.

Section growth.
Context `{Profile} `{Tako}.

(** The jobs of [s] are jobs of [s'], and each has advanced. *)
Definition state_grows (s s' : State) : Prop :=
  forall id j, jobs s !! id = Some j -> exists j', jobs s' !! id = Some j' /\ job_advance j j'.

Lemma grows_same s s' : state_wf s -> jobs s' = jobs s -> state_grows s s'.
Proof.
  intros Hwf Hs id j Hj. exists j. rewrite Hs. split; [done|].
  apply job_advance_refl. by apply (sw_job s Hwf id).
Qed.

Lemma grows_refl s : state_wf s -> state_grows s s.
Proof. intros. by apply grows_same. Qed.

Lemma grows_trans s1 s2 s3 : state_grows s1 s2 -> state_grows s2 s3 -> state_grows s1 s3.
Proof.
  intros H12 H23 id j (j2 & Hj2 & Ha)%H12. apply H23 in Hj2 as (j3 & Hj3 & Ha').
  exists j3. split; [done|by eapply job_advance_trans].
Qed.

Lemma grows_advance s s' ctl : state_advance s s' ctl -> state_grows s s'.
Proof. intros Ha. exact (sa_jobs _ _ _ Ha). Qed.

Lemma grows_submit s r now seg :
  state_wf s -> job_id_counter s < 2 ^ 32 - 1 -> job_type_wf (sr_job_type r) ->
  handle_submit s r now = Ret seg -> state_grows s seg.1.1.
Proof.
  intros Hwf Hlt Ht Hs. destruct seg as [[s' ctl] next]. simpl.
  destruct (handle_submit_inv _ _ _ _ _ _ Hwf Hlt Ht Hs) as [(-> & _)|(j & defs & _ & Hj & Hnone & _)];
    [by apply grows_refl|].
  intros id k Hk. exists k. rewrite Hj. split.
  - rewrite lookup_insert_ne; [done|]. intros <-. congruence.
  - apply job_advance_refl. by apply (sw_job s Hwf id).
Qed.

Lemma commit_state sv c seg : sv_state (commit sv c seg) = seg.1.1.
Proof. destruct seg as [[s ctl] next]. unfold commit. rewrite continue_state. done. Qed.

Lemma pop_response_state sv m sv' : pop_response sv m = Ret sv' -> sv_state sv' = sv_state sv.
Proof. unfold pop_response. destruct (sv_tako_responses sv); [done|]. by intros [= <-]. Qed.

(** ** The segments *)

Lemma tako_msg_reader_grows sv m now sv' :
  state_wf (sv_state sv) -> tako_msg_reader sv m now = Ret sv' -> state_grows (sv_state sv) (sv_state sv').
Proof.
  intros Hwf Hr.
  assert (Hpop : pop_response sv m = Ret sv' -> state_grows (sv_state sv) (sv_state sv')).
  { intros ->%pop_response_state. by apply grows_refl. }
  destruct m; simpl in Hr; try (by apply Hpop).
  - destruct (process_task_update _ _ _ _) as [[s ctl]|] eqn:Hu; simpl in Hr; [|done].
    rewrite process_task_update_op in Hu. destruct (update_op state); [|done].
    apply task_op_advance in Hu as [Ha _]; [|done]. simplify_eq. by eapply grows_advance.
  - destruct (process_task_failed _ _ _ _) as [[[s ctl] sp]|] eqn:Hu; simpl in Hr; [|done].
    apply process_task_failed_advance in Hu; [|done]. simplify_eq. by eapply grows_advance.
  - destruct (process_worker_new _ _ _) as [s|] eqn:Hu; simpl in Hr; [|done].
    apply process_worker_new_wf in Hu; [|done]. simplify_eq. by eapply grows_advance.
  - destruct (process_worker_lost _ _ _ _ _) as [s|] eqn:Hu; simpl in Hr; [|done].
    apply process_worker_lost_advance in Hu; [|done]. simplify_eq. by eapply grows_advance.
Qed.

Lemma client_rpc_loop_grows cwd sv c message now sv' :
  state_wf (sv_state sv) -> job_id_counter (sv_state sv) < 2 ^ 32 - 1 ->
  event_ok sv (EvClient c message now) -> client_rpc_loop cwd sv c message now = Ret sv' ->
  state_grows (sv_state sv) (sv_state sv').
Proof.
  intros Hwf Hlt Hok Hr. destruct message as [m|e]; simpl in Hr; [|simplify_eq; by apply grows_refl].
  destruct m; simpl in Hr; try (simplify_eq; by apply grows_refl).
  3-6: match type of Hr with (?x ≫= _) = _ => destruct x; simpl in Hr; [|done] end; simplify_eq;
    rewrite ?continue_state; by apply grows_refl.
  - destruct (handle_submit _ _ _) as [seg|] eqn:Hs; simpl in Hr; [|done]. simplify_eq.
    rewrite commit_state. by eapply grows_submit.
  - unfold handle_resubmit in Hr.
    destruct (get_job _ _) as [j|] eqn:Hj; simpl in Hr; [|simplify_eq; by apply grows_refl].
    destruct (sw_job _ Hwf _ _ Hj) as [Hw _].
    destruct (resubmit_type_wf j (rr_status r) Hw) as (o & Hrt & Hjt). rewrite Hrt in Hr. simpl in Hr.
    destruct o as [jt|]; simpl in Hr; [|simplify_eq; by apply grows_refl].
    destruct (handle_submit _ _ _) as [seg|] eqn:Hs; simpl in Hr; [|done]. simplify_eq.
    rewrite commit_state. eapply grows_submit; [done|done| |done]. by apply Hjt.
Qed.

Lemma resume_grows sv w m now sv' :
  state_wf (sv_state sv) -> resume sv w m now = Ret sv' -> state_grows (sv_state sv) (sv_state sv').
Proof.
  intros Hwf Hr. unfold resume in Hr. destruct w as [c [job|id rest r|id rest r|id]]; simpl in Hr.
  - destruct m; simpl in Hr; try done. simplify_eq. destruct c; by apply grows_refl.
  - destruct (after_cancel _ _ _ _ _ _) as [[[s ctl] next]|] eqn:Ha; simpl in Hr; [|done].
    simplify_eq. apply after_cancel_advance in Ha as (Ha & _); [|done].
    rewrite continue_state. by eapply grows_advance.
  - unfold after_stop_worker in Hr. destruct m; simpl in Hr; try done; simplify_eq;
      rewrite continue_state; by apply grows_refl.
  - destruct (after_callback_cancel _ _ _ _) as [[[s ctl] next]|] eqn:Ha; simpl in Hr; [|done].
    simplify_eq. apply after_callback_cancel_advance in Ha as (Ha & _); [|done].
    change (state_grows (sv_state sv) (sv_state (commit sv c (s, ctl, next)))).
    rewrite commit_state. by eapply grows_advance.
Qed.

Lemma step_grows cwd sv e sv' :
  state_wf (sv_state sv) -> job_id_counter (sv_state sv) < 2 ^ 32 - 1 -> event_ok sv e ->
  step cwd sv e = Ret sv' -> state_grows (sv_state sv) (sv_state sv').
Proof.
  intros Hwf Hlt Hok Hs. destruct e as [c|c m now|m now|i now|i|i st|i|c]; simpl in Hs.
  - simplify_eq. by apply grows_refl.
  - case_decide; [|simplify_eq; by apply grows_refl].
    by apply client_rpc_loop_grows in Hs.
  - by apply tako_msg_reader_grows in Hs.
  - destruct (sv_woken sv !! i) as [[w m]|]; [|simplify_eq; by apply grows_refl]. by apply resume_grows in Hs.
  - destruct (sv_registering sv !! i) as [[[c defs] job]|]; simplify_eq; [rewrite ?continue_state|]; by apply grows_refl.
  - destruct (sv_stats sv !! i); simplify_eq; by apply grows_refl.
  - destruct (sv_spawned sv !! i) as [[id tasks]|]; simplify_eq; by apply grows_refl.
  - simplify_eq. by apply grows_refl.
Qed.

Lemma run_grows cwd sv es sv' :
  server_inv sv -> job_id_counter (sv_state sv) + Z.of_nat (length es) < 2 ^ 32 ->
  run_ok cwd sv es -> run cwd sv es = Ret sv' -> state_grows (sv_state sv) (sv_state sv').
Proof.
  unfold run. revert sv. induction es as [|e es IH]; intros sv Hinv Hlt Hok Hr; simpl in *.
  - simplify_eq. by apply grows_refl, si_state.
  - destruct Hok as [He Hok]. destruct (step cwd sv e) as [sv1|] eqn:Hs; simpl in Hr; [|done].
    apply step_inv in Hs as Hs'; [|done|lia|done]. destruct Hs' as [Hinv1 Hc].
    apply step_grows in Hs; [|apply Hinv|lia|done].
    eapply grows_trans; [exact Hs|]. apply IH; [done|lia|done|done].
Qed.

(** From a moment of a run to a later one. *)
Lemma prefix_grows cwd sv0 es more sv sv' :
  server_inv sv0 -> job_id_counter (sv_state sv0) + Z.of_nat (length (es ++ more)) < 2 ^ 32 ->
  run_ok cwd sv0 (es ++ more) ->
  run cwd sv0 es = Ret sv -> run cwd sv0 (es ++ more) = Ret sv' ->
  state_grows (sv_state sv) (sv_state sv').
Proof.
  revert sv0. induction es as [|e es IH]; intros sv0 Hinv Hlt Hok Hr Hr'.
  - unfold run in Hr. simpl in Hr. simplify_eq. by eapply run_grows.
  - unfold run in *. simpl in *. destruct Hok as [He Hok].
    destruct (step cwd sv0 e) as [sv1|] eqn:Hs; simpl in *; [|done].
    apply step_inv in Hs as [Hinv1 Hc]; [|done|lia|done]. eapply IH; [done|lia|done..].
Qed.

End growth.
