(* ===== verification/Backend.v ===== *)
(** * The connection to [tako]: [Backend::start] of [src/server/rpc.rs]

    Two channels connect the server to the scheduler [tako]: the requests, which
    [tako_msg_sender] processes one by one, and the messages of [tako], which
    [tako_msg_reader] reads.  The server is that of [Server.v]; [tako] is a
    parameter with its state, and the contract of [process_client_message] is a
    hypothesis.  The theorem discharges what [Server.v] assumes of the answers. *)

From S2P Require Import Prelude ArrayDef Messages Job State Client Server.

Section backend.
Context `{Profile} `{Tako}.

(** [tako]'s state, and [tako::server::client::process_client_message]: the messages
    it sends to the server, and an error. *)
Context {Core : Type}.
Context (process_client_message :
  Core -> FromGatewayMessage -> Core * list ToGatewayMessage * option string).

(** The server, [tako], the number of requests taken from the channel, and the
    messages of [tako] that were not read yet. *)
Record Backend := {
  bk_server : Server;
  bk_core : Core;
  bk_taken : nat;
  bk_from_tako : list ToGatewayMessage
}.

Definition Backend_new (core : Core) : Backend :=
  {| bk_server := Server_new; bk_core := core; bk_taken := 0; bk_from_tako := [] |}.

(** One message of the loop [tako_msg_sender] *)
Definition tako_msg_sender (bk : Backend) : Backend :=
  match sv_sent (bk_server bk) !! bk_taken bk with
  | None => bk
  | Some message =>
      let '(core, pushed, error) := process_client_message (bk_core bk) message in
      {| bk_server := bk_server bk; bk_core := core; bk_taken := S (bk_taken bk);
         bk_from_tako := bk_from_tako bk ++ pushed ++
           match error with Some message => [GatewayError message] | None => [] end |}
  end.

(** What happens: the server itself, the two loops, and [tako] on its own. *)
Inductive BkEvent :=
| BkServer (e : Event)
| BkSender
| BkReader (now : Z)
| BkTako (core : Core) (m : ToGatewayMessage).

(** One event; the messages of [tako] reach the server through the reader only. *)
Definition bk_step (cwd : string) (bk : Backend) (e : BkEvent) : outcome Backend :=
  match e with
  | BkServer (EvTako _ _) => Ret bk
  | BkServer e =>
      sv ← step cwd (bk_server bk) e;
      Ret {| bk_server := sv; bk_core := bk_core bk; bk_taken := bk_taken bk;
             bk_from_tako := bk_from_tako bk |}
  | BkSender => Ret (tako_msg_sender bk)
  | BkReader now =>
      match bk_from_tako bk with
      | [] => Ret bk
      | m :: rest =>
          sv ← step cwd (bk_server bk) (EvTako m now);
          Ret {| bk_server := sv; bk_core := bk_core bk; bk_taken := bk_taken bk; bk_from_tako := rest |}
      end
  | BkTako core m =>
      if is_notification m then
        Ret {| bk_server := bk_server bk; bk_core := core; bk_taken := bk_taken bk;
               bk_from_tako := bk_from_tako bk ++ [m] |}
      else Ret bk
  end.

Definition bk_run (cwd : string) (bk : Backend) (es : list BkEvent) : outcome Backend :=
  foldM (bk_step cwd) bk es.

(** The answers among the messages of [tako]. *)
Definition answers (l : list ToGatewayMessage) : list ToGatewayMessage :=
  List.filter (fun m => negb (is_notification m)) l.

(** The contract: the processing of a request sends exactly one answer, of the right
    kind, or returns an error; notifications may come with it. *)
Definition tako_contract : Prop :=
  forall core q core' pushed error,
    process_client_message core q = (core', pushed, error) ->
    exists a, answers (pushed ++ match error with Some e => [GatewayError e] | None => [] end) = [a]
      /\ answer_kind q a = true.

(** Submitted arrays are well-formed, as in [Server.v]. *)
Definition bk_event_ok (e : BkEvent) : Prop :=
  match e with
  | BkServer (EvClient _ (Ok (Submit r)) _) => job_type_wf (sr_job_type r)
  | _ => True
  end.

(** The requests that were taken and whose answers were not read. *)
Definition open_requests (bk : Backend) : list FromGatewayMessage :=
  take (bk_taken bk - length (sv_answers (bk_server bk)))
    (drop (length (sv_answers (bk_server bk))) (sv_sent (bk_server bk))).

Record backend_inv (bk : Backend) : Prop := {
  bi_server : server_inv (bk_server bk);
  bi_taken : (length (sv_answers (bk_server bk)) <= bk_taken bk <= length (sv_sent (bk_server bk)))%nat;
  bi_answers : Forall2 (fun q a => answer_kind q a = true) (open_requests bk) (answers (bk_from_tako bk))
}.

(** ** Lemmas: what a step of the server does to the channels *)

(** The answer an event delivers. *)
Definition event_answers (e : Event) : list ToGatewayMessage :=
  match e with EvTako m _ => answers [m] | _ => [] end.

Definition channels_ok (sv sv' : Server) (l : list ToGatewayMessage) : Prop :=
  sv_sent sv `prefix_of` sv_sent sv' /\ sv_answers sv' = sv_answers sv ++ l.

Lemma channels_refl sv sv' : sv_sent sv' = sv_sent sv -> sv_answers sv' = sv_answers sv -> channels_ok sv sv' [].
Proof. intros Hs Ha. split; [by rewrite Hs|by rewrite Ha, app_nil_r]. Qed.

Lemma channels_continue sv c next : channels_ok sv (continue_with sv c next) [].
Proof.
  destruct next, c; try (by apply channels_refl); simpl.
  all: split; simpl; [by apply prefix_app_r|by rewrite app_nil_r].
Qed.

Lemma channels_from sv sv1 sv2 l :
  sv_sent sv1 = sv_sent sv -> sv_answers sv1 = sv_answers sv -> channels_ok sv1 sv2 l -> channels_ok sv sv2 l.
Proof. intros Hs Ha [? ?]. split; [by rewrite <- Hs|by rewrite <- Ha]. Qed.

Lemma channels_commit sv c seg : channels_ok sv (commit sv c seg) [].
Proof.
  destruct seg as [[s ctl] next]. unfold commit.
  by eapply channels_from; [..|apply channels_continue].
Qed.

Lemma channels_pop sv m sv' : pop_response sv m = Ret sv' -> channels_ok sv sv' [m].
Proof. unfold pop_response. destruct (sv_tako_responses sv); intros; by simplify_eq. Qed.

Lemma channels_reader sv m now sv' : tako_msg_reader sv m now = Ret sv' -> channels_ok sv sv' (answers [m]).
Proof.
  intros Hr. destruct m; simpl in Hr; try (by apply channels_pop in Hr);
    repeat (match type of Hr with (?x ≫= _) = _ => destruct x as [?|] eqn:?; simpl in Hr; [|done] end
            || case_match); simplify_eq; by apply channels_refl.
Qed.

Lemma channels_client cwd sv c message now sv' :
  client_rpc_loop cwd sv c message now = Ret sv' -> channels_ok sv sv' [].
Proof.
  intros Hr. destruct message as [m|e]; simpl in Hr; [|simplify_eq; by apply channels_refl].
  destruct m; simpl in Hr;
    try match type of Hr with (?x ≫= _) = _ => destruct x as [?|]; simpl in Hr; [|done] end;
    simplify_eq; try apply channels_commit; try apply channels_continue; by apply channels_refl.
Qed.

Lemma channels_resume sv w m now sv' : resume sv w m now = Ret sv' -> channels_ok sv sv' [].
Proof.
  unfold resume. intros Hr. destruct w.2; simpl in Hr;
    match type of Hr with (?x ≫= _) = _ => destruct x as [?|]; simpl in Hr; [|done] end;
    simplify_eq; first [apply channels_continue|apply channels_commit].
Qed.

Lemma step_channels cwd sv e sv' : step cwd sv e = Ret sv' -> channels_ok sv sv' (event_answers e).
Proof.
  destruct e as [c|c m now|m now|i now|i|i st|i|c]; simpl; intros Hs.
  - simplify_eq. by apply channels_refl.
  - case_decide; [|simplify_eq; by apply channels_refl]. apply channels_client in Hs.
    by eapply channels_from; [..|exact Hs].
  - by apply channels_reader in Hs.
  - destruct (sv_woken sv !! i) as [[w m]|]; [|simplify_eq; by apply channels_refl].
    apply channels_resume in Hs. by eapply channels_from; [..|exact Hs].
  - destruct (sv_registering sv !! i) as [[[c defs] job]|]; simplify_eq; [|by apply channels_refl].
    split; simpl; [by apply prefix_app_r|by rewrite app_nil_r].
  - destruct (sv_stats sv !! i); simplify_eq; by apply channels_refl.
  - destruct (sv_spawned sv !! i) as [[id tasks]|]; simplify_eq; [|by apply channels_refl].
    split; simpl; [by apply prefix_app_r|by rewrite app_nil_r].
  - simplify_eq. by apply channels_refl.
Qed.

(** ** Lemmas: the queue of answers *)

Lemma answers_app l1 l2 : answers (l1 ++ l2) = answers l1 ++ answers l2.
Proof. apply List.filter_app. Qed.

(** The server moves while no answer is read. *)
Lemma inv_server bk sv :
  backend_inv bk -> server_inv sv -> channels_ok (bk_server bk) sv [] ->
  backend_inv {| bk_server := sv; bk_core := bk_core bk; bk_taken := bk_taken bk; bk_from_tako := bk_from_tako bk |}.
Proof.
  intros [Hinv Ht Ha] Hsv [[l Hs] Hans]. rewrite app_nil_r in Hans. split; simpl; [done| |].
  - rewrite Hans, Hs, length_app. lia.
  - unfold open_requests in *. simpl. rewrite Hans, Hs, drop_app_le by lia.
    rewrite take_app_le; [done|]. rewrite length_drop. lia.
Qed.

Lemma inv_sender bk : tako_contract -> backend_inv bk -> backend_inv (tako_msg_sender bk).
Proof.
  intros Hc [Hinv Ht Ha]. unfold tako_msg_sender. destruct (_ !! _) as [q|] eqn:Hq; [|done].
  destruct (process_client_message (bk_core bk) q) as [[core pushed] error] eqn:Hp.
  destruct (Hc _ _ _ _ _ Hp) as (a & Hone & Hk). pose proof (lookup_lt_Some _ _ _ Hq).
  split; simpl; [done|lia|]. rewrite answers_app, Hone. unfold open_requests in *. simpl.
  replace (S (bk_taken bk) - length (sv_answers (bk_server bk)))%nat
    with (S (bk_taken bk - length (sv_answers (bk_server bk)))) by lia.
  rewrite (take_S_r _ _ q); [by apply Forall2_app; [|constructor]|].
  rewrite lookup_drop. replace (_ + _)%nat with (bk_taken bk) by lia. done.
Qed.

(** The first answer in the queue answers the request at the front. *)
Lemma inv_next bk m rest :
  backend_inv bk -> bk_from_tako bk = m :: rest -> is_notification m = false ->
  exists q, next_request (bk_server bk) = Some q /\ answer_kind q m = true.
Proof.
  intros [Hinv Ht Ha] Hq Hn. rewrite Hq in Ha. unfold answers in Ha. simpl in Ha. rewrite Hn in Ha. simpl in Ha.
  apply Forall2_cons_inv_r in Ha as (q & qs & Hk & _ & Hopen). exists q. split; [|done].
  unfold next_request. unfold open_requests in Hopen.
  pose proof (f_equal head Hopen) as Hh. simpl in Hh.
  destruct (bk_taken bk - _)%nat; [done|]. simpl in Hh.
  rewrite <- (Nat.add_0_r (length _)), <- lookup_drop. by destruct (drop _ _).
Qed.

Lemma inv_reader bk m rest sv :
  backend_inv bk -> bk_from_tako bk = m :: rest -> server_inv sv ->
  channels_ok (bk_server bk) sv (answers [m]) ->
  backend_inv {| bk_server := sv; bk_core := bk_core bk; bk_taken := bk_taken bk; bk_from_tako := rest |}.
Proof.
  intros Hbk Hq Hsv Hch. destruct (is_notification m) eqn:Hn.
  - unfold answers in Hch. simpl in Hch. rewrite Hn in Hch. simpl in Hch.
    destruct (inv_server bk sv Hbk Hsv Hch) as [H1 H2 H3]. split; simpl in *; [done..|].
    unfold answers in H3. simpl in H3. rewrite Hq in H3. simpl in H3. by rewrite Hn in H3.
  - destruct Hbk as [Hinv Ht Ha]. rewrite Hq in Ha. unfold answers in Ha, Hch. simpl in Ha, Hch.
    rewrite Hn in Ha, Hch. simpl in Ha, Hch. destruct Hch as [[l Hs] Hans].
    apply Forall2_cons_inv_r in Ha as (q & qs & Hk & Hqs & Hopen).
    pose proof (f_equal length Hopen) as Hlen. unfold open_requests in Hlen, Hopen. simpl in Hlen.
    rewrite length_take, length_drop in Hlen.
    split; simpl; [done| |].
    + rewrite Hans, Hs, !length_app. simpl. lia.
    + unfold open_requests. simpl. rewrite Hans, Hs, length_app. simpl. rewrite drop_app_le by lia.
      rewrite take_app_le by (rewrite length_drop; lia).
      replace (bk_taken bk - (length (sv_answers (bk_server bk)) + 1))%nat
        with (pred (bk_taken bk - length (sv_answers (bk_server bk)))) by lia.
      replace (length (sv_answers (bk_server bk)) + 1)%nat with (1 + length (sv_answers (bk_server bk)))%nat by lia.
      rewrite Nat.add_comm, <- drop_drop.
      destruct (bk_taken bk - length (sv_answers (bk_server bk)))%nat as [|n]; [done|].
      destruct (drop (length (sv_answers (bk_server bk))) (sv_sent (bk_server bk))) as [|q' qs']; [done|].
      simpl in Hopen. injection Hopen as -> <-. done.
Qed.

(** ** Lemmas: runs *)

(** The events of the server during a run. *)
Definition server_event (bk : Backend) (e : BkEvent) : list Event :=
  match e with
  | BkServer (EvTako _ _) | BkSender | BkTako _ _ => []
  | BkServer e => [e]
  | BkReader now => match bk_from_tako bk with m :: _ => [EvTako m now] | [] => [] end
  end.

Lemma server_event_length bk e : (length (server_event bk e) <= 1)%nat.
Proof. destruct e as [[]| | |]; simpl; try lia. destruct (bk_from_tako bk); simpl; lia. Qed.

Lemma run_one cwd sv e : run cwd sv [e] = step cwd sv e.
Proof. unfold run. simpl. by destruct (step cwd sv e). Qed.

Lemma server_event_ok bk e :
  (forall m now, e <> EvTako m now) -> bk_event_ok (BkServer e) -> event_ok (bk_server bk) e.
Proof. destruct e as [c|c [[]|] now|m now|i now|i|i st|i|c]; simpl; try done. intros Hn. by destruct (Hn m now). Qed.

Lemma bk_step_server cwd bk e :
  (forall m now, e <> EvTako m now) ->
  bk_step cwd bk (BkServer e) =
    (sv ← step cwd (bk_server bk) e;
     Ret {| bk_server := sv; bk_core := bk_core bk; bk_taken := bk_taken bk; bk_from_tako := bk_from_tako bk |})
  /\ server_event bk (BkServer e) = [e].
Proof. destruct e; try done. intros Hn. by destruct (Hn m now). Qed.

Definition is_tako_dec (e : Event) : {m & {now | e = EvTako m now}} + {forall m now, e <> EvTako m now}.
Proof. destruct e; try (by right). left. eauto. Defined.

(** A step is a step of the server that [Server.v] allows, or none. *)
Lemma bk_step_inv cwd bk e bk' :
  tako_contract -> backend_inv bk -> job_id_counter (sv_state (bk_server bk)) < 2 ^ 32 - 1 ->
  bk_event_ok e -> bk_step cwd bk e = Ret bk' ->
  run cwd (bk_server bk) (server_event bk e) = Ret (bk_server bk')
  /\ run_ok cwd (bk_server bk) (server_event bk e)
  /\ backend_inv bk' /\ job_id_counter (sv_state (bk_server bk')) <= job_id_counter (sv_state (bk_server bk)) + 1.
Proof.
  intros Hc Hinv Hlt Hok Hs.
  assert (Hev : forall e sv, event_ok (bk_server bk) e -> step cwd (bk_server bk) e = Ret sv ->
    run cwd (bk_server bk) [e] = Ret sv /\ run_ok cwd (bk_server bk) [e] /\ server_inv sv /\
    channels_ok (bk_server bk) sv (event_answers e) /\
    job_id_counter (sv_state sv) <= job_id_counter (sv_state (bk_server bk)) + 1).
  { intros e' sv He Hsv. destruct (step_inv cwd _ e' sv (bi_server _ Hinv) Hlt He Hsv) as [H1 H2].
    split_and!; [by rewrite run_one| |done|by eapply step_channels|done].
    simpl. split; [done|]. by rewrite Hsv. }
  destruct e as [e| |now|core m].
  - destruct (is_tako_dec e) as [(m & now & ->)|Hn].
    { simpl in *. simplify_eq. split_and!; try done. lia. }
    destruct (bk_step_server cwd bk e Hn) as [Heq ->]. rewrite Heq in Hs.
    destruct (step cwd (bk_server bk) e) as [sv|] eqn:Hsv; simpl in Hs; [|done]. simplify_eq.
    destruct (Hev e sv (server_event_ok _ _ Hn Hok) Hsv) as (Hr & Hro & Hi & Hch & Hcnt).
    split_and!; [done|done| |done]. apply inv_server; [done|done|].
    destruct e; try done. by destruct (Hn m now).
  - simpl in *. simplify_eq. assert (Hsame : bk_server (tako_msg_sender bk) = bk_server bk).
    { unfold tako_msg_sender. destruct (_ !! _); [|done].
      by destruct (process_client_message _ _) as [[??]?]. }
    split_and!; [by rewrite Hsame|done|by apply inv_sender|rewrite Hsame; lia].
  - simpl in *. destruct (bk_from_tako bk) as [|m rest] eqn:Hq; [simplify_eq; split_and!; try done; lia|].
    destruct (tako_msg_reader (bk_server bk) m now) as [sv|] eqn:Hsv; simpl in Hs; [|done]. simplify_eq.
    assert (He : event_ok (bk_server bk) (EvTako m now)).
    { simpl. destruct (is_notification m) eqn:Hn; [by left|right]. by eapply inv_next. }
    destruct (Hev _ _ He Hsv) as (Hr & Hro & Hi & Hch & Hcnt).
    split_and!; [done|done|by eapply inv_reader|done].
  - simpl in *. destruct (is_notification m) eqn:Hn; simplify_eq; simpl; (split_and!; try done; try lia).
    destruct Hinv as [H1 H2 H3]. split; simpl; [done..|].
    rewrite answers_app. unfold answers at 2. simpl. rewrite Hn. simpl. by rewrite app_nil_r.
Qed.

Lemma run_app cwd sv es1 es2 sv1 sv2 :
  run cwd sv es1 = Ret sv1 -> run cwd sv1 es2 = Ret sv2 -> run cwd sv (es1 ++ es2) = Ret sv2.
Proof. unfold run. intros H1 H2. rewrite foldM_app, H1. done. Qed.

Lemma run_ok_app cwd sv es1 es2 sv1 :
  run cwd sv es1 = Ret sv1 -> run_ok cwd sv es1 -> run_ok cwd sv1 es2 -> run_ok cwd sv (es1 ++ es2).
Proof.
  unfold run. revert sv. induction es1 as [|e es1 IH]; intros sv Hr; simpl in *; [by simplify_eq|].
  intros [He H1] H2. split; [done|]. destruct (step cwd sv e) as [sv'|]; simpl in *; [|done]. by apply IH.
Qed.

Lemma bk_run_inv cwd bk es bk' :
  tako_contract -> backend_inv bk ->
  job_id_counter (sv_state (bk_server bk)) + Z.of_nat (length es) < 2 ^ 32 ->
  Forall bk_event_ok es -> bk_run cwd bk es = Ret bk' ->
  exists ses, run cwd (bk_server bk) ses = Ret (bk_server bk') /\ run_ok cwd (bk_server bk) ses
    /\ (length ses <= length es)%nat /\ backend_inv bk'.
Proof.
  unfold bk_run. intros Hc. revert bk. induction es as [|e es IH]; intros bk Hinv Hlt Hok Hr; simpl in *.
  - simplify_eq. by exists [].
  - apply Forall_cons in Hok as [He Hok].
    destruct (bk_step cwd bk e) as [bk1|] eqn:Hs; simpl in Hr; [|done].
    destruct (bk_step_inv cwd bk e bk1) as (H1 & H2 & H3 & H4); [done|done|lia|done|done|].
    destruct (IH bk1) as (ses & H5 & H6 & H7 & H8); [done|lia|done|done|].
    exists (server_event bk e ++ ses). split_and!; [by eapply run_app|by eapply run_ok_app| |done].
    rewrite length_app. pose proof (server_event_length bk e). lia.
Qed.

Lemma Backend_new_inv core : backend_inv (Backend_new core).
Proof. split; simpl; [apply Server_new_inv|lia|constructor]. Qed.

(** ** Properties *)

(** C14: the channels and loops of the backend implement what [Server.v] assumes:
    when [tako] answers each request once, any interleaving of the server, of the two
    loops and of the notifications of [tako] is a run of the server in which every
    answer belongs to the oldest open request; and the reader never fails to find the
    sender of an answer. *)
Theorem backend_refines_server cwd core es bk :
  tako_contract -> Z.of_nat (length es) < 2 ^ 32 - 1 -> Forall bk_event_ok es ->
  bk_run cwd (Backend_new core) es = Ret bk ->
  (exists ses, run cwd Server_new ses = Ret (bk_server bk) /\ run_ok cwd Server_new ses
     /\ (length ses <= length es)%nat)
  /\ forall m rest now, bk_from_tako bk = m :: rest -> is_notification m = false ->
     exists bk' w q, bk_step cwd bk (BkReader now) = Ret bk' /\
       sv_tako_responses (bk_server bk) = w :: sv_tako_responses (bk_server bk') /\
       sv_woken (bk_server bk') = sv_woken (bk_server bk) ++ [(w, m)] /\
       next_request (bk_server bk) = Some q /\ waits_for w q = true /\ answer_kind q m = true.
Proof.
  intros Hc Hlen Hok Hr.
  destruct (bk_run_inv cwd (Backend_new core) es bk) as (ses & H1 & H2 & H3 & Hinv);
    [done|apply Backend_new_inv|change (job_id_counter _) with 1; lia|done|done|].
  split; [eauto|]. intros m rest now Hq Hn.
  destruct (inv_next bk m rest Hinv Hq Hn) as (q & Hnext & Hk).
  destruct (pop_inv _ m q (bi_server _ Hinv) Hnext Hk) as (sv' & w & Hp & _ & _ & Hw & Hwf & Hwk).
  assert (Hs : step cwd (bk_server bk) (EvTako m now) = Ret sv') by by destruct q, m.
  eexists _, w, q. unfold bk_step. rewrite Hq, Hs. simpl. eauto 10.
Qed.
End backend.
