(* ===== verification/Protocol.v ===== *)
(** * The protocol of a client connection

    What [client_rpc_loop] of [src/server/client.rs] promises to one client: the
    requests of a connection are handled one after the other, and each one gets one
    response of its kind.  A small automaton states it; the theorem of this file is
    that every step of the event loop of [Server.v] moves every connection by at most
    one step of the automaton, whatever the other connections do. *)

From S2P Require Import Prelude ArrayDef Messages Job Status State Client Server.

(** ** The automaton *)

(** What a request asks for. *)
Inductive Kind :=
| KSubmit | KCancel | KJobDetail | KJobInfo | KWorkerList | KWorkerInfo | KStats | KStopWorker | KStop.

#[global] Instance Kind_eq_dec : EqDecision Kind.
Proof. solve_decision. Defined.

(** The state of a connection at the server: not there (any more), waiting for a
    request, or with a request that is handled. *)
Inductive ConnState := CGone | CIdle | CBusy (k : Kind).

Section protocol.
Context `{Profile} `{Tako}.

Definition kind_of (m : FromClientMessage) : Kind :=
  match m with
  | Submit _ | Resubmit _ => KSubmit
  | Cancel _ => KCancel
  | JobDetailRequest _ _ => KJobDetail
  | JobInfoRequest _ => KJobInfo
  | WorkerList => KWorkerList
  | WorkerInfoRequest _ => KWorkerInfo
  | Stats => KStats
  | StopWorker _ => KStopWorker
  | Stop => KStop
  end.

(** The responses to a kind of request, or an error. *)
Definition response_kind (k : Kind) (r : ToClientMessage) : bool :=
  match k, r with
  | KSubmit, (SubmitResponse _ | ErrorMsg _)
  | KCancel, CancelJobResponseMsg _
  | KJobDetail, JobDetailResponse _
  | KJobInfo, JobInfoResponse _
  | KWorkerList, WorkerListResponse _
  | KWorkerInfo, WorkerInfoResponse _
  | KStats, StatsResponse _
  | KStopWorker, (StopWorkerResponseMsg _ | ErrorMsg _) => true
  | _, _ => false
  end.

(** The response to a message, which may be unreadable. *)
Definition response_to (m : result string FromClientMessage) (r : ToClientMessage) : bool :=
  match m, r with
  | Ok m, _ => response_kind (kind_of m) r
  | Err _, ErrorMsg _ => true
  | Err _, _ => false
  end.

(** One step of an open connection: the messages read and the responses sent. *)
Inductive conn_step : ConnState -> list (result string FromClientMessage) -> list ToClientMessage -> ConnState -> Prop :=
| cs_stay st : conn_step st [] [] st
| cs_disconnect : conn_step CIdle [] [] CGone
| cs_stop : conn_step CIdle [Ok Stop] [] CGone
| cs_unreadable e r : response_to (Err e) r = true -> conn_step CIdle [Err e] [r] CGone
| cs_answer m r : response_to (Ok m) r = true -> conn_step CIdle [Ok m] [r] CIdle
| cs_handle m : m <> Stop -> conn_step CIdle [Ok m] [] (CBusy (kind_of m))
| cs_respond k r : response_kind k r = true -> conn_step (CBusy k) [] [r] CIdle.

(** ** The state of a connection in the server *)

Definition cont_kind (k : Cont) : option Kind :=
  match k with
  | AfterNewTasks _ => Some KSubmit
  | AfterCancel _ _ _ => Some KCancel
  | AfterStopWorker _ _ _ => Some KStopWorker
  | AfterCallbackCancel _ => None
  end.

Definition waiter_entry (w : Waiter) : option (Z * Kind) :=
  match w.1, cont_kind w.2 with Some c, Some k => Some (c, k) | _, _ => None end.

(** The suspended handlers, each with its connection. *)
Definition entries (sv : Server) : list (Z * Kind) :=
  omap waiter_entry (sv_tako_responses sv) ++ omap waiter_entry ((sv_woken sv).*1)
  ++ ((fun x => (x.1.1, KSubmit)) <$> sv_registering sv) ++ ((fun c => (c, KStats)) <$> sv_stats sv).

(** The handlers of connection [c]. *)
Definition handlers (sv : Server) (c : Z) : list Kind :=
  omap (fun e => if decide (e.1 = c) then Some (e.2) else None) (entries sv).

Definition conn_at (sv : Server) (c : Z) (st : ConnState) : Prop :=
  match st with
  | CGone => (c ∉ sv_idle sv) /\ handlers sv c = []
  | CIdle => c ∈ sv_idle sv /\ handlers sv c = []
  | CBusy k => (c ∉ sv_idle sv) /\ handlers sv c = [k]
  end.

(** The responses to [c] in a list of responses. *)
Definition replies_to (c : Z) (l : list (Z * ToClientMessage)) : list ToClientMessage :=
  omap (fun r => if decide (r.1 = c) then Some (r.2) else None) l.

(** What a step reads from [c]. *)
Definition event_reads (sv : Server) (e : Event) (c : Z) : list (result string FromClientMessage) :=
  match e with
  | EvClient c' message _ => if decide (c' = c /\ c ∈ sv_idle sv) then [message] else []
  | _ => []
  end.

(** A connection is opened once. *)
Definition fresh_connect (sv : Server) (e : Event) : Prop :=
  match e with EvConnect c => conn_at sv c CGone | _ => True end.

(** ** Lemmas: handlers *)

(** How a segment of a handler of kind [k] goes on. *)
Definition next_kind (k : Kind) (next : Next) : Prop :=
  match next with
  | Reply m => response_kind k m = true
  | AwaitTako _ cont => cont_kind cont = Some k
  | AwaitRegistration _ _ => k = KSubmit
  | AwaitStats => k = KStats
  | Finish => False
  end.

Lemma submit_kind s r now s' ctl next :
  handle_submit s r now = Ret (s', ctl, next) -> next_kind KSubmit next.
Proof.
  unfold handle_submit. intros Hs. destruct (negb _); [by simplify_eq|].
  repeat (match type of Hs with (?x ≫= _) = _ => destruct x as [?|] eqn:?; simpl in Hs; [|done] end
          || case_match); simplify_eq; done.
Qed.

Lemma resubmit_kind s cwd r now s' ctl next :
  handle_resubmit s cwd r now = Ret (s', ctl, next) -> next_kind KSubmit next.
Proof.
  unfold handle_resubmit. intros Hs. destruct (get_job _ _); [|by simplify_eq].
  destruct (resubmit_type _ _) as [[jt|]|]; simpl in Hs; [|by simplify_eq|done].
  by eapply submit_kind.
Qed.

Lemma cancel_loop_kind s ids r : next_kind KCancel (cancel_loop s ids r).
Proof.
  revert r. induction ids as [|id ids IH]; intros r; simpl; [done|].
  destruct (get_job s id) as [j|]; [|apply IH]. by destruct (non_finished_task_ids j); [apply IH|].
Qed.

Lemma worker_stop_loop_kind s ids r : next_kind KStopWorker (worker_stop_loop s ids r).
Proof.
  revert r. induction ids as [|id ids IH]; intros r; simpl; [done|].
  destruct (workers s !! id) as [w|]; [|apply IH]. by destruct (worker_state w); simpl; [|apply IH].
Qed.

Lemma cancel_kind s sel next : handle_job_cancel s sel = Ret next -> next_kind KCancel next.
Proof.
  unfold handle_job_cancel. destruct (cancel_selection s sel); simpl; intros; simplify_eq.
  apply cancel_loop_kind.
Qed.

Lemma worker_stop_kind s sel next : handle_worker_stop s sel = Ret next -> next_kind KStopWorker next.
Proof.
  unfold handle_worker_stop. destruct sel; intros Hs; simplify_eq; [apply worker_stop_loop_kind|done|].
  destruct (IntArray_iter a); simpl in Hs; simplify_eq. apply worker_stop_loop_kind.
Qed.

Lemma after_cancel_kind s id rest r m now s' ctl next :
  after_cancel s id rest r m now = Ret (s', ctl, next) -> next_kind KCancel next.
Proof.
  unfold after_cancel. intros Hs. destruct m; try done;
    repeat (match type of Hs with (?x ≫= _) = _ => destruct x as [?|] eqn:?; simpl in Hs; [|done] end
            || case_match); simplify_eq; apply cancel_loop_kind.
Qed.

Lemma after_stop_kind s id rest r m next :
  after_stop_worker s id rest r m = Ret next -> next_kind KStopWorker next.
Proof. destruct m; simpl; intros; simplify_eq; apply worker_stop_loop_kind. Qed.

(** ** Lemmas: the state of a connection *)

Definition of_conn (c : Z) (e : Z * Kind) : option Kind := if decide (e.1 = c) then Some (e.2) else None.

Lemma handlers_perm sv sv' l c :
  entries sv ≡ₚ l ++ entries sv' -> handlers sv c ≡ₚ omap (of_conn c) l ++ handlers sv' c.
Proof. intros Hp. unfold handlers. change (omap _ (entries sv)) with (omap (of_conn c) (entries sv)). by rewrite Hp, omap_app. Qed.

Lemma conn_at_frame sv sv' c st :
  (c ∈ sv_idle sv' <-> c ∈ sv_idle sv) -> handlers sv' c ≡ₚ handlers sv c -> conn_at sv c st -> conn_at sv' c st.
Proof.
  intros Hi Hh Hc. destruct st; simpl in *; destruct Hc as [Hc Hl]; rewrite Hl in Hh;
    (split; [naive_solver|]); [by apply Permutation_nil_r in Hh..|].
  by apply Permutation_length_1_inv.
Qed.

(** A suspended handler is taken out: it was the only one of its connection. *)
Lemma conn_at_take sv sv' c k d st :
  sv_idle sv' = sv_idle sv -> entries sv ≡ₚ (c, k) :: entries sv' -> conn_at sv d st ->
  if decide (d = c) then st = CBusy k /\ conn_at sv' d CGone else conn_at sv' d st.
Proof.
  intros Hi Hp Hd. pose proof (handlers_perm sv sv' [(c, k)] d Hp) as Hh. simpl in Hh.
  unfold of_conn in Hh. simpl in Hh. destruct (decide (d = c)) as [->|Hdc].
  - rewrite decide_True in Hh by done. simpl in Hh.
    destruct st; simpl in *; destruct Hd as [Hd Hl]; rewrite Hl in Hh.
    + by apply Permutation_nil_cons in Hh.
    + by apply Permutation_nil_cons in Hh.
    + apply Permutation_length_1_inv in Hh. injection Hh as -> Hh. by rewrite Hi.
  - rewrite decide_False in Hh by done. simpl in Hh. eapply conn_at_frame; [by rewrite Hi|by symmetry|done].
Qed.

(** A new handler for a connection that had none. *)
Lemma conn_at_put sv sv' c k d st :
  sv_idle sv' = sv_idle sv -> entries sv' ≡ₚ (c, k) :: entries sv -> conn_at sv c CGone -> conn_at sv d st ->
  conn_at sv' c (CBusy k) /\ (d <> c -> conn_at sv' d st).
Proof.
  intros Hi Hp [Hc Hcl] Hd. split.
  - pose proof (handlers_perm sv' sv [(c, k)] c Hp) as Hh. simpl in Hh. unfold of_conn in Hh.
    simpl in Hh. rewrite decide_True, Hcl in Hh by done. simpl in *.
    rewrite Hi. split; [done|]. symmetry in Hh. by apply Permutation_length_1_inv in Hh.
  - intros Hdc. pose proof (handlers_perm sv' sv [(c, k)] d Hp) as Hh. simpl in Hh. unfold of_conn in Hh.
    simpl in Hh. rewrite decide_False in Hh by done. simpl in Hh.
    eapply conn_at_frame; [by rewrite Hi|done|done].
Qed.

Lemma entries_send sv c k m :
  entries (send_tako_message sv (c, k) m) ≡ₚ option_list (waiter_entry (c, k)) ++ entries sv.
Proof.
  unfold entries. simpl. rewrite omap_app, <- app_assoc. simpl.
  rewrite Permutation_app_comm, <- app_assoc. destruct (waiter_entry (c, k)); simpl; solve_Permutation.
Qed.

(** What a continued segment does to its connection and to the others. *)
Definition answered (sv sv' : Server) (c : Z) (k : Kind) : Prop :=
  exists news, sv_replies sv' = sv_replies sv ++ news
  /\ ((exists m, news = [(c, m)] /\ response_kind k m = true /\ conn_at sv' c CIdle)
      \/ (news = [] /\ conn_at sv' c (CBusy k)))
  /\ forall d st, d <> c -> conn_at sv d st -> conn_at sv' d st.

Lemma continue_conn sv c k next :
  conn_at sv c CGone -> next_kind k next -> answered sv (continue_with sv (Some c) next) c k.
Proof.
  intros Hc Hk. destruct next as [m|m cont|defs job| |]; simpl in *; [| | | |done].
  - exists [(c, m)]. split; [done|]. split.
    + left. exists m. split_and!; [done|done|]. destruct Hc as [_ Hh]. split; [set_solver|done].
    + intros d st Hd Hst. apply (conn_at_frame sv); simpl; [set_solver|done|done].
  - exists []. rewrite app_nil_r. split; [done|].
    assert (Hp : entries (send_tako_message sv (Some c, cont) m) ≡ₚ (c, k) :: entries sv).
    { rewrite entries_send. unfold waiter_entry. simpl. by rewrite Hk. }
    split; [right; split; [done|]; by apply (conn_at_put sv _ c _ c CGone)|].
    intros d st Hd Hst. by eapply conn_at_put; [|exact Hp|exact Hc|exact Hst|].
  - subst k. exists []. rewrite app_nil_r. split; [done|].
    match goal with |- context [conn_at ?sv1 c _] =>
      assert (Hp : entries sv1 ≡ₚ (c, KSubmit) :: entries sv) end.
    { unfold entries. simpl. rewrite fmap_app. simpl. solve_Permutation. }
    split; [right; split; [done|]; by apply (conn_at_put sv _ c _ c CGone)|].
    intros d st Hd Hst. by eapply conn_at_put; [|exact Hp|exact Hc|exact Hst|].
  - subst k. exists []. rewrite app_nil_r. split; [done|].
    match goal with |- context [conn_at ?sv1 c _] =>
      assert (Hp : entries sv1 ≡ₚ (c, KStats) :: entries sv) end.
    { unfold entries. simpl. rewrite fmap_app. simpl. solve_Permutation. }
    split; [right; split; [done|]; by apply (conn_at_put sv _ c _ c CGone)|].
    intros d st Hd Hst. by eapply conn_at_put; [|exact Hp|exact Hc|exact Hst|].
Qed.

Lemma continue_none sv next d st :
  conn_at sv d st -> conn_at (continue_with sv None next) d st
  /\ sv_replies (continue_with sv None next) = sv_replies sv.
Proof.
  intros Hd. destruct next; simpl; try done. split; [|done].
  apply (conn_at_frame sv); [done| |done].
  apply (handlers_perm _ _ []). by rewrite entries_send.
Qed.

(** ** Lemmas: the segments *)

(** A step that leaves all connections where they are. *)
Definition quiet (sv sv' : Server) : Prop :=
  sv_replies sv' = sv_replies sv /\ forall d st, conn_at sv d st -> conn_at sv' d st.

Lemma quiet_refl sv sv' :
  sv_replies sv' = sv_replies sv -> sv_idle sv' = sv_idle sv -> entries sv ≡ₚ entries sv' -> quiet sv sv'.
Proof.
  intros Hr Hi Hp. split; [done|]. intros d st Hd. apply (conn_at_frame sv); [by rewrite Hi| |done].
  symmetry. by apply (handlers_perm _ _ []).
Qed.

Lemma quiet_none sv next : quiet sv (continue_with sv None next).
Proof. split; [by destruct next|]. intros d st Hd. by apply continue_none. Qed.

Lemma answered_from sv sv1 sv' c k : quiet sv sv1 -> answered sv1 sv' c k -> answered sv sv' c k.
Proof.
  intros [Hr Hq] (news & Hn & Hc & Ho). exists news. rewrite <- Hr. split_and!; [done|done|]. auto.
Qed.

Lemma commit_conn sv c k s ctl next :
  conn_at sv c CGone -> next_kind k next -> answered sv (commit sv (Some c) (s, ctl, next)) c k.
Proof. intros Hc Hk. apply (continue_conn (send_stream_control (with_sv_state sv s) ctl)); done. Qed.

Lemma client_conn cwd sv c message now sv' :
  conn_at sv c CGone -> client_rpc_loop cwd sv c message now = Ret sv' ->
  match message with
  | Ok Stop => quiet sv sv'
  | Ok m => answered sv sv' c (kind_of m)
  | Err _ => exists e, sv_replies sv' = sv_replies sv ++ [(c, ErrorMsg e)]
      /\ forall d st, conn_at sv d st -> conn_at sv' d st
  end.
Proof.
  intros Hc Hr. destruct message as [m|e]; simpl in Hr; [|by simplify_eq; eauto].
  destruct m; simpl in Hr.
  - destruct (handle_submit _ _ _) as [[[s ctl] next]|] eqn:Hs; simpl in Hr; [|done]. simplify_eq.
    apply commit_conn; [done|]. by eapply submit_kind.
  - destruct (handle_resubmit _ _ _ _) as [[[s ctl] next]|] eqn:Hs; simpl in Hr; [|done]. simplify_eq.
    apply commit_conn; [done|]. by eapply resubmit_kind.
  - destruct (handle_job_cancel _ _) as [next|] eqn:Hs; simpl in Hr; [|done]. simplify_eq.
    apply continue_conn; [done|]. by eapply cancel_kind.
  - destruct (compute_job_detail _ _ _ _) as [m|] eqn:Hs; simpl in Hr; [|done]. simplify_eq.
    apply (continue_conn sv c KJobDetail (Reply m)); [done|].
    unfold compute_job_detail in Hs. destruct (query_selection _ _); simpl in Hs; by simplify_eq.
  - destruct (compute_job_info _ _) as [m|] eqn:Hs; simpl in Hr; [|done]. simplify_eq.
    apply (continue_conn sv c KJobInfo (Reply m)); [done|].
    unfold compute_job_info in Hs. destruct selector; simpl in Hs; [by simplify_eq|..];
      match type of Hs with (?x ≫= _) = _ => destruct x; simpl in Hs end; by simplify_eq.
  - simplify_eq. by apply (continue_conn sv c KWorkerList (Reply _)).
  - simplify_eq. by apply (continue_conn sv c KWorkerInfo (Reply _)).
  - simplify_eq. by apply (continue_conn (send_stream_control sv [StatsRequest]) c KStats AwaitStats).
  - destruct (handle_worker_stop _ _) as [next|] eqn:Hs; simpl in Hr; [|done]. simplify_eq.
    apply continue_conn; [done|]. by eapply worker_stop_kind.
  - simplify_eq. by apply quiet_refl.
Qed.

(** A resumed handler: nothing for a client, or the next segment of its kind. *)
Lemma resume_conn sv w m now sv' :
  resume sv w m now = Ret sv' ->
  match waiter_entry w with
  | Some (c, k) => conn_at sv c CGone -> answered sv sv' c k
  | None => quiet sv sv'
  end.
Proof.
  destruct w as [o cont]. unfold resume, waiter_entry. simpl. intros Hr.
  destruct cont as [job|id rest r|id rest r|id]; simpl in *.
  - destruct m; simpl in Hr; try done. simplify_eq. destruct o as [c|]; [|by apply quiet_refl].
    intros Hc. by apply (continue_conn sv c KSubmit (Reply _)).
  - destruct (after_cancel _ _ _ _ _ _) as [[[s ctl] next]|] eqn:Hs; simpl in Hr; [|done]. simplify_eq.
    destruct o as [c|]; [|apply (quiet_none (send_stream_control (with_sv_state sv s) ctl))].
    intros Hc. apply commit_conn; [done|]. by eapply after_cancel_kind.
  - destruct (after_stop_worker _ _ _ _ _) as [next|] eqn:Hs; simpl in Hr; [|done]. simplify_eq.
    destruct o as [c|]; [|apply quiet_none]. intros Hc. apply continue_conn; [done|]. by eapply after_stop_kind.
  - destruct (after_callback_cancel _ _ _ _) as [[[s ctl] next]|] eqn:Hs; simpl in Hr; [|done].
    assert (next = Finish) as ->.
    { unfold after_callback_cancel in Hs. destruct m; try done;
        repeat (match type of Hs with (?x ≫= _) = _ => destruct x as [?|] eqn:?; simpl in Hs; [|done] end
                || case_match); by simplify_eq. }
    simplify_eq. destruct o; by apply quiet_refl.
Qed.

Lemma reader_conn sv m now sv' : tako_msg_reader sv m now = Ret sv' -> quiet sv sv'.
Proof.
  intros Hr.
  assert (Hpop : pop_response sv m = Ret sv' -> quiet sv sv').
  { unfold pop_response. destruct (sv_tako_responses sv) as [|w rest] eqn:Hq; intros; simplify_eq.
    apply quiet_refl; [done..|]. unfold entries. simpl. rewrite Hq, fmap_app, omap_app. simpl.
    destruct (waiter_entry w); simpl; solve_Permutation. }
  destruct m; simpl in Hr; try (by apply Hpop);
    repeat (match type of Hr with (?x ≫= _) = _ => destruct x as [?|] eqn:?; simpl in Hr; [|done] end
            || case_match); simplify_eq; by apply quiet_refl.
Qed.

(** The handler at position [i] is taken out of its list. *)
Lemma take_handler sv sv' c k d st :
  sv_replies sv' = sv_replies sv -> sv_idle sv' = sv_idle sv -> entries sv ≡ₚ (c, k) :: entries sv' ->
  (forall c', exists st', conn_at sv c' st') -> conn_at sv d st ->
  conn_at sv' c CGone /\ (d = c -> st = CBusy k) /\ (d <> c -> conn_at sv' d st).
Proof.
  intros Hr Hi Hp Hall Hd. destruct (Hall c) as [stc Hc].
  pose proof (conn_at_take sv sv' c k c stc Hi Hp Hc) as H1. rewrite decide_True in H1 by done.
  pose proof (conn_at_take sv sv' c k d st Hi Hp Hd) as H2.
  split_and!; [apply H1| |]; intros Hdc; [rewrite decide_True in H2 by done; apply H2|by rewrite decide_False in H2].
Qed.

(** ** Steps of the server *)

(** Every connection moves by one step of the automaton, or is opened. *)
Definition conns_step (sv : Server) (e : Event) (sv' : Server) : Prop :=
  exists news, sv_replies sv' = sv_replies sv ++ news /\ (length news <= 1)%nat /\
    forall c st, conn_at sv c st -> exists st', conn_at sv' c st' /\
      (conn_step st (event_reads sv e c) (replies_to c news) st' \/ e = EvConnect c /\ st' = CIdle /\ news = []).

Definition conns_ok (sv : Server) : Prop := forall c, exists st, conn_at sv c st.

Lemma quiet_step sv e sv' : quiet sv sv' -> (forall c, event_reads sv e c = []) -> conns_step sv e sv'.
Proof.
  intros [Hr Hq] He. exists []. rewrite app_nil_r. split_and!; [done|simpl; lia|].
  intros c st Hc. exists st. rewrite He. split; [auto|left; constructor].
Qed.

(** A handler of [c] that was taken out of [sv] goes on. *)
Lemma answered_step sv sv1 sv' e c k :
  conns_ok sv -> sv_replies sv1 = sv_replies sv -> sv_idle sv1 = sv_idle sv ->
  entries sv ≡ₚ (c, k) :: entries sv1 -> (forall d, event_reads sv e d = []) ->
  (conn_at sv1 c CGone -> answered sv1 sv' c k) -> conns_step sv e sv'.
Proof.
  intros Hall Hr Hi Hp He Hans.
  assert (Hgone : conn_at sv1 c CGone).
  { destruct (Hall c) as [st Hc]. by apply (take_handler sv sv1 c k c st). }
  destruct (Hans Hgone) as (news & Hn & Hc & Ho). exists news. rewrite Hn, Hr. split; [done|].
  split; [destruct Hc as [(m & -> & _)|[-> _]]; simpl; lia|].
  intros d st Hd. destruct (take_handler sv sv1 c k d st Hr Hi Hp Hall Hd) as (_ & Heq & Hne).
  rewrite He. destruct (decide (d = c)) as [->|Hdc].
  - rewrite (Heq eq_refl). destruct Hc as [(m & -> & Hk & Hc)|[-> Hc]].
    + exists CIdle. split; [done|left]. unfold replies_to. simpl. rewrite decide_True by done. by constructor.
    + exists (CBusy k). split; [done|left; constructor].
  - exists st. split; [by apply Ho, Hne|left].
    destruct Hc as [(m & -> & _)|[-> _]]; unfold replies_to; simpl; [rewrite decide_False by done|]; constructor.
Qed.

(** A request of the idle connection [c]. *)
Lemma client_step cwd sv c message now sv' :
  conns_ok sv -> step cwd sv (EvClient c message now) = Ret sv' -> conns_step sv (EvClient c message now) sv'.
Proof.
  intros Hall Hs. simpl in Hs. case_decide as Hi.
  2: { simplify_eq. apply quiet_step; [by apply quiet_refl|]. intros d. simpl. case_decide as Hd; [|done].
       by destruct Hd as [<- ?]. }
  set (sv1 := with_idle sv (sv_idle sv ∖ {[c]})) in *.
  assert (Hh : handlers sv c = []) by (destruct (Hall c) as [[]]; simpl in *; naive_solver).
  assert (Hgone : conn_at sv1 c CGone) by (split; [simpl; set_solver|done]).
  assert (Hoth : forall d st, d <> c -> conn_at sv d st -> conn_at sv1 d st).
  { intros d st Hd. apply conn_at_frame; [simpl; set_solver|done]. }
  assert (Hidle : forall st, conn_at sv c st -> st = CIdle).
  { intros [] [Hc Hl]; [done|done|]. congruence. }
  pose proof (client_conn cwd sv1 c message now sv' Hgone Hs) as Hc.
  assert (Hreads : forall d, event_reads sv (EvClient c message now) d = if decide (d = c) then [message] else []).
  { intros d. simpl. destruct (decide (d = c)) as [->|Hd].
    - by rewrite decide_True.
    - rewrite decide_False; [done|]. naive_solver. }
  assert (Hans : forall m, message = Ok m -> m <> Stop -> answered sv1 sv' c (kind_of m) ->
    conns_step sv (EvClient c message now) sv').
  { intros m -> Hm (news & Hn & Hcc & Ho). exists news. split; [done|].
    split; [destruct Hcc as [(r & -> & _)|[-> _]]; simpl; lia|].
    intros d st Hd. rewrite Hreads. destruct (decide (d = c)) as [->|Hdc].
    - rewrite (Hidle st Hd). destruct Hcc as [(r & -> & Hk & Hr)|[-> Hr]].
      + exists CIdle. split; [done|left]. unfold replies_to. simpl. rewrite decide_True by done. by constructor.
      + exists (CBusy (kind_of m)). split; [done|left]. by constructor.
    - exists st. split; [by apply Ho, Hoth|left].
      destruct Hcc as [(r & -> & _)|[-> _]]; unfold replies_to; simpl; [rewrite decide_False by done|]; constructor. }
  destruct message as [m|e].
  - destruct m; try (by eapply Hans). destruct Hc as [Hr Hq]. exists []. rewrite app_nil_r.
    split_and!; [done|simpl; lia|]. intros d st Hd. rewrite Hreads. destruct (decide (d = c)) as [->|Hdc].
    + rewrite (Hidle st Hd). exists CGone. split; [by apply Hq|left; constructor].
    + exists st. split; [by apply Hq, Hoth|left; constructor].
  - destruct Hc as (e' & Hr & Hq). exists [(c, ErrorMsg e')]. split_and!; [done|simpl; lia|].
    intros d st Hd. rewrite Hreads. unfold replies_to. simpl. destruct (decide (d = c)) as [->|Hdc].
    + rewrite decide_True by done. rewrite (Hidle st Hd). exists CGone. split; [by apply Hq|left; by constructor].
    + rewrite decide_False by done. exists st. split; [by apply Hq, Hoth|left; constructor].
Qed.

Lemma taken_entries (l d : list (Waiter * ToGatewayMessage)) x :
  l ≡ₚ x :: d -> omap waiter_entry (l.*1) ≡ₚ option_list (waiter_entry (x.1)) ++ omap waiter_entry (d.*1).
Proof. intros ->. csimpl. by destruct (waiter_entry (x.1)). Qed.

Lemma taken_fmap {A B} (f : A -> B) (l d : list A) x : l ≡ₚ x :: d -> f <$> l ≡ₚ f x :: (f <$> d).
Proof. by intros ->. Qed.

Lemma server_conns_step cwd sv e sv' :
  conns_ok sv -> fresh_connect sv e -> step cwd sv e = Ret sv' -> conns_step sv e sv'.
Proof.
  intros Hall Hf Hs. destruct e as [c|c m now|m now|i now|i|i st|i|c].
  - simpl in *. simplify_eq. exists []. rewrite app_nil_r. split_and!; [done|simpl; lia|].
    intros d st Hd. destruct (decide (d = c)) as [->|Hdc].
    + exists CIdle. destruct Hf as [Hn Hh]. split; [split; [simpl; set_solver|done]|by right].
    + exists st. split; [|left; constructor]. apply (conn_at_frame sv); [simpl; set_solver|done|done].
  - by apply client_step in Hs.
  - simpl in Hs. apply quiet_step; [by eapply reader_conn|done].
  - simpl in Hs. destruct (sv_woken sv !! i) as [[w m]|] eqn:Hi; [|simplify_eq; by apply quiet_step; [apply quiet_refl|]].
    apply resume_conn in Hs.
    assert (Hp : entries sv ≡ₚ option_list (waiter_entry w) ++ entries (with_woken sv (delete i (sv_woken sv)))).
    { unfold entries. simpl. rewrite (taken_entries _ _ _ (delete_Permutation _ _ _ Hi)). simpl.
      destruct (waiter_entry w); simpl; solve_Permutation. }
    destruct (waiter_entry w) as [[c k]|].
    + exact (answered_step sv (with_woken sv (delete i (sv_woken sv))) sv' (EvResume i now) c k Hall eq_refl eq_refl Hp (fun _ => eq_refl) Hs).
    + apply quiet_step; [|done]. destruct Hs as [Hr Hq]. split; [done|]. intros d st Hd. apply Hq.
      by apply (quiet_refl sv).
  - simpl in Hs. destruct (sv_registering sv !! i) as [[[c defs] job]|] eqn:Hi; simplify_eq;
      [|by apply quiet_step; [apply quiet_refl|]].
    eapply (answered_step sv (with_registering sv (delete i (sv_registering sv))) _ _ c KSubmit); try done.
    + unfold entries. simpl. rewrite (taken_fmap _ _ _ _ (delete_Permutation _ _ _ Hi)). simpl. solve_Permutation.
    + intros Hg. by apply (continue_conn _ c KSubmit (after_registration defs job)).
  - simpl in Hs. destruct (sv_stats sv !! i) as [c|] eqn:Hi; simplify_eq; [|by apply quiet_step; [apply quiet_refl|]].
    eapply (answered_step sv (with_stats sv (delete i (sv_stats sv))) _ _ c KStats); try done.
    + unfold entries. simpl. rewrite (taken_fmap _ _ _ _ (delete_Permutation _ _ _ Hi)). simpl. solve_Permutation.
    + intros Hg. by apply (continue_conn _ c KStats (Reply (StatsResponse st))).
  - simpl in Hs. destruct (sv_spawned sv !! i) as [[id tasks]|]; simplify_eq; [|by apply quiet_step; [apply quiet_refl|]].
    apply quiet_step; [|done]. apply (quiet_none (with_spawned sv (delete i (sv_spawned sv))) (AwaitTako _ _)).
  - simpl in Hs. simplify_eq. exists []. rewrite app_nil_r. split_and!; [done|simpl; lia|].
    intros d st Hd. destruct (decide (d = c)) as [->|Hdc].
    + destruct st.
      * exists CGone. split; [|left; constructor]. destruct Hd. split; [simpl; set_solver|done].
      * exists CGone. split; [|left; constructor]. destruct Hd. split; [simpl; set_solver|done].
      * exists (CBusy k). split; [|left; constructor]. destruct Hd. split; [simpl; set_solver|done].
    + exists st. split; [|left; constructor]. apply (conn_at_frame sv); [simpl; set_solver|done|done].
Qed.

Lemma conns_step_ok sv e sv' : conns_ok sv -> conns_step sv e sv' -> conns_ok sv'.
Proof.
  intros Hall (news & _ & _ & Hs) c. destruct (Hall c) as [st Hc].
  destruct (Hs c st Hc) as (st' & ? & _). eauto.
Qed.

Lemma Server_new_conns c : conn_at Server_new c CGone.
Proof. split; [simpl; set_solver|done]. Qed.

Lemma conn_at_unique sv c st st' : conn_at sv c st -> conn_at sv c st' -> st = st'.
Proof. destruct st, st'; simpl; intros [H1 H2] [H3 H4]; try done; congruence. Qed.

(** ** Runs of the automaton *)

(** What is read and not answered in a state. *)
Definition unanswered (st : ConnState) (rest : list (result string FromClientMessage)) : Prop :=
  match st with
  | CBusy k => exists m, rest = [Ok m] /\ kind_of m = k /\ m <> Stop
  | CIdle => rest = []
  | CGone => rest = [] \/ rest = [Ok Stop]
  end.

(** Every response answers the message at its position. *)
Definition answers_reads (reads : list (result string FromClientMessage)) (replies : list ToClientMessage)
    (st : ConnState) : Prop :=
  exists done rest, reads = done ++ rest /\ unanswered st rest /\
    Forall2 (fun m r => response_to m r = true) done replies.

Lemma answers_reads_step reads replies st m r st' :
  answers_reads reads replies st -> conn_step st m r st' -> answers_reads (reads ++ m) (replies ++ r) st'.
Proof.
  intros (dn & rest & -> & Hu & Hf) Hs. inversion Hs; subst; simpl in Hu; subst.
  - rewrite !app_nil_r. by exists dn, rest.
  - rewrite !app_nil_r. exists dn, []. rewrite app_nil_r. split_and!; [done|by left|done].
  - rewrite !app_nil_r. exists dn, [Ok Stop]. split_and!; [done|by right|done].
  - rewrite app_nil_r. exists (dn ++ [Err e]), []. rewrite app_nil_r. split_and!; [done|by left|].
    apply Forall2_app; [done|by constructor].
  - rewrite app_nil_r. exists (dn ++ [Ok m0]), []. rewrite app_nil_r. split_and!; [done|done|].
    apply Forall2_app; [done|by constructor].
  - rewrite !app_nil_r. exists dn, [Ok m0]. split_and!; [done|by exists m0|done].
  - destruct Hu as (m0 & -> & <- & _). rewrite app_nil_r. exists (dn ++ [Ok m0]), [].
    rewrite app_nil_r. split_and!; [done|done|]. apply Forall2_app; [done|by constructor].
Qed.
End protocol.
