(* ===== verification/StreamServer.v ===== *)
(** * The stream server: [src/stream/server/rpc.rs]

    The registrations and open streams, the writer of a log file, and the
    connections of the streamers of workers.  Byte strings are lists of values
    below 256.  Outcomes of file operations are an argument of the writer. *)

From S2P Require Import Prelude ArrayDef Messages.

(** ** Messages ([src/transfer/stream.rs]) *)

(** [enum FromStreamerMessage], with the fields of its structs *)
Inductive FromStreamerMessage :=
| MStart (task instance : Z)
| MData (task instance channel : Z) (data : list Z)
| MEnd (task instance : Z).

#[export] Instance FromStreamerMessage_eq_dec : EqDecision FromStreamerMessage.
Proof. solve_decision. Defined.

(** [enum ToStreamerMessage] *)
Inductive ToStreamerMessage :=
| StreamError (message : string)
| EndResponse (task : Z).

(** [enum StreamMessage]: a message and the channel of its responses (the
    connection it came from) *)
Record StreamMessage := {
  sm_message : FromStreamerMessage;
  sm_sender : option Z
}.

(** ** The log format *)

(** The big-endian integers of the crates [bytes] and [byteorder]: writing a
    [u32] or a [u64] appends 4 or 8 bytes, reading gives a value of the type,
    and reading what was written gives the value back. *)
Class ByteOrder := {
  put_u32 : Z -> list Z;
  put_u64 : Z -> list Z;
  get_u32 : list Z -> Z;
  get_u64 : list Z -> Z;
  get_u32_bound : forall b, is_u32 (get_u32 b);
  get_u64_bound : forall b, is_u64 (get_u64 b);
  put_u32_length : forall x, length (put_u32 x) = 4%nat;
  put_u64_length : forall x, length (put_u64 x) = 8%nat;
  get_put_u32 : forall x, is_u32 x -> get_u32 (put_u32 x) = x;
  get_put_u64 : forall x, is_u64 x -> get_u64 (put_u64 x) = x
}.

(** Constants of [src/stream/reader/logfile.rs] *)
Definition HQ_LOG_HEADER : list Z := [72; 81; 58; 108; 111; 103].
Definition HQ_LOG_VERSION : Z := 0.
Definition BLOCK_STREAM_START : Z := 0.
Definition BLOCK_STREAM_CHUNK : Z := 1.
Definition BLOCK_STREAM_END : Z := 2.

(** ** The writer of a log file *)

Section writer.
Context `{ByteOrder}.

(** The outcome of file operations: [write_ok written new] tells whether the
    bytes [new] can be written after [written], [flush_ok] whether a flush
    succeeds, [io_error] is the message of an error. *)
Variable write_ok : list Z -> list Z -> bool.
Variable flush_ok : list Z -> bool.
Variable io_error : string.

(** [send_error]: an error for the connection, if there is one *)
Definition send_error (sender : option Z) (message : string) : list (Z * ToStreamerMessage) :=
  match sender with
  | Some s => [(s, StreamError message)]
  | None => []
  end.

(** The header of [file_writer] *)
Definition log_header : list Z :=
  HQ_LOG_HEADER ++ put_u32 HQ_LOG_VERSION ++ put_u64 0 ++ put_u64 0.

(** [buffer] of [file_writer] for a message *)
Definition block_buffer (m : FromStreamerMessage) : list Z :=
  match m with
  | MStart task instance => BLOCK_STREAM_START :: put_u32 task ++ put_u32 instance
  | MData task instance channel data =>
      BLOCK_STREAM_CHUNK :: put_u32 task ++ put_u32 instance ++ put_u32 channel
        ++ put_u32 (as_u32 (Z.of_nat (length data)))
  | MEnd task instance => BLOCK_STREAM_END :: put_u32 task ++ put_u32 instance
  end.

(** [file.write_all(bytes)]: the file, or [None] on an error *)
Definition write_all (file bytes : list Z) : option (list Z) :=
  if write_ok file bytes then Some (file ++ bytes) else None.

(** One iteration of the loop of [file_writer]: the file and the responses, and
    whether the loop goes on *)
Definition write_message (file : list Z) (m : StreamMessage)
    : list Z * list (Z * ToStreamerMessage) * bool :=
  let failed f := (f, send_error (sm_sender m) io_error, false) in
  match write_all file (block_buffer (sm_message m)) with
  | None => failed file
  | Some file =>
      match sm_message m with
      | MStart _ _ => (file, [], true)
      | MData _ _ _ data =>
          match write_all file data with
          | None => failed file
          | Some file => (file, [], true)
          end
      | MEnd task _ =>
          if flush_ok file then
            (file, match sm_sender m with Some s => [(s, EndResponse task)] | None => [] end, true)
          else failed file
      end
  end.

(** [error_state]: every further message is answered with the error *)
Definition error_state (ms : list StreamMessage) : list (Z * ToStreamerMessage) :=
  concat ((fun m => send_error (sm_sender m) io_error) <$> ms).

(** The loop of [file_writer], followed by [error_state] when it fails, as the
    task that [get_stream] spawns runs them *)
Fixpoint writer_loop (file : list Z) (ms : list StreamMessage)
    : list Z * list (Z * ToStreamerMessage) :=
  match ms with
  | [] => (file, [])
  | m :: rest =>
      let '(file, responses, go_on) := write_message file m in
      if (go_on : bool) then
        let '(file, more) := writer_loop file rest in (file, responses ++ more)
      else (file, responses ++ error_state rest)
  end.

(** [file_writer] on the messages of a channel, from the creation of the file *)
Definition file_writer (ms : list StreamMessage) : list Z * list (Z * ToStreamerMessage) :=
  match write_all [] log_header with
  | Some file => if flush_ok file then writer_loop file ms else (file, error_state ms)
  | None => ([], error_state ms)
  end.

End writer.

(** ** Connections *)

(** [receive_loop] on the messages of a connection up to its end ([Err]: a
    broken message): the forwarded messages, the ids still open, the error *)
Fixpoint receive_loop (opened_ids : gset (Z * Z)) (input : list (result string FromStreamerMessage))
    : list FromStreamerMessage * gset (Z * Z) * option string :=
  match input with
  | [] => ([], opened_ids, None)
  | Err e :: _ => ([], opened_ids, Some e)
  | Ok message :: rest =>
      let opened_ids :=
        match message with
        | MStart task instance => {[(task, instance)]} ∪ opened_ids
        | MData _ _ _ _ => opened_ids
        | MEnd task instance => opened_ids ∖ {[(task, instance)]}
        end in
      let '(sent, opened_ids, error) := receive_loop opened_ids rest in
      (message :: sent, opened_ids, error)
  end.

(** [handle_connection] after the registration: the messages sent to the stream
    (those of the connection [c], then the emergency closing of the open ids)
    and the error sent back *)
Definition handle_connection (c : Z) (input : list (result string FromStreamerMessage))
    : list StreamMessage * list (Z * ToStreamerMessage) :=
  let '(sent, open_ids, error) := receive_loop ∅ input in
  (((fun m => {| sm_message := m; sm_sender := Some c |}) <$> sent)
     ++ ((fun '(task, instance) => {| sm_message := MEnd task instance; sm_sender := None |})
           <$> elements open_ids),
   match error with Some e => [(c, StreamError e)] | None => [] end).

(** ** The state of the stream server *)

(** [struct StreamServerState]; a stream is the index of its writer in the list
    of the writers started so far. *)
Record StreamServerState := {
  streams : gmap Z nat;
  registrations : gmap Z string;
  connections : gset string;
  files : gset string;
  writers : list string
}.

(** [StreamServerStateRef::new] *)
Definition StreamServerState_new : StreamServerState :=
  {| streams := ∅; registrations := ∅; connections := ∅; files := ∅; writers := [] |}.

(** [StreamServerStateRef::get_stream] *)
Definition get_stream (s : StreamServerState) (job_id : Z)
    : result string (nat * StreamServerState) :=
  match streams s !! job_id with
  | Some w => Ok (w, s)
  | None =>
      match registrations s !! job_id with
      | Some path =>
          let w := length (writers s) in
          Ok (w, {| streams := <[job_id := w]> (streams s); registrations := registrations s;
                    connections := connections s; files := {[path]} ∪ files s;
                    writers := writers s ++ [path] |})
      | None => Err ("Job " ++ to_string job_id ++ " is not registered for streaming")%string
      end
  end.

(** The end of the task that [get_stream] spawns *)
Definition writer_finished (s : StreamServerState) (path : string) : StreamServerState :=
  {| streams := streams s; registrations := registrations s; connections := connections s;
     files := files s ∖ {[path]}; writers := writers s |}.

(** [RegisterStream] in [stream_server_main] *)
Definition register_stream (s : StreamServerState) (job_id : Z) (path : string)
    : outcome StreamServerState :=
  _ ← assert (bool_decide (registrations s !! job_id = None));
  Ret {| streams := streams s; registrations := <[job_id := path]> (registrations s);
         connections := connections s; files := files s; writers := writers s |}.

(** [UnregisterStream] in [stream_server_main] *)
Definition unregister_stream (s : StreamServerState) (job_id : Z) : outcome StreamServerState :=
  _ ← assert (bool_decide (is_Some (registrations s !! job_id)));
  Ret {| streams := delete job_id (streams s); registrations := delete job_id (registrations s);
         connections := connections s; files := files s; writers := writers s |}.

(** The start and the end of the task that [AddConnection] spawns *)
Definition add_connection (s : StreamServerState) (address : string) : StreamServerState :=
  {| streams := streams s; registrations := registrations s;
     connections := {[address]} ∪ connections s; files := files s; writers := writers s |}.

Definition remove_connection (s : StreamServerState) (address : string) : StreamServerState :=
  {| streams := streams s; registrations := registrations s;
     connections := connections s ∖ {[address]}; files := files s; writers := writers s |}.

(** [Stats] in [stream_server_main] *)
Definition stream_stats (s : StreamServerState) : StreamStats :=
  {| st_connections := elements (connections s);
     st_registrations := map_to_list (registrations s);
     st_files := elements (files s) |}.

(** [stream_server_main] on the control messages of the server *)
Definition stream_server_main (s : StreamServerState) (m : StreamCtl) : outcome StreamServerState :=
  match m with
  | RegisterStream job_id path => register_stream s job_id path
  | UnregisterStream job_id => unregister_stream s job_id
  | StatsRequest => Ret s
  end.

(** The steps of the stream server: control messages, streamers that ask for the
    stream of a job, and the ends of tasks. *)
Inductive stream_step : StreamServerState -> StreamServerState -> Prop :=
| ss_control s m s' : stream_server_main s m = Ret s' -> stream_step s s'
| ss_get_stream s id w s' : get_stream s id = Ok (w, s') -> stream_step s s'
| ss_writer_finished s path : stream_step s (writer_finished s path)
| ss_add_connection s a : stream_step s (add_connection s a)
| ss_remove_connection s a : stream_step s (remove_connection s a).

(** The invariant: only registered jobs have a stream; the writer of the stream
    writes to the registered path; different jobs have different writers. *)
Record stream_inv (s : StreamServerState) : Prop := {
  st_writer : forall id w, streams s !! id = Some w ->
    exists path, registrations s !! id = Some path /\ writers s !! w = Some path;
  st_distinct : forall id1 id2 w, streams s !! id1 = Some w -> streams s !! id2 = Some w -> id1 = id2
}.

(** ** Well-formed traces of messages *)

(** The message belongs to a stream (task, instance). *)
Definition stream_key (m : FromStreamerMessage) : Z * Z :=
  match m with MStart t i | MData t i _ _ | MEnd t i => (t, i) end.

(** A stream is started once, and before its data and its end; ids are [u32],
    the channel is 0 or 1, and a chunk is shorter than [2 ^ 32]. *)
Definition trace_step (started : gset (Z * Z)) (m : FromStreamerMessage) : option (gset (Z * Z)) :=
  match m with
  | MStart t i =>
      if decide (((t, i) ∉ started) /\ is_u32 t /\ is_u32 i) then Some ({[(t, i)]} ∪ started) else None
  | MData t i c data =>
      if decide ((t, i) ∈ started /\ 0 <= c < 2 /\ Z.of_nat (length data) < 2 ^ 32)
      then Some started else None
  | MEnd t i => if decide ((t, i) ∈ started) then Some started else None
  end.

Fixpoint trace_run (started : gset (Z * Z)) (ms : list FromStreamerMessage) : option (gset (Z * Z)) :=
  match ms with
  | [] => Some started
  | m :: rest => started' ← trace_step started m; trace_run started' rest
  end.

Definition trace_ok (ms : list FromStreamerMessage) : Prop := is_Some (trace_run ∅ ms).

(** The bytes that the writer appends for a message. *)
Definition encode_message `{ByteOrder} (m : FromStreamerMessage) : list Z :=
  block_buffer m ++ match m with MData _ _ _ data => data | _ => [] end.

(** The responses of a writer without file errors. *)
Definition end_responses (ms : list StreamMessage) : list (Z * ToStreamerMessage) :=
  omap (fun m => match sm_message m, sm_sender m with
                 | MEnd t _, Some s => Some (s, EndResponse t)
                 | _, _ => None
                 end) ms.

(** ** Lemmas *)

Lemma trace_run_app st ms1 ms2 :
  trace_run st (ms1 ++ ms2) = (st' ← trace_run st ms1; trace_run st' ms2).
Proof.
  revert st. induction ms1 as [|m ms IH]; intros st; simpl; [done|].
  destruct (trace_step st m); simpl; [apply IH|done].
Qed.

Lemma trace_run_started st ms st' :
  trace_run st ms = Some st' ->
  forall k, k ∈ st' <-> k ∈ st \/ exists t i, MStart t i ∈ ms /\ k = (t, i).
Proof.
  revert st. induction ms as [|m ms IH]; intros st Hr k; simpl in Hr.
  - simplify_eq. setoid_rewrite elem_of_nil. naive_solver.
  - destruct (trace_step st m) as [st1|] eqn:Hs; simpl in Hr; [|done].
    rewrite (IH _ Hr). unfold trace_step in Hs.
    setoid_rewrite elem_of_cons. destruct m; case_decide; simplify_eq; set_solver.
Qed.

Lemma receive_loop_spec op input sent op' e :
  receive_loop op input = (sent, op', e) ->
  (exists rest, input = (Ok <$> sent) ++ rest /\
     match e with None => rest = [] | Some err => exists r, rest = Err err :: r end) /\
  (forall t i, (t, i) ∈ op -> (t, i) ∈ op' \/ MEnd t i ∈ sent) /\
  (forall t i, MStart t i ∈ sent -> (t, i) ∈ op' \/ MEnd t i ∈ sent) /\
  (forall t i, (t, i) ∈ op' -> (t, i) ∈ op \/ MStart t i ∈ sent).
Proof.
  revert op sent op' e. induction input as [|[m|err] input IH]; intros op sent op' e Hr; simpl in Hr.
  - simplify_eq. split; [by exists []|]. set_solver.
  - destruct (receive_loop _ input) as [[sent1 op1] e1] eqn:E. simplify_eq.
    destruct (IH _ _ _ _ E) as ((rest & -> & He) & H1 & H2 & H3).
    split; [by exists rest|]. setoid_rewrite elem_of_cons.
    split_and!; intros t i Hin.
    + destruct m as [t0 i0|t0 i0 c0 d0|t0 i0].
      * destruct (H1 t i) as [|]; [by apply elem_of_union; right|by left|by right; right].
      * destruct (H1 t i Hin) as [|]; [by left|by right; right].
      * destruct (decide ((t, i) = (t0, i0))) as [[= -> ->]|Hne]; [by right; left|].
        destruct (H1 t i) as [|]; [|by left|by right; right].
        apply elem_of_difference. by rewrite elem_of_singleton.
    + destruct Hin as [<-|Hin]; [|destruct (H2 t i Hin) as [|]; [by left|by right; right]].
      destruct (H1 t i) as [|]; [by apply elem_of_union; left; apply elem_of_singleton
        |by left|by right; right].
    + destruct (H3 t i Hin) as [Ho|]; [|by right; right].
      destruct m as [t0 i0|t0 i0 c0 d0|t0 i0].
      * apply elem_of_union in Ho as [[= -> ->]%elem_of_singleton|]; [by right; left|by left].
      * by left.
      * apply elem_of_difference in Ho as [? _]. by left.
  - simplify_eq. split; [by exists (Err err :: input); eauto|]. set_solver.
Qed.

#[export] Instance stream_server_protocol : StreamCtlServer StreamServerState.
Proof.
  refine {| ctl_apply := stream_server_main; registered := fun s => dom (registrations s) |}.
  intros s [id path|id|] regs Hs; simpl in *.
  - destruct (decide (id ∈ dom (registrations s))) as [|Hn]; [done|].
    injection Hs as <-. apply not_elem_of_dom in Hn. unfold register_stream.
    rewrite bool_decide_true by done. eexists. split; [done|]. simpl. by rewrite dom_insert_L.
  - destruct (decide (id ∈ dom (registrations s))) as [Hin|]; [|done].
    injection Hs as <-. apply elem_of_dom in Hin. unfold unregister_stream.
    rewrite bool_decide_true by done. eexists. split; [done|]. simpl. by rewrite dom_delete_L.
  - injection Hs as <-. eauto.
Defined.

Lemma stream_step_inv s s' : stream_inv s -> stream_step s s' -> stream_inv s'.
Proof.
  intros [Hw Hd] Hs. destruct Hs as [s m s' Hm|s id w s' Hg|s path|s a|s a]; [| |by split..].
  - destruct m as [id path|id|]; simpl in Hm.
    + unfold register_stream in Hm. ret_inv. split; simpl; [|done].
      intros id1 w H1. destruct (Hw _ _ H1) as (p & Hp & ?). exists p. split; [|done].
      apply bool_decide_eq_true in E. rewrite lookup_insert_ne; [done|]. intros ->. congruence.
    + unfold unregister_stream in Hm. ret_inv. split; simpl.
      * intros id1 w [Hne H1]%lookup_delete_Some. destruct (Hw _ _ H1) as (p & Hp & ?).
        exists p. by rewrite lookup_delete_ne.
      * intros id1 id2 w [_ H1]%lookup_delete_Some [_ H2]%lookup_delete_Some. eauto.
    + simplify_eq. by split.
  - unfold get_stream in Hg. destruct (streams s !! id) as [w0|] eqn:E; [by simplify_eq|].
    destruct (registrations s !! id) as [path|] eqn:Er; [|done]. simplify_eq.
    assert (Hlt : forall id1 w, streams s !! id1 = Some w -> (w < length (writers s))%nat).
    { intros id1 w H1. destruct (Hw _ _ H1) as (p & _ & Hp). by apply lookup_lt_Some in Hp. }
    split; simpl.
    + intros id1 w [[<- <-]|[Hne H1]]%lookup_insert_Some.
      * exists path. split; [done|]. by rewrite lookup_app_r, Nat.sub_diag.
      * destruct (Hw _ _ H1) as (p & ? & ?). exists p. split; [done|]. by apply lookup_app_l_Some.
    + intros id1 id2 w [[<- <-]|[Hne1 H1]]%lookup_insert_Some [[<- Heq]|[Hne2 H2]]%lookup_insert_Some;
        [done| | |by eauto].
      * apply Hlt in H2. lia.
      * apply Hlt in H1. lia.
Qed.

(** ** Properties *)


(** A connection forwards the messages of the streamer unchanged and in
    order up to the first broken one, and when it ends every stream that was
    started on it has been ended: the emergency closing adds the missing ends,
    so that a well-formed trace stays well-formed. *)
Lemma handle_connection_spec c input out errors :
  handle_connection c input = (out, errors) ->
  exists sent closing rest,
    sm_message <$> out = sent ++ closing /\ input = (Ok <$> sent) ++ rest /\
    match rest with [] => errors = [] | r :: _ => exists e, r = Err e /\ errors = [(c, StreamError e)] end /\
    (forall t i, MStart t i ∈ sent -> MEnd t i ∈ sent ++ closing) /\
    (trace_ok sent -> trace_ok (sent ++ closing)).
Proof.
  unfold handle_connection. destruct (receive_loop ∅ input) as [[sent op] e] eqn:E.
  destruct (receive_loop_spec _ _ _ _ _ E) as ((rest & Hin & He) & _ & Hst & Hop).
  intros [= <- <-].
  exists sent, ((fun '(t, i) => MEnd t i) <$> elements op), rest. split_and!.
  - rewrite fmap_app, <- !list_fmap_compose. f_equal.
    + rewrite (list_fmap_ext _ id _ (fun _ _ _ => eq_refl)). by rewrite list_fmap_id.
    + apply list_fmap_ext. by intros ? [t i] _.
  - done.
  - destruct e as [e|]; [destruct He as [r ->]; eauto|by subst].
  - intros t i Hin'. apply elem_of_app. destruct (Hst t i Hin') as [Ho|]; [right|by left].
    apply list_elem_of_fmap. exists (t, i). by rewrite elem_of_elements.
  - intros [st Hrun]. unfold trace_ok. rewrite trace_run_app, Hrun. simpl.
    assert (Hsub : forall k, k ∈ elements op -> k ∈ st).
    { intros [t i] [?|Hs]%elem_of_elements%Hop; [set_solver|].
      apply (trace_run_started _ _ _ Hrun). eauto. }
    revert Hsub. induction (elements op) as [|[t i] l IH]; intros Hsub; csimpl; [by eexists|].
    rewrite decide_True by (apply Hsub; left). simpl. apply IH. intros k Hk. apply Hsub. by right.
Qed.

(** C24: whatever the file operations do, a streamer that ends a stream gets an
    answer: the confirmation or an error. *)
Theorem end_is_answered `{ByteOrder} write_ok flush_ok io_error ms m t i s :
  m ∈ ms -> sm_message m = MEnd t i -> sm_sender m = Some s ->
  (s, EndResponse t) ∈ (file_writer write_ok flush_ok io_error ms).2 \/
  (s, StreamError io_error) ∈ (file_writer write_ok flush_ok io_error ms).2.
Proof.
  intros Hin Hm Hs. set (answered (resp : list (Z * ToStreamerMessage)) := (s, EndResponse t) ∈ resp \/ (s, StreamError io_error) ∈ resp).
  fold (answered (file_writer write_ok flush_ok io_error ms).2).
  assert (Herr : forall l, m ∈ l -> answered (error_state io_error l)).
  { intros l Hl. right. apply list_elem_of_In, in_concat. exists [(s, StreamError io_error)].
    split; [|by left]. apply list_elem_of_In, list_elem_of_fmap. exists m. split; [|done].
    unfold send_error. by rewrite Hs. }
  assert (Happ : forall l1 l2, answered l1 \/ answered l2 -> answered (l1 ++ l2))
    by (unfold answered; intros; rewrite !elem_of_app; naive_solver).
  assert (Hone : forall file, answered (write_message write_ok flush_ok io_error file m).1.2).
  { intros file. unfold write_message, write_all. rewrite Hm, Hs.
    destruct (write_ok file _); [destruct (flush_ok _)|]; unfold answered, send_error; simpl;
      set_solver. }
  assert (Hloop : forall l file, m ∈ l -> answered (writer_loop write_ok flush_ok io_error file l).2).
  { induction l as [|m' l IH]; intros file Hl; [by apply not_elem_of_nil in Hl|]. simpl.
    destruct (write_message _ _ _ file m') as [[file' resp] go] eqn:E.
    destruct go.
    - destruct (writer_loop _ _ _ file' l) as [file'' more] eqn:E2. simpl. apply Happ.
      apply elem_of_cons in Hl as [->|Hl]; [left|right].
      + specialize (Hone file). by rewrite E in Hone.
      + specialize (IH file' Hl). by rewrite E2 in IH.
    - simpl. apply Happ. apply elem_of_cons in Hl as [->|Hl]; [left|right; by apply Herr].
      specialize (Hone file). by rewrite E in Hone. }
  unfold file_writer. destruct (write_all _ _ _) as [file|]; [|by apply Herr].
  destruct (flush_ok file); [by apply Hloop|by apply Herr].
Qed.
