(* ===== verification/Streamer.v ===== *)
(** * The streamer of a worker: [src/worker/streamer.rs]

    The worker keeps one connection to the stream server per job.  A running
    task gets a [StreamSender] to the connection and leaves a response sender
    that is fired when its stream is confirmed or fails.  The connections are
    asynchronous tasks: the model is a step function on the shared [Streamer]
    together with the live connection tasks, the senders that tasks hold, and
    the responses fired so far.  A step is what runs between two awaits. *)

From S2P Require Import Prelude ArrayDef Messages StreamServer.

(** ** State *)

(** [struct StreamInfo]: the connection its [sender] belongs to, and the
    response senders by task. *)
Record StreamInfo := {
  si_sender : Z;
  si_responses : gmap Z Z
}.

(** [struct Streamer] (its map [streams]; address and key are constant) *)
Abbreviation Streamer := (gmap Z StreamInfo).

(** [struct StreamSender] *)
Record StreamSender := {
  ss_conn : Z;
  ss_task : Z;
  ss_instance : Z
}.

#[global] Instance StreamSender_eq_dec : EqDecision StreamSender.
Proof. solve_decision. Defined.

(** A connection task: its job, the messages waiting in its queue, the messages
    it sent to the stream server. *)
Record Connection := {
  c_job : Z;
  c_queue : list FromStreamerMessage;
  c_sent : list FromStreamerMessage
}.

(** The value a response sender is fired with: [Ok(())] or an error. *)
Definition Response : Type := result string unit.

(** The worker as the streamer sees it. *)
Record World := {
  w_streams : Streamer;
  w_conns : gmap Z Connection;
  w_next : Z;
  w_senders : list StreamSender;
  w_fired : list (Z * Response)
}.

Definition with_streams (w : World) (s : Streamer) : World :=
  {| w_streams := s; w_conns := w_conns w; w_next := w_next w; w_senders := w_senders w;
     w_fired := w_fired w |}.

Definition with_conns (w : World) (c : gmap Z Connection) : World :=
  {| w_streams := w_streams w; w_conns := c; w_next := w_next w; w_senders := w_senders w;
     w_fired := w_fired w |}.

Definition with_senders (w : World) (l : list StreamSender) : World :=
  {| w_streams := w_streams w; w_conns := w_conns w; w_next := w_next w; w_senders := l;
     w_fired := w_fired w |}.

Definition fire (w : World) (l : list (Z * Response)) : World :=
  {| w_streams := w_streams w; w_conns := w_conns w; w_next := w_next w;
     w_senders := w_senders w; w_fired := w_fired w ++ l |}.

(** [StreamerRef::start] *)
Definition streamer_start : World :=
  {| w_streams := ∅; w_conns := ∅; w_next := 0; w_senders := []; w_fired := [] |}.

(** ** Operations of [Streamer] *)

(** [Streamer::send_error] *)
Definition streamer_send_error (w : World) (job_id : Z) (error : string) : outcome World :=
  info ← unwrap (w_streams w !! job_id);
  Ret (fire (with_streams w (delete job_id (w_streams w)))
         ((fun r => (r, Err error)) <$> map_values (si_responses info))).

(** [Streamer::close_task_stream] *)
Definition close_task_stream (w : World) (job_id task_id : Z) : outcome World :=
  info ← unwrap (w_streams w !! job_id);
  response ← unwrap (si_responses info !! task_id);
  let responses := delete task_id (si_responses info) in
  let w := fire w [(response, Ok tt)] in
  Ret (with_streams w
         (if decide (responses = ∅) then delete job_id (w_streams w)
          else <[job_id := {| si_sender := si_sender info; si_responses := responses |}]>
                 (w_streams w))).

(** [Streamer::get_stream]: the sender is kept by the task. *)
Definition streamer_get_stream (w : World) (job_id job_task_id instance_id response_sender : Z) :
    outcome World :=
  match w_streams w !! job_id with
  | Some info =>
      _ ← assert (bool_decide (si_responses info !! job_task_id = None));
      Ret {| w_streams := <[job_id := {| si_sender := si_sender info;
               si_responses := <[job_task_id := response_sender]> (si_responses info) |}]>
               (w_streams w);
             w_conns := w_conns w; w_next := w_next w;
             w_senders := w_senders w ++ [{| ss_conn := si_sender info; ss_task := job_task_id;
               ss_instance := instance_id |}];
             w_fired := w_fired w |}
  | None =>
      let conn := w_next w in
      Ret {| w_streams := <[job_id := {| si_sender := conn;
               si_responses := {[job_task_id := response_sender]} |}]> (w_streams w);
             w_conns := <[conn := {| c_job := job_id; c_queue := []; c_sent := [] |}]> (w_conns w);
             w_next := conn + 1;
             w_senders := w_senders w ++ [{| ss_conn := conn; ss_task := job_task_id;
               ss_instance := instance_id |}];
             w_fired := w_fired w |}
  end.

(** The loop of [StreamerRef::start]: [retain(|_, info| !info.responses.is_empty())] *)
Definition clean_streams (s : Streamer) : Streamer :=
  filter (fun kv => si_responses kv.2 <> ∅) s.

(** ** Operations of [StreamSender] *)

(** Send through the queue of the connection; it fails when the connection task
    ended. *)
Definition queue_send (w : World) (conn : Z) (m : FromStreamerMessage) (failed : string) :
    World * result string unit :=
  match w_conns w !! conn with
  | Some c =>
      (with_conns w (<[conn := {| c_job := c_job c; c_queue := c_queue c ++ [m];
                                  c_sent := c_sent c |}]> (w_conns w)), Ok tt)
  | None => (w, Err failed)
  end.

(** [StreamSender::send_stream_start], [send_data] and [close] *)
Definition send_stream_start (w : World) (s : StreamSender) : World * result string unit :=
  queue_send w (ss_conn s) (MStart (ss_task s) (ss_instance s)) "Sending streamer message failed".

Definition send_data (w : World) (s : StreamSender) (channel : Z) (data : list Z) :
    World * result string unit :=
  queue_send w (ss_conn s) (MData (ss_task s) (ss_instance s) channel data)
    "Sending streamer message failed".

Definition close (w : World) (s : StreamSender) : World * result string unit :=
  queue_send w (ss_conn s) (MEnd (ss_task s) (ss_instance s)) "Sending close message failed".

(** ** The connection task *)

(** The task ends: its queue is closed. *)
Definition conn_end (w : World) (conn : Z) : World := with_conns w (delete conn (w_conns w)).

(** A failure of the connection ([connect], a [send], the receiver, or an
    [Error] message of the server): [send_error], and the task ends. *)
Definition conn_failed (w : World) (conn : Z) (error : string) : outcome World :=
  match w_conns w !! conn with
  | Some c => w ← streamer_send_error w (c_job c) error; Ret (conn_end w conn)
  | None => Ret w
  end.

(** The select of the task ended without an error: the entry of the job is
    removed. *)
Definition conn_finished (w : World) (conn : Z) : World :=
  match w_conns w !! conn with
  | Some c => conn_end (with_streams w (delete (c_job c) (w_streams w))) conn
  | None => w
  end.

(** [stream_receiver] on an [EndResponse] *)
Definition conn_response (w : World) (conn task : Z) : outcome World :=
  match w_conns w !! conn with
  | Some c => close_task_stream w (c_job c) task
  | None => Ret w
  end.

(** One round of [send_loop] *)
Definition conn_forward (w : World) (conn : Z) : World :=
  match w_conns w !! conn with
  | Some c =>
      match c_queue c with
      | m :: queue =>
          with_conns w (<[conn := {| c_job := c_job c; c_queue := queue;
                                     c_sent := c_sent c ++ [m] |}]> (w_conns w))
      | [] => w
      end
  | None => w
  end.

(** Whether a sender of the queue of [conn] is left: one that a task holds, or
    the one in the entry of a job. *)
Definition sender_left (w : World) (conn : Z) : bool :=
  existsb (fun s => ss_conn s =? conn) (w_senders w)
  || existsb (fun i => si_sender i =? conn) (map_values (w_streams w)).

(** ** Steps *)

Inductive StreamerEvent :=
| EGetStream (job_id task_id instance_id response_sender : Z)
| EStart (s : StreamSender)
| EData (s : StreamSender) (channel : Z) (data : list Z)
| EClose (s : StreamSender)
| EDropSender (s : StreamSender)
| EForward (conn : Z)
| EEndResponse (conn task_id : Z)
| EFailed (conn : Z) (error : string)
| EServerClosed (conn : Z)
| EQueueClosed (conn : Z)
| EClean.

(** Remove one occurrence. *)
Fixpoint remove_one (s : StreamSender) (l : list StreamSender) : list StreamSender :=
  match l with
  | [] => []
  | x :: l' => if decide (x = s) then l' else x :: remove_one s l'
  end.

Definition streamer_step (w : World) (e : StreamerEvent) : outcome World :=
  match e with
  | EGetStream job_id task_id instance_id response_sender =>
      streamer_get_stream w job_id task_id instance_id response_sender
  | EStart s => Ret (send_stream_start w s).1
  | EData s channel data => Ret (send_data w s channel data).1
  | EClose s => Ret (close w s).1
  | EDropSender s => Ret (with_senders w (remove_one s (w_senders w)))
  | EForward conn => Ret (conn_forward w conn)
  | EEndResponse conn task_id => conn_response w conn task_id
  | EFailed conn error => conn_failed w conn error
  | EServerClosed conn => Ret (conn_finished w conn)
  | EQueueClosed conn =>
      (* [recv] returns [None] when the queue is empty and all senders are gone *)
      match w_conns w !! conn with
      | Some c =>
          if bool_decide (c_queue c = []) && negb (sender_left w conn)
          then Ret (conn_finished w conn) else Ret w
      | None => Ret w
      end
  | EClean => Ret (with_streams w (clean_streams (w_streams w)))
  end.

(** ** Accounting of responses *)

(** The response senders that wait in the streams. *)
Definition pending (s : Streamer) : list Z :=
  concat ((fun i => map_values (si_responses i)) <$> map_values s).

(** The response senders given to [get_stream] by a sequence of steps. *)
Definition requested (es : list StreamerEvent) : list Z :=
  omap (fun e => match e with EGetStream _ _ _ r => Some r | _ => None end) es.

(** The steps of an orderly worker and stream server: a task streams once at a
    time; the server confirms streams of the connection it confirms on; a
    connection fails while its streams are open, and ends in order when the job
    has none. *)
Definition orderly (w : World) (e : StreamerEvent) : Prop :=
  match e with
  | EGetStream j t _ _ =>
      forall info, w_streams w !! j = Some info -> si_responses info !! t = None
  | EEndResponse conn t =>
      forall c, w_conns w !! conn = Some c ->
      exists info, w_streams w !! c_job c = Some info /\ si_sender info = conn /\
        is_Some (si_responses info !! t)
  | EFailed conn _ =>
      forall c, w_conns w !! conn = Some c ->
      exists info, w_streams w !! c_job c = Some info /\ si_sender info = conn
  | EServerClosed conn | EQueueClosed conn =>
      forall c, w_conns w !! conn = Some c -> w_streams w !! c_job c = None
  | _ => True
  end.

Fixpoint orderly_run (w : World) (es : list StreamerEvent) : Prop :=
  match es with
  | [] => True
  | e :: es' => orderly w e /\ forall w', streamer_step w e = Ret w' -> orderly_run w' es'
  end.

(** Every stream entry has responses and the live connection of its job. *)
Definition streams_wf (w : World) : Prop :=
  (forall j i, w_streams w !! j = Some i ->
     si_responses i <> ∅ /\ exists c, w_conns w !! si_sender i = Some c /\ c_job c = j) /\
  (forall conn c, w_conns w !! conn = Some c -> conn < w_next w).

(** ** Lemmas *)

Lemma pending_delete s j i :
  s !! j = Some i -> pending s ≡ₚ map_values (si_responses i) ++ pending (delete j s).
Proof. intros Hj. unfold pending. by rewrite <- (map_values_delete s j i Hj). Qed.

Lemma pending_insert s j i :
  s !! j = None -> pending (<[j := i]> s) ≡ₚ map_values (si_responses i) ++ pending s.
Proof. intros Hj. unfold pending. by rewrite map_values_insert_new. Qed.

Lemma pending_replace s j i :
  pending (<[j := i]> s) ≡ₚ map_values (si_responses i) ++ pending (delete j s).
Proof.
  rewrite <- insert_delete_eq. apply pending_insert, lookup_delete_eq.
Qed.

Lemma clean_streams_wf w : streams_wf w -> clean_streams (w_streams w) = w_streams w.
Proof.
  intros [Hs _]. unfold clean_streams. apply map_filter_id. intros j i Hj. simpl.
  by destruct (Hs j i Hj).
Qed.

(** Connections change only by queueing and forwarding: their jobs stay. *)
Lemma streams_wf_conns w conns :
  streams_wf w -> (forall k, c_job <$> conns !! k = c_job <$> w_conns w !! k) ->
  streams_wf (with_conns w conns).
Proof.
  intros [Hs Hn] Heq. split; simpl.
  - intros j i Hj. destruct (Hs j i Hj) as (? & c & Hc & <-). split; [done|].
    specialize (Heq (si_sender i)). rewrite Hc in Heq. simpl in Heq.
    apply fmap_Some in Heq as (c' & -> & ->). eauto.
  - intros k c Hk. specialize (Heq k). rewrite Hk in Heq. simpl in Heq. symmetry in Heq.
    apply fmap_Some in Heq as (c' & Hc' & _). eauto.
Qed.

Lemma job_insert (conns : gmap Z Connection) conn c c' k :
  conns !! conn = Some c -> c_job c' = c_job c ->
  c_job <$> <[conn := c']> conns !! k = c_job <$> conns !! k.
Proof.
  intros Hc Hj. destruct (decide (k = conn)) as [->|].
  - rewrite lookup_insert_eq, Hc. simpl. by rewrite Hj.
  - by rewrite lookup_insert_ne.
Qed.

Lemma queue_send_wf w conn m f :
  streams_wf w -> streams_wf (queue_send w conn m f).1 /\
  w_streams (queue_send w conn m f).1 = w_streams w /\
  w_fired (queue_send w conn m f).1 = w_fired w.
Proof.
  intros Hw. unfold queue_send. destruct (w_conns w !! conn) eqn:Hc; [|done].
  split; [|done]. apply streams_wf_conns; [done|]. intros k. by eapply job_insert.
Qed.

(** A connection whose job has no entry can end. *)
Lemma conn_end_wf w conn c :
  streams_wf w -> w_conns w !! conn = Some c -> w_streams w !! c_job c = None ->
  streams_wf (conn_end w conn).
Proof.
  intros [Hs Hn] Hc Hnone. split; simpl.
  - intros j i Hj. destruct (Hs j i Hj) as (? & c' & Hc' & <-). split; [done|].
    exists c'. split; [|done]. apply lookup_delete_Some. split; [|done]. intros ->. congruence.
  - intros k c' (_ & Hk)%lookup_delete_Some. eauto.
Qed.

Lemma streams_delete_wf w j : streams_wf w -> streams_wf (with_streams w (delete j (w_streams w))).
Proof.
  intros [Hs Hn]. split; [|done]. simpl. intros j' i (_ & Hj)%lookup_delete_Some. eauto.
Qed.

Definition account (w : World) : list Z := pending (w_streams w) ++ (w_fired w).*1.

Lemma get_stream_step w j t i r :
  streams_wf w -> orderly w (EGetStream j t i r) ->
  exists w', streamer_step w (EGetStream j t i r) = Ret w' /\ streams_wf w' /\
    account w' ≡ₚ account w ++ [r].
Proof.
  intros [Hs Hn] Ho. simpl in *. unfold streamer_get_stream, account.
  destruct (w_streams w !! j) as [info|] eqn:Hj.
  - rewrite bool_decide_eq_true_2 by auto. simpl. eexists. split; [done|]. split; simpl.
    + split; [|done]. intros j' i' Hj'. simpl in *.
      apply lookup_insert_Some in Hj' as [[<- <-]|[? ?]]; [|eauto].
      split; [apply insert_non_empty|]. by apply (Hs j info).
    + rewrite pending_replace, (pending_delete _ _ _ Hj). simpl.
      rewrite map_values_insert_new by auto. solve_Permutation.
  - eexists. split; [done|]. split; simpl.
    + split; simpl.
      * intros j' i' Hj'. apply lookup_insert_Some in Hj' as [[<- <-]|[? Hj']]; simpl.
        -- split; [apply insert_non_empty|]. rewrite lookup_insert_eq. eauto.
        -- destruct (Hs j' i' Hj') as (? & c & Hc & ?). split; [done|].
           exists c. split; [|done]. rewrite lookup_insert_ne; [done|].
           apply Hn in Hc. lia.
      * intros k c Hk. apply lookup_insert_Some in Hk as [[<- <-]|[? Hk]]; [lia|].
        apply Hn in Hk. lia.
    + rewrite pending_insert by done. simpl. unfold map_values at 1.
      rewrite map_to_list_singleton. simpl. solve_Permutation.
Qed.

Lemma end_response_step w conn t :
  streams_wf w -> orderly w (EEndResponse conn t) ->
  exists w', streamer_step w (EEndResponse conn t) = Ret w' /\ streams_wf w' /\
    account w' ≡ₚ account w.
Proof.
  intros Hw Ho. simpl in *. unfold conn_response.
  destruct (w_conns w !! conn) as [c|] eqn:Hc; [|by eexists].
  destruct (Ho c eq_refl) as (info & Hi & Hconn & r & Hr). unfold close_task_stream.
  rewrite Hi. simpl. rewrite Hr. simpl. eexists. split; [done|].
  assert (Hp : map_values (si_responses info) ≡ₚ r :: map_values (delete t (si_responses info)))
    by (symmetry; by apply map_values_delete).
  split.
  - destruct (decide (delete t (si_responses info) = ∅)) as [He|He];
      [by apply (streams_delete_wf w)|]. destruct Hw as [Hs Hn]. split; [|done]. simpl.
    intros j i Hj. apply lookup_insert_Some in Hj as [[<- <-]|[? ?]]; simpl; [|eauto].
    split; [done|]. by apply (Hs _ info).
  - unfold account. simpl. rewrite fmap_app. simpl. rewrite (pending_delete _ _ _ Hi).
    destruct (decide (delete t (si_responses info) = ∅)) as [He|He].
    + rewrite Hp, He. unfold map_values. rewrite map_to_list_empty. solve_Permutation.
    + rewrite pending_replace. simpl. rewrite Hp. solve_Permutation.
Qed.

Lemma failed_step w conn e :
  streams_wf w -> orderly w (EFailed conn e) ->
  exists w', streamer_step w (EFailed conn e) = Ret w' /\ streams_wf w' /\
    account w' ≡ₚ account w.
Proof.
  intros Hw Ho. simpl in *. unfold conn_failed, streamer_send_error.
  destruct (w_conns w !! conn) as [c|] eqn:Hc; [|by eexists].
  destruct (Ho c eq_refl) as (info & Hi & Hconn). rewrite Hi. simpl. eexists. split; [done|].
  split.
  - eapply (conn_end_wf _ _ c); simpl; [|done|apply lookup_delete_eq].
    by apply (streams_delete_wf w).
  - unfold account. simpl. rewrite fmap_app, <- list_fmap_compose. simpl.
    rewrite (pending_delete _ _ _ Hi).
    replace ((fst ∘ (fun r => (r, Err e : Response))) <$> map_values (si_responses info))
      with (map_values (si_responses info)) by (symmetry; apply list_fmap_id).
    solve_Permutation.
Qed.

Lemma finished_step w conn :
  streams_wf w -> (forall c, w_conns w !! conn = Some c -> w_streams w !! c_job c = None) ->
  streams_wf (conn_finished w conn) /\ account (conn_finished w conn) = account w.
Proof.
  intros Hw Ho. unfold conn_finished. destruct (w_conns w !! conn) as [c|] eqn:Hc; [|done].
  specialize (Ho c eq_refl). split.
  - eapply (conn_end_wf _ _ c); simpl; [|done|apply lookup_delete_eq].
    by apply (streams_delete_wf w).
  - unfold account. simpl. by rewrite delete_id.
Qed.

(** An orderly step never panics, keeps the streams consistent, and loses no
    response. *)
Lemma orderly_step w e :
  streams_wf w -> orderly w e ->
  exists w', streamer_step w e = Ret w' /\ streams_wf w' /\
    account w' ≡ₚ account w ++ requested [e].
Proof.
  intros Hw Ho.
  assert (Hsame : forall w', streams_wf w' -> w_streams w' = w_streams w -> w_fired w' = w_fired w ->
    account w' ≡ₚ account w ++ []) by (intros w' _ H1 H2; by rewrite app_nil_r; unfold account; rewrite H1, H2).
  destruct e as [j t i r|s|s ch d|s|s|conn|conn t|conn err|conn|conn|]; csimpl.
  - by apply get_stream_step.
  - destruct (queue_send_wf w (ss_conn s) (MStart (ss_task s) (ss_instance s))
      "Sending streamer message failed" Hw) as (? & ? & ?). eexists. split; [done|]. auto.
  - destruct (queue_send_wf w (ss_conn s) (MData (ss_task s) (ss_instance s) ch d)
      "Sending streamer message failed" Hw) as (? & ? & ?). eexists. split; [done|]. auto.
  - destruct (queue_send_wf w (ss_conn s) (MEnd (ss_task s) (ss_instance s))
      "Sending close message failed" Hw) as (? & ? & ?). eexists. split; [done|]. auto.
  - eexists. split; [done|]. split; [exact Hw|]. by apply Hsame.
  - eexists. split; [done|]. unfold conn_forward.
    destruct (w_conns w !! conn) as [c|] eqn:Hc; [|auto].
    destruct (c_queue c); [by auto|]. assert (streams_wf (with_conns w (<[conn := {|
      c_job := c_job c; c_queue := l; c_sent := c_sent c ++ [f] |}]> (w_conns w)))).
    { apply streams_wf_conns; [done|]. intros k. by eapply job_insert. }
    auto.
  - rewrite app_nil_r. by apply end_response_step.
  - rewrite app_nil_r. by apply (failed_step w conn err).
  - eexists. split; [done|]. destruct (finished_step w conn Hw Ho) as [? Heq].
    by rewrite app_nil_r, Heq.
  - destruct (finished_step w conn Hw Ho) as [? Heq]. rewrite app_nil_r.
    destruct (w_conns w !! conn); [|by eexists].
    destruct (_ && _); eexists; (split; [done|]); [by rewrite Heq|done].
  - eexists. split; [done|]. rewrite clean_streams_wf by done. split; [exact Hw|].
    by apply Hsame.
Qed.

(** ** Properties *)


(** The worker after a task of job [j] streamed and its end was confirmed, while
    its sender [s] is still held. *)
Definition confirmed_run (j r : Z) (s : StreamSender) : list StreamerEvent :=
  [EGetStream j (ss_task s) (ss_instance s) r; EStart s; EClose s; EForward 0; EForward 0;
   EEndResponse 0 (ss_task s)].

#[local] Arguments foldM : simpl never.

Ltac simpl_world :=
  simpl; repeat (first [rewrite lookup_empty | rewrite insert_empty | rewrite lookup_singleton_eq
    | rewrite insert_singleton_eq]; simpl).

Definition confirmed_world (j r : Z) (s : StreamSender) : World :=
  {| w_streams := ∅;
     w_conns := {[0 := {| c_job := j; c_queue := [];
       c_sent := [MStart (ss_task s) (ss_instance s); MEnd (ss_task s) (ss_instance s)] |}]};
     w_next := 1; w_senders := [s]; w_fired := [(r, Ok tt)] |}.

Lemma confirmed_run_world j r s :
  ss_conn s = 0 -> foldM streamer_step streamer_start (confirmed_run j r s)
    = Ret (confirmed_world j r s).
Proof.
  destruct s as [conn t i]. cbn [ss_conn]. intros ->. unfold confirmed_run, streamer_start.
  cbn [ss_task ss_instance].
  rewrite foldM_cons. cbn [streamer_step]. unfold streamer_get_stream. simpl_world.
  rewrite foldM_cons. cbn [streamer_step]. unfold send_stream_start, queue_send. simpl_world.
  rewrite foldM_cons. cbn [streamer_step]. unfold close, queue_send. simpl_world.
  rewrite foldM_cons. cbn [streamer_step]. unfold conn_forward. simpl_world.
  rewrite foldM_cons. cbn [streamer_step]. unfold conn_forward. simpl_world.
  rewrite foldM_cons. cbn [streamer_step]. unfold conn_response, close_task_stream. simpl_world.
  rewrite delete_singleton_eq, decide_True by done. by rewrite delete_singleton_eq.
Qed.

(** C38: the end of a connection is not checked against the streams of its job:
    after the last stream of a job is confirmed, a failure of its connection
    aborts the worker; and when a new stream of the job started meanwhile, the
    orderly end of the old connection drops the response of the new stream
    without firing it, and the confirmation of the new stream then aborts the
    worker. *)
Theorem late_connection_end j t i r t2 i2 r2 error :
  let s := {| ss_conn := 0; ss_task := t; ss_instance := i |} in
  foldM streamer_step streamer_start (confirmed_run j r s ++ [EFailed 0 error]) = Panic UnwrapFailed /\
  (exists w, foldM streamer_step streamer_start
     (confirmed_run j r s ++ [EDropSender s; EGetStream j t2 i2 r2; EQueueClosed 0]) = Ret w /\
     w_streams w = ∅ /\ w_fired w = [(r, Ok tt)] /\
     streamer_step w (EEndResponse 1 t2) = Panic UnwrapFailed).
Proof.
  intros s. assert (Hrun := confirmed_run_world j r s eq_refl). rewrite !foldM_app, Hrun. split.
  - simpl. rewrite foldM_cons. cbn [streamer_step]. unfold conn_failed. simpl_world.
    unfold streamer_send_error. by simpl_world.
  - simpl. rewrite foldM_cons. cbn [streamer_step]. simpl. rewrite decide_True by done.
    rewrite foldM_cons. cbn [streamer_step]. unfold streamer_get_stream. simpl_world.
    rewrite foldM_cons. cbn [streamer_step]. unfold sender_left, conn_finished. simpl.
    rewrite lookup_insert_ne, lookup_singleton_eq by done. simpl.
    unfold map_values. rewrite map_to_list_singleton. simpl.
    rewrite delete_singleton_eq. eexists. split_and!; [done..|].
    unfold conn_response. simpl. rewrite lookup_delete_ne, lookup_insert_eq by done. simpl.
    unfold close_task_stream. by simpl_world.
Qed.
