(* ===== verification/LogFile.v ===== *)
(** * Reading log files: [src/stream/reader/logfile.rs]

    The reader of the log files that the stream server writes: the index, the
    summary, and the commands [cat] and [show].  A file is its bytes and a
    position; reading past the end is the only error of a read. *)

From S2P Require Import Prelude ArrayDef Messages StreamServer.

(** ** Files *)

(** [BufReader<File>] *)
Record File := {
  content : list Z;
  pos : Z
}.

Definition at_pos (f : File) (p : Z) : File := {| content := content f; pos := p |}.

(** The bytes of a file from [p], [n] of them *)
Definition slice (bytes : list Z) (p n : Z) : list Z :=
  take (Z.to_nat n) (drop (Z.to_nat p) bytes).

(** [read_exact] *)
Definition read_exact (f : File) (n : Z) : result string (list Z * File) :=
  if pos f + n <=? Z.of_nat (length (content f))
  then Ok (slice (content f) (pos f) n, at_pos f (pos f + n))
  else Err "failed to fill whole buffer".

(** [read_u8]: [None] at the end of the file *)
Definition read_u8 (f : File) : option (Z * File) :=
  match content f !! Z.to_nat (pos f) with
  | Some b => Some (b, at_pos f (pos f + 1))
  | None => None
  end.

(** [seek_relative] *)
Definition seek_relative (f : File) (n : Z) : result string File :=
  if pos f + n <? 0 then Err "invalid seek to a negative or overflowing position"
  else Ok (at_pos f (pos f + n)).

(** ** Data *)

(** [struct ChunkInfo] *)
Record ChunkInfo := {
  ck_position : Z;
  ck_size : Z
}.

(** [struct InstanceInfo]; the array of two channels is a pair *)
Record InstanceInfo := {
  instance_id : Z;
  channels : list ChunkInfo * list ChunkInfo;
  finished : bool
}.

(** [channels[id]] for an id below 2 *)
Definition channel (info : InstanceInfo) (id : Z) : list ChunkInfo :=
  if id =? 0 then (channels info).1 else (channels info).2.

(** [struct TaskInfo] *)
Abbreviation TaskInfo := (list InstanceInfo).

(** [TaskInfo::last_instance] *)
Definition last_instance (t : TaskInfo) : outcome InstanceInfo := unwrap (last t).

(** [TaskInfo::superseded]: the length of an empty list would underflow *)
Definition superseded (t : TaskInfo) : outcome (list InstanceInfo) :=
  match t with
  | [] => Panic ArithmeticOverflow
  | _ => Ret (take (length t - 1) t)
  end.

(** [TaskInfo::instance] *)
Definition instance (t : TaskInfo) (id : Z) : option InstanceInfo :=
  List.find (fun info => instance_id info =? id) t.

(** A write through the reference of [TaskInfo::instance_mut], [None] when the
    instance does not exist *)
Fixpoint instance_mut (t : TaskInfo) (id : Z) (f : InstanceInfo -> InstanceInfo) : option TaskInfo :=
  match t with
  | [] => None
  | info :: rest =>
      if instance_id info =? id then Some (f info :: rest)
      else (fun rest' => info :: rest') <$> instance_mut rest id f
  end.

(** [binary_search_by] on a slice sorted by instance id: the position of the id
    ([Ok]) or the position where it belongs ([Err]) *)
Definition binary_search (t : TaskInfo) (id : Z) : result nat nat :=
  let p := length (List.filter (fun info => instance_id info <? id) t) in
  match t !! p with
  | Some info => if instance_id info =? id then Ok p else Err p
  | None => Err p
  end.

(** [TaskInfo::new_instance] *)
Definition new_instance (t : TaskInfo) (id : Z) : result string TaskInfo :=
  match binary_search t id with
  | Ok _ => Err "Instance already exists"
  | Err p =>
      Ok (take p t ++ {| instance_id := id; channels := ([], []); finished := false |} :: drop p t)
  end.

(** [enum Block] *)
Inductive Block :=
| StreamStart (task_id instance_id : Z)
| StreamChunk (task_id instance_id channel_id size : Z)
| StreamEnd (task_id instance_id : Z).

(** The index, a [BTreeMap] *)
Abbreviation Index := (gmap Z TaskInfo).

(** The keys of a [BTreeMap], in order *)
Definition btree_keys {A} (m : gmap Z A) : list Z := merge_sort Z.le (elements (dom m)).

(** [struct LogFile] *)
Record LogFile := {
  lf_file : File;
  lf_index : Index;
  lf_start_pos : Z
}.

(** ** Reading *)

Section reader.
Context `{ByteOrder}.

Definition read_u32 (f : File) : result string (Z * File) :=
  '(b, f) ← read_exact f 4; Ok (get_u32 b, f).

Definition read_u64 (f : File) : result string (Z * File) :=
  '(b, f) ← read_exact f 8; Ok (get_u64 b, f).

(** [LogFile::check_header] *)
Definition check_header (f : File) : result string File :=
  '(header, f) ← read_exact f 6;
  if bool_decide (header <> HQ_LOG_HEADER) then Err "Invalid file format"
  else
    '(version, f) ← read_u32 f;
    if negb (version =? HQ_LOG_VERSION) then
      Err ("Invalid version log file version: " ++ to_string version)%string
    else
      '(_, f) ← read_u64 f;
      '(_, f) ← read_u64 f;
      Ok f.

(** [LogFile::read_block] *)
Definition read_block (f : File) : result string (option Block * File) :=
  match read_u8 f with
  | None => Ok (None, f)
  | Some (b, f) =>
      if b =? BLOCK_STREAM_START then
        '(task_id, f) ← read_u32 f;
        '(instance_id, f) ← read_u32 f;
        Ok (Some (StreamStart task_id instance_id), f)
      else if b =? BLOCK_STREAM_CHUNK then
        '(task_id, f) ← read_u32 f;
        '(instance_id, f) ← read_u32 f;
        '(channel_id, f) ← read_u32 f;
        '(size, f) ← read_u32 f;
        Ok (Some (StreamChunk task_id instance_id channel_id size), f)
      else if b =? BLOCK_STREAM_END then
        '(task_id, f) ← read_u32 f;
        '(instance_id, f) ← read_u32 f;
        Ok (Some (StreamEnd task_id instance_id), f)
      else Err ("Invalid  entry type: " ++ to_string b)%string
  end.

(** [index.get_mut(&task_id).and_then(|info| info.instance_mut(..))] *)
Definition update_instance (index : Index) (task_id instance_id : Z)
    (f : InstanceInfo -> InstanceInfo) : option Index :=
  info ← index !! task_id;
  info' ← instance_mut info instance_id f;
  Some (<[task_id := info']> index).

Definition push_chunk (channel_id : Z) (c : ChunkInfo) (info : InstanceInfo) : InstanceInfo :=
  {| instance_id := instance_id info;
     channels := if channel_id =? 0 then ((channels info).1 ++ [c], (channels info).2)
                 else ((channels info).1, (channels info).2 ++ [c]);
     finished := finished info |}.

Definition set_finished (info : InstanceInfo) : InstanceInfo :=
  {| instance_id := instance_id info; channels := channels info; finished := true |}.

(** The body of the loop of [make_index] for a block that ends at [position] *)
Definition index_block (index : Index) (b : Block) (position : Z) : result string Index :=
  match b with
  | StreamStart task_id instance_id =>
      let task_info := default [] (index !! task_id) in
      task_info ← new_instance task_info instance_id;
      Ok (<[task_id := task_info]> index)
  | StreamChunk task_id instance_id channel_id size =>
      if 2 <=? channel_id then Err "Invalid channel id"
      else
        match update_instance index task_id instance_id
                (push_chunk channel_id {| ck_position := position; ck_size := size |}) with
        | Some index => Ok index
        | None => Err "Data chunk for invalid task"
        end
  | StreamEnd task_id instance_id =>
      match update_instance index task_id instance_id set_finished with
      | Some index => Ok index
      | None => Err "Termination of an invalid task"
      end
  end.

(** The number of bytes of data after a block header *)
Definition block_data (b : Block) : Z :=
  match b with StreamChunk _ _ _ size => size | _ => 0 end.

(** The loop of [LogFile::make_index]; [None]: out of fuel *)
Fixpoint make_index_loop (fuel : nat) (f : File) (index : Index) : option (result string Index) :=
  match fuel with
  | O => None
  | S fuel =>
      match read_block f with
      | Err e => Some (Err e)
      | Ok (None, _) => Some (Ok index)
      | Ok (Some b, f) =>
          match index_block index b (pos f) with
          | Err e => Some (Err e)
          | Ok index =>
              match seek_relative f (block_data b) with
              | Err e => Some (Err e)
              | Ok f => make_index_loop fuel f index
              end
          end
      end
  end.

(** [LogFile::make_index]: every block is at least one byte long *)
Definition make_index (f : File) : option (result string Index) :=
  make_index_loop (S (length (content f))) f ∅.

(** [LogFile::open] on the bytes of a file *)
Definition LogFile_open (bytes : list Z) : option (result string LogFile) :=
  match check_header {| content := bytes; pos := 0 |} with
  | Err e => Some (Err e)
  | Ok f =>
      r ← make_index f;
      Some (index ← r; Ok {| lf_file := f; lf_index := index; lf_start_pos := pos f |})
  end.

(** ** Commands *)

(** [enum Channel] ([src/client/commands/log.rs]) and its id *)
Inductive Channel := Stdout | Stderr.

Definition channel_id (c : Channel) : Z := match c with Stdout => 0 | Stderr => 1 end.

(** [struct CatOpts] *)
Record CatOpts := {
  co_channel : Channel;
  co_task : option IntArray;
  co_allow_unfinished : bool
}.

(** [struct Summary] *)
Record Summary := {
  su_n_tasks : Z;
  su_n_streams : Z;
  su_n_opened : Z;
  su_stdout_size : Z;
  su_stderr_size : Z;
  su_n_superseded : Z;
  su_superseded_stdout_size : Z;
  su_superseded_stderr_size : Z
}.

Section commands.
Context `{Profile}.

(** [channels[id].iter().map(|c| c.size as u64).sum()] *)
Definition channel_size (info : InstanceInfo) (id : Z) : outcome Z :=
  u64_sum (ck_size <$> channel info id).

(** The loop over the superseded instances of a task *)
Definition add_superseded (acc : Z * Z) (info : InstanceInfo) : outcome (Z * Z) :=
  o ← channel_size info 0; out ← u64_add acc.1 o;
  e ← channel_size info 1; err ← u64_add acc.2 e;
  Ret (out, err).

(** The body of the loop of [LogFile::summary] *)
Definition summary_task (acc : Z * Z * (Z * Z)) (t : TaskInfo) : outcome (Z * Z * (Z * Z)) :=
  info ← last_instance t;
  o ← channel_size info 0; out ← u64_add acc.1.1 o;
  e ← channel_size info 1; err ← u64_add acc.1.2 e;
  old ← superseded t;
  sup ← foldM add_superseded acc.2 old;
  Ret (out, err, sup).

(** [LogFile::summary] *)
Definition summary (lf : LogFile) : outcome Summary :=
  let values := omap (fun k => lf_index lf !! k) (btree_keys (lf_index lf)) in
  opened ← mapM (fun t => info ← last_instance t; Ret (if finished info then 0 else 1)) values;
  n_opened ← u64_sum opened;
  n_streams ← u64_sum ((fun t : TaskInfo => Z.of_nat (length t)) <$> values);
  sizes ← foldM summary_task (0, 0, (0, 0)) values;
  n_superseded ← u64_sub n_streams (Z.of_nat (size (lf_index lf)));
  Ret {| su_n_tasks := as_u32 (Z.of_nat (size (lf_index lf))); su_n_streams := n_streams;
         su_n_opened := n_opened; su_n_superseded := n_superseded;
         su_stdout_size := sizes.1.1; su_stderr_size := sizes.1.2;
         su_superseded_stdout_size := sizes.2.1; su_superseded_stderr_size := sizes.2.2 |}.

(** The closure [print_instance] of [LogFile::cat]: the file, the position
    after the last chunk, and the output *)
Fixpoint print_instance (f : File) (last_pos : Z) (chunks : list ChunkInfo) (out : list Z)
    : result string (File * Z * list Z) :=
  match chunks with
  | [] => Ok (f, last_pos, out)
  | chunk :: rest =>
      f ← seek_relative f (ck_position chunk - last_pos);
      '(buffer, f) ← read_exact f (ck_size chunk);
      print_instance f (ck_position chunk + ck_size chunk) rest (out ++ buffer)
  end.

(** The loop over the selected instances of [LogFile::cat] *)
Fixpoint print_instances (f : File) (last_pos : Z) (id : Z) (infos : list (Z * InstanceInfo))
    (out : list Z) : result string (list Z) :=
  match infos with
  | [] => Ok out
  | (_, info) :: rest =>
      '(f, last_pos, out) ← print_instance f last_pos (channel info id) out;
      print_instances f last_pos id rest out
  end.

(** The selection of given tasks *)
Fixpoint select_tasks (index : Index) (ids : list Z) : outcome (result string (list (Z * InstanceInfo))) :=
  match ids with
  | [] => Ret (Ok [])
  | id :: rest =>
      match index !! id with
      | Some t =>
          info ← last_instance t;
          r ← select_tasks index rest;
          Ret (infos ← r; Ok ((id, info) :: infos))
      | None => Ret (Err ("Task " ++ to_string id ++ " not found")%string)
      end
  end.

Definition task_infos (index : Index) (task : option IntArray)
    : outcome (result string (list (Z * InstanceInfo))) :=
  match task with
  | Some array => ids ← IntArray_iter array; select_tasks index ids
  | None => select_tasks index (btree_keys index)
  end.

(** The check for unfinished streams *)
Definition first_unfinished (infos : list (Z * InstanceInfo)) : option Z :=
  fst <$> List.find (fun kv => negb (finished kv.2)) infos.

(** [LogFile::cat]: the bytes printed *)
Definition cat (lf : LogFile) (opts : CatOpts) : outcome (result string (list Z)) :=
  r ← task_infos (lf_index lf) (co_task opts);
  Ret (infos ← r;
       match (if co_allow_unfinished opts then None else first_unfinished infos) with
       | Some task_id => Err ("Stream for task " ++ to_string task_id ++ " is not finished")%string
       | None => print_instances (at_pos (lf_file lf) (lf_start_pos lf)) (lf_start_pos lf)
                   (channel_id (co_channel opts)) infos []
       end).

(** [struct ShowOpts] *)
Record ShowOpts := {
  so_channel : option Channel;
  so_show_empty : bool
}.

(** A line of [LogFile::show]: the number of its color, its header, its text *)
Record ShowLine := {
  sl_color : Z;
  sl_header : string;
  sl_text : list Z
}.

(** [{:0width$}] *)
Fixpoint pad_zero (n : nat) (s : string) : string :=
  match n with
  | O => s
  | S n => String "0" (pad_zero n s)
  end.

Definition padded_id (width : nat) (task_id : Z) : string :=
  let s := to_string task_id in pad_zero (width - String.length s) s.

(** The line of a chunk *)
Definition chunk_line (width : nat) (task_id channel_id : Z) (buffer : list Z) : ShowLine :=
  {| sl_color := task_id mod 6;
     sl_header := (padded_id width task_id ++ ":" ++ to_string channel_id ++ ">")%string;
     sl_text := if bool_decide (last buffer = Some 10) then buffer else buffer ++ [10] |}.

(** The line of the end of a stream *)
Definition closed_line (width : nat) (task_id : Z) : ShowLine :=
  {| sl_color := task_id mod 6;
     sl_header := (padded_id width task_id ++ ": > stream closed")%string;
     sl_text := [] |}.

Definition channel_selected (sel : option Z) (channel_id : Z) : bool :=
  match sel with Some id => channel_id =? id | None => true end.

(** The loop of [LogFile::show]; [None]: out of fuel *)
Fixpoint show_loop (fuel : nat) (opts : ShowOpts) (width : nat) (active : gmap Z Z) (f : File)
    (has_content : gset Z) (out : list ShowLine) : option (outcome (result string (list ShowLine))) :=
  match fuel with
  | O => None
  | S fuel =>
      match read_block f with
      | Err e => Some (Ret (Err e))
      | Ok (None, _) => Some (Ret (Ok out))
      | Ok (Some (StreamStart _ _), f) => show_loop fuel opts width active f has_content out
      | Ok (Some (StreamChunk task_id instance_id channel size), f) =>
          let skip :=
            match seek_relative f size with
            | Err e => Some (Ret (Err e))
            | Ok f => show_loop fuel opts width active f has_content out
            end in
          if channel_selected (channel_id <$> so_channel opts) channel then
            match active !! task_id with
            | None => Some (Panic UnwrapFailed)
            | Some a =>
                if a =? instance_id then
                  match read_exact f size with
                  | Err e => Some (Ret (Err e))
                  | Ok (buffer, f) =>
                      show_loop fuel opts width active f ({[task_id]} ∪ has_content)
                        (out ++ [chunk_line width task_id channel buffer])
                  end
                else skip
            end
          else skip
      | Ok (Some (StreamEnd task_id instance_id), f) =>
          match active !! task_id with
          | None => Some (Panic UnwrapFailed)
          | Some a =>
              if (a =? instance_id) && (so_show_empty opts || bool_decide (task_id ∈ has_content)) then
                show_loop fuel opts width active f has_content (out ++ [closed_line width task_id])
              else show_loop fuel opts width active f has_content out
          end
      end
  end.

(** [active_instances] *)
Definition active_instances (index : Index) : outcome (gmap Z Z) :=
  rows ← mapM (fun k => t ← unwrap (index !! k); info ← last_instance t; Ret (k, instance_id info))
           (btree_keys index);
  Ret (collect_map rows).

(** [LogFile::show]: the lines printed *)
Definition show (lf : LogFile) (opts : ShowOpts) : option (outcome (result string (list ShowLine))) :=
  match last (btree_keys (lf_index lf)) with
  | None => Some (Ret (Ok []))
  | Some max_id =>
      match active_instances (lf_index lf) with
      | Panic w => Some (Panic w)
      | Ret active =>
          show_loop (S (length (content (lf_file lf)))) opts (String.length (to_string max_id)) active
            (at_pos (lf_file lf) (lf_start_pos lf)) ∅ []
      end
  end.

End commands.

End reader.

(** ** Specification: the log as a trace of messages *)

(** The header of the block of a message. *)
Definition block_of (m : FromStreamerMessage) : Block :=
  match m with
  | MStart t i => StreamStart t i
  | MData t i c data => StreamChunk t i c (Z.of_nat (length data))
  | MEnd t i => StreamEnd t i
  end.

(** The chunks of a channel of a stream, in order. *)
Definition stream_chunks (ms : list FromStreamerMessage) (t i c : Z) : list (list Z) :=
  omap (fun m => match m with
                 | MData t' i' c' data => if decide ((t', i', c') = (t, i, c)) then Some data else None
                 | _ => None
                 end) ms.

(** The numeric fields of a message are in range. *)
Definition message_wf (m : FromStreamerMessage) : Prop :=
  match m with
  | MStart t i | MEnd t i => is_u32 t /\ is_u32 i
  | MData t i c data => is_u32 t /\ is_u32 i /\ 0 <= c < 2 /\ Z.of_nat (length data) < 2 ^ 32
  end.

(** The tasks with a stream. *)
Definition started_tasks (ms : list FromStreamerMessage) : gset Z :=
  list_to_set (omap (fun m => match m with MStart t _ => Some t | _ => None end) ms).

(** The newest instance of a task. *)
Definition last_started (ms : list FromStreamerMessage) (t : Z) : Z :=
  foldr (fun m acc => match m with
                      | MStart t' i => if t' =? t then Z.max i acc else acc
                      | _ => acc
                      end) (-1) ms.

(** The newest stream of task [t] was ended. *)
Definition last_ended (ms : list FromStreamerMessage) (t : Z) : bool :=
  bool_decide (MEnd t (last_started ms t) ∈ ms).

(** The bytes of a channel of the newest stream of task [t]. *)
Definition task_output (ms : list FromStreamerMessage) (c t : Z) : list Z :=
  concat (stream_chunks ms t (last_started ms t) c).

(** The lines that [show] prints for a trace, when [newest] gives the newest
    instance of a task: the chunks of the newest instances on the selected
    channels, and the ends of their streams, if they had content before. *)
Fixpoint show_trace (opts : ShowOpts) (width : nat) (newest : Z -> Z) (has_content : gset Z)
    (ms : list FromStreamerMessage) : list ShowLine :=
  match ms with
  | [] => []
  | MStart _ _ :: rest => show_trace opts width newest has_content rest
  | MData t i c data :: rest =>
      if channel_selected (channel_id <$> so_channel opts) c && (newest t =? i) then
        chunk_line width t c data :: show_trace opts width newest ({[t]} ∪ has_content) rest
      else show_trace opts width newest has_content rest
  | MEnd t i :: rest =>
      if (newest t =? i) && (so_show_empty opts || bool_decide (t ∈ has_content)) then
        closed_line width t :: show_trace opts width newest has_content rest
      else show_trace opts width newest has_content rest
  end.

Section format.
Context `{ByteOrder}.

(** The file that a writer without errors produces. *)
Definition log_bytes (ms : list FromStreamerMessage) : list Z :=
  log_header ++ concat (encode_message <$> ms).

(** The index of a trace whose first block starts at [p]. *)
Fixpoint index_trace (index : Index) (p : Z) (ms : list FromStreamerMessage) : result string Index :=
  match ms with
  | [] => Ok index
  | m :: rest =>
      index ← index_block index (block_of m) (p + Z.of_nat (length (block_buffer m)));
      index_trace index (p + Z.of_nat (length (encode_message m))) rest
  end.

(** ** Lemmas: reading what was written *)

Lemma read_exact_app pre bytes post :
  read_exact {| content := pre ++ bytes ++ post; pos := Z.of_nat (length pre) |} (Z.of_nat (length bytes))
  = Ok (bytes, {| content := pre ++ bytes ++ post; pos := Z.of_nat (length pre) + Z.of_nat (length bytes) |}).
Proof.
  unfold read_exact, slice. simpl. rewrite !length_app.
  destruct (Z.leb_spec (Z.of_nat (length pre) + Z.of_nat (length bytes))
    (Z.of_nat (length pre + (length bytes + length post)))); [|lia].
  rewrite !Nat2Z.id, drop_app_length, take_app_length. done.
Qed.

Lemma read_exact_at bytes p n data :
  0 <= p -> Z.of_nat (length data) = n -> slice bytes p n = data ->
  p + n <= Z.of_nat (length bytes) ->
  read_exact {| content := bytes; pos := p |} n = Ok (data, {| content := bytes; pos := p + n |}).
Proof.
  intros Hp Hn Hs Hle. unfold read_exact. simpl.
  destruct (Z.leb_spec (p + n) (Z.of_nat (length bytes))); [|lia]. by rewrite Hs.
Qed.

Lemma read_u32_app pre x post p :
  is_u32 x -> p = Z.of_nat (length pre) ->
  read_u32 {| content := pre ++ put_u32 x ++ post; pos := p |}
  = Ok (x, {| content := pre ++ put_u32 x ++ post; pos := p + 4 |}).
Proof.
  intros Hx ->. unfold read_u32.
  pose proof (read_exact_app pre (put_u32 x) post) as Hr. rewrite put_u32_length in Hr.
  change (Z.of_nat 4) with 4 in Hr. rewrite Hr. simpl. by rewrite get_put_u32.
Qed.

Lemma read_u64_app pre x post p :
  is_u64 x -> p = Z.of_nat (length pre) ->
  read_u64 {| content := pre ++ put_u64 x ++ post; pos := p |}
  = Ok (x, {| content := pre ++ put_u64 x ++ post; pos := p + 8 |}).
Proof.
  intros Hx ->. unfold read_u64.
  pose proof (read_exact_app pre (put_u64 x) post) as Hr. rewrite put_u64_length in Hr.
  change (Z.of_nat 8) with 8 in Hr. rewrite Hr. simpl. by rewrite get_put_u64.
Qed.

Lemma read_u8_app pre b post :
  read_u8 {| content := pre ++ b :: post; pos := Z.of_nat (length pre) |}
  = Some (b, {| content := pre ++ b :: post; pos := Z.of_nat (length pre) + 1 |}).
Proof. unfold read_u8. simpl. by rewrite Nat2Z.id, lookup_app_r, Nat.sub_diag. Qed.

Lemma length_block_buffer m :
  Z.of_nat (length (block_buffer m)) = match m with MData _ _ _ _ => 17 | _ => 9 end.
Proof. destruct m; simpl; rewrite !length_app, !put_u32_length; lia. Qed.

Lemma read_two pre tag x y post :
  is_u32 x -> is_u32 y ->
  let f := pre ++ (tag :: put_u32 x ++ put_u32 y) ++ post in
  read_u32 {| content := f; pos := Z.of_nat (length pre) + 1 |}
    = Ok (x, {| content := f; pos := Z.of_nat (length pre) + 5 |}) /\
  read_u32 {| content := f; pos := Z.of_nat (length pre) + 5 |}
    = Ok (y, {| content := f; pos := Z.of_nat (length pre) + 9 |}).
Proof.
  intros Hx Hy f. split.
  - replace f with ((pre ++ [tag]) ++ put_u32 x ++ put_u32 y ++ post)
      by (unfold f; rewrite <- ?app_assoc; simpl; by rewrite <- ?app_assoc).
    rewrite read_u32_app; [do 3 f_equal; lia|done|rewrite length_app; simpl; lia].
  - replace f with ((pre ++ [tag] ++ put_u32 x) ++ put_u32 y ++ post)
      by (unfold f; rewrite <- ?app_assoc; simpl; by rewrite <- ?app_assoc).
    rewrite read_u32_app; [do 3 f_equal; lia|done|].
    rewrite !length_app, put_u32_length. simpl. lia.
Qed.

Lemma read_four pre tag x y z w post :
  is_u32 x -> is_u32 y -> is_u32 z -> is_u32 w ->
  let f := pre ++ (tag :: put_u32 x ++ put_u32 y ++ put_u32 z ++ put_u32 w) ++ post in
  read_u32 {| content := f; pos := Z.of_nat (length pre) + 1 |}
    = Ok (x, {| content := f; pos := Z.of_nat (length pre) + 5 |}) /\
  read_u32 {| content := f; pos := Z.of_nat (length pre) + 5 |}
    = Ok (y, {| content := f; pos := Z.of_nat (length pre) + 9 |}) /\
  read_u32 {| content := f; pos := Z.of_nat (length pre) + 9 |}
    = Ok (z, {| content := f; pos := Z.of_nat (length pre) + 13 |}) /\
  read_u32 {| content := f; pos := Z.of_nat (length pre) + 13 |}
    = Ok (w, {| content := f; pos := Z.of_nat (length pre) + 17 |}).
Proof.
  intros Hx Hy Hz Hw f.
  assert (Hf : f = pre ++ (tag :: put_u32 x ++ put_u32 y) ++ (put_u32 z ++ put_u32 w ++ post))
    by (unfold f; rewrite <- ?app_assoc; simpl; by rewrite <- ?app_assoc).
  pose proof (read_two pre tag x y (put_u32 z ++ put_u32 w ++ post) Hx Hy) as Htwo.
  cbv zeta in Htwo. rewrite <- Hf in Htwo. destruct Htwo as [H1 H2].
  split; [done|]. split; [done|]. split.
  - replace f with ((pre ++ tag :: put_u32 x ++ put_u32 y) ++ put_u32 z ++ put_u32 w ++ post)
      by (unfold f; rewrite <- ?app_assoc; simpl; by rewrite <- ?app_assoc).
    rewrite read_u32_app; [do 3 f_equal; lia|done|].
    rewrite length_app. simpl. rewrite length_app, !put_u32_length. lia.
  - replace f with ((pre ++ tag :: put_u32 x ++ put_u32 y ++ put_u32 z) ++ put_u32 w ++ post)
      by (unfold f; rewrite <- ?app_assoc; simpl; by rewrite <- ?app_assoc).
    rewrite read_u32_app; [do 3 f_equal; lia|done|].
    rewrite length_app. simpl. rewrite !length_app, !put_u32_length. lia.
Qed.

Lemma read_block_encode pre m post :
  message_wf m ->
  read_block {| content := pre ++ encode_message m ++ post; pos := Z.of_nat (length pre) |}
  = Ok (Some (block_of m), {| content := pre ++ encode_message m ++ post;
          pos := Z.of_nat (length pre) + Z.of_nat (length (block_buffer m)) |}).
Proof.
  intros Hwf. rewrite length_block_buffer. unfold read_block, encode_message.
  destruct m as [t i|t i c data|t i]; cbn [block_buffer]; rewrite <- ?app_assoc.
  - pose proof (read_u8_app pre BLOCK_STREAM_START ((put_u32 t ++ put_u32 i) ++ [] ++ post)) as H8.
    destruct Hwf as [Ht Hi].
    destruct (read_two pre BLOCK_STREAM_START t i ([] ++ post) Ht Hi) as [H1 H2].
    simpl in *. rewrite H8. simpl. rewrite H1. simpl. rewrite H2. done.
  - destruct Hwf as (Ht & Hi & Hc & Hd). set (n := as_u32 (Z.of_nat (length data))).
    assert (Hn : n = Z.of_nat (length data)) by (apply as_u32_id; unfold is_u32; lia).
    pose proof (read_u8_app pre BLOCK_STREAM_CHUNK
      ((put_u32 t ++ put_u32 i ++ put_u32 c ++ put_u32 n) ++ data ++ post)) as H8.
    destruct (read_four pre BLOCK_STREAM_CHUNK t i c n (data ++ post) Ht Hi)
      as (H1 & H2 & H3 & H4); [unfold is_u32; lia..|].
    simpl in *. rewrite H8. simpl. rewrite H1. simpl. rewrite H2. simpl. rewrite H3. simpl.
    rewrite H4. simpl. by rewrite Hn.
  - pose proof (read_u8_app pre BLOCK_STREAM_END ((put_u32 t ++ put_u32 i) ++ [] ++ post)) as H8.
    destruct Hwf as [Ht Hi].
    destruct (read_two pre BLOCK_STREAM_END t i ([] ++ post) Ht Hi) as [H1 H2].
    simpl in *. rewrite H8. simpl. rewrite H1. simpl. rewrite H2. done.
Qed.

Lemma check_header_ok rest :
  check_header {| content := log_header ++ rest; pos := 0 |}
  = Ok {| content := log_header ++ rest; pos := Z.of_nat (length log_header) |}.
Proof.
  unfold check_header, log_header. rewrite <- !app_assoc.
  pose proof (read_exact_app [] HQ_LOG_HEADER
    (put_u32 HQ_LOG_VERSION ++ put_u64 0 ++ put_u64 0 ++ rest)) as H1.
  change (Z.of_nat (length [])) with 0 in H1. change (Z.of_nat (length HQ_LOG_HEADER)) with 6 in H1.
  change ([] ++ ?x) with x in H1. rewrite H1. cbn [mbind result_bind].
  rewrite bool_decide_false by (intros Hne; by apply Hne).
  rewrite (read_u32_app HQ_LOG_HEADER HQ_LOG_VERSION) by done. cbn [mbind result_bind].
  replace (HQ_LOG_HEADER ++ put_u32 HQ_LOG_VERSION ++ put_u64 0 ++ put_u64 0 ++ rest)
    with ((HQ_LOG_HEADER ++ put_u32 HQ_LOG_VERSION) ++ put_u64 0 ++ put_u64 0 ++ rest)
    by (by rewrite <- app_assoc).
  change (negb (HQ_LOG_VERSION =? HQ_LOG_VERSION)) with false.
  rewrite (read_u64_app (HQ_LOG_HEADER ++ put_u32 HQ_LOG_VERSION) 0);
    [|done|rewrite length_app, put_u32_length; done]. cbn [mbind result_bind].
  replace ((HQ_LOG_HEADER ++ put_u32 HQ_LOG_VERSION) ++ put_u64 0 ++ put_u64 0 ++ rest)
    with ((HQ_LOG_HEADER ++ put_u32 HQ_LOG_VERSION ++ put_u64 0) ++ put_u64 0 ++ rest)
    by (by rewrite <- !app_assoc).
  rewrite (read_u64_app (HQ_LOG_HEADER ++ put_u32 HQ_LOG_VERSION ++ put_u64 0) 0);
    [|done|rewrite !length_app, put_u32_length, put_u64_length; done]. cbn [mbind result_bind].
  rewrite <- !app_assoc. do 2 f_equal. rewrite !length_app, put_u32_length, !put_u64_length. done.
Qed.

(** The loop of [make_index] on a file that was written. *)
Lemma make_index_loop_trace fuel pre ms index :
  Forall message_wf ms -> (length ms < fuel)%nat ->
  make_index_loop fuel {| content := pre ++ concat (encode_message <$> ms);
                          pos := Z.of_nat (length pre) |} index
  = Some (index_trace index (Z.of_nat (length pre)) ms).
Proof.
  intros Hwf. revert fuel pre index.
  induction Hwf as [|m ms Hm Hwf IH]; intros fuel pre index Hf; (destruct fuel as [|fuel]; [simpl in Hf; lia|]).
  - simpl. unfold read_block, read_u8. simpl. rewrite app_nil_r, Nat2Z.id.
    by rewrite lookup_ge_None_2.
  - cbn [make_index_loop index_trace]. csimpl. rewrite read_block_encode by done.
    cbn [pos]. destruct (index_block index (block_of m) _) as [index'|e]; simpl; [|done].
    unfold seek_relative. cbn [pos].
    assert (0 <= block_data (block_of m)) by (destruct m; simpl; lia).
    destruct (Z.ltb_spec (Z.of_nat (length pre) + Z.of_nat (length (block_buffer m))
      + block_data (block_of m)) 0); [lia|]. unfold at_pos. cbn [content].
    assert (Hlen : Z.of_nat (length (encode_message m)) =
      Z.of_nat (length (block_buffer m)) + block_data (block_of m)).
    { unfold encode_message. rewrite length_app. destruct m; simpl; lia. }
    specialize (IH fuel (pre ++ encode_message m) index' ltac:(simpl in Hf; lia)).
    rewrite <- app_assoc, length_app, Nat2Z.inj_add in IH. rewrite <- IH.
    do 2 f_equal. lia.
Qed.

(** A block that is read lies inside the file, and reading moves forward. *)
Lemma read_exact_pos f n r f' :
  read_exact f n = Ok (r, f') -> content f' = content f /\ pos f' = pos f + n.
Proof. unfold read_exact. destruct (_ <=? _); [|done]. by intros [= _ <-]. Qed.

Lemma read_u32_pos f x f' :
  read_u32 f = Ok (x, f') -> content f' = content f /\ pos f' = pos f + 4 /\ is_u32 x.
Proof.
  unfold read_u32. destruct (read_exact f 4) as [[b f1]|] eqn:E; simpl; [|done].
  intros [= <- <-]. apply read_exact_pos in E as [? ?]. split_and!; [done|done|apply get_u32_bound..].
Qed.

Lemma read_block_forward f b f' :
  0 <= pos f -> read_block f = Ok (Some b, f') ->
  content f' = content f /\ pos f < Z.of_nat (length (content f)) /\ pos f < pos f' /\ 0 <= block_data b.
Proof.
  intros Hp. unfold read_block, read_u8.
  destruct (content f !! Z.to_nat (pos f)) as [tag|] eqn:Htag; [|done].
  apply lookup_lt_Some in Htag. set (f0 := at_pos f (pos f + 1)).
  assert (Hstep : forall g x g', read_u32 g = Ok (x, g') ->
    content g' = content g /\ pos g' = pos g + 4 /\ is_u32 x) by (intros; by apply read_u32_pos).
  destruct (tag =? _); [|destruct (tag =? _); [|destruct (tag =? _); [|done]]].
  - destruct (read_u32 f0) as [[t f1]|] eqn:E1; simpl; [|done].
    destruct (read_u32 f1) as [[i f2]|] eqn:E2; simpl; [|done]. intros [= <- <-].
    apply Hstep in E1 as (? & ? & _), E2 as (? & ? & _). simpl in *. split_and!; [congruence|lia..].
  - destruct (read_u32 f0) as [[t f1]|] eqn:E1; simpl; [|done].
    destruct (read_u32 f1) as [[i f2]|] eqn:E2; simpl; [|done].
    destruct (read_u32 f2) as [[c f3]|] eqn:E3; simpl; [|done].
    destruct (read_u32 f3) as [[n f4]|] eqn:E4; simpl; [|done]. intros [= <- <-].
    apply Hstep in E1 as (? & ? & _), E2 as (? & ? & _), E3 as (? & ? & _), E4 as (? & ? & Hn).
    unfold is_u32 in Hn. simpl in *. split_and!; [congruence|lia..].
  - destruct (read_u32 f0) as [[t f1]|] eqn:E1; simpl; [|done].
    destruct (read_u32 f1) as [[i f2]|] eqn:E2; simpl; [|done]. intros [= <- <-].
    apply Hstep in E1 as (? & ? & _), E2 as (? & ? & _). simpl in *. split_and!; [congruence|lia..].
Qed.

Lemma make_index_loop_total fuel f index :
  0 <= pos f -> Z.of_nat (length (content f)) - pos f < Z.of_nat fuel ->
  (0 < fuel)%nat -> is_Some (make_index_loop fuel f index).
Proof.
  revert f index. induction fuel as [|fuel IH]; intros f index Hp Hf Hpos; [lia|]. simpl.
  destruct (read_block f) as [[[b|] f']|] eqn:E; [|by eauto..].
  apply read_block_forward in E as (Hc & Hlt & Hfw & Hd); [|done].
  destruct (index_block index b (pos f')) as [index'|]; [|eauto].
  unfold seek_relative. destruct (_ <? 0); [eauto|]. apply IH; simpl; rewrite ?Hc; lia.
Qed.

End format.

(** ** Lemmas: instances of a task *)

Section instances.
Implicit Types t : TaskInfo.

Lemma filter_smaller_sorted t id :
  StronglySorted Z.lt (instance_id <$> t) ->
  let p := length (List.filter (fun info => instance_id info <? id) t) in
  Forall (fun info => instance_id info < id) (take p t) /\
  Forall (fun info => id <= instance_id info) (drop p t).
Proof.
  induction t as [|info t IH]; intros Hs; simpl; [done|].
  rewrite fmap_cons in Hs. apply StronglySorted_inv in Hs as [Hs' Hall].
  destruct (Z.ltb_spec (instance_id info) id); simpl.
  - destruct (IH Hs') as [H1 H2]. split; [by constructor|done].
  - assert (Hge : Forall (fun info => id <= instance_id info) t).
    { rewrite Forall_fmap in Hall. eapply Forall_impl; [exact Hall|]. simpl. lia. }
    assert (List.filter (fun info => instance_id info <? id) t = []) as ->.
    { clear -Hge. induction Hge as [|x l Hx Hge IH]; simpl; [done|].
      destruct (Z.ltb_spec (instance_id x) id); [lia|done]. }
    simpl. split; [done|]. by constructor.
Qed.

Lemma instance_app t1 t2 id :
  instance (t1 ++ t2) id = match instance t1 id with Some x => Some x | None => instance t2 id end.
Proof.
  unfold instance. induction t1 as [|info t1 IH]; simpl; [done|].
  destruct (instance_id info =? id); [done|apply IH].
Qed.

Lemma instance_id_of t id info : instance t id = Some info -> instance_id info = id /\ info ∈ t.
Proof.
  unfold instance. intros Hf. apply find_some in Hf as [Hin Heq%Z.eqb_eq].
  by split; [|apply list_elem_of_In].
Qed.

Lemma instance_None t id : instance t id = None <-> id ∉ instance_id <$> t.
Proof.
  split.
  - intros Hf (info & -> & Hin)%list_elem_of_fmap. apply list_elem_of_In in Hin.
    apply (find_none _ _ Hf) in Hin. simpl in Hin. lia.
  - intros Hn. destruct (instance t id) as [info|] eqn:E; [|done]. exfalso.
    apply instance_id_of in E as [<- Hin]. apply Hn. by apply list_elem_of_fmap_2.
Qed.

Lemma binary_search_spec t id :
  StronglySorted Z.lt (instance_id <$> t) ->
  match binary_search t id with
  | Ok _ => is_Some (instance t id)
  | Err p => instance t id = None /\ Forall (fun info => instance_id info < id) (take p t) /\
      Forall (fun info => id < instance_id info) (drop p t)
  end.
Proof.
  intros Hs. unfold binary_search.
  set (p := length (List.filter (fun info => instance_id info <? id) t)).
  destruct (filter_smaller_sorted t id Hs) as [H1 H2]. fold p in H1, H2.
  assert (Hnone : Forall (fun info => id < instance_id info) (drop p t) -> instance t id = None).
  { intros H3. apply instance_None. intros (info & -> & Hin)%list_elem_of_fmap.
    rewrite <- (take_drop p t) in Hin. apply elem_of_app in Hin as [Hin|Hin].
    - rewrite Forall_forall in H1. apply H1 in Hin. lia.
    - rewrite Forall_forall in H3. apply H3 in Hin. lia. }
  destruct (t !! p) as [info|] eqn:Hp.
  - destruct (Z.eqb_spec (instance_id info) id) as [Heq|Hne].
    + destruct (instance t id) eqn:E; [eauto|]. exfalso. apply instance_None in E. apply E.
      rewrite <- Heq. apply list_elem_of_fmap_2. by eapply list_elem_of_lookup_2.
    + assert (H3 : Forall (fun info => id < instance_id info) (drop p t)).
      { rewrite (drop_S t info p Hp) in *. apply Forall_cons in H2 as [Hi H2].
        constructor; [lia|]. rewrite <- (take_drop_middle t p info Hp), fmap_app in Hs.
        apply StronglySorted_app_1_r in Hs. rewrite fmap_cons in Hs.
        apply StronglySorted_inv in Hs as [_ Hall]. rewrite Forall_fmap in Hall. eapply Forall_impl; [exact Hall|]. simpl. lia. }
      auto.
  - apply lookup_ge_None_1 in Hp. rewrite drop_ge in * by done. auto.
Qed.

Lemma new_instance_spec t id :
  StronglySorted Z.lt (instance_id <$> t) -> instance t id = None ->
  exists t', new_instance t id = Ok t' /\ t' <> [] /\ StronglySorted Z.lt (instance_id <$> t') /\
    forall i, instance t' i = if decide (i = id)
      then Some {| instance_id := id; channels := ([], []); finished := false |} else instance t i.
Proof.
  intros Hs Hn. unfold new_instance. pose proof (binary_search_spec t id Hs) as Hb.
  destruct (binary_search t id) as [p|p]; [by rewrite Hn in Hb; destruct Hb|].
  destruct Hb as (_ & H1 & H2). eexists. split; [done|]. split; [by destruct (take p t)|]. split.
  - rewrite fmap_app. simpl. rewrite <- (take_drop p t), fmap_app in Hs.
    apply StronglySorted_app_2.
    + intros x y (a & -> & Ha)%list_elem_of_fmap Hy. rewrite Forall_forall in H1, H2.
      apply elem_of_cons in Hy as [->|(b & -> & Hb)%list_elem_of_fmap]; [by apply H1|].
      apply H1 in Ha. apply H2 in Hb. lia.
    + by apply StronglySorted_app_1_l in Hs.
    + constructor; [by apply StronglySorted_app_1_r in Hs|]. by apply Forall_fmap.
  - intros i. pose proof (instance_app (take p t) (drop p t) i) as Ht.
    rewrite take_drop in Ht. rewrite instance_app, Ht. case_decide as Hi.
    + subst i. rewrite (proj2 (instance_None (take p t) id)).
      * unfold instance. simpl. by rewrite Z.eqb_refl.
      * apply instance_None in Hn. rewrite <- (take_drop p t), fmap_app in Hn. set_solver.
    + destruct (instance (take p t) i); [done|]. unfold instance. simpl.
      destruct (Z.eqb_spec id i); [congruence|done].
Qed.

Lemma instance_mut_spec t id f info :
  instance t id = Some info -> (forall x, instance_id (f x) = instance_id x) ->
  exists t', instance_mut t id f = Some t' /\ instance_id <$> t' = instance_id <$> t /\
    forall i, instance t' i = if decide (i = id) then Some (f info) else instance t i.
Proof.
  intros Hi Hf. induction t as [|x t IH]; [done|]. unfold instance in Hi. simpl in *.
  destruct (Z.eqb_spec (instance_id x) id) as [Heq|Hne].
  - injection Hi as ->. eexists. split; [done|].
    rewrite !fmap_cons, Hf. split; [done|].
    intros i. unfold instance. simpl. rewrite Hf, Heq.
    destruct (Z.eqb_spec id i), (decide (i = id)); congruence || done.
  - destruct (IH Hi) as (t' & -> & Hids & Hinst). eexists. split; [done|].
    rewrite !fmap_cons, Hids. split; [done|]. intros i. specialize (Hinst i). unfold instance in *. simpl.
    destruct (Z.eqb_spec (instance_id x) i); [|done]. by rewrite decide_False by congruence.
Qed.

End instances.

(** ** The index of a trace *)

Section index.
(** All bytes of the file. *)
Variable all : list Z.

(** The bytes of a chunk are at its position. *)
Definition chunk_holds (ck : ChunkInfo) (data : list Z) : Prop :=
  ck_size ck = Z.of_nat (length data) /\ 0 <= ck_position ck /\
  ck_position ck + ck_size ck <= Z.of_nat (length all) /\
  slice all (ck_position ck) (ck_size ck) = data.

Definition get_instance (index : Index) (t i : Z) : option InstanceInfo :=
  info ← index !! t; instance info i.

(** The index describes the messages read so far. *)
Record index_rel (ms : list FromStreamerMessage) (index : Index) : Prop := {
  ir_sorted : forall t info, index !! t = Some info ->
    info <> [] /\ StronglySorted Z.lt (instance_id <$> info);
  ir_none : forall t i, get_instance index t i = None <-> MStart t i ∉ ms;
  ir_some : forall t i info, get_instance index t i = Some info ->
    instance_id info = i /\ finished info = bool_decide (MEnd t i ∈ ms) /\
    forall c, 0 <= c < 2 -> Forall2 chunk_holds (channel info c) (stream_chunks ms t i c)
}.

Lemma stream_chunks_snoc ms m t i c :
  stream_chunks (ms ++ [m]) t i c = stream_chunks ms t i c ++
    match m with
    | MData t' i' c' data => if decide ((t', i', c') = (t, i, c)) then [data] else []
    | _ => []
    end.
Proof.
  unfold stream_chunks. rewrite omap_app. f_equal. destruct m as [?|t' i' c' data|?]; try done.
  simpl. by case_decide.
Qed.

Lemma index_rel_nil : index_rel [] ∅.
Proof.
  split.
  - intros t info. by rewrite lookup_empty.
  - intros t i. unfold get_instance. rewrite lookup_empty. simpl. split; [|done].
    intros _ ?%not_elem_of_nil. done.
  - intros t i info. unfold get_instance. by rewrite lookup_empty.
Qed.

Lemma get_instance_insert index t info t' i :
  get_instance (<[t := info]> index) t' i =
    if decide (t' = t) then instance info i else get_instance index t' i.
Proof.
  unfold get_instance. rewrite lookup_insert. destruct (decide (t = t')), (decide (t' = t));
    simplify_eq; done.
Qed.

(** A stream that is not started has no data and no end. *)
Lemma trace_unstarted ms st t i :
  trace_run ∅ ms = Some st -> (t, i) ∉ st ->
  (MEnd t i ∉ ms) /\ forall c, stream_chunks ms t i c = [].
Proof.
  revert st. induction ms as [|m ms IH] using rev_ind; intros st Hr Hn.
  { split; [|done]. by intros ?%not_elem_of_nil. }
  rewrite trace_run_app in Hr. destruct (trace_run ∅ ms) as [st1|] eqn:E; simpl in Hr; [|done].
  destruct (trace_step st1 m) as [st2|] eqn:Hs; simpl in Hr; [|done]. injection Hr as ->.
  assert (Hn1 : (t, i) ∉ st1).
  { intros Hin. apply Hn. unfold trace_step in Hs. destruct m; case_decide; simplify_eq; set_solver. }
  destruct (IH _ eq_refl Hn1) as [He Hc]. split.
  - intros [Hin|Hin%list_elem_of_singleton]%elem_of_app; [done|]. subst m.
    simpl in Hs. by case_decide.
  - intros c. rewrite stream_chunks_snoc, Hc. destruct m as [|t' i' c' data|]; try done. simpl in Hs.
    case_decide as Heq; [|done]. simplify_eq. by case_decide; [naive_solver|].
Qed.

(** An update of an existing instance. *)
Lemma update_instance_ok ms index t i f :
  index_rel ms index -> MStart t i ∈ ms -> (forall x, instance_id (f x) = instance_id x) ->
  exists index' info, update_instance index t i f = Some index' /\
    get_instance index t i = Some info /\
    (forall t' i', get_instance index' t' i' =
       if decide ((t', i') = (t, i)) then Some (f info) else get_instance index t' i') /\
    forall t' info', index' !! t' = Some info' ->
      info' <> [] /\ StronglySorted Z.lt (instance_id <$> info').
Proof.
  intros [Hsort Hnone Hsome] Hin Hf.
  destruct (get_instance index t i) as [info|] eqn:E; [|by apply Hnone in E].
  unfold update_instance, get_instance in *. destruct (index !! t) as [ti|] eqn:Et; [|done].
  simpl in E. destruct (instance_mut_spec ti i f info E Hf) as (ti' & Hm & Hids & Hinst).
  simpl. rewrite Hm. simpl. exists (<[t := ti']> index), info. split_and!; [done|done|..].
  - intros t' i'. fold (get_instance (<[t := ti']> index) t' i').
    rewrite get_instance_insert. destruct (decide (t' = t)) as [->|].
    + rewrite Hinst. destruct (decide (i' = i)) as [->|].
      * by rewrite decide_True.
      * rewrite decide_False by congruence. unfold get_instance. by rewrite Et.
    + by rewrite decide_False by congruence.
  - intros t' info' [[<- <-]|[_ Ht]]%lookup_insert_Some; [|by eapply Hsort].
    destruct (Hsort _ _ Et) as [Hne Hs]. rewrite Hids. split; [|done]. intros ->.
    destruct ti; [done|]. by rewrite fmap_cons in Hids.
Qed.

Lemma index_start ms st index t i st' p :
  index_rel ms index -> trace_run ∅ ms = Some st -> trace_step st (MStart t i) = Some st' ->
  exists index', index_block index (StreamStart t i) p = Ok index' /\ index_rel (ms ++ [MStart t i]) index'.
Proof.
  intros Hrel Hrun Hs. pose proof Hrel as [Hsort Hnone Hsome]. simpl in Hs.
  case_decide as Hc; [|done]. destruct Hc as (Hn & Ht & Hi).
  destruct (trace_unstarted ms st t i Hrun Hn) as [Hne Hch].
  assert (Hnew : get_instance index t i = None).
  { apply Hnone. intros Hin. apply Hn. apply (trace_run_started _ _ _ Hrun). eauto. }
  set (ti := default [] (index !! t)).
  assert (Hti : StronglySorted Z.lt (instance_id <$> ti) /\ forall i, instance ti i = get_instance index t i).
  { unfold ti, get_instance. destruct (index !! t) as [ti'|] eqn:E; simpl; [|split; [constructor|done]].
    by destruct (Hsort _ _ E). }
  destruct Hti as [Hts Hti].
  destruct (new_instance_spec ti i Hts) as (ti' & Hnewi & Hne' & Hs' & Hinst); [by rewrite Hti|].
  unfold index_block. fold ti. rewrite Hnewi. simpl. eexists. split; [done|]. split.
  - intros t' info [[<- <-]|[_ Hl]]%lookup_insert_Some; [done|by eapply Hsort].
  - intros t' i'. rewrite get_instance_insert, not_elem_of_app, list_elem_of_singleton.
    destruct (decide (t' = t)) as [->|].
    + rewrite Hinst. destruct (decide (i' = i)) as [->|]; [naive_solver|].
      rewrite Hti, Hnone. naive_solver.
    + rewrite Hnone. naive_solver.
  - intros t' i' info. rewrite get_instance_insert. intros Hg.
    assert (Hcase : (t' = t /\ i' = i /\ info = {| instance_id := i; channels := ([], []); finished := false |})
      \/ get_instance index t' i' = Some info).
    { destruct (decide (t' = t)) as [->|]; [|by right]. rewrite Hinst in Hg.
      destruct (decide (i' = i)) as [->|]; [left; naive_solver|right]. by rewrite <- Hti. }
    assert (Hend : bool_decide (MEnd t' i' ∈ ms ++ [MStart t i]) = bool_decide (MEnd t' i' ∈ ms)).
    { apply bool_decide_ext. rewrite elem_of_app, list_elem_of_singleton. naive_solver. }
    rewrite Hend. destruct Hcase as [(-> & -> & ->)|Hold].
    + simpl. rewrite bool_decide_false by done. split_and!; [done|done|].
      intros c _. rewrite stream_chunks_snoc, Hch. unfold channel. destruct (c =? 0); constructor.
    + destruct (Hsome _ _ _ Hold) as (? & ? & Hcs). split_and!; [done|done|].
      intros c Hc. rewrite stream_chunks_snoc, app_nil_r. auto.
Qed.

Lemma push_chunk_channel c ck info c' :
  0 <= c < 2 -> 0 <= c' < 2 ->
  channel (push_chunk c ck info) c' =
    if decide (c = c') then channel info c' ++ [ck] else channel info c'.
Proof.
  intros ? ?. unfold channel, push_chunk. simpl.
  destruct (Z.eqb_spec c 0), (Z.eqb_spec c' 0); simpl; case_decide; done || lia.
Qed.

Lemma index_data ms st index t i c data st' p :
  index_rel ms index -> trace_run ∅ ms = Some st -> trace_step st (MData t i c data) = Some st' ->
  chunk_holds {| ck_position := p; ck_size := Z.of_nat (length data) |} data ->
  exists index', index_block index (StreamChunk t i c (Z.of_nat (length data))) p = Ok index' /\
    index_rel (ms ++ [MData t i c data]) index'.
Proof.
  intros Hrel Hrun Hs Hck. simpl in Hs. case_decide as Hc; [|done]. destruct Hc as (Hin & Hc & Hd).
  assert (Hst : MStart t i ∈ ms).
  { destruct (proj1 (trace_run_started _ _ _ Hrun (t, i)) Hin) as [?|(t0 & i0 & ? & ?)];
      [set_solver|]. by simplify_eq. }
  destruct (update_instance_ok ms index t i
    (push_chunk c {| ck_position := p; ck_size := Z.of_nat (length data) |}) Hrel Hst)
    as (index' & info & Hup & Hget & Hg & Hsort'); [done|].
  unfold index_block. destruct (Z.leb_spec 2 c); [lia|]. rewrite Hup. eexists. split; [done|].
  destruct Hrel as [_ Hnone Hsome]. split; [done|..].
  - intros t' i'. rewrite Hg, not_elem_of_app, list_elem_of_singleton.
    case_decide as Heq; [|rewrite Hnone; naive_solver]. simplify_eq. naive_solver.
  - intros t' i' info'. rewrite Hg.
    assert (bool_decide (MEnd t' i' ∈ ms ++ [MData t i c data]) = bool_decide (MEnd t' i' ∈ ms)) as ->.
    { apply bool_decide_ext. rewrite elem_of_app, list_elem_of_singleton. naive_solver. }
    case_decide as Heq.
    + simplify_eq. intros [= <-]. destruct (Hsome _ _ _ Hget) as (Hid & Hfin & Hcs).
      split_and!; [done|done|]. intros c' Hc'. specialize (Hcs c' Hc').
      rewrite stream_chunks_snoc, push_chunk_channel by done.
      destruct (decide (c = c')) as [->|Hne].
      * rewrite decide_True by done. apply Forall2_app; [done|]. by constructor.
      * rewrite decide_False by congruence. by rewrite app_nil_r.
    + intros Hold. destruct (Hsome _ _ _ Hold) as (? & ? & Hcs). split_and!; [done|done|].
      intros c' Hc'. rewrite stream_chunks_snoc, decide_False by naive_solver.
      rewrite app_nil_r. auto.
Qed.

Lemma index_end ms st index t i st' p :
  index_rel ms index -> trace_run ∅ ms = Some st -> trace_step st (MEnd t i) = Some st' ->
  exists index', index_block index (StreamEnd t i) p = Ok index' /\ index_rel (ms ++ [MEnd t i]) index'.
Proof.
  intros Hrel Hrun Hs. simpl in Hs. case_decide as Hin; [|done].
  assert (Hst : MStart t i ∈ ms).
  { destruct (proj1 (trace_run_started _ _ _ Hrun (t, i)) Hin) as [?|(t0 & i0 & ? & ?)];
      [set_solver|]. by simplify_eq. }
  destruct (update_instance_ok ms index t i set_finished Hrel Hst)
    as (index' & info & Hup & Hget & Hg & Hsort'); [done|].
  unfold index_block. rewrite Hup. eexists. split; [done|].
  destruct Hrel as [_ Hnone Hsome]. split; [done|..].
  - intros t' i'. rewrite Hg, not_elem_of_app, list_elem_of_singleton.
    case_decide as Heq; [|rewrite Hnone; naive_solver]. simplify_eq. naive_solver.
  - intros t' i' info'. rewrite Hg. setoid_rewrite stream_chunks_snoc. setoid_rewrite app_nil_r.
    case_decide as Heq.
    + simplify_eq. intros [= <-]. destruct (Hsome _ _ _ Hget) as (Hid & Hfin & Hcs).
      simpl. rewrite bool_decide_true by set_solver. done.
    + intros Hold. destruct (Hsome _ _ _ Hold) as (? & Hfin & Hcs). split_and!; [done| |done].
      rewrite Hfin. apply bool_decide_ext. rewrite elem_of_app, list_elem_of_singleton. naive_solver.
Qed.

End index.

(** ** Lemmas: the whole file *)

Section roundtrip.
Context `{ByteOrder}.

Lemma trace_messages_wf st ms st' :
  trace_run st ms = Some st' -> (forall t i, (t, i) ∈ st -> is_u32 t /\ is_u32 i) ->
  Forall message_wf ms.
Proof.
  revert st. induction ms as [|m ms IH]; intros st Hr Hst; [constructor|]. simpl in Hr.
  destruct (trace_step st m) as [st1|] eqn:Hs; simpl in Hr; [|done].
  destruct m as [t i|t i c d|t i]; simpl in Hs; case_decide as Hc; simplify_eq.
  - destruct Hc as (_ & Ht & Hi). constructor; [done|]. eapply IH; [done|].
    intros t' i' [[= -> ->]%elem_of_singleton|Hin]%elem_of_union; [done|by apply Hst].
  - destruct Hc as (Hin & Hc & Hd). constructor; [|by eapply IH].
    destruct (Hst _ _ Hin). done.
  - constructor; [|by eapply IH]. by apply Hst.
Qed.

(** Every message of a well-formed trace belongs to a started stream. *)
Lemma trace_key_started ms st m :
  trace_run ∅ ms = Some st -> m ∈ ms -> (stream_key m).1 ∈ started_tasks ms.
Proof.
  intros Hrun Hin. assert (Hkey : stream_key m ∈ st).
  { revert st Hrun. induction ms as [|m' ms IH] using rev_ind; [by apply not_elem_of_nil in Hin|].
    intros st Hrun. rewrite trace_run_app in Hrun.
    destruct (trace_run ∅ ms) as [st1|] eqn:E; simpl in Hrun; [|done].
    destruct (trace_step st1 m') as [st2|] eqn:Hs; simpl in Hrun; [|done]. injection Hrun as ->.
    apply elem_of_app in Hin as [Hin|Hm%list_elem_of_singleton].
    - specialize (IH Hin _ eq_refl). destruct m'; simpl in Hs; case_decide; simplify_eq; set_solver.
    - subst m. destruct m'; simpl in *; case_decide; simplify_eq; set_solver. }
  apply (trace_run_started _ _ _ Hrun) in Hkey as [?|(t & i & Hs & Heq)]; [set_solver|].
  rewrite Heq. unfold started_tasks. rewrite elem_of_list_to_set, list_elem_of_omap.
  by exists (MStart t i).
Qed.

Lemma slice_app pre data post p n :
  p = Z.of_nat (length pre) -> n = Z.of_nat (length data) -> slice (pre ++ data ++ post) p n = data.
Proof. intros -> ->. unfold slice. by rewrite !Nat2Z.id, drop_app_length, take_app_length. Qed.

Lemma index_trace_ok pre prior ms index st :
  index_rel (pre ++ concat (encode_message <$> ms)) prior index ->
  trace_run ∅ prior = Some st -> is_Some (trace_run st ms) ->
  exists index', index_trace index (Z.of_nat (length pre)) ms = Ok index' /\
    index_rel (pre ++ concat (encode_message <$> ms)) (prior ++ ms) index'.
Proof.
  revert pre prior index st. induction ms as [|m ms IH]; intros pre prior index st Hrel Hdone Hrun.
  { exists index. split; [done|]. by rewrite (app_nil_r prior). }
  simpl in Hrun. destruct (trace_step st m) as [st1|] eqn:Hs; simpl in Hrun; [|by destruct Hrun].
  assert (Hdone' : trace_run ∅ (prior ++ [m]) = Some st1) by (rewrite trace_run_app, Hdone; simpl; by rewrite Hs).
  assert (Hblock : exists index1, index_block index (block_of m)
      (Z.of_nat (length pre) + Z.of_nat (length (block_buffer m))) = Ok index1 /\
    index_rel (pre ++ concat (encode_message <$> m :: ms)) (prior ++ [m]) index1).
  { destruct m as [t i|t i c data|t i].
    - by eapply index_start.
    - assert (Hall : pre ++ concat (encode_message <$> MData t i c data :: ms) =
        (pre ++ block_buffer (MData t i c data)) ++ data ++ concat (encode_message <$> ms)).
      { rewrite fmap_cons. cbn [concat]. unfold encode_message at 1. by rewrite <- !app_assoc. }
      eapply index_data; [done..|]. unfold chunk_holds. cbn [ck_size ck_position]. rewrite Hall.
      split_and!; [done|lia|rewrite !length_app; lia|].
      apply slice_app; [rewrite length_app; lia|done].
    - by eapply index_end. }
  destruct Hblock as (index1 & Hb & Hrel1). cbn [index_trace]. rewrite Hb. simpl mbind.
  assert (Hsplit : pre ++ concat (encode_message <$> m :: ms) =
    (pre ++ encode_message m) ++ concat (encode_message <$> ms))
    by (rewrite fmap_cons; cbn [concat]; by rewrite app_assoc).
  rewrite Hsplit in *.
  destruct (IH (pre ++ encode_message m) (prior ++ [m]) index1 st1) as (index' & Hi & Hr); [done..|].
  exists index'. rewrite <- (app_assoc prior [m] ms) in Hr. split; [|done].
  by rewrite length_app, Nat2Z.inj_add in Hi.
Qed.

Lemma log_bytes_length ms : (length ms <= length (log_bytes ms))%nat.
Proof.
  unfold log_bytes. rewrite length_app.
  enough (length ms <= length (concat (encode_message <$> ms)))%nat by lia.
  induction ms as [|m ms IH]; csimpl; [lia|]. rewrite length_app.
  enough (1 <= length (encode_message m))%nat by lia. unfold encode_message.
  rewrite length_app. pose proof (length_block_buffer m). destruct m; lia.
Qed.

Lemma log_open ms :
  trace_ok ms ->
  exists index, LogFile_open (log_bytes ms) =
      Some (Ok {| lf_file := {| content := log_bytes ms; pos := Z.of_nat (length log_header) |};
                  lf_index := index; lf_start_pos := Z.of_nat (length log_header) |}) /\
    index_rel (log_bytes ms) ms index.
Proof.
  intros [st Hrun]. unfold LogFile_open, log_bytes. rewrite check_header_ok.
  assert (Hwf : Forall message_wf ms) by (eapply trace_messages_wf; [done|set_solver]).
  destruct (index_trace_ok log_header [] ms ∅ ∅) as (index & Hi & Hrel);
    [apply index_rel_nil|done|by rewrite Hrun|].
  unfold make_index. cbn [content]. rewrite make_index_loop_trace; [|done|].
  - rewrite Hi. simpl. eauto.
  - pose proof (log_bytes_length ms). unfold log_bytes in *. lia.
Qed.

Lemma write_all_ok file bytes : write_all (fun _ _ => true) file bytes = Some (file ++ bytes).
Proof. done. Qed.

Lemma writer_loop_ok io_error file sms :
  writer_loop (fun _ _ => true) (fun _ => true) io_error file sms
  = (file ++ concat (encode_message <$> (sm_message <$> sms)), end_responses sms).
Proof.
  revert file. induction sms as [|m sms IH]; intros file.
  - simpl. by rewrite app_nil_r.
  - cbn [writer_loop]. unfold write_message. rewrite !write_all_ok.
    assert (Henc : concat (encode_message <$> (sm_message <$> m :: sms)) =
      encode_message (sm_message m) ++ concat (encode_message <$> (sm_message <$> sms))) by done.
    rewrite Henc. unfold encode_message at 1, end_responses. cbn [omap list_omap].
    destruct (sm_message m) as [t i|t i c data|t i]; rewrite ?write_all_ok, IH.
    + rewrite app_nil_r, app_assoc. done.
    + rewrite !app_assoc. done.
    + rewrite app_nil_r, app_assoc. by destruct (sm_sender m).
Qed.

Lemma file_writer_ok io_error sms :
  file_writer (fun _ _ => true) (fun _ => true) io_error sms
  = (log_bytes (sm_message <$> sms), end_responses sms).
Proof. unfold file_writer. rewrite write_all_ok. apply writer_loop_ok. Qed.

(** ** Lemmas: the newest instance *)

Lemma last_started_spec ms t i :
  MStart t i ∈ ms -> 0 <= i -> (forall i', MStart t i' ∈ ms -> i' <= i) -> last_started ms t = i.
Proof.
  intros Hin Hi Hmax.
  assert (Hle : last_started ms t <= i).
  { clear Hin. induction ms as [|m ms IH]; simpl; [lia|].
    assert (last_started ms t <= i) by (apply IH; intros; apply Hmax; by right).
    destruct m as [t' i'| |]; try done. destruct (Z.eqb_spec t' t) as [->|]; [|done].
    pose proof (Hmax i' ltac:(left)). lia. }
  enough (i <= last_started ms t) by lia. clear Hmax Hle.
  induction ms as [|m ms IH]; [by apply not_elem_of_nil in Hin|]. simpl.
  apply elem_of_cons in Hin as [<-|Hin].
  - rewrite Z.eqb_refl. lia.
  - specialize (IH Hin). destruct m as [t' i'| |]; try done. destruct (t' =? t); lia.
Qed.

Lemma sorted_last (t : TaskInfo) info :
  StronglySorted Z.lt (instance_id <$> t) -> last t = Some info ->
  instance t (instance_id info) = Some info /\ forall x, x ∈ t -> instance_id x <= instance_id info.
Proof.
  intros Hs Hl. apply last_Some in Hl as [t' ->]. rewrite fmap_app in Hs.
  assert (Hlt : forall x, x ∈ t' -> instance_id x < instance_id info).
  { intros x Hx. eapply (StronglySorted_app_1_elem_of Z.lt); [exact Hs|by apply list_elem_of_fmap_2|].
    apply list_elem_of_singleton. done. }
  split.
  - rewrite instance_app, (proj2 (instance_None _ _)).
    + unfold instance. simpl. by rewrite Z.eqb_refl.
    + intros (x & Heq & Hx)%list_elem_of_fmap. apply Hlt in Hx. lia.
  - intros x [Hx|Hx%list_elem_of_singleton]%elem_of_app; [apply Hlt in Hx; lia|subst; lia].
Qed.

Section rel.
Variables (all : list Z) (ms : list FromStreamerMessage) (index : Index).
Hypothesis Hrel : index_rel all ms index.
Hypothesis Hwf : Forall message_wf ms.

Lemma index_dom : dom index = started_tasks ms.
Proof.
  apply set_eq. intros t. unfold started_tasks. rewrite elem_of_list_to_set, list_elem_of_omap, elem_of_dom.
  split.
  - intros [ti Ht]. destruct (ir_sorted _ _ _ Hrel _ _ Ht) as [Hne _].
    destruct ti as [|info ti]; [done|].
    destruct (get_instance index t (instance_id info)) as [x|] eqn:E.
    + exists (MStart t (instance_id info)). split; [|done]. apply dec_stable.
      rewrite <- (ir_none _ _ _ Hrel). congruence.
    + unfold get_instance in E. rewrite Ht in E. simpl in E. unfold instance in E. simpl in E.
      by rewrite Z.eqb_refl in E.
  - intros (m & Hin & Hm). destruct m as [t' i| |]; simplify_eq.
    destruct (get_instance index t i) as [x|] eqn:E.
    + unfold get_instance in E. destruct (index !! t); [eauto|done].
    + by apply (ir_none _ _ _ Hrel) in E.
Qed.

Lemma index_last_id t ti :
  index !! t = Some ti -> exists info, last ti = Some info /\ instance_id info = last_started ms t.
Proof.
  intros Ht. destruct (ir_sorted _ _ _ Hrel _ _ Ht) as [Hne Hs].
  destruct (last ti) as [info|] eqn:Hl; [|by apply last_None in Hl].
  destruct (sorted_last ti info Hs Hl) as [Hi Hmax]. exists info. split; [done|].
  assert (Hin : forall i, MStart t i ∈ ms <-> is_Some (instance ti i)).
  { intros i. rewrite <- not_eq_None_Some. pose proof (ir_none _ _ _ Hrel t i) as Hn.
    unfold get_instance in Hn. rewrite Ht in Hn. simpl in Hn. rewrite Hn.
    split; [intros ? ?; done|apply dec_stable]. }
  assert (HM : MStart t (instance_id info) ∈ ms) by (apply Hin; rewrite Hi; eauto).
  symmetry. apply last_started_spec; [done|..].
  - rewrite Forall_forall in Hwf. apply Hwf in HM as [_ HM]. apply HM.
  - intros i' [x Hx]%Hin. apply instance_id_of in Hx as [<- Hx]. by apply Hmax.
Qed.

Lemma index_last t ti :
  index !! t = Some ti ->
  exists info, last ti = Some info /\ finished info = last_ended ms t /\
    forall c, 0 <= c < 2 ->
      Forall2 (chunk_holds all) (channel info c) (stream_chunks ms t (last_started ms t) c).
Proof.
  intros Ht. destruct (ir_sorted _ _ _ Hrel _ _ Ht) as [_ Hs].
  destruct (index_last_id t ti Ht) as (info & Hl & Hls). exists info. split; [done|].
  destruct (sorted_last ti info Hs Hl) as [Hi _]. unfold last_ended. rewrite <- Hls.
  destruct (ir_some _ _ _ Hrel t (instance_id info) info) as (_ & Hf & Hc); [|done].
  unfold get_instance. by rewrite Ht.
Qed.

Lemma select_tasks_ok `{Profile} ids :
  (forall t, t ∈ ids -> t ∈ started_tasks ms) ->
  exists infos, select_tasks index ids = Ret (Ok infos) /\
    Forall2 (fun t kv => kv.1 = t /\ finished kv.2 = last_ended ms t /\
      forall c, 0 <= c < 2 ->
        Forall2 (chunk_holds all) (channel kv.2 c) (stream_chunks ms t (last_started ms t) c)) ids infos.
Proof.
  induction ids as [|t ids IH]; intros Hids; simpl; [eauto|].
  destruct (index !! t) as [ti|] eqn:Ht.
  - destruct (index_last t ti Ht) as (info & Hl & Hf & Hc). unfold last_instance. rewrite Hl. simpl.
    destruct IH as (infos & -> & Hfa); [intros; apply Hids; by right|]. simpl.
    eexists. split; [done|]. constructor; [|done]. done.
  - exfalso. apply not_elem_of_dom in Ht. apply Ht. rewrite index_dom. apply Hids. left.
Qed.

End rel.

(** ** Lemmas: printing *)

Lemma print_instance_ok all p chunks datas out :
  0 <= p -> Forall2 (chunk_holds all) chunks datas ->
  exists p', print_instance {| content := all; pos := p |} p chunks out
    = Ok ({| content := all; pos := p' |}, p', out ++ concat datas) /\ 0 <= p'.
Proof.
  intros Hp Hc. revert p out Hp.
  induction Hc as [|ck data chunks datas (Hsz & Hpos & Hle & Hsl) Hc IH]; intros p out Hp; simpl.
  - exists p. by rewrite app_nil_r.
  - unfold seek_relative. simpl. replace (p + (ck_position ck - p)) with (ck_position ck) by lia.
    destruct (Z.ltb_spec (ck_position ck) 0); [lia|]. simpl. unfold at_pos. simpl.
    rewrite (read_exact_at all (ck_position ck) (ck_size ck) data) by done. simpl.
    destruct (IH (ck_position ck + ck_size ck) (out ++ data)) as (p' & -> & ?); [lia|].
    exists p'. by rewrite <- app_assoc.
Qed.

Lemma print_instances_ok all ms p c ids infos out :
  0 <= p -> 0 <= c < 2 ->
  Forall2 (fun t kv => kv.1 = t /\ finished kv.2 = last_ended ms t /\
    forall c, 0 <= c < 2 ->
      Forall2 (chunk_holds all) (channel kv.2 c) (stream_chunks ms t (last_started ms t) c)) ids infos ->
  print_instances {| content := all; pos := p |} p c infos out
  = Ok (out ++ concat (task_output ms c <$> ids)).
Proof.
  intros Hp Hc Hf. revert p out Hp.
  induction Hf as [|t [t' info] ids infos (_ & _ & Hcs) Hf IH]; intros p out Hp; simpl.
  - by rewrite app_nil_r.
  - destruct (print_instance_ok all p (channel info c) _ out Hp (Hcs c Hc)) as (p' & -> & Hp').
    simpl. rewrite IH by done. by rewrite <- app_assoc.
Qed.

End roundtrip.

(** ** Lemmas: show *)

Section show.
Context `{ByteOrder} `{Profile}.

Lemma show_skip fuel opts width active all p n hc out :
  0 <= p -> 0 <= n ->
  match seek_relative {| content := all; pos := p |} n with
  | Err e => Some (Ret (Err e))
  | Ok f => show_loop fuel opts width active f hc out
  end = show_loop fuel opts width active {| content := all; pos := p + n |} hc out.
Proof.
  intros. unfold seek_relative. cbn [pos]. by destruct (Z.ltb_spec (p + n) 0); [lia|].
Qed.

Lemma show_loop_trace fuel opts width active newest pre ms hc out :
  Forall message_wf ms -> (length ms < fuel)%nat ->
  (forall m, m ∈ ms -> active !! (stream_key m).1 = Some (newest (stream_key m).1)) ->
  show_loop fuel opts width active {| content := pre ++ concat (encode_message <$> ms);
                                      pos := Z.of_nat (length pre) |} hc out
  = Some (Ret (Ok (out ++ show_trace opts width newest hc ms))).
Proof.
  intros Hwf. revert fuel pre hc out.
  induction Hwf as [|m ms Hm Hwf IH]; intros fuel pre hc out Hf Hact;
    (destruct fuel as [|fuel]; [simpl in Hf; lia|]).
  { simpl. unfold read_block, read_u8. simpl. rewrite !app_nil_r, Nat2Z.id.
    by rewrite lookup_ge_None_2. }
  assert (Hall : pre ++ concat (encode_message <$> m :: ms) =
    (pre ++ encode_message m) ++ concat (encode_message <$> ms))
    by (rewrite fmap_cons; cbn [concat]; by rewrite app_assoc).
  assert (Hgo : forall hc out, show_loop fuel opts width active
      {| content := pre ++ concat (encode_message <$> m :: ms);
         pos := Z.of_nat (length pre) + Z.of_nat (length (encode_message m)) |} hc out
    = Some (Ret (Ok (out ++ show_trace opts width newest hc ms)))).
  { intros hc' out'. rewrite Hall, <- Nat2Z.inj_add, <- length_app.
    apply IH; [simpl in Hf; lia|]. intros m' Hin. apply Hact. by right. }
  specialize (Hact m ltac:(left)).
  cbn [show_loop]. rewrite fmap_cons. cbn [concat]. rewrite read_block_encode by done.
  change (encode_message m ++ concat (encode_message <$> ms)) with (concat (encode_message <$> m :: ms)).
  destruct m as [t i|t i c data|t i]; cbn [block_of show_trace stream_key fst] in *.
  - specialize (Hgo hc out). unfold encode_message in Hgo at 2. rewrite app_nil_r in Hgo. done.
  - unfold encode_message in Hgo at 2. rewrite length_app, Nat2Z.inj_add in Hgo.
    rewrite Z.add_assoc in Hgo.
    rewrite show_skip by lia. rewrite Hact, !Hgo.
    assert (Hre : read_exact {| content := pre ++ concat (encode_message <$> MData t i c data :: ms);
        pos := Z.of_nat (length pre) + Z.of_nat (length (block_buffer (MData t i c data))) |}
        (Z.of_nat (length data))
      = Ok (data, {| content := pre ++ concat (encode_message <$> MData t i c data :: ms);
        pos := Z.of_nat (length pre) + Z.of_nat (length (block_buffer (MData t i c data)))
               + Z.of_nat (length data) |})).
    { assert (Hd : pre ++ concat (encode_message <$> MData t i c data :: ms) =
        (pre ++ block_buffer (MData t i c data)) ++ data ++ concat (encode_message <$> ms)).
      { rewrite fmap_cons. cbn [concat]. unfold encode_message at 1. by rewrite <- !app_assoc. }
      rewrite Hd, <- Nat2Z.inj_add, <- length_app. apply read_exact_app. }
    rewrite Hre, Hgo. destruct (channel_selected _ c); [|done].
    destruct (newest t =? i); [|done]. by rewrite <- app_assoc.
  - unfold encode_message in Hgo at 2. rewrite app_nil_r in Hgo. rewrite Hact, !Hgo.
    destruct (_ && _); [|done]. by rewrite <- app_assoc.
Qed.

Lemma active_instances_ok all ms index :
  index_rel all ms index -> Forall message_wf ms ->
  exists active, active_instances index = Ret active /\
    forall t, t ∈ started_tasks ms -> active !! t = Some (last_started ms t).
Proof.
  intros Hrel Hwf. unfold active_instances.
  assert (Hin : forall t, t ∈ btree_keys index <-> t ∈ started_tasks ms).
  { intros t. unfold btree_keys. rewrite merge_sort_Permutation, elem_of_elements.
    by rewrite (index_dom _ _ _ Hrel). }
  rewrite (mapM_ret _ (fun k => (k, last_started ms k))).
  - simpl. eexists. split; [done|]. intros t Ht. rewrite collect_map_list_to_map.
    + apply elem_of_list_to_map; [|apply list_elem_of_fmap; exists t; by rewrite Hin].
      rewrite <- list_fmap_compose, (list_fmap_ext _ id _ (fun _ _ _ => eq_refl)), list_fmap_id.
      unfold btree_keys. rewrite merge_sort_Permutation. apply NoDup_elements.
    + rewrite <- list_fmap_compose, (list_fmap_ext _ id _ (fun _ _ _ => eq_refl)), list_fmap_id.
      unfold btree_keys. rewrite merge_sort_Permutation. apply NoDup_elements.
  - intros t Ht. apply Hin in Ht. rewrite <- (index_dom _ _ _ Hrel) in Ht.
    apply elem_of_dom in Ht as [ti Hti]. rewrite Hti. simpl.
    destruct (index_last_id _ _ _ Hrel Hwf t ti Hti) as (info & Hl & Hid).
    unfold last_instance. rewrite Hl. simpl. by rewrite Hid.
Qed.

End show.

(** ** Properties *)


(** Opening a log terminates on every file: reading the index always reaches
    the end of the file or an error. *)
Theorem log_open_terminates `{ByteOrder} bytes : is_Some (LogFile_open bytes).
Proof.
  unfold LogFile_open. destruct (check_header _) as [f|] eqn:Hh; [|eauto].
  assert (0 <= pos f) as Hp.
  { unfold check_header in Hh.
    destruct (read_exact _ 6) as [[h f1]|] eqn:E1; simpl in Hh; [|done].
    destruct (bool_decide _); [done|].
    destruct (read_u32 f1) as [[v f2]|] eqn:E2; simpl in Hh; [|done]. destruct (negb _); [done|].
    unfold read_u64 in Hh. destruct (read_exact f2 8) as [[b3 f3]|] eqn:E3; simpl in Hh; [|done].
    destruct (read_exact f3 8) as [[b4 f4]|] eqn:E4; simpl in Hh; [|done]. injection Hh as <-.
    apply read_exact_pos in E1 as [_ E1], E3 as [_ E3], E4 as [_ E4].
    apply read_u32_pos in E2 as (_ & E2 & _). simpl in E1. lia. }
  destruct (make_index_loop_total (S (length (content f))) f ∅ Hp) as [r Hr]; [lia..|].
  unfold make_index. rewrite Hr. simpl. eauto.
Qed.

(** [cat] prints exactly the bytes that the newest instances of the selected
    tasks (all tasks in increasing order by default) streamed on the channel;
    it fails exactly when a selected stream is not finished, unless unfinished
    streams are allowed. *)
Lemma cat_spec `{ByteOrder} `{Profile} ms lf opts ids :
  trace_ok ms -> LogFile_open (log_bytes ms) = Some (Ok lf) ->
  match co_task opts with
  | Some a => IntArray_iter a = Ret ids
  | None => ids = merge_sort Z.le (elements (started_tasks ms))
  end ->
  (forall t, t ∈ ids -> t ∈ started_tasks ms) ->
  exists r, cat lf opts = Ret r /\
    if co_allow_unfinished opts || forallb (last_ended ms) ids
    then r = Ok (concat (task_output ms (channel_id (co_channel opts)) <$> ids))
    else exists e, r = Err e.
Proof.
  intros Htr Hopen Hids Hin. destruct (log_open _ Htr) as (index & Heq & Hrel).
  rewrite Hopen in Heq. set (p0 := Z.of_nat (length log_header)) in *.
  assert (0 <= p0) by lia. clearbody p0. injection Heq as ->. destruct Htr as [st Hrun].
  assert (Hwf : Forall message_wf ms) by (eapply trace_messages_wf; [done|set_solver]).
  destruct (select_tasks_ok _ _ _ Hrel Hwf ids Hin) as (infos & Hsel & Hf).
  assert (Hti : task_infos index (co_task opts) = Ret (Ok infos)).
  { unfold task_infos. destruct (co_task opts); [by rewrite Hids|].
    unfold btree_keys. rewrite (index_dom _ _ _ Hrel). by subst ids. }
  unfold cat. cbn [lf_index lf_file lf_start_pos]. rewrite Hti. simpl. eexists. split; [done|].
  assert (Hprint : print_instances (at_pos {| content := log_bytes ms; pos := p0 |} p0) p0
      (channel_id (co_channel opts)) infos []
    = Ok (concat (task_output ms (channel_id (co_channel opts)) <$> ids))).
  { apply (print_instances_ok (log_bytes ms) ms p0 _ ids infos []);
      [lia|by destruct (co_channel opts)|done]. }
  destruct (co_allow_unfinished opts); simpl; [done|].
  destruct (forallb (last_ended ms) ids) eqn:Hall.
  - assert (first_unfinished infos = None) as ->; [|done]. clear -Hf Hall. unfold first_unfinished.
    induction Hf as [|t kv ids infos (_ & Hfin & _) Hf IH]; simpl in *; [done|].
    apply andb_true_iff in Hall as [Ht Hall]. rewrite Hfin, Ht. simpl. auto.
  - assert (exists t, first_unfinished infos = Some t) as [t ->]; [|eauto]. clear -Hf Hall.
    unfold first_unfinished. induction Hf as [|t kv ids infos (_ & Hfin & _) Hf IH]; simpl in *; [done|].
    rewrite Hfin. destruct (last_ended ms t); simpl in *; eauto.
Qed.

