(* ===== verification/AutoAlloc.v ===== *)
(** * Automatic allocation: [src/server/autoalloc/]

    The state of the allocation queues ([state.rs]), the interface of a queue
    ([descriptor/mod.rs]) and the periodic process ([process.rs]).  A queue is a
    trait object with interior state: its methods return its next state.
    Instants are [Z]. *)

From S2P Require Import Prelude.

(** ** Data *)

(** [enum AutoAllocError] *)
Inductive AutoAllocError :=
| DescriptorAlreadyExists (name : string)
| Custom (message : string).

(** [enum AllocationStatus] *)
Inductive AllocationStatus :=
| Queued (queued_at : Z)
| Running (started_at : Z).

(** [struct Allocation] *)
Record Allocation := {
  al_id : string;
  al_worker_count : Z;
  al_status : AllocationStatus
}.

(** [enum AllocationEvent] *)
Inductive AllocationEvent :=
| QueueSuccess (id : string)
| QueueFail (e : AutoAllocError)
| StatusFail (e : AutoAllocError)
| AllocFinished (id : string).

(** [trait QueueDescriptor] *)
Class QueueDescriptor (D : Type) := {
  target_scale : D -> Z;
  max_workers_per_alloc : D -> Z;
  schedule_allocation : D -> Z -> result AutoAllocError string * D;
  get_allocation_status : D -> string -> result AutoAllocError (option AllocationStatus) * D
}.

(** [MAX_EVENT_QUEUE_LENGTH] *)
Definition MAX_EVENT_QUEUE_LENGTH : nat := 20.

Section autoalloc.
Context {D : Type} `{QueueDescriptor D} `{Profile}.

(** [struct DescriptorState]; an event is held with its date. *)
Record DescriptorState := {
  descriptor : D;
  allocations : list Allocation;
  events : list (Z * AllocationEvent)
}.

(** [From<WrappedRcRefCell<dyn QueueDescriptor>> for DescriptorState] *)
Definition DescriptorState_from (d : D) : DescriptorState :=
  {| descriptor := d; allocations := []; events := [] |}.

(** [struct AutoAllocState] *)
Record AutoAllocState := {
  refresh_interval : Z;
  descriptors : gmap string DescriptorState
}.

(** [AutoAllocState::new] *)
Definition AutoAllocState_new (refresh_interval : Z) : AutoAllocState :=
  {| refresh_interval := refresh_interval; descriptors := ∅ |}.

Definition put_descriptor (s : AutoAllocState) (name : string) (d : DescriptorState) : AutoAllocState :=
  {| refresh_interval := refresh_interval s; descriptors := <[name := d]> (descriptors s) |}.

(** [AutoAllocState::add_descriptor] *)
Definition add_descriptor (s : AutoAllocState) (name : string) (d : D)
    : result AutoAllocError AutoAllocState :=
  if bool_decide (is_Some (descriptors s !! name)) then Err (DescriptorAlreadyExists name)
  else Ok (put_descriptor s name (DescriptorState_from d)).

(** [AutoAllocState::get_descriptor] and [get_descriptor_mut] *)
Definition get_descriptor (s : AutoAllocState) (name : string) : option DescriptorState :=
  descriptors s !! name.

(** [AutoAllocState::descriptor_names] *)
Definition descriptor_names (s : AutoAllocState) : list string := elements (dom (descriptors s)).

(** [DescriptorState::add_event] *)
Definition add_event (d : DescriptorState) (now : Z) (event : AllocationEvent) : DescriptorState :=
  let queue := events d ++ [(now, event)] in
  {| descriptor := descriptor d; allocations := allocations d;
     events := if (MAX_EVENT_QUEUE_LENGTH <? length queue)%nat then tail queue else queue |}.

(** [descriptor.allocations.push(..)] *)
Definition push_allocation (d : DescriptorState) (a : Allocation) : DescriptorState :=
  {| descriptor := descriptor d; allocations := allocations d ++ [a]; events := events d |}.

Definition with_allocations (d : DescriptorState) (l : list Allocation) : DescriptorState :=
  {| descriptor := descriptor d; allocations := l; events := events d |}.

Definition with_descriptor (d : DescriptorState) (q : D) : DescriptorState :=
  {| descriptor := q; allocations := allocations d; events := events d |}.

(** ** The process *)

(** One iteration of the loop of [refresh_allocations] *)
Definition refresh_one (d : DescriptorState) (a : Allocation) (now : Z) : DescriptorState :=
  let '(result, q) := get_allocation_status (descriptor d) (al_id a) in
  let d := with_descriptor d q in
  match result with
  | Ok (Some status) =>
      push_allocation d {| al_id := al_id a; al_worker_count := al_worker_count a; al_status := status |}
  | Ok None => add_event d now (AllocFinished (al_id a))
  | Err err => add_event d now (StatusFail err)
  end.

(** The loop of [refresh_allocations]: it returns when the queue is gone *)
Fixpoint refresh_loop (name : string) (s : AutoAllocState) (l : list Allocation) (now : Z)
    : AutoAllocState :=
  match l with
  | [] => s
  | a :: rest =>
      match get_descriptor s name with
      | None => s
      | Some d => refresh_loop name (put_descriptor s name (refresh_one d a now)) rest now
      end
  end.

(** [refresh_allocations] *)
Definition refresh_allocations (name : string) (s : AutoAllocState) (now : Z) : AutoAllocState :=
  match get_descriptor s name with
  | None => s
  | Some d => refresh_loop name (put_descriptor s name (with_allocations d [])) (allocations d) now
  end.

(** One iteration of the loop of [schedule_new_allocations] *)
Definition schedule_one (d : DescriptorState) (to_schedule now : Z) : DescriptorState :=
  let '(result, q) := schedule_allocation (descriptor d) to_schedule in
  let d := with_descriptor d q in
  match result with
  | Ok id =>
      push_allocation (add_event d now (QueueSuccess id))
        {| al_id := id; al_worker_count := to_schedule; al_status := Queued now |}
  | Err err => add_event d now (QueueFail err)
  end.

(** The loop of [schedule_new_allocations]; [None]: out of fuel *)
Fixpoint schedule_loop (fuel : nat) (name : string) (s : AutoAllocState)
    (remaining max_workers_per_alloc now : Z) : option AutoAllocState :=
  match fuel with
  | O => None
  | S fuel =>
      if remaining >? 0 then
        let to_schedule := Z.min remaining max_workers_per_alloc in
        match get_descriptor s name with
        | None => Some s
        | Some d =>
            schedule_loop fuel name (put_descriptor s name (schedule_one d to_schedule now))
              (remaining - to_schedule) max_workers_per_alloc now
        end
      else Some s
  end.

(** The workers of the active allocations of a queue *)
Definition active_workers (d : DescriptorState) : outcome Z :=
  u64_sum (al_worker_count <$> allocations d).

(** [schedule_new_allocations] *)
Definition schedule_new_allocations (fuel : nat) (name : string) (s : AutoAllocState) (now : Z)
    : outcome (option AutoAllocState) :=
  match get_descriptor s name with
  | None => Ret (Some s)
  | Some d =>
      active ← active_workers d;
      let scale := target_scale (descriptor d) in
      let remaining := saturating_sub scale active in
      Ret (schedule_loop fuel name s remaining (max_workers_per_alloc (descriptor d)) now)
  end.

(** [process_descriptor] *)
Definition process_descriptor (fuel : nat) (name : string) (s : AutoAllocState) (now : Z)
    : outcome (option AutoAllocState) :=
  schedule_new_allocations fuel name (refresh_allocations name s now) now.

(** [autoalloc_tick] *)
Definition autoalloc_tick (fuel : nat) (s : AutoAllocState) (now : Z)
    : outcome (option AutoAllocState) :=
  foldM (fun o name =>
    match o with
    | Some s => process_descriptor fuel name s now
    | None => Ret None
    end) (Some s) (descriptor_names s).

(** ** Specification *)

(** The sizes of the allocations requested for [n] missing workers. *)
Fixpoint request_sizes (fuel : nat) (n m : Z) : list Z :=
  match fuel with
  | O => []
  | S fuel => if n >? 0 then Z.min n m :: request_sizes fuel (n - Z.min n m) m else []
  end.

(** The exact number of active workers. *)
Definition workers_of (d : DescriptorState) : Z := sumZ (al_worker_count <$> allocations d).

(** The queue after one request per size. *)
Definition after_requests (d : DescriptorState) (sizes : list Z) (now : Z) : DescriptorState :=
  foldl (fun d n => schedule_one d n now) d sizes.

(** The allocations whose status was read while [q] went through [l]. *)
Fixpoint refreshed (q : D) (l : list Allocation) : list Allocation :=
  match l with
  | [] => []
  | a :: rest =>
      let '(result, q) := get_allocation_status q (al_id a) in
      match result with
      | Ok (Some status) =>
          {| al_id := al_id a; al_worker_count := al_worker_count a; al_status := status |}
            :: refreshed q rest
      | _ => refreshed q rest
      end
  end.

(** The queue has at most as many workers as it had or as it should have. *)
Record queue_inv (d : DescriptorState) : Prop := {
  qi_events : (length (events d) <= MAX_EVENT_QUEUE_LENGTH)%nat;
  qi_counts : Forall (fun a => 0 <= al_worker_count a) (allocations d);
  qi_total : workers_of d < 2 ^ 64
}.

(** ** Lemmas *)

Lemma add_event_length d now e :
  (length (events d) <= MAX_EVENT_QUEUE_LENGTH)%nat ->
  (length (events (add_event d now e)) <= MAX_EVENT_QUEUE_LENGTH)%nat.
Proof.
  intros Hl. unfold add_event. simpl.
  destruct (Nat.ltb_spec MAX_EVENT_QUEUE_LENGTH (length (events d ++ [(now, e)]))); [|done].
  rewrite length_tl, length_app. simpl. lia.
Qed.

Lemma put_descriptor_twice s name d d' :
  put_descriptor (put_descriptor s name d) name d' = put_descriptor s name d'.
Proof. unfold put_descriptor. simpl. by rewrite insert_insert_eq. Qed.

Lemma put_descriptor_id s name d : get_descriptor s name = Some d -> put_descriptor s name d = s.
Proof. intros Hd. unfold put_descriptor. rewrite insert_id by done. by destruct s. Qed.

Lemma get_put s name d : get_descriptor (put_descriptor s name d) name = Some d.
Proof. apply lookup_insert_eq. Qed.

Lemma schedule_loop_spec fuel name s d n m now :
  get_descriptor s name = Some d -> 1 <= m -> n < Z.of_nat fuel ->
  (0 < fuel)%nat ->
  schedule_loop fuel name s n m now =
    Some (put_descriptor s name (after_requests d (request_sizes fuel n m) now)).
Proof.
  intros Hd Hm. revert s d n Hd. induction fuel as [|fuel IH]; intros s d n Hd Hn Hpos; [lia|].
  simpl. destruct (Z.gtb_spec n 0); [|simpl; by rewrite put_descriptor_id].
  rewrite Hd. destruct (decide (fuel = 0%nat)) as [->|]; [lia|].
  rewrite (IH _ (schedule_one d (Z.min n m) now)); [|apply get_put|lia|lia].
  by rewrite put_descriptor_twice.
Qed.

Lemma request_sizes_spec fuel n m :
  1 <= m -> 0 <= n < Z.of_nat fuel ->
  sumZ (request_sizes fuel n m) = n /\ Forall (fun x => 1 <= x <= m) (request_sizes fuel n m).
Proof.
  intros Hm. revert n. induction fuel as [|fuel IH]; intros n Hn; [lia|]. simpl.
  destruct (Z.gtb_spec n 0); simpl; [|split; [lia|constructor]].
  destruct (decide (n - Z.min n m = 0)) as [Hz|].
  - rewrite Hz. assert (request_sizes fuel 0 m = []) as -> by (by destruct fuel).
    simpl. split; [lia|]. repeat constructor; lia.
  - destruct (IH (n - Z.min n m)) as [Hs Hf]; [lia|]. split; [lia|]. constructor; [lia|done].
Qed.

Lemma schedule_one_workers d n now :
  1 <= n -> queue_inv d -> workers_of d + n < 2 ^ 64 ->
  queue_inv (schedule_one d n now) /\
  (workers_of (schedule_one d n now) = workers_of d + n \/
   (exists e, (schedule_allocation (descriptor d) n).1 = Err e) /\
   workers_of (schedule_one d n now) = workers_of d) /\
  (forall id, (schedule_allocation (descriptor d) n).1 = Ok id ->
   workers_of (schedule_one d n now) = workers_of d + n).
Proof.
  intros Hn [He Hc Ht] Hlt. unfold schedule_one.
  destruct (schedule_allocation (descriptor d) n) as [[id|e] q]; simpl.
  - assert (Hw : forall d', allocations d' = allocations d ->
      workers_of (push_allocation d' {| al_id := id; al_worker_count := n; al_status := Queued now |})
        = workers_of d + n).
    { intros d' Hd'. unfold workers_of, push_allocation. simpl.
      rewrite Hd', fmap_app, sumZ_app. simpl. lia. }
    assert (Hq : forall d', allocations d' = allocations d ->
      (length (events d') <= MAX_EVENT_QUEUE_LENGTH)%nat ->
      queue_inv (push_allocation d' {| al_id := id; al_worker_count := n; al_status := Queued now |})).
    { intros d' Hd' Hle. split; simpl; [done| |by rewrite Hw].
      rewrite Hd'. apply Forall_app. split; [done|]. repeat constructor. simpl. lia. }
    split_and!; [apply Hq; [done|by apply add_event_length]|left; by apply Hw|intros; by apply Hw].
  - split_and!; [|right; split; [eauto|done]|done]. split; simpl; [by apply add_event_length|done..].
Qed.

Lemma schedule_one_descriptor d n now :
  descriptor (schedule_one d n now) = (schedule_allocation (descriptor d) n).2.
Proof. unfold schedule_one. by destruct (schedule_allocation (descriptor d) n) as [[id|e] q]. Qed.

Lemma refresh_one_descriptor d a now :
  descriptor (refresh_one d a now) = (get_allocation_status (descriptor d) (al_id a)).2.
Proof. unfold refresh_one. by destruct (get_allocation_status (descriptor d) (al_id a)) as [[[status|]|e] q]. Qed.

(** [W]: what the queue is, while its methods are called. *)
Lemma after_requests_workers (W : D -> Prop) d sizes now :
  (forall q n, W q -> W (schedule_allocation q n).2) ->
  queue_inv d -> Forall (fun x => 1 <= x) sizes -> workers_of d + sumZ sizes < 2 ^ 64 ->
  queue_inv (after_requests d sizes now) /\
  workers_of d <= workers_of (after_requests d sizes now) <= workers_of d + sumZ sizes /\
  (W (descriptor d) -> (forall q n, W q -> exists id, (schedule_allocation q n).1 = Ok id) ->
   workers_of (after_requests d sizes now) = workers_of d + sumZ sizes).
Proof.
  intros HW Hq Hs. revert d Hq. induction Hs as [|n sizes Hn Hs IH]; intros d Hq Hlt; simpl in *.
  { split_and!; [done|lia..]. }
  pose proof (sumZ_nonneg sizes (Forall_impl _ _ _ Hs (fun x Hx => Z.le_trans 0 1 x ltac:(lia) Hx))) as Hnn.
  destruct (schedule_one_workers d n now Hn Hq ltac:(lia)) as (Hq1 & Hw & Hok).
  assert (Hle : workers_of d <= workers_of (schedule_one d n now) <= workers_of d + n)
    by (destruct Hw as [|[_ ?]]; lia).
  destruct (IH (schedule_one d n now) Hq1 ltac:(lia)) as (Hq2 & Hw2 & Hok2).
  split_and!; [done|lia|lia|]. intros Hd Hall. destruct (Hall (descriptor d) n Hd) as [id Hid].
  rewrite Hok2; [rewrite (Hok id Hid); lia| |done]. rewrite schedule_one_descriptor. auto.
Qed.

Lemma refresh_loop_spec name s d l now :
  get_descriptor s name = Some d ->
  refresh_loop name s l now = put_descriptor s name (foldl (fun d a => refresh_one d a now) d l).
Proof.
  revert s d. induction l as [|a l IH]; intros s d Hd; simpl; [by rewrite put_descriptor_id|].
  rewrite Hd, (IH _ (refresh_one d a now)) by apply get_put. by rewrite put_descriptor_twice.
Qed.

Lemma refresh_fold d l now :
  allocations (foldl (fun d a => refresh_one d a now) d l) = allocations d ++ refreshed (descriptor d) l.
Proof.
  revert d. induction l as [|a l IH]; intros d; simpl; [by rewrite app_nil_r|].
  rewrite IH. unfold refresh_one.
  destruct (get_allocation_status (descriptor d) (al_id a)) as [[[status|]|e] q]; simpl;
    by rewrite <- ?app_assoc.
Qed.

Lemma refresh_fold_events d l now :
  (length (events d) <= MAX_EVENT_QUEUE_LENGTH)%nat ->
  (length (events (foldl (fun d a => refresh_one d a now) d l)) <= MAX_EVENT_QUEUE_LENGTH)%nat.
Proof.
  revert d. induction l as [|a l IH]; intros d Hd; simpl; [done|]. apply IH. unfold refresh_one.
  destruct (get_allocation_status _ _) as [[[status|]|e] q]; simpl; [done|by apply add_event_length..].
Qed.

Lemma refreshed_counts q l :
  Forall (fun a => 0 <= al_worker_count a) l ->
  Forall (fun a => 0 <= al_worker_count a) (refreshed q l) /\
  sumZ (al_worker_count <$> refreshed q l) <= sumZ (al_worker_count <$> l).
Proof.
  intros Hl. revert q. induction Hl as [|a l Ha Hl IH]; intros q; csimpl; [split; [constructor|lia]|].
  destruct (get_allocation_status q (al_id a)) as [[[status|]|e] q']; csimpl;
    destruct (IH q') as [H1 H2]; (split; [by try constructor|lia]).
Qed.

(** ** Properties *)

(** A queue with the name of an existing queue is refused and the state is
    kept; a new queue starts without allocations and events, and the other
    queues stay. *)
Theorem add_descriptor_spec s name d :
  match add_descriptor s name d with
  | Ok s' => descriptors s !! name = None /\ get_descriptor s' name = Some (DescriptorState_from d) /\
      forall name', name' <> name -> get_descriptor s' name' = get_descriptor s name'
  | Err e => e = DescriptorAlreadyExists name /\ is_Some (descriptors s !! name)
  end.
Proof.
  unfold add_descriptor. case_bool_decide as Hs; [done|]. apply eq_None_not_Some in Hs.
  split_and!; [done|apply get_put|]. intros name' Hne. by apply lookup_insert_ne.
Qed.

(** One round of a queue that accepts at least one worker per allocation
    terminates: after the refresh, workers are requested in allocations of the
    maximal size, the last one smaller, that add up to the missing workers; the
    number of workers never exceeds the target unless it did before, it reaches
    the target when all requests succeed, and at most 20 events are kept. *)
Theorem process_descriptor_reaches_target (W : D -> Prop) fuel name s d now :
  (forall q n, W q -> W (schedule_allocation q n).2) ->
  get_descriptor s name = Some d -> queue_inv d ->
  let d1 := foldl (fun d a => refresh_one d a now) (with_allocations d []) (allocations d) in
  let scale := target_scale (descriptor d1) in
  let m := max_workers_per_alloc (descriptor d1) in
  is_u64 scale -> 1 <= m -> scale < Z.of_nat fuel ->
  exists d2, process_descriptor fuel name s now = Ret (Some (put_descriptor s name d2)) /\
    d2 = after_requests d1 (request_sizes fuel (saturating_sub scale (workers_of d1)) m) now /\
    queue_inv d2 /\ workers_of d2 <= Z.max scale (workers_of d1) /\
    (W (descriptor d1) -> (forall q n, W q -> exists id, (schedule_allocation q n).1 = Ok id) ->
     workers_of d2 = Z.max scale (workers_of d1)).
Proof.
  intros HW Hd [He Hc Ht] d1 scale m Hscale Hm Hf.
  destruct (refreshed_counts (descriptor d) (allocations d) Hc) as [Hc1 Hle].
  assert (Ha1 : allocations d1 = refreshed (descriptor d) (allocations d))
    by (unfold d1; by rewrite refresh_fold).
  assert (Hq1 : queue_inv d1).
  { split; [by apply refresh_fold_events|by rewrite Ha1|].
    unfold workers_of in *. rewrite Ha1. lia. }
  assert (0 <= workers_of d1).
  { apply sumZ_nonneg, Forall_fmap. eapply Forall_impl; [apply Hq1|]. simpl. lia. }
  set (n := saturating_sub scale (workers_of d1)). unfold saturating_sub, is_u64 in *.
  assert (Hn : 0 <= n < Z.of_nat fuel) by lia.
  destruct (request_sizes_spec fuel n m Hm Hn) as [Hsum Hsizes].
  destruct (after_requests_workers W d1 (request_sizes fuel n m) now HW Hq1) as (Hq2 & Hw & Hok).
  { eapply Forall_impl; [exact Hsizes|]. simpl. lia. }
  { pose proof (qi_total _ Hq1). lia. }
  exists (after_requests d1 (request_sizes fuel n m) now). split_and!; [|done|done|lia|].
  - unfold process_descriptor, refresh_allocations. rewrite Hd.
    rewrite (refresh_loop_spec _ _ (with_allocations d [])) by apply get_put.
    rewrite put_descriptor_twice. fold d1. unfold schedule_new_allocations. rewrite get_put.
    unfold active_workers. rewrite u64_sum_exact; [|apply Forall_fmap; apply Hq1|apply Hq1]. simpl.
    fold (workers_of d1). fold scale. fold m. unfold saturating_sub. fold n.
    rewrite (schedule_loop_spec _ _ _ d1) by (apply get_put || lia). by rewrite put_descriptor_twice.
  - intros Hd1 Hall. rewrite Hok by done. lia.
Qed.

(** A refresh keeps exactly the allocations whose status could be read and
    that are queued or running, in order and with their worker counts; an
    allocation that ended or whose status request failed is dropped with an
    event. *)
Theorem refresh_keeps_active name s d now :
  get_descriptor s name = Some d ->
  exists d', refresh_allocations name s now = put_descriptor s name d' /\
    allocations d' = refreshed (descriptor d) (allocations d) /\
    ((length (events d) <= MAX_EVENT_QUEUE_LENGTH)%nat ->
     (length (events d') <= MAX_EVENT_QUEUE_LENGTH)%nat).
Proof.
  intros Hd. unfold refresh_allocations. rewrite Hd.
  rewrite (refresh_loop_spec _ _ (with_allocations d [])) by apply get_put.
  rewrite put_descriptor_twice. eexists. split; [done|]. split; [by rewrite refresh_fold|].
  intros Hl. by apply refresh_fold_events.
Qed.

(** A queue that allows no worker per allocation makes the process loop
    forever as soon as a worker is missing: no number of iterations is enough. *)
Theorem schedule_diverges_without_capacity fuel name s d now n :
  get_descriptor s name = Some d -> 0 < n -> schedule_loop fuel name s n 0 now = None.
Proof.
  intros Hd Hn. revert s d Hd. induction fuel as [|fuel IH]; intros s d Hd; simpl; [done|].
  destruct (Z.gtb_spec n 0); [|lia]. rewrite Hd. rewrite Z.min_r, Z.sub_0_r by lia.
  by apply (IH _ (schedule_one d 0 now)), get_put.
Qed.

End autoalloc.
