(* ===== verification/AutoAllocRun.v ===== *)
(** * Automatic allocation over time

    [autoalloc_process] of [src/server/autoalloc/process.rs] ticks forever, over all
    queues; between two ticks queues are added ([state.rs]), and the batch system
    behind a queue goes on.  The theorem is about whole runs with any number of
    queues. *)

From S2P Require Import Prelude AutoAlloc.

(** ** Runs *)

Section run.
Context {D : Type} `{QueueDescriptor D} `{Profile}.

(** What happens: the interval of [autoalloc_process] ticks, a queue is added, or the
    state behind the trait object of a queue changes. *)
Inductive AllocationStep :=
| Tick (now : Z)
| AddQueue (name : string) (d : D)
| QueueChanges (name : string) (d : D).

Definition queue_changes (s : AutoAllocState) (name : string) (q : D) : AutoAllocState :=
  match get_descriptor s name with
  | Some d => put_descriptor s name (with_descriptor d q)
  | None => s
  end.

(** One event; [None]: the loop of a tick did not end within the fuel.  An addition that
    is refused leaves the state as it is. *)
Definition autoalloc_step (fuel : nat) (o : option AutoAllocState) (e : AllocationStep) :
    outcome (option AutoAllocState) :=
  match o, e with
  | None, _ => Ret None
  | Some s, Tick now => autoalloc_tick fuel s now
  | Some s, AddQueue name d =>
      Ret (Some match add_descriptor s name d with Ok s' => s' | Err _ => s end)
  | Some s, QueueChanges name q => Ret (Some (queue_changes s name q))
  end.

(** [autoalloc_process], from a new state *)
Definition autoalloc_process (fuel : nat) (refresh_interval : Z) (es : list AllocationStep) :
    outcome (option AutoAllocState) :=
  foldM (autoalloc_step fuel) (Some (AutoAllocState_new refresh_interval)) es.

End run.
Arguments AllocationStep D : clear implicits.

(** What a queue promises: whatever its methods do, it keeps accepting at least one
    worker per allocation, and does not want more workers than its target. *)
Class QueueLaws (D : Type) `{QueueDescriptor D} (accepts : string -> D -> Prop) (target : string -> Z) := {
  law_capacity name q : accepts name q -> 1 <= max_workers_per_alloc q;
  law_scale name q : accepts name q -> 0 <= target_scale q <= target name;
  law_schedule name q n : accepts name q -> accepts name (schedule_allocation q n).2;
  law_status name q id : accepts name q -> accepts name (get_allocation_status q id).2
}.

Section laws.
Context {D : Type} `{QueueDescriptor D} `{Profile}.
Context (accepts : string -> D -> Prop) (target : string -> Z) `{!QueueLaws D accepts target}.
(** Targets are machine integers, and smaller than the fuel. *)
Context (fuel : nat) (target_small : forall name, target name < 2 ^ 64 /\ target name < Z.of_nat fuel).

(** Added and changed queues keep the promise. *)
Definition keeps_promise (e : AllocationStep D) : Prop :=
  match e with
  | Tick _ => True
  | AddQueue name q | QueueChanges name q => accepts name q
  end.

(** Every queue wants exactly its target, and every request for workers succeeds. *)
Definition always_granted : Prop :=
  forall name q, accepts name q ->
    target_scale q = target name /\ forall n, exists id, (schedule_allocation q n).1 = Ok id.

(** ** Invariant *)

Record queue_ok (name : string) (d : DescriptorState) : Prop := {
  qo_inv : queue_inv d;
  qo_accepts : accepts name (descriptor d);
  qo_workers : workers_of d <= target name
}.

Definition queues_ok (s : AutoAllocState) : Prop :=
  forall name d, get_descriptor s name = Some d -> queue_ok name d.

(** ** Lemmas *)

Lemma refresh_accepts name d l now :
  accepts name (descriptor d) -> accepts name (descriptor (foldl (fun d a => refresh_one d a now) d l)).
Proof.
  revert d. induction l as [|a l IH]; intros d Hd; simpl; [done|]. apply IH.
  rewrite refresh_one_descriptor. by apply law_status.
Qed.

Lemma requests_accept name d sizes now :
  accepts name (descriptor d) -> accepts name (descriptor (after_requests d sizes now)).
Proof.
  unfold after_requests. revert d. induction sizes as [|n sizes IH]; intros d Hd; simpl; [done|]. apply IH.
  rewrite schedule_one_descriptor. by apply law_schedule.
Qed.

Lemma refresh_workers d now :
  queue_inv d ->
  workers_of (foldl (fun d a => refresh_one d a now) (with_allocations d []) (allocations d)) <= workers_of d.
Proof.
  intros Hd. unfold workers_of at 1. rewrite refresh_fold.
  by destruct (refreshed_counts (descriptor d) (allocations d) (qi_counts _ Hd)).
Qed.

Lemma process_ok name s d now :
  get_descriptor s name = Some d -> queue_ok name d ->
  exists d', process_descriptor fuel name s now = Ret (Some (put_descriptor s name d')) /\
    queue_ok name d' /\ (always_granted -> workers_of d' = target name).
Proof.
  intros Hd [Hinv Hacc Hw]. pose proof (refresh_workers d now Hinv) as Hle.
  set (d1 := foldl (fun d a => refresh_one d a now) (with_allocations d []) (allocations d)) in *.
  assert (Ha1 : accepts name (descriptor d1)) by by apply refresh_accepts.
  pose proof (law_scale name _ Ha1) as Hs. pose proof (target_small name) as [Ht Hf].
  destruct (process_descriptor_reaches_target (accepts name) fuel name s d now) as (d' & Hp & Hd' & Hq & Hmax & Hall).
  - intros. by apply law_schedule.
  - done.
  - done.
  - fold d1. unfold is_u64. lia.
  - fold d1. by eapply law_capacity.
  - fold d1. lia.
  - fold d1 in Hd', Hmax, Hall. exists d'. split; [done|]. split.
    + split; [done| |lia]. rewrite Hd'. by apply requests_accept.
    + intros Hg. rewrite Hall; [|done|intros q n Hq'; by destruct (Hg name q Hq') as [_ Hok]].
      destruct (Hg name _ Ha1) as [-> _]. lia.
Qed.

(** The queues that were processed have their workers, the others are as before. *)
Lemma tick_ok names s now :
  NoDup names -> queues_ok s -> (forall name, name ∈ names -> is_Some (get_descriptor s name)) ->
  exists s', foldM (fun o name => match o with Some s => process_descriptor fuel name s now | None => Ret None end)
      (Some s) names = Ret (Some s') /\ queues_ok s' /\
    (forall name, name ∉ names -> get_descriptor s' name = get_descriptor s name) /\
    (always_granted -> forall name d, name ∈ names -> get_descriptor s' name = Some d ->
     workers_of d = target name).
Proof.
  intros Hnd. revert s. induction Hnd as [|name names Hnin Hnd IH]; intros s Hs Hin; simpl.
  { exists s. split_and!; [done..|]. intros _ name d Hn. by apply elem_of_nil in Hn. }
  destruct (Hin name) as [d Hd]; [by left|].
  destruct (process_ok name s d now Hd (Hs _ _ Hd)) as (d' & -> & Hd' & Hg). simpl.
  assert (Hne : forall k, k <> name -> get_descriptor (put_descriptor s name d') k = get_descriptor s k)
    by (intros; by apply lookup_insert_ne).
  destruct (IH (put_descriptor s name d')) as (s' & -> & Hs' & Hother & Hall).
  { intros k e He. destruct (decide (k = name)) as [->|Hk].
    - rewrite get_put in He. by injection He as <-.
    - rewrite Hne in He by done. by apply Hs. }
  { intros k Hk. rewrite Hne by (intros ->; done). apply Hin. by right. }
  exists s'. split_and!; [done..| |].
  - intros k [Hk Hk']%not_elem_of_cons. rewrite Hother, Hne by done. done.
  - intros Hgr k e [->|Hk]%elem_of_cons He; [|by apply (Hall Hgr k)].
    rewrite Hother, get_put in He by done. injection He as <-. by apply Hg.
Qed.

Lemma new_queue_ok name q : accepts name q -> queue_ok name (DescriptorState_from q).
Proof.
  intros Hq. pose proof (law_scale _ _ Hq). split; [split|done|];
    [simpl; unfold MAX_EVENT_QUEUE_LENGTH; lia|constructor|done|unfold workers_of; simpl; lia].
Qed.

Lemma changed_queue_ok name d q : accepts name q -> queue_ok name d -> queue_ok name (with_descriptor d q).
Proof. intros Hq [[He Hc Ht] _ Hw]. by split; [split|..]. Qed.

Lemma put_queues_ok s name d : queues_ok s -> queue_ok name d -> queues_ok (put_descriptor s name d).
Proof.
  intros Hs Hd k e He. destruct (decide (k = name)) as [->|Hk].
  - rewrite get_put in He. by injection He as <-.
  - apply Hs. rewrite <- He. symmetry. by apply lookup_insert_ne.
Qed.

Lemma allocation_step_ok s e :
  queues_ok s -> keeps_promise e ->
  exists s', autoalloc_step fuel (Some s) e = Ret (Some s') /\ queues_ok s' /\
    (match e with Tick _ => always_granted | _ => False end ->
     forall name d, get_descriptor s' name = Some d -> workers_of d = target name).
Proof.
  intros Hs He. destruct e as [now|name q|name q]; simpl in *.
  - destruct (tick_ok (descriptor_names s) s now) as (s' & Hr & Hs' & Hother & Hall); [apply NoDup_elements|done| |].
    { intros name. unfold descriptor_names. by rewrite elem_of_elements, elem_of_dom. }
    exists s'. split_and!; [done..|]. intros Hg name d Hd. apply (Hall Hg name); [|done].
    unfold descriptor_names. rewrite elem_of_elements, elem_of_dom.
    destruct (decide (name ∈ descriptor_names s)) as [Hin|Hnin].
    + unfold descriptor_names in Hin. by rewrite elem_of_elements, elem_of_dom in Hin.
    + pose proof (Hother name Hnin) as Ho. rewrite Hd in Ho. by exists d.
  - eexists. split_and!; [done| |done]. unfold add_descriptor. case_bool_decide; [done|].
    apply put_queues_ok; [done|by apply new_queue_ok].
  - eexists. split_and!; [done| |done]. unfold queue_changes.
    destruct (get_descriptor s name) as [d|] eqn:Hd; [|done].
    apply put_queues_ok; [done|]. by apply changed_queue_ok, Hs.
Qed.

Lemma allocation_run_ok s es :
  queues_ok s -> Forall keeps_promise es ->
  exists s', foldM (autoalloc_step fuel) (Some s) es = Ret (Some s') /\ queues_ok s'.
Proof.
  intros Hs Hes. revert s Hs. induction Hes as [|e es He _ IH]; intros s Hs; cbn [foldM]; [eauto|].
  destruct (allocation_step_ok s e Hs He) as (s1 & -> & Hs1 & _). by apply IH.
Qed.

(** ** The theorem *)

(** C17: automatic allocation never stops and never allocates too much: for any number
    of queues, whatever happens in whatever order, every tick ends without a panic, the
    allocations that a queue keeps never have more workers than its target, and it
    keeps at most 20 events; after a tick, when the batch system grants the requests,
    every queue has exactly as many workers as its target. *)
Theorem autoalloc_keeps_targets refresh_interval es :
  Forall keeps_promise es ->
  exists s, autoalloc_process fuel refresh_interval es = Ret (Some s) /\
    (forall name d, get_descriptor s name = Some d ->
       workers_of d <= target name /\ (length (events d) <= MAX_EVENT_QUEUE_LENGTH)%nat) /\
    (forall now, always_granted -> exists s',
       autoalloc_process fuel refresh_interval (es ++ [Tick now]) = Ret (Some s') /\
       forall name d, get_descriptor s' name = Some d -> workers_of d = target name).
Proof.
  intros Hes. unfold autoalloc_process.
  destruct (allocation_run_ok (AutoAllocState_new refresh_interval) es) as (s & Hr & Hs); [done|done|].
  exists s. split_and!; [done| |].
  - intros name d Hd. destruct (Hs name d Hd) as [[? ? ?] ? ?]. done.
  - intros now Hg. destruct (allocation_step_ok s (Tick now) Hs I) as (s' & Hst & _ & Hall).
    exists s'. split; [|by apply Hall]. rewrite foldM_app, Hr. cbn [foldM mbind outcome_bind]. by rewrite Hst.
Qed.

End laws.
