(* ===== verification/Launcher.v ===== *)
(** * The task launcher of a worker: [src/worker/start.rs]

    What a worker does with a task: the program of the task body is completed
    (pinning, environment, placeholders).  The chunks in which the output of a program
    is resent are defined here; its run is in [TaskRun.v].  The process, the clock and
    the file system are arguments.  Paths and environment values are UTF-8 texts. *)

From S2P Require Import Prelude ArrayDef Messages Client Nom StreamServer Streamer.

(** ** Environment variables ([src/common/env.rs]) *)

Definition HQ_INSTANCE_ID : string := "HQ_INSTANCE_ID".
Definition HQ_PIN : string := "HQ_PIN".
Definition HQ_CPUS : string := "HQ_CPUS".

(** ** Directories of output files *)

(** The pieces of a path from its end, without the last ones that are no components: the
    empty ones, and the current directory except at the start of a relative path. *)
Fixpoint trim_pieces (root : bool) (pieces : list string) : list string :=
  match pieces with
  | [] => []
  | p :: rest =>
      if String.eqb p "" || String.eqb p "." && (root || negb (bool_decide (rest = [])))
      then trim_pieces root rest else pieces
  end.

(** [Path::parent] *)
Definition path_parent (path : string) : option string :=
  let '(root, body) := match path with String "/" body => (true, body) | _ => (false, path) end in
  match trim_pieces root (rev (split_on "/" body)) with
  | [] => None
  | _ :: rest => Some ((if root then "/" else "") +:+ String.concat "/" (rev (trim_pieces root rest)))
  end.

(** [create_directory_if_needed]; [create_dir_all] is [std::fs::create_dir_all]. *)
Definition create_directory_if_needed (create_dir_all : string -> result string unit) (file : StdioDef) :
    result string unit :=
  match file with
  | StdioFile path =>
      match path_parent path with
      | Some path => create_dir_all path
      | None => Ok tt
      end
  | _ => Ok tt
  end.

(** ** Placeholders *)

(** [str::replace]: the occurrences of [pat] from left to right.  [fuel] bounds
    the length of the text. *)
Fixpoint str_replace (fuel : nat) (pat rep s : string) : string :=
  match fuel with
  | O => s
  | S fuel =>
      match strip_prefix pat s with
      | Some rest => rep +:+ str_replace fuel pat rep rest
      | None =>
          match s with
          | EmptyString => ""
          | String c s' => String c (str_replace fuel pat rep s')
          end
      end
  end.

Definition replace (pat rep s : string) : string := str_replace (S (String.length s)) pat rep s.

Section placeholders.
(** The iteration order of the map of placeholders, the current time, and the
    current directory. *)
Context (iter : gmap string string -> list (string * string)).
Context (date : string) (current_dir : option string).
(** [StdioDef::map_filename] of [tako]. *)
Context (map_filename : (string -> string) -> StdioDef -> StdioDef).

(** The closure [replace] of [replace_placeholders]. *)
Definition replace_path (replacement_map : gmap string string) (path : string) : string :=
  foldl (fun result kv => replace kv.1 kv.2 result) path (iter replacement_map).

(** [replace_placeholders] *)
Definition replace_placeholders (program : ProgramDefinition) : outcome ProgramDefinition :=
  submit_dir ← unwrap (pd_env program !! HQ_SUBMIT_DIR);
  job_id ← unwrap (pd_env program !! HQ_JOB_ID);
  task_id ← unwrap (pd_env program !! HQ_TASK_ID);
  instance_id ← unwrap (pd_env program !! HQ_INSTANCE_ID);
  let placeholder_map :=
    <["%{DATE}" := date]> (<["%{SUBMIT_DIR}" := submit_dir]>
      (<["%{INSTANCE_ID}" := instance_id]> (<["%{TASK_ID}" := task_id]>
        (<["%{JOB_ID}" := job_id]> ∅)))) in
  cwd ← match pd_cwd program with
        | Some cwd => Ret (path_join submit_dir (replace_path placeholder_map cwd))
        | None => unwrap current_dir
        end;
  let placeholder_map := <["%{CWD}" := cwd]> placeholder_map in
  let f path := path_join submit_dir (replace_path placeholder_map path) in
  Ret {| pd_args := pd_args program; pd_env := pd_env program;
         pd_stdout := map_filename f (pd_stdout program);
         pd_stderr := map_filename f (pd_stderr program); pd_cwd := Some cwd |}.

(** ** Preparing a task *)

(** [pin_program] of [tako], and the creation of directories. *)
Context (pin_program : ProgramDefinition -> ProgramDefinition).
Context (create_dir_all : string -> result string unit).

(** [program.env.insert] *)
Definition insert_env (k v : string) (p : ProgramDefinition) : ProgramDefinition :=
  {| pd_args := pd_args p; pd_env := <[k := v]> (pd_env p); pd_stdout := pd_stdout p;
     pd_stderr := pd_stderr p; pd_cwd := pd_cwd p |}.

(** [launcher_main], up to [run_task]: the program of the task.  [cpus] are the
    allocated CPUs as a text ([comma_delimited_cpu_ids]). *)
Definition launcher_main (body : TaskBody) (cpus : string) (instance_id : Z) :
    outcome (result string ProgramDefinition) :=
  let program := tb_program body in
  let program := if tb_pin body then insert_env HQ_PIN "1" (pin_program program) else program in
  let program := insert_env HQ_CPUS cpus program in
  let program := insert_env HQ_INSTANCE_ID (to_string instance_id) program in
  program ← replace_placeholders program;
  Ret (_ ← create_directory_if_needed create_dir_all (pd_stdout program);
       _ ← create_directory_if_needed create_dir_all (pd_stderr program);
       mret program).

End placeholders.

(** ** Running a task *)

Definition STDIO_BUFFER_SIZE : Z := 16 * 1024.

(** [resend_stdio] on the results of the reads of a pipe: the chunks that are
    sent; the loop ends at the first empty read. *)
Fixpoint resend_stdio (reads : list (list Z)) : list (list Z) :=
  match reads with
  | [] => []
  | [] :: _ => []
  | buffer :: reads' => buffer :: resend_stdio reads'
  end.

(** Two sequences of actions of concurrent futures, interleaved. *)
Inductive interleaving {A} : list A -> list A -> list A -> Prop :=
| interleaving_nil : interleaving [] [] []
| interleaving_left x l1 l2 l : interleaving l1 l2 l -> interleaving (x :: l1) l2 (x :: l)
| interleaving_right x l1 l2 l : interleaving l1 l2 l -> interleaving l1 (x :: l2) (x :: l).

(** The messages a task sends through its [StreamSender]: [run_task] starts the
    stream, resends both pipes concurrently, and closes the stream. *)
Definition run_task_messages (task instance : Z) (out err : list (list Z))
    (ms : list FromStreamerMessage) : Prop :=
  exists data,
    interleaving (MData task instance 0 <$> resend_stdio out)
      (MData task instance 1 <$> resend_stdio err) data /\
    ms = MStart task instance :: data ++ [MEnd task instance].

(** [i32::to_string] *)
Definition show_int (z : Z) : string :=
  if z <? 0 then "-" +:+ to_string (- z) else to_string z.

(** ** Replacement as substitution *)

#[local] Arguments String.append !_ _ /.

(** The first placeholder at the start of a text, its value and the rest. *)
Fixpoint find_placeholder (l : list (string * string)) (s : string) : option (string * string) :=
  match l with
  | [] => None
  | (p, v) :: l' =>
      match strip_prefix p s with
      | Some rest => Some (v, rest)
      | None => find_placeholder l' s
      end
  end.

(** All placeholders are replaced at once, from left to right; values are not
    read again. *)
Fixpoint substitute (fuel : nat) (l : list (string * string)) (s : string) : string :=
  match fuel with
  | O => s
  | S fuel =>
      match find_placeholder l s with
      | Some (v, rest) => v +:+ substitute fuel l rest
      | None =>
          match s with
          | EmptyString => ""
          | String c s' => String c (substitute fuel l s')
          end
      end
  end.

Definition expand (l : list (string * string)) (s : string) : string :=
  substitute (S (String.length s)) l s.

Definition is_percent (c : ascii) : bool := (nat_of_ascii c =? 37)%nat.

(** The characters of a placeholder after its percent sign: capital letters,
    underscores and braces. *)
Definition placeholder_char (c : ascii) : bool :=
  let n := nat_of_ascii c in
  ((65 <=? n) && (n <=? 90))%nat || (n =? 95)%nat || (n =? 123)%nat || (n =? 125)%nat.

(** A percent sign followed by placeholder characters. *)
Definition placeholder (p : string) : Prop :=
  exists c p', p = String c p' /\ is_percent c = true /\ str_all placeholder_char p' = true.

(** A value that does not take part in the placeholders of its surroundings: it
    has no percent sign and starts with another character. *)
Definition value_ok (v : string) : Prop :=
  match v with
  | EmptyString => False
  | String c _ => placeholder_char c = false
  end /\ str_all (fun c => negb (is_percent c)) v = true.

(** No key is a proper prefix of another one. *)
Definition prefix_free (l : list (string * string)) : Prop :=
  forall p q u, p ∈ l.*1 -> q ∈ l.*1 -> q = p +:+ u -> p = q.

Definition replacements_ok (l : list (string * string)) : Prop :=
  Forall (fun kv => placeholder kv.1 /\ value_ok kv.2) l /\ prefix_free l.

(** *** Lemmas *)

Lemma strip_prefix_app p s : strip_prefix p (p +:+ s) = Some s.
Proof. by apply strip_prefix_Some. Qed.

Lemma strip_prefix_length p s rest :
  strip_prefix p s = Some rest -> String.length s = (String.length p + String.length rest)%nat.
Proof. intros ->%strip_prefix_Some. apply length_app_str. Qed.

Lemma placeholder_length p : placeholder p -> (0 < String.length p)%nat.
Proof. intros (c & p' & -> & _). simpl. lia. Qed.

Lemma find_placeholder_length l s v rest :
  Forall (fun kv => placeholder kv.1 /\ value_ok kv.2) l ->
  find_placeholder l s = Some (v, rest) -> (String.length rest < String.length s)%nat.
Proof.
  induction 1 as [|[p w] l [Hp _] _ IH]; simpl; [done|].
  destruct (strip_prefix p s) as [r|] eqn:Hs; [|done]. intros [= <- <-].
  apply strip_prefix_length in Hs. apply placeholder_length in Hp. simpl in Hp. lia.
Qed.

(** Fuel above the length of the text is enough. *)
Lemma str_replace_fuel n m p v s :
  placeholder p -> (String.length s < n)%nat -> (String.length s < m)%nat ->
  str_replace n p v s = str_replace m p v s.
Proof.
  intros Hp. apply placeholder_length in Hp. revert m s.
  induction n as [|n IH]; intros [|m] s Hn Hm; [lia..|]. simpl.
  destruct (strip_prefix p s) as [rest|] eqn:Hs.
  - apply strip_prefix_length in Hs. f_equal. apply IH; lia.
  - destruct s; simpl in *; [done|]. f_equal. apply IH; lia.
Qed.

Lemma substitute_fuel n m l s :
  Forall (fun kv => placeholder kv.1 /\ value_ok kv.2) l ->
  (String.length s < n)%nat -> (String.length s < m)%nat ->
  substitute n l s = substitute m l s.
Proof.
  intros Hl. revert m s. induction n as [|n IH]; intros [|m] s Hn Hm; [lia..|]. simpl.
  destruct (find_placeholder l s) as [[v rest]|] eqn:Hs.
  - apply find_placeholder_length in Hs; [|done]. f_equal. apply IH; lia.
  - destruct s; simpl in *; [done|]. f_equal. apply IH; lia.
Qed.

Section equations.
Context (l : list (string * string)).
Context (l_ok : Forall (fun kv => placeholder kv.1 /\ value_ok kv.2) l).

Lemma replace_here p v rest : placeholder p -> replace p v (p +:+ rest) = v +:+ replace p v rest.
Proof.
  intros Hp. unfold replace at 1. cbn [str_replace]. rewrite strip_prefix_app. f_equal.
  apply str_replace_fuel; [done| |lia]. rewrite length_app_str.
  apply placeholder_length in Hp. lia.
Qed.

Lemma replace_skip p v c s :
  strip_prefix p (String c s) = None -> replace p v (String c s) = String c (replace p v s).
Proof. intros Hs. unfold replace. cbn [str_replace]. rewrite Hs. done. Qed.

Lemma expand_here s v rest : find_placeholder l s = Some (v, rest) -> expand l s = v +:+ expand l rest.
Proof.
  intros Hs. unfold expand at 1. cbn [substitute]. rewrite Hs. f_equal.
  apply find_placeholder_length in Hs; [|done]. apply substitute_fuel; [done|lia|lia].
Qed.

Lemma expand_skip c s :
  find_placeholder l (String c s) = None -> expand l (String c s) = String c (expand l s).
Proof. intros Hs. unfold expand. cbn [substitute]. rewrite Hs. done. Qed.

(** A placeholder starts with a percent sign. *)
Lemma strip_prefix_percent p c s :
  placeholder p -> is_percent c = false -> strip_prefix p (String c s) = None.
Proof.
  intros (d & p' & -> & Hd & _) Hc. simpl. destruct (Ascii.eqb_spec d c) as [->|]; congruence.
Qed.

Lemma find_placeholder_percent c s :
  is_percent c = false -> find_placeholder l (String c s) = None.
Proof.
  intros Hc. induction l_ok as [|[p v] k [Hp _] _ IH]; cbn [find_placeholder]; [done|].
  inversion l_ok; subst. rewrite (strip_prefix_percent p c s); auto.
Qed.

(** Nothing is replaced inside a value. *)
Lemma expand_value v s : str_all (fun c => negb (is_percent c)) v = true ->
  expand l (v +:+ s) = v +:+ expand l s.
Proof.
  induction v as [|c v IH]; simpl; [done|]. intros [Hc Hv]%andb_true_iff.
  apply negb_true_iff in Hc. rewrite expand_skip by by apply find_placeholder_percent.
  by rewrite IH.
Qed.

End equations.

(** A placeholder passes through the replacement of another one. *)
Lemma replace_over p v q rest :
  placeholder p -> placeholder q -> strip_prefix p (q +:+ rest) = None ->
  replace p v (q +:+ rest) = q +:+ replace p v rest.
Proof.
  intros Hp (c & q' & -> & Hc & Hq') Hs. simpl in *. rewrite replace_skip by done. f_equal.
  clear Hs. induction q' as [|d q' IH]; simpl in *; [done|].
  apply andb_true_iff in Hq' as [Hd Hq']. rewrite replace_skip, IH; [done|done|].
  apply strip_prefix_percent; [done|]. unfold placeholder_char, is_percent in *.
  destruct (Nat.eqb_spec (nat_of_ascii d) 37) as [Hn|]; [|done]. by rewrite Hn in Hd.
Qed.

(** A replacement does not complete a placeholder. *)
Lemma replace_no_new p v q s :
  placeholder p -> value_ok v -> str_all placeholder_char q = true ->
  is_Some (strip_prefix q (replace p v s)) -> is_Some (strip_prefix q s).
Proof.
  intros Hp Hv. revert s. induction q as [|d q IH]; intros s Hq Hs; [done|].
  simpl in Hq. apply andb_true_iff in Hq as [Hd Hq].
  destruct (strip_prefix p s) as [rest|] eqn:Hps.
  - exfalso. apply strip_prefix_Some in Hps as ->. rewrite replace_here in Hs by done.
    destruct v as [|v0 v]; [by destruct Hv|]. destruct Hv as [Hv0 _]. simpl in Hs.
    destruct (Ascii.eqb_spec d v0) as [->|]; [congruence|]. by destruct Hs.
  - destruct s as [|c s].
    { unfold replace in Hs. cbn [str_replace String.length] in Hs. rewrite Hps in Hs.
      by destruct Hs. }
    rewrite replace_skip in Hs by done. simpl in *.
    destruct (Ascii.eqb_spec d c); [|by destruct Hs]. by apply IH.
Qed.

(** The key found at the start of a text, when no key is a prefix of another. *)
Lemma find_placeholder_iff l s v rest :
  prefix_free l -> NoDup l.*1 ->
  find_placeholder l s = Some (v, rest) <-> exists p, (p, v) ∈ l /\ s = p +:+ rest.
Proof.
  intros Hpf Hnd. split.
  - clear. induction l as [|[p w] l IH]; cbn [find_placeholder]; [done|].
    destruct (strip_prefix p s) as [r|] eqn:Hs.
    + intros [= -> ->]. apply strip_prefix_Some in Hs. exists p. split; [left|done].
    + intros (q & Hq & ->)%IH. exists q. split; [by right|done].
  - intros (p & Hp & ->). induction l as [|[q w] l IH]; [by apply not_elem_of_nil in Hp|].
    cbn [find_placeholder]. destruct (strip_prefix q (p +:+ rest)) as [r|] eqn:Hs.
    + apply strip_prefix_Some in Hs.
      assert (p = q) as <-.
      { destruct (app_str_compare _ _ _ _ Hs) as [[u Hu]|[u Hu]].
        - by apply (Hpf p q u); [apply list_elem_of_fmap; exists (p, v)|left|].
        - symmetry. by apply (Hpf q p u); [left|apply list_elem_of_fmap; exists (p, v)|]. }
      apply app_str_inj in Hs as <-. apply elem_of_cons in Hp as [[= ->]|Hp]; [done|].
      apply NoDup_cons in Hnd as [Hn _]. destruct Hn. apply list_elem_of_fmap. by exists (p, v).
    + apply elem_of_cons in Hp as [[= -> ->]|Hp].
      * by rewrite strip_prefix_app in Hs.
      * apply NoDup_cons in Hnd as [_ Hnd]. apply IH; [|done|done].
        intros a b u Ha Hb. apply Hpf; by right.
Qed.

Lemma find_placeholder_None l s :
  find_placeholder l s = None <-> forall p v, (p, v) ∈ l -> strip_prefix p s = None.
Proof.
  induction l as [|[q w] l IH]; cbn [find_placeholder].
  - split; [|done]. by intros _ p v ?%not_elem_of_nil.
  - destruct (strip_prefix q s) as [r|] eqn:Hs.
    + split; [done|]. intros Hall. rewrite (Hall q w) in Hs; [done|left].
    + rewrite IH. split; intros Hall p v.
      * by intros [[= -> ->]|Hin]%elem_of_cons; [|eapply Hall].
      * intros Hin. eapply Hall. by right.
Qed.

(** Replacing one placeholder, then substituting the others, substitutes all. *)
Lemma expand_replace l p v s :
  replacements_ok ((p, v) :: l) -> NoDup (p :: l.*1) ->
  expand l (replace p v s) = expand ((p, v) :: l) s.
Proof.
  intros [Hok Hpf] Hnd. assert (Hok' := Hok). apply Forall_cons in Hok' as [[Hp Hv] Hl].
  simpl in Hp, Hv. assert (Hpf' : prefix_free l).
  { intros a b u Ha Hb. apply Hpf; by right. }
  assert (Hnd' : NoDup l.*1) by by apply NoDup_cons in Hnd as [_ ?].
  induction s as [s IH] using (well_founded_induction (Wf_nat.well_founded_ltof _ String.length)).
  unfold Wf_nat.ltof in IH.
  destruct (find_placeholder ((p, v) :: l) s) as [[w rest]|] eqn:Hf.
  - rewrite (expand_here _ Hok _ _ _ Hf).
    assert (Hlen := find_placeholder_length _ _ _ _ Hok Hf). rewrite <- IH by done.
    cbn [find_placeholder] in Hf. destruct (strip_prefix p s) as [r|] eqn:Hps.
    + injection Hf as <- <-. apply strip_prefix_Some in Hps as ->.
      rewrite replace_here by done. by apply expand_value, Hv.
    + apply find_placeholder_iff in Hf as (q & Hq & ->); [|done|done].
      assert (placeholder q) by (eapply Forall_forall in Hl; [|done]; apply Hl).
      rewrite replace_over by done. apply expand_here; [done|].
      apply find_placeholder_iff; [done|done|]. eauto.
  - assert (Hf0 := Hf). cbn [find_placeholder] in Hf.
    destruct (strip_prefix p s) as [r|] eqn:Hps; [done|].
    destruct s as [|c s].
    { unfold replace, expand. cbn [str_replace substitute String.length].
      by rewrite Hps, Hf, Hf0. }
    rewrite replace_skip by done. rewrite (expand_skip _ _ _ Hf0), expand_skip.
    + f_equal. apply IH. simpl. lia.
    + apply find_placeholder_None. intros q w Hq.
      assert (placeholder q) as (d & q' & -> & Hd & Hq')
        by (eapply Forall_forall in Hl; [|done]; apply Hl).
      rewrite find_placeholder_None in Hf. specialize (Hf _ _ Hq). simpl in *.
      destruct (Ascii.eqb d c); [|done].
      destruct (strip_prefix q' (replace p v s)) eqn:Hs; [|done].
      destruct (replace_no_new p v q' s) as [? Hc]; [done..|congruence].
Qed.

Lemma expand_nil s : expand [] s = s.
Proof.
  unfold expand. induction s as [|c s IH]; [done|].
  cbn [substitute find_placeholder String.length] in *. by rewrite IH.
Qed.

Lemma replace_fold l s :
  replacements_ok l -> NoDup l.*1 ->
  foldl (fun result kv => replace kv.1 kv.2 result) s l = expand l s.
Proof.
  revert s. induction l as [|[p v] l IH]; intros s Hok Hnd; [by rewrite expand_nil|].
  simpl. rewrite IH.
  - by apply expand_replace.
  - destruct Hok as [Hok Hpf]. split; [by apply Forall_cons in Hok as [_ ?]|].
    intros a b u Ha Hb. apply Hpf; by right.
  - by apply NoDup_cons in Hnd as [_ ?].
Qed.

(** The order of the replacements does not matter. *)
Lemma expand_perm l1 l2 s :
  l1 ≡ₚ l2 -> replacements_ok l1 -> NoDup l1.*1 -> expand l1 s = expand l2 s.
Proof.
  intros Hp [Hok Hpf] Hnd.
  assert (Hok2 : Forall (fun kv => placeholder kv.1 /\ value_ok kv.2) l2) by by rewrite <- Hp.
  assert (Hpf2 : prefix_free l2).
  { intros a b u Ha Hb. apply Hpf; by rewrite Hp. }
  assert (Hnd2 : NoDup l2.*1) by by rewrite <- Hp.
  assert (Hfind : forall t, find_placeholder l1 t = find_placeholder l2 t).
  { intros t. apply option_eq. intros [v rest].
    rewrite !find_placeholder_iff by done. by setoid_rewrite Hp. }
  unfold expand. generalize (S (String.length s)) as n. intros n. revert s.
  induction n as [|n IH]; intros s; [done|]. cbn [substitute]. rewrite Hfind.
  destruct (find_placeholder l2 s) as [[v rest]|]; [by rewrite IH|].
  destruct s; [done|]. by rewrite IH.
Qed.

(** ** Properties *)

(** The placeholders of the working directory and, with [%{CWD}], of the output
    paths. *)
Definition cwd_table (job_id task_id instance_id submit_dir date : string) : list (string * string) :=
  [("%{DATE}", date); ("%{SUBMIT_DIR}", submit_dir); ("%{INSTANCE_ID}", instance_id);
   ("%{TASK_ID}", task_id); ("%{JOB_ID}", job_id)].

Definition stdio_table (job_id task_id instance_id submit_dir date cwd : string) :
    list (string * string) :=
  ("%{CWD}", cwd) :: cwd_table job_id task_id instance_id submit_dir date.

(** Where an output of a task goes: the expanded path, from the submit directory. *)
Definition locate (submit_dir : string) (table : list (string * string)) (cwd : string)
    (d : StdioDef) : StdioDef :=
  match d with
  | StdioFile path => StdioFile (path_join submit_dir (expand (("%{CWD}", cwd) :: table) path))
  | _ => d
  end.

(** The keys of a table as a decidable check. *)
Definition keys_ok (ks : list string) : bool :=
  forallb (fun p => match p with
    | String c p' => is_percent c && str_all placeholder_char p'
    | EmptyString => false
    end) ks
  && forallb (fun p => forallb (fun q =>
       match strip_prefix p q with Some _ => String.eqb p q | None => true end) ks) ks
  && bool_decide (NoDup ks).

Lemma keys_ok_spec l :
  keys_ok l.*1 = true -> Forall (fun kv => value_ok kv.2) l ->
  replacements_ok l /\ NoDup l.*1.
Proof.
  intros [[Hk Hpf]%andb_true_iff Hnd%bool_decide_eq_true]%andb_true_iff Hv. split; [|done].
  rewrite !forallb_forall in Hk, Hpf. split.
  - rewrite Forall_forall in Hv |- *. intros kv Hkv. split; [|by apply Hv].
    assert (Hin : kv.1 ∈ l.*1) by (apply list_elem_of_fmap; eauto).
    specialize (Hk kv.1 (proj1 (list_elem_of_In _ _) Hin)).
    destruct kv.1 as [|c p']; [done|]. apply andb_true_iff in Hk as [? ?]. by exists c, p'.
  - intros p q u Hp Hq ->. apply list_elem_of_In in Hp. specialize (Hpf p Hp).
    rewrite forallb_forall in Hpf. apply list_elem_of_In in Hq. specialize (Hpf _ Hq).
    rewrite strip_prefix_app in Hpf. by apply String.eqb_eq in Hpf.
Qed.

Section spec.
Context (iter : gmap string string -> list (string * string)).
Context (iter_order : forall m, iter m ≡ₚ map_to_list m).
Context (map_filename : (string -> string) -> StdioDef -> StdioDef).
Context (map_filename_spec : forall f d,
  map_filename f d = match d with StdioFile path => StdioFile (f path) | _ => d end).

Lemma replace_path_expand m l path :
  keys_ok l.*1 = true -> Forall (fun kv => value_ok kv.2) l -> m = list_to_map l ->
  replace_path iter m path = expand l path.
Proof.
  intros Hk Hv ->. destruct (keys_ok_spec l Hk Hv) as [Hok Hnd]. unfold replace_path.
  assert (Hp : l ≡ₚ iter (list_to_map l)) by by rewrite iter_order, map_to_list_to_map.
  rewrite (expand_perm l _ path Hp Hok Hnd). destruct Hok as [Hok Hpf]. apply replace_fold.
  - split; [by rewrite <- Hp|]. intros a b u Ha Hb. apply Hpf; by rewrite Hp.
  - by rewrite <- Hp.
Qed.

(** Whatever the iteration order of the hash map, the placeholders of the
    working directory and of the output paths are substituted at once by the
    documented values, and relative paths are taken from the submit directory;
    the values are texts that start with another character than a placeholder
    and have no percent sign. *)
Lemma replace_placeholders_correct date current_dir program job_id task_id instance_id submit_dir cwd :
  pd_env program !! HQ_JOB_ID = Some job_id -> pd_env program !! HQ_TASK_ID = Some task_id ->
  pd_env program !! HQ_INSTANCE_ID = Some instance_id ->
  pd_env program !! HQ_SUBMIT_DIR = Some submit_dir ->
  Forall value_ok [job_id; task_id; instance_id; submit_dir; date] ->
  pd_cwd program = Some cwd ->
  let dir := path_join submit_dir
               (expand (cwd_table job_id task_id instance_id submit_dir date) cwd) in
  value_ok dir ->
  exists p, replace_placeholders iter date current_dir map_filename program = Ret p /\
    pd_cwd p = Some dir /\ pd_args p = pd_args program /\ pd_env p = pd_env program /\
    (let table := cwd_table job_id task_id instance_id submit_dir date in
     pd_stdout p = locate submit_dir table dir (pd_stdout program) /\
     pd_stderr p = locate submit_dir table dir (pd_stderr program)).
Proof.
  intros Hj Ht Hi Hs Hvals Hcwd dir Hdir. unfold replace_placeholders.
  rewrite Hj, Ht, Hi, Hs, Hcwd. cbn [unwrap mbind outcome_bind].
  assert (Hv1 : Forall (fun kv => value_ok kv.2)
    (cwd_table job_id task_id instance_id submit_dir date)).
  { unfold cwd_table. decompose_Forall_hyps.
    repeat (apply Forall_cons; split; [done|]). by apply Forall_nil. }
  rewrite (replace_path_expand _ (cwd_table job_id task_id instance_id submit_dir date)) by done.
  cbn [mbind outcome_bind]. fold dir. eexists. split; [done|]. cbn [pd_cwd pd_args pd_env].
  do 3 (split; [done|]). cbn [pd_stdout pd_stderr]. rewrite !map_filename_spec.
  assert (Hv2 : Forall (fun kv => value_ok kv.2)
    (stdio_table job_id task_id instance_id submit_dir date dir)) by by constructor.
  split; [destruct (pd_stdout program)|destruct (pd_stderr program)]; try done;
    unfold locate; do 2 f_equal;
    by apply (replace_path_expand _ (stdio_table job_id task_id instance_id submit_dir date dir)).
Qed.

Context `{Tako}.

(** The effect of [pin_program] of [tako]: only the arguments change. *)
Context (pin_program : ProgramDefinition -> ProgramDefinition).
Context (pin_program_args : forall p, pd_env (pin_program p) = pd_env p /\
  pd_stdout (pin_program p) = pd_stdout p /\ pd_stderr (pin_program p) = pd_stderr p /\
  pd_cwd (pin_program p) = pd_cwd p).
Context (create_dir_all : string -> result string unit).

Lemma to_string_value_ok n : value_ok (to_string n).
Proof.
  pose proof (to_string_digits n) as Hd. unfold value_ok.
  destruct (show_aux_nonempty 20 n "") as (c & t & Ht).
  fold (to_string n) in Ht. rewrite Ht in *. split.
  - simpl in Hd. apply andb_true_iff in Hd as [Hc _]. by destruct c as [[] [] [] [] [] [] [] []].
  - revert Hd. apply str_all_impl. intros d Hd. by destruct d as [[] [] [] [] [] [] [] []].
Qed.

(** The program of a task with its pinning and its variables. *)
Definition prepare (pin : bool) (program : ProgramDefinition) (cpus : string) (instance : Z) :
    ProgramDefinition :=
  insert_env HQ_INSTANCE_ID (to_string instance) (insert_env HQ_CPUS cpus
    (if pin then insert_env HQ_PIN "1" (pin_program program) else program)).

Lemma prepared_program r job_id task_id entry cpus instance :
  let sent := add_entry (make_program_def_for_task (sr_spec r) job_id task_id (sr_submit_dir r)) entry in
  let q := prepare (sr_pin r) sent cpus instance in
  pd_args q = (if sr_pin r then pd_args (pin_program sent) else pd_args (sr_spec r)) /\
  pd_stdout q = pd_stdout (sr_spec r) /\ pd_stderr q = pd_stderr (sr_spec r) /\
  pd_cwd q = pd_cwd (sr_spec r) /\
  pd_env q !! HQ_INSTANCE_ID = Some (to_string instance) /\ pd_env q !! HQ_CPUS = Some cpus /\
  pd_env q !! HQ_PIN = (if sr_pin r then Some "1" else pd_env (sr_spec r) !! HQ_PIN) /\
  (forall k : string, k ∉ [HQ_INSTANCE_ID; HQ_CPUS; HQ_PIN] -> pd_env q !! k = pd_env sent !! k).
Proof.
  intros sent q. destruct (pin_program_args sent) as (He & Ho & Hr & Hc). subst q sent.
  unfold prepare. destruct (sr_pin r); cbn [insert_env pd_args pd_stdout pd_stderr pd_cwd pd_env];
    rewrite ?He, ?Ho, ?Hr, ?Hc; split_and!; try by destruct entry.
  - by rewrite lookup_insert_eq.
  - by simplify_map_eq.
  - by simplify_map_eq.
  - intros k Hk. by rewrite !lookup_insert_ne by set_solver.
  - by rewrite lookup_insert_eq.
  - by simplify_map_eq.
  - destruct entry; by simplify_map_eq.
  - intros k Hk. by rewrite !lookup_insert_ne by set_solver.
Qed.

(** C33: for a task of a submitted job with a working directory, the worker starts
    the program with the arguments of the submit (changed only by pinning), in the
    directory given by the submit with the placeholders expanded and taken from the
    submit directory, with output files expanded in the same way, and with the job
    id, task id, instance id, submit directory, allocated CPUs and entry in its
    environment; it does so exactly when the directories of the output files can be
    created. *)
Theorem submitted_task_program date current_dir r job_id task_id entry cpus instance cwd :
  value_ok (sr_submit_dir r) -> value_ok date -> pd_cwd (sr_spec r) = Some cwd ->
  let table := cwd_table (to_string job_id) (to_string task_id) (to_string instance)
                 (sr_submit_dir r) date in
  let dir := path_join (sr_submit_dir r) (expand table cwd) in
  value_ok dir ->
  let sent := add_entry (make_program_def_for_task (sr_spec r) job_id task_id (sr_submit_dir r)) entry in
  let body := {| tb_program := sent; tb_pin := sr_pin r; tb_job_id := job_id; tb_task_id := task_id |} in
  exists p,
    launcher_main iter date current_dir map_filename pin_program create_dir_all
      body cpus instance
    = Ret (_ ← create_directory_if_needed create_dir_all (pd_stdout p);
           _ ← create_directory_if_needed create_dir_all (pd_stderr p); Ok p) /\
    pd_args p = (if sr_pin r then pd_args (pin_program sent) else pd_args (sr_spec r)) /\
    pd_cwd p = Some dir /\
    pd_stdout p = locate (sr_submit_dir r) table dir (pd_stdout (sr_spec r)) /\
    pd_stderr p = locate (sr_submit_dir r) table dir (pd_stderr (sr_spec r)) /\
    pd_env p !! HQ_JOB_ID = Some (to_string job_id) /\
    pd_env p !! HQ_TASK_ID = Some (to_string task_id) /\
    pd_env p !! HQ_INSTANCE_ID = Some (to_string instance) /\
    pd_env p !! HQ_SUBMIT_DIR = Some (sr_submit_dir r) /\
    pd_env p !! HQ_CPUS = Some cpus /\
    (forall e, entry = Some e -> pd_env p !! HQ_ENTRY = Some e) /\
    pd_env p !! HQ_PIN = (if sr_pin r then Some "1" else pd_env (sr_spec r) !! HQ_PIN).
Proof.
  intros Hsd Hdate Hcwd table dir Hdir sent body.
  destruct (prepared_program r job_id task_id entry cpus instance)
    as (Ha & Ho & Hr & Hc & Hi & Hcpu & Hpin & Hrest).
  fold sent in Ha, Ho, Hr, Hc, Hi, Hcpu, Hpin, Hrest. set (q := prepare _ _ _ _) in *.
  assert (Hids : pd_env sent !! HQ_JOB_ID = Some (to_string job_id) /\
    pd_env sent !! HQ_TASK_ID = Some (to_string task_id) /\
    pd_env sent !! HQ_SUBMIT_DIR = Some (sr_submit_dir r) /\
    (forall e, entry = Some e -> pd_env sent !! HQ_ENTRY = Some e)).
  { subst sent. destruct entry; simpl; split_and!; intros; by simplify_map_eq. }
  destruct Hids as (Hj & Ht & Hs & Hent).
  rewrite <- Hrest in Hj, Ht, Hs by compute_done.
  destruct (replace_placeholders_correct date current_dir q _ _ _ _ cwd Hj Ht Hi Hs)
    as (p & Hp & Hpc & Hpa & Hpe & Hpo & Hpr); [|by rewrite Hc|done|].
  { repeat (apply Forall_cons; split; [by try apply to_string_value_ok|]). by apply Forall_nil. }
  exists p. unfold launcher_main. cbn [tb_program tb_pin body].
  fold (prepare (sr_pin r) sent cpus instance). fold q. rewrite Hp. cbn [mbind outcome_bind].
  rewrite Hpe, Hpa, Hpo, Hpr, Ho, Hr. split_and!; try done.
  intros e He. rewrite Hrest by compute_done. by apply Hent.
Qed.

End spec.

(** A submit directory that contains a placeholder makes the result depend on
    the order in which the hash map is iterated. *)
Example placeholder_order_matters :
  let m := cwd_table "5" "1" "0" "/data/%{JOB_ID}" "2021-10-01T00:00:00Z" in
  foldl (fun result kv => replace kv.1 kv.2 result) "%{SUBMIT_DIR}" m = "/data/5" /\
  foldl (fun result kv => replace kv.1 kv.2 result) "%{SUBMIT_DIR}" (rev m) = "/data/%{JOB_ID}".
Proof. vm_compute. done. Qed.
