(* ===== verification/TaskRun.v ===== *)
(** * The run of a task on a worker: [run_task] of [src/worker/start.rs]

    What happens between the start of a program and the result that the worker
    reports: the pipes of the program are resent to the stream of the task, the stop
    signal may end the program, the stream is closed, and its confirmation is awaited.
    The concurrent futures are a step function; the program, the stop signal and the
    streamer are its events.  [Launcher.v] prepares the program, [Streamer.v] is the
    other side of the stream, and [Pipeline.v] follows the messages into the log. *)

From S2P Require Import Prelude ArrayDef Messages StreamServer Streamer Launcher.

Section task.
(** [StopReason] and [TaskResult] of [tako]. *)
Context {StopReason TaskResult : Type} (Finished : TaskResult) (into : StopReason -> TaskResult).
(** The texts of errors: [format!("Streamer: {:?}", e)] *)
Context (streamer_error : string -> string).
(** The task and its instance. *)
Context (job_task_id instance_id : Z).

(** [ExitStatus]: success, and the exit code. *)
Abbreviation ExitStatus := (bool * option Z)%type.

(** [status_to_result] *)
Definition status_to_result (status : ExitStatus) : result string TaskResult :=
  if negb status.1 then Err ("Program terminated with exit code " +:+ show_int (default (-1) status.2))
  else Ok Finished.

(** The future of [close_responder]; [None]: the sender was dropped. *)
Definition close_response (r : option Response) : result string unit :=
  match r with
  | None => Err "Connection to stream server closed"
  | Some (Err e) => Err (streamer_error e)
  | Some (Ok _) => Ok tt
  end.

(** ** State *)

(** Where the futures are: the program without pipes runs; the select of [guard_fut],
    where [out] and [err] tell which pipes are at their end, and [exited] holds the
    result of [child.wait()]; [stream.close()]; the confirmation; the end. *)
Inductive Phase :=
| PhPlain
| PhRun (out err : bool) (exited : option ExitStatus)
| PhClose (r : result string TaskResult)
| PhConfirm (r : TaskResult)
| PhDone (r : result string TaskResult).

Record TaskRun := {
  tr_phase : Phase;
  tr_confirmed : bool;
  tr_sent : list FromStreamerMessage
}.

Definition with_phase (t : TaskRun) (p : Phase) : TaskRun :=
  {| tr_phase := p; tr_confirmed := tr_confirmed t; tr_sent := tr_sent t |}.

Definition with_sent (t : TaskRun) (m : FromStreamerMessage) : TaskRun :=
  {| tr_phase := tr_phase t; tr_confirmed := tr_confirmed t; tr_sent := tr_sent t ++ [m] |}.

Definition is_pipe (d : StdioDef) : bool := match d with StdioPipe => true | _ => false end.

(** The begin of [run_task]: [command], [spawn] and [start] are the outcomes of
    [command_from_definitions], [command.spawn] and [stream.send_stream_start]. *)
Definition task_start (program : ProgramDefinition) (command spawn start : result string unit) : TaskRun :=
  let ended e := {| tr_phase := PhDone (Err e); tr_confirmed := false; tr_sent := [] |} in
  match command with
  | Err e => ended e
  | Ok _ =>
      if is_pipe (pd_stdout program) || is_pipe (pd_stderr program) then
        match spawn with
        | Err e => ended e
        | Ok _ =>
            match start with
            | Err e => ended (streamer_error e)
            | Ok _ =>
                {| tr_phase := PhRun (negb (is_pipe (pd_stdout program))) (negb (is_pipe (pd_stderr program))) None;
                   tr_confirmed := false; tr_sent := [MStart job_task_id instance_id] |}
            end
        end
      else {| tr_phase := PhPlain; tr_confirmed := false; tr_sent := [] |}
  end.

(** The feature [zero-worker]: the task is not executed. *)
Definition task_start_zero : TaskRun :=
  {| tr_phase := PhDone (Ok Finished); tr_confirmed := false; tr_sent := [] |}.

(** ** Steps *)

(** The stop signal ([None]: its sender was dropped); a read of a pipe ([false]:
    stdout) with the outcome of the send that follows; the exit of the program; the
    outcome of [stream.close()]; the response of the streamer. *)
Inductive TaskEvent :=
| TeStop (reason : option StopReason)
| TeRead (channel : bool) (r : result string (list Z)) (send : result string unit)
| TeExit (r : result string ExitStatus)
| TeClosed (r : result string unit)
| TeResponse (r : option Response).

(** The [try_join!] of the program and its pipes ends when all three did. *)
Definition join_all (out err : bool) (exited : option ExitStatus) : Phase :=
  match out, err, exited with
  | true, true, Some status => PhClose (status_to_result status)
  | _, _, _ => PhRun out err exited
  end.

Definition channel_of (channel : bool) : Z := if channel then 1 else 0.

(** A read in [resend_stdio]; a pipe at its end is not read again. *)
Definition read_step (t : TaskRun) (out err : bool) (exited : option ExitStatus)
    (channel : bool) (r : result string (list Z)) (send : result string unit) : TaskRun :=
  if (if channel then err else out) then t
  else
    match r with
    | Err e => with_phase t (PhClose (Err (streamer_error e)))
    | Ok [] => with_phase t (if channel then join_all out true exited else join_all true err exited)
    | Ok buffer =>
        match send with
        | Err e => with_phase t (PhClose (Err (streamer_error e)))
        | Ok _ => with_sent t (MData job_task_id instance_id (channel_of channel) buffer)
        end
    end.

(** One event; one that cannot happen changes nothing. *)
Definition task_run_step (t : TaskRun) (e : TaskEvent) : outcome TaskRun :=
  match tr_phase t, e with
  | PhDone _, _ => Ret t
  | PhPlain, TeStop reason => reason ← unwrap reason; Ret (with_phase t (PhDone (Ok (into reason))))
  | PhPlain, TeExit r =>
      Ret (with_phase t (PhDone match r with Err e => Err e | Ok status => status_to_result status end))
  | PhPlain, _ => Ret t
  | p, TeResponse r =>
      Ret match close_response r with
          | Err e => with_phase t (PhDone (Err e))
          | Ok _ =>
              match p with
              | PhConfirm v => with_phase t (PhDone (Ok v))
              | p => {| tr_phase := p; tr_confirmed := true; tr_sent := tr_sent t |}
              end
          end
  | PhRun _ _ _, TeStop reason => reason ← unwrap reason; Ret (with_phase t (PhClose (Ok (into reason))))
  | PhRun out err exited, TeRead channel r send => Ret (read_step t out err exited channel r send)
  | PhRun out err None, TeExit r =>
      Ret (with_phase t match r with Err e => PhClose (Err e) | Ok status => join_all out err (Some status) end)
  | PhClose r, TeClosed closed =>
      Ret match closed with
          | Err e => with_phase t (PhDone (Err (streamer_error e)))
          | Ok _ =>
              with_phase (with_sent t (MEnd job_task_id instance_id))
                match r with
                | Err e => PhDone (Err e)
                | Ok v => if tr_confirmed t then PhDone (Ok v) else PhConfirm v
                end
          end
  | _, _ => Ret t
  end.

Definition task_run (t : TaskRun) (es : list TaskEvent) : outcome TaskRun := foldM task_run_step t es.

(** The result that the worker reports to [tako]. *)
Definition task_result (t : TaskRun) : option (result string TaskResult) :=
  match tr_phase t with PhDone r => Some r | _ => None end.

(** ** Lemmas: pipes *)

Lemma resend_app_open l k : [] ∉ l -> resend_stdio (l ++ k) = l ++ resend_stdio k.
Proof.
  induction l as [|b l IH]; intros Hn; [done|]. apply not_elem_of_cons in Hn as [Hb Hn].
  destruct b; [done|]. simpl. by rewrite IH.
Qed.

Lemma resend_app_done l k : [] ∈ l -> resend_stdio (l ++ k) = resend_stdio l.
Proof.
  induction l as [|b l IH]; intros Hn; [by apply elem_of_nil in Hn|].
  destruct b; [done|]. simpl. rewrite IH; [done|]. by apply elem_of_cons in Hn as [|].
Qed.

Lemma resend_app_prefix l k : resend_stdio l `prefix_of` resend_stdio (l ++ k).
Proof.
  destruct (decide ([] ∈ l)) as [Hd|Hd]; [by rewrite resend_app_done|].
  rewrite resend_app_open by done. rewrite <- (app_nil_r l) at 1. rewrite resend_app_open by done.
  simpl. rewrite app_nil_r. by apply prefix_app_r.
Qed.

Lemma resend_open l : [] ∉ l -> resend_stdio l = l.
Proof. intros Hn. rewrite <- (app_nil_r l) at 1. rewrite resend_app_open by done. by rewrite app_nil_r. Qed.

Lemma interleaving_snoc_left {A} (l1 l2 l : list A) x :
  interleaving l1 l2 l -> interleaving (l1 ++ [x]) l2 (l ++ [x]).
Proof. induction 1; simpl; repeat constructor; done. Qed.

Lemma interleaving_snoc_right {A} (l1 l2 l : list A) x :
  interleaving l1 l2 l -> interleaving l1 (l2 ++ [x]) (l ++ [x]).
Proof. induction 1; simpl; repeat constructor; done. Qed.

(** What the reads of a pipe returned. *)
Definition pipe_reads (channel : bool) (es : list TaskEvent) : list (list Z) :=
  omap (fun e => match e with
    | TeRead c (Ok b) _ => if Bool.eqb c channel then Some b else None
    | _ => None
    end) es.

Lemma pipe_reads_snoc channel es e : pipe_reads channel (es ++ [e]) = pipe_reads channel es ++ pipe_reads channel [e].
Proof. apply omap_app. Qed.

(** ** Specification *)

(** The chunks of a pipe that were sent, while it is read ([fin = false]) and after its
    end; a channel that is not a pipe sends nothing. *)
Definition pipe_state (piped fin : bool) (reads chunks : list (list Z)) : Prop :=
  if piped then
    if fin then chunks = resend_stdio reads /\ [] ∈ reads else chunks = reads /\ [] ∉ reads
  else chunks = [] /\ fin = true.

(** The whole output of a pipe was sent. *)
Definition pipe_complete (piped : bool) (reads chunks : list (list Z)) : Prop := pipe_state piped true reads chunks.

(** A beginning of the output of a pipe was sent. *)
Definition pipe_begun (piped : bool) (reads chunks : list (list Z)) : Prop :=
  if piped then chunks `prefix_of` resend_stdio reads else chunks = [].

Lemma pipe_state_begun piped fin reads chunks more :
  pipe_state piped fin reads chunks -> pipe_begun piped (reads ++ more) chunks.
Proof.
  unfold pipe_state, pipe_begun. destruct piped; [|by intros [-> _]]. destruct fin; intros [-> H1].
  - apply resend_app_prefix.
  - rewrite resend_app_open by done. by apply prefix_app_r.
Qed.

Lemma pipe_begun_more piped reads chunks more : pipe_begun piped reads chunks -> pipe_begun piped (reads ++ more) chunks.
Proof. unfold pipe_begun. destruct piped; [|done]. intros Hp. etrans; [exact Hp|apply resend_app_prefix]. Qed.

Lemma pipe_complete_more piped reads chunks more :
  pipe_complete piped reads chunks -> pipe_complete piped (reads ++ more) chunks.
Proof.
  unfold pipe_complete, pipe_state. destruct piped; [|done]. intros [-> Hin].
  rewrite resend_app_done by done. split; [done|]. apply elem_of_app. by left.
Qed.

Section pipes.
(** Which channels are pipes. *)
Context (po pe : bool).

(** Why a task has the result [v]: the stop signal, or a successful program whose
    output [c0], [c1] was sent to its end. *)
Definition reason (es : list TaskEvent) (v : TaskResult) (c0 c1 : list (list Z)) : Prop :=
  (exists s, v = into s /\ TeStop (Some s) ∈ es) \/
  (v = Finished /\ pipe_complete po (pipe_reads false es) c0 /\ pipe_complete pe (pipe_reads true es) c1 /\
   exists code, TeExit (Ok (true, code)) ∈ es).

(** The messages that were sent: the start, chunks of the two channels, and [tail]. *)
Definition streamed (es : list TaskEvent) (sent tail : list FromStreamerMessage)
    (Q : list (list Z) -> list (list Z) -> Prop) : Prop :=
  exists c0 c1 d,
    interleaving (MData job_task_id instance_id 0 <$> c0) (MData job_task_id instance_id 1 <$> c1) d /\
    sent = MStart job_task_id instance_id :: d ++ tail /\
    pipe_begun po (pipe_reads false es) c0 /\ pipe_begun pe (pipe_reads true es) c1 /\ Q c0 c1.

Abbreviation END := [MEnd job_task_id instance_id].

(** What holds in a phase. *)
Definition phase_ok (es : list TaskEvent) (t : TaskRun) : Prop :=
  match tr_phase t with
  | PhPlain => po || pe = false /\ tr_sent t = []
  | PhRun out err exited =>
      streamed es (tr_sent t) [] (fun c0 c1 =>
        pipe_state po out (pipe_reads false es) c0 /\ pipe_state pe err (pipe_reads true es) c1 /\
        match exited with Some status => TeExit (Ok status) ∈ es | None => True end)
  | PhClose r => streamed es (tr_sent t) [] (fun c0 c1 => forall v, r = Ok v -> reason es v c0 c1)
  | PhConfirm v => streamed es (tr_sent t) END (reason es v)
  | PhDone r =>
      (tr_sent t = [] /\ forall v, r = Ok v -> po || pe = false /\ reason es v [] []) \/
      exists tail, (tail = [] \/ tail = END) /\ streamed es (tr_sent t) tail (fun c0 c1 =>
        forall v, r = Ok v -> tail = END /\ reason es v c0 c1 /\ TeResponse (Some (Ok tt)) ∈ es)
  end.

Definition run_inv (es : list TaskEvent) (t : TaskRun) : Prop :=
  phase_ok es t /\ (tr_confirmed t = true -> TeResponse (Some (Ok tt)) ∈ es).

(** ** Lemmas: preservation *)

Lemma reason_more es more v c0 c1 : reason es v c0 c1 -> reason (es ++ more) v c0 c1.
Proof.
  assert (Hin : forall e, e ∈ es -> e ∈ es ++ more) by (intros e He; apply elem_of_app; by left).
  intros [(s & -> & Hs)|(-> & H0' & H1' & code & Hc)]; [left; eauto|right].
  unfold pipe_reads. rewrite !omap_app. split_and!; [done|by apply pipe_complete_more..|eauto].
Qed.

Lemma streamed_more es more sent tail Q Q' :
  streamed es sent tail Q -> (forall c0 c1, Q c0 c1 -> Q' c0 c1) -> streamed (es ++ more) sent tail Q'.
Proof.
  intros (c0 & c1 & d & Hd & Hs & H0' & H1' & HQ) Himp. exists c0, c1, d. unfold pipe_reads. rewrite !omap_app.
  split_and!; [done|done|by apply pipe_begun_more..|auto].
Qed.

Lemma elem_more {A} (l k : list A) x : x ∈ l -> x ∈ l ++ k.
Proof. intros Hx. apply elem_of_app. by left. Qed.

(** An event that does not concern the pipes of a running task. *)
Lemma pipe_state_same channel es e piped fin chunks :
  pipe_reads channel [e] = [] \/ fin = true -> pipe_state piped fin (pipe_reads channel es) chunks ->
  pipe_state piped fin (pipe_reads channel (es ++ [e])) chunks.
Proof.
  rewrite pipe_reads_snoc. intros [->| ->]; [by rewrite app_nil_r|]. apply pipe_complete_more.
Qed.

Lemma done_stays es more t r : tr_phase t = PhDone r -> run_inv es t -> run_inv (es ++ more) t.
Proof.
  unfold run_inv, phase_ok. intros -> [Hp Hc]. split; [|intros; by apply elem_more, Hc].
  destruct Hp as [[Hs Hv]|(tail & Ht & Hst)]; [left; split; [done|]|right; exists tail; split; [done|]].
  - intros v Hr. destruct (Hv v Hr). split; [done|by apply reason_more].
  - eapply streamed_more; [exact Hst|]. intros c0 c1 Hq v Hr. destruct (Hq v Hr) as (? & ? & ?).
    split_and!; [done|by apply reason_more|by apply elem_more].
Qed.

Lemma close_stays es more t r : tr_phase t = PhClose r -> run_inv es t -> run_inv (es ++ more) t.
Proof.
  unfold run_inv, phase_ok. intros -> [Hp Hc]. split; [|intros; by apply elem_more, Hc].
  eapply streamed_more; [exact Hp|]. intros c0 c1 Hq v Hr. by apply reason_more, Hq.
Qed.

Lemma confirm_stays es more t v : tr_phase t = PhConfirm v -> run_inv es t -> run_inv (es ++ more) t.
Proof.
  unfold run_inv, phase_ok. intros -> [Hp Hc]. split; [|intros; by apply elem_more, Hc].
  eapply streamed_more; [exact Hp|]. intros c0 c1 Hq. by apply reason_more.
Qed.

(** A running task is not changed by an event that reads no open pipe. *)
Lemma run_stays es e t out err exited :
  tr_phase t = PhRun out err exited -> run_inv es t ->
  pipe_reads false [e] = [] \/ out = true -> pipe_reads true [e] = [] \/ err = true -> run_inv (es ++ [e]) t.
Proof.
  unfold run_inv, phase_ok. intros -> [Hp Hc] Ho He. split; [|intros; by apply elem_more, Hc].
  eapply streamed_more; [exact Hp|]. intros c0 c1 (H0' & H1' & Hx).
  split_and!; [by apply pipe_state_same..|]. destruct exited; [by apply elem_more|done].
Qed.

(** The futures of a streaming task end with an error. *)
Lemma streaming_fails es t tail Q e :
  streamed es (tr_sent t) tail Q -> tail = [] \/ tail = END -> phase_ok es (with_phase t (PhDone (Err e))).
Proof.
  intros (c0 & c1 & d & Hd & Hs & H0' & H1' & _) Ht. right. exists tail. split; [done|].
  exists c0, c1, d. split_and!; done.
Qed.

(** The select ends and the stream is closed. *)
Lemma run_closes es e t out err exited r :
  tr_phase t = PhRun out err exited -> run_inv es t ->
  (forall v c0 c1, r = Ok v -> reason (es ++ [e]) v c0 c1) -> run_inv (es ++ [e]) (with_phase t (PhClose r)).
Proof.
  unfold run_inv, phase_ok. intros -> [Hp Hc] Hr. split; [|intros; by apply elem_more, Hc]. simpl.
  eapply streamed_more; [exact Hp|]. intros c0 c1 _ v Hv. by apply Hr.
Qed.

Lemma status_ok status v : status_to_result status = Ok v -> v = Finished /\ status.1 = true.
Proof. unfold status_to_result. destruct status.1; simpl; [by intros [= <-]|done]. Qed.

Lemma join_all_ok es t out err exited :
  phase_ok es (with_phase t (PhRun out err exited)) -> phase_ok es (with_phase t (join_all out err exited)).
Proof.
  intros Hp. unfold join_all. destruct out, err, exited as [status|]; try done.
  unfold phase_ok in *. simpl in *. destruct Hp as (c0 & c1 & d & Hd & Hs & H0' & H1' & Hc0 & Hc1 & Hx).
  exists c0, c1, d. split_and!; [done..|]. intros v [-> Hst]%status_ok. right.
  split_and!; [done|done|done|]. destruct status as [b code]. simpl in Hst. subst b. by exists code.
Qed.

(** A pipe is read to its end. *)
Lemma pipe_ends channel es send piped chunks :
  pipe_state piped false (pipe_reads channel es) chunks ->
  pipe_state piped true (pipe_reads channel (es ++ [TeRead channel (Ok []) send])) chunks.
Proof.
  rewrite pipe_reads_snoc. unfold pipe_state, pipe_reads at 2. destruct piped; [|by intros [_ ?]].
  simpl. rewrite eqb_reflx. simpl. intros [-> Hn]. rewrite resend_app_open by done. simpl.
  rewrite app_nil_r. split; [done|]. apply elem_of_app. right. by left.
Qed.

(** A chunk is read and sent. *)
Lemma pipe_grows channel es send piped chunks b buffer :
  pipe_state piped false (pipe_reads channel es) chunks ->
  pipe_state piped false (pipe_reads channel (es ++ [TeRead channel (Ok (b :: buffer)) send])) (chunks ++ [b :: buffer]).
Proof.
  rewrite pipe_reads_snoc. unfold pipe_state, pipe_reads at 2. destruct piped; [|by intros [_ ?]].
  simpl. rewrite eqb_reflx. simpl. intros [-> Hn]. split; [done|]. set_solver.
Qed.

Lemma pipe_reads_other channel r send : pipe_reads (negb channel) [TeRead channel r send] = [].
Proof. unfold pipe_reads. simpl. destruct r, channel; done. Qed.

Lemma begun_of channel es e piped fin chunks :
  pipe_state piped fin (pipe_reads channel (es ++ [e])) chunks -> pipe_begun piped (pipe_reads channel (es ++ [e])) chunks.
Proof. intros Hs. pose proof (pipe_state_begun _ _ _ _ [] Hs) as Hb. by rewrite app_nil_r in Hb. Qed.

Lemma read_ends es t out err exited (channel : bool) send :
  tr_phase t = PhRun out err exited -> run_inv es t -> (if channel then err else out) = false ->
  phase_ok (es ++ [TeRead channel (Ok []) send])
    (with_phase t (if channel then join_all out true exited else join_all true err exited)).
Proof.
  intros Hph [Hp _] Hfin. unfold phase_ok in Hp. rewrite Hph in Hp.
  destruct Hp as (c0 & c1 & d & Hd & Hs & _ & _ & Hc0 & Hc1 & Hx).
  pose proof (pipe_reads_other channel (Ok ([] : list Z)) send) as Hoth.
  assert (Hx' : match exited with Some status => TeExit (Ok status) ∈ es ++ [TeRead channel (Ok []) send] | None => True end)
    by (destruct exited; [by apply elem_more|done]).
  destruct channel; rewrite Hfin in *; apply join_all_ok; exists c0, c1, d.
  - pose proof (pipe_state_same false es _ po out c0 (or_introl Hoth) Hc0) as Hn0.
    pose proof (pipe_ends true es send pe c1 Hc1) as Hn1. split_and!; [done|done|by eapply begun_of..|done|done|done].
  - pose proof (pipe_state_same true es _ pe err c1 (or_introl Hoth) Hc1) as Hn1.
    pose proof (pipe_ends false es send po c0 Hc0) as Hn0. split_and!; [done|done|by eapply begun_of..|done|done|done].
Qed.

Lemma read_sends es t out err exited (channel : bool) b buffer send :
  tr_phase t = PhRun out err exited -> run_inv es t -> (if channel then err else out) = false ->
  phase_ok (es ++ [TeRead channel (Ok (b :: buffer)) send])
    (with_sent t (MData job_task_id instance_id (channel_of channel) (b :: buffer))).
Proof.
  intros Hph [Hp _] Hfin. unfold phase_ok in Hp. rewrite Hph in Hp.
  destruct Hp as (c0 & c1 & d & Hd & Hs & _ & _ & Hc0 & Hc1 & Hx). rewrite app_nil_r in Hs.
  pose proof (pipe_reads_other channel (Ok (b :: buffer)) send) as Hoth.
  assert (Hx' : match exited with Some status => TeExit (Ok status) ∈ es ++ [TeRead channel (Ok (b :: buffer)) send]
    | None => True end) by (destruct exited; [by apply elem_more|done]).
  unfold phase_ok. simpl. rewrite Hph, Hs. destruct channel; rewrite Hfin in *.
  - pose proof (pipe_state_same false es _ po out c0 (or_introl Hoth) Hc0) as Hn0.
    pose proof (pipe_grows true es send pe c1 b buffer Hc1) as Hn1.
    exists c0, (c1 ++ [b :: buffer]), (d ++ [MData job_task_id instance_id 1 (b :: buffer)]). rewrite fmap_app.
    split_and!; [by apply interleaving_snoc_right|by rewrite app_nil_r|by eapply begun_of..|done|done|done].
  - pose proof (pipe_state_same true es _ pe err c1 (or_introl Hoth) Hc1) as Hn1.
    pose proof (pipe_grows false es send po c0 b buffer Hc0) as Hn0.
    exists (c0 ++ [b :: buffer]), c1, (d ++ [MData job_task_id instance_id 0 (b :: buffer)]). rewrite fmap_app.
    split_and!; [by apply interleaving_snoc_left|by rewrite app_nil_r|by eapply begun_of..|done|done|done].
Qed.

Lemma read_step_inv es t out err exited channel r send :
  tr_phase t = PhRun out err exited -> run_inv es t ->
  run_inv (es ++ [TeRead channel r send]) (read_step t out err exited channel r send).
Proof.
  intros Hph Hi. unfold read_step. destruct (if channel then err else out) eqn:Hfin.
  { pose proof (pipe_reads_other channel r send). eapply run_stays; [done|done|..]; destruct channel; auto. }
  pose proof Hi as [_ Hc].
  destruct r as [[|b buffer]|e]; [|destruct send as [u|e]|]; try by (eapply run_closes).
  - split; [by apply read_ends|intros; by apply elem_more, Hc].
  - split; [by eapply read_sends|intros; by apply elem_more, Hc].
Qed.

(** [stream.close()] *)
Lemma closed_inv es t r closed :
  tr_phase t = PhClose r -> run_inv es t ->
  run_inv (es ++ [TeClosed closed]) match closed with
    | Err e => with_phase t (PhDone (Err (streamer_error e)))
    | Ok _ => with_phase (with_sent t (MEnd job_task_id instance_id))
        match r with
        | Err e => PhDone (Err e)
        | Ok v => if tr_confirmed t then PhDone (Ok v) else PhConfirm v
        end
    end.
Proof.
  intros Hph Hi. pose proof (close_stays es [TeClosed closed] t r Hph Hi) as [Hp Hc].
  split; [|by destruct closed]. unfold phase_ok in Hp. rewrite Hph in Hp.
  destruct closed as [u|e]; [|eapply streaming_fails; [exact Hp|by left]].
  destruct Hp as (c0 & c1 & d & Hd & Hs & H0' & H1' & Hr). rewrite app_nil_r in Hs.
  assert (Hst : forall Q : list (list Z) -> list (list Z) -> Prop, Q c0 c1 ->
    streamed (es ++ [TeClosed (Ok u)]) (tr_sent t ++ END) END Q) by (intros Q HQ; exists c0, c1, d; by rewrite Hs).
  destruct r as [v|e]; [|right; exists END; split; [by right|by apply Hst]].
  destruct (tr_confirmed t) eqn:Hcf; [|by apply Hst, Hr].
  right. exists END. split; [by right|]. apply Hst. intros v' [= <-]. split_and!; [done|by apply Hr|by apply Hc].
Qed.

(** The response of the streamer *)
Lemma response_inv es t r :
  match tr_phase t with PhRun _ _ _ | PhClose _ | PhConfirm _ => True | _ => False end -> run_inv es t ->
  run_inv (es ++ [TeResponse r]) match close_response r with
    | Err e => with_phase t (PhDone (Err e))
    | Ok _ => match tr_phase t with
              | PhConfirm v => with_phase t (PhDone (Ok v))
              | p => {| tr_phase := p; tr_confirmed := true; tr_sent := tr_sent t |}
              end
    end.
Proof.
  intros Hph Hi.
  assert (Hm : run_inv (es ++ [TeResponse r]) t).
  { destruct (tr_phase t) as [|out err ex|r'|v|] eqn:Hp; try done;
      [eapply run_stays; [done|done|by left..]|by eapply close_stays|by eapply confirm_stays]. }
  destruct Hm as [Hp Hc]. destruct (close_response r) as [[]|e] eqn:Hr.
  - assert (Hin : TeResponse (Some (Ok tt)) ∈ es ++ [TeResponse r]).
    { apply elem_of_app. right. destruct r as [[[]|]|]; try done. by left. }
    unfold run_inv, phase_ok in *. destruct (tr_phase t) as [|out err ex|r'|v|]; try done.
    split; [|done]. right. exists END. split; [by right|]. destruct Hp as (c0 & c1 & d & ? & ? & ? & ? & Hv).
    exists c0, c1, d. split_and!; [done..|]. by intros v' [= <-].
  - split; [|done]. unfold phase_ok in Hp. destruct (tr_phase t); try done.
    + eapply streaming_fails; [exact Hp|by left].
    + eapply streaming_fails; [exact Hp|by left].
    + eapply streaming_fails; [exact Hp|by right].
Qed.

Lemma plain_ends es t e r :
  tr_phase t = PhPlain -> run_inv es t -> (forall v, r = Ok v -> po || pe = false -> reason (es ++ [e]) v [] []) ->
  run_inv (es ++ [e]) (with_phase t (PhDone r)).
Proof.
  unfold run_inv, phase_ok. intros -> [[Hpo Hs] Hc] Hr. split; [|intros; by apply elem_more, Hc].
  left. split; [done|]. intros v Hv. split; [done|by apply Hr].
Qed.

Lemma plain_stays es e t : tr_phase t = PhPlain -> run_inv es t -> run_inv (es ++ [e]) t.
Proof. unfold run_inv, phase_ok. intros -> [Hp Hc]. split; [done|intros; by apply elem_more, Hc]. Qed.

Lemma exit_inv es t out err r :
  tr_phase t = PhRun out err None -> run_inv es t ->
  run_inv (es ++ [TeExit r])
    (with_phase t match r with Err e => PhClose (Err e) | Ok status => join_all out err (Some status) end).
Proof.
  intros Hph Hi. destruct r as [status|e]; [|by eapply run_closes].
  pose proof (run_stays es (TeExit (Ok status)) t out err None Hph Hi) as [Hp Hc]; [by left..|].
  split; [|done]. apply join_all_ok. unfold phase_ok in *. rewrite Hph in Hp. simpl in *.
  destruct Hp as (c0 & c1 & d & ? & ? & ? & ? & ? & ? & _). exists c0, c1, d. split_and!; try done.
  apply elem_of_app. right. by left.
Qed.

Lemma stop_in es s : TeStop (Some s) ∈ es ++ [TeStop (Some s)].
Proof. apply elem_of_app. right. by left. Qed.

Lemma task_run_step_inv es t e t' : task_run_step t e = Ret t' -> run_inv es t -> run_inv (es ++ [e]) t'.
Proof.
  intros Hs Hi. unfold task_run_step in Hs.
  destruct (tr_phase t) as [|out err exited|r|v|r] eqn:Hph; [| | | |simplify_eq; by eapply done_stays].
  - destruct e as [[reason'|]|channel r send|r|r|r]; simpl in Hs; simplify_eq; try by apply plain_stays.
    + apply plain_ends; [done|done|]. intros v [= <-] _. left. eexists. split; [done|apply stop_in].
    + apply plain_ends; [done|done|]. intros v Hr [Hpo Hpe]%orb_false_iff.
      destruct r as [[b code]|]; [|done]. apply status_ok in Hr as [-> Hb]. simpl in Hb. subst b.
      right. unfold pipe_complete, pipe_state. rewrite Hpo, Hpe. split_and!; [done..|]. exists code. apply elem_of_app. right. by left.
  - destruct e as [[reason'|]|channel r send|r|r|r]; destruct exited as [status|]; simpl in Hs; simplify_eq.
    1, 2: eapply run_closes; [done|done|]; intros v c0 c1 [= <-]; left; eexists; split; [done|apply stop_in].
    1, 2: by apply read_step_inv.
    + eapply run_stays; [done|done|by left..].
    + by apply exit_inv.
    + eapply run_stays; [done|done|by left..].
    + eapply run_stays; [done|done|by left..].
    + pose proof (response_inv es t r) as Hresp. rewrite Hph in Hresp. by apply Hresp.
    + pose proof (response_inv es t r) as Hresp. rewrite Hph in Hresp. by apply Hresp.
  - destruct e as [[reason'|]|channel r' send|r'|r'|r']; simpl in Hs; simplify_eq; try by eapply close_stays.
    + by apply closed_inv.
    + pose proof (response_inv es t r') as Hresp. rewrite Hph in Hresp. by apply Hresp.
  - destruct e as [[reason'|]|channel r' send|r'|r'|r']; simpl in Hs; simplify_eq; try by eapply confirm_stays.
    pose proof (response_inv es t r') as Hresp. rewrite Hph in Hresp. by apply Hresp.
Qed.

End pipes.

Lemma task_start_inv program command spawn start :
  run_inv (is_pipe (pd_stdout program)) (is_pipe (pd_stderr program)) [] (task_start program command spawn start).
Proof.
  unfold task_start. set (po := is_pipe (pd_stdout program)). set (pe := is_pipe (pd_stderr program)).
  destruct command as [u|e]; [|split; [by left|done]].
  destruct (po || pe) eqn:Hp; [|by split].
  destruct spawn as [u'|e]; [|split; [by left|done]]. destruct start as [u''|e]; [|split; [by left|done]].
  split; [|done]. exists [], [], []. simpl. unfold pipe_reads. simpl.
  destruct po, pe; (split_and!; [constructor|done|unfold pipe_begun; done..|done|done|done]) ||
    (split_and!; [constructor|done|unfold pipe_begun; done..| | |done];
     unfold pipe_state; simpl; split; (done || apply not_elem_of_nil)).
Qed.

Lemma task_run_inv program command spawn start es t :
  task_run (task_start program command spawn start) es = Ret t ->
  run_inv (is_pipe (pd_stdout program)) (is_pipe (pd_stderr program)) es t.
Proof.
  unfold task_run. revert t. induction es as [|e es IH] using rev_ind; intros t Hr.
  - simpl in Hr. simplify_eq. apply task_start_inv.
  - rewrite foldM_app in Hr. destruct (foldM _ _ es) as [t1|]; simpl in Hr; [|done].
    destruct (task_run_step t1 e) as [t2|] eqn:Hs; simpl in Hr; [|done]. simplify_eq.
    eapply task_run_step_inv; [exact Hs|by apply IH].
Qed.

Lemma resend_no_end l : [] ∉ resend_stdio l.
Proof. induction l as [|[|b buffer] l IH]; simpl; set_solver. Qed.

Lemma begun_resend piped reads chunks :
  pipe_begun piped reads chunks -> resend_stdio chunks = chunks /\ chunks `prefix_of` resend_stdio reads.
Proof.
  unfold pipe_begun. destruct piped; [intros Hp|intros ->; split; [done|apply prefix_nil]].
  split; [|done]. apply resend_open. intros Hin. apply (resend_no_end reads). by eapply elem_of_prefix.
Qed.

(** Only a dropped stop signal makes the launcher panic. *)
Lemma task_run_step_ret t e : e <> TeStop None -> exists t', task_run_step t e = Ret t'.
Proof.
  intros He. unfold task_run_step.
  destruct (tr_phase t) as [|out err [ex|]| | |], e as [[reason'|]| | | |]; try done; by eexists.
Qed.

Lemma task_run_ret t es : TeStop None ∉ es -> exists t', task_run t es = Ret t'.
Proof.
  unfold task_run. revert t. induction es as [|e es IH]; intros t Hn; simpl; [by eexists|].
  apply not_elem_of_cons in Hn as [He Hn]. destruct (task_run_step_ret t e) as [t1 ->]; [congruence|].
  simpl. by apply IH.
Qed.

(** What was sent is a beginning of a run whose chunks begin the output. *)
Definition begins (es : list TaskEvent) (sent : list FromStreamerMessage) : Prop :=
  exists out err run,
    run_task_messages job_task_id instance_id out err run /\ sent `prefix_of` run /\
    out `prefix_of` resend_stdio (pipe_reads false es) /\ err `prefix_of` resend_stdio (pipe_reads true es).

Lemma begins_nil es : begins es [].
Proof.
  exists [], [], [MStart job_task_id instance_id; MEnd job_task_id instance_id].
  split; [exists []; split; [constructor|done]|]. split_and!; apply prefix_nil.
Qed.

Lemma streamed_begins po pe es sent tail Q :
  tail = [] \/ tail = [MEnd job_task_id instance_id] -> streamed po pe es sent tail Q -> begins es sent.
Proof.
  intros Ht (c0 & c1 & d & Hd & -> & [Hb0 Hp0]%begun_resend & [Hb1 Hp1]%begun_resend & _).
  exists c0, c1, (MStart job_task_id instance_id :: d ++ [MEnd job_task_id instance_id]).
  split; [exists d; by rewrite Hb0, Hb1|]. split_and!; [|done..].
  apply prefix_cons, prefix_app. destruct Ht as [-> | ->]; [apply prefix_nil|done].
Qed.

Lemma phase_begins po pe es t : phase_ok po pe es t -> begins es (tr_sent t).
Proof.
  unfold phase_ok. destruct (tr_phase t) as [|out err ex|r|v|r]; intros Hp.
  - destruct Hp as [_ ->]. apply begins_nil.
  - eapply streamed_begins; [by left|exact Hp].
  - eapply streamed_begins; [by left|exact Hp].
  - eapply streamed_begins; [by right|exact Hp].
  - destruct Hp as [[-> _]|(tail & Ht & Hst)]; [apply begins_nil|by eapply streamed_begins].
Qed.

(** ** Properties *)

(** C32: the run of a task, for any interleaving of its program, its pipes, the stop
    signal and the streamer, and whatever fails: the messages sent to the stream are a
    beginning of a start, chunks that begin the output of the program, and an end.
    A task with pipes that is reported as finished was successful, its whole output
    and the end were sent, and the stream server confirmed them. *)
Theorem finished_output_was_streamed program command spawn start es t :
  (forall s, into s <> Finished) ->
  task_run (task_start program command spawn start) es = Ret t ->
  begins es (tr_sent t) /\
  (task_result t = Some (Ok Finished) ->
     (exists code, TeExit (Ok (true, code)) ∈ es) /\
     (is_pipe (pd_stdout program) || is_pipe (pd_stderr program) = true ->
      exists out err,
        run_task_messages job_task_id instance_id out err (tr_sent t) /\
        pipe_complete (is_pipe (pd_stdout program)) (pipe_reads false es) out /\
        pipe_complete (is_pipe (pd_stderr program)) (pipe_reads true es) err /\
        TeResponse (Some (Ok tt)) ∈ es)).
Proof.
  intros Hinto Hr. pose proof (task_run_inv _ _ _ _ _ _ Hr) as [Hp _].
  split; [by eapply phase_begins|]. unfold phase_ok in Hp. unfold task_result.
  destruct (tr_phase t) as [| | | |r]; try done. intros [= ->].
  destruct Hp as [[_ Hv]|(tail & _ & c0 & c1 & d & Hd & Hs & Hb0 & Hb1 & Hv)].
  - destruct (Hv _ eq_refl) as [Hpp [(s & Hi & _)|(_ & _ & _ & Hc)]]; [by destruct (Hinto s)|].
    split; [done|]. by rewrite Hpp.
  - destruct (Hv _ eq_refl) as (-> & [(s & Hi & _)|(_ & Hc0 & Hc1 & Hc)] & Hresp); [by destruct (Hinto s)|].
    split; [done|]. intros _. exists c0, c1. split_and!; [|done..].
    apply begun_resend in Hb0 as [Hb0 _]. apply begun_resend in Hb1 as [Hb1 _].
    exists d. by rewrite Hb0, Hb1.
Qed.

End task.
