(* ===== verification/WorkerStart.v ===== *)
(** * Starting a worker: the configuration

    [ManagerOpts], the detection of the job manager and [gather_configuration]
    of [src/worker/start.rs], with [src/common/manager/info.rs] and
    [src/common/manager/pbs.rs].  The process environment, [qstat], JSON, the
    host and the temporary directory are arguments; a duration is a number of
    seconds. *)

From S2P Require Import Prelude Messages Client Nom Resources.

(** ** Options *)

(** [enum ManagerOpts] *)
Inductive ManagerOpts := MDetect | MNone | MPbs | MSlurm.

Definition to_ascii_lower (c : ascii) : ascii :=
  let n := nat_of_ascii c in
  if ((65 <=? n) && (n <=? 90))%nat then ascii_of_nat (n + 32) else c.

Fixpoint to_ascii_lowercase (s : string) : string :=
  match s with
  | EmptyString => ""
  | String c s' => String (to_ascii_lower c) (to_ascii_lowercase s')
  end.

(** [ManagerOpts::from_str] *)
Definition ManagerOpts_from_str (s : string) : result string ManagerOpts :=
  let s := to_ascii_lowercase s in
  if String.eqb s "detect" then Ok MDetect
  else if String.eqb s "none" then Ok MNone
  else if String.eqb s "pbs" then Ok MPbs
  else if String.eqb s "slurm" then Ok MSlurm
  else Err "Invalid manager value. Allowed values are 'detect', 'none', 'pbs', 'slurm'".

(** ** Manager information ([src/common/manager/info.rs]) *)

(** [enum ManagerType] and its [Display] *)
Inductive ManagerType := Pbs | Slurm.

Definition show_manager (m : ManagerType) : string :=
  match m with Pbs => "PBS" | Slurm => "SLURM" end.

(** [struct ManagerInfo] *)
Record ManagerInfo := {
  mi_manager : ManagerType;
  mi_job_id : string;
  mi_time_limit : Z
}.

Definition WORKER_EXTRA_MANAGER_KEY : string := "JobManager".

(** [WorkerConfiguration] of [tako], by the fields of the struct literal. *)
Record WorkerConfig := {
  wc_resources : ResourceDescriptor;
  wc_listen_address : string;
  wc_hostname : string;
  wc_work_dir : string;
  wc_log_dir : string;
  wc_heartbeat_interval : Z;
  wc_idle_timeout : option Z;
  wc_extra : gmap string string;
  wc_hw_state_poll_interval : option Z
}.

(** [struct WorkerStartOpts]; durations are parsed by [humantime]. *)
Record WorkerStartOpts := {
  ws_cpus : option string;
  ws_heartbeat : Z;
  ws_idle_timeout : option Z;
  ws_manager : ManagerOpts
}.

(** ** Durations of PBS ([src/common/manager/pbs.rs]) *)

(** The greatest [chrono::Duration] (2 ^ 63 - 1 milliseconds); its constructors
    and its addition panic beyond it. *)
Definition MAX_SECONDS : Z := (2 ^ 63 - 1) / 1000.

Definition chrono_seconds (s : Z) : outcome Z :=
  if (- MAX_SECONDS <=? s) && (s <=? MAX_SECONDS) then Ret s else Panic UnwrapFailed.

(** [str::parse::<i64>] *)
Definition parse_i64 (s : string) : result string Z :=
  let '(neg, digits) :=
    match s with
    | String "-" ((String _ _) as rest) => (true, rest)
    | String "+" ((String _ _) as rest) => (false, rest)
    | _ => (false, s)
    end in
  match digits with
  | EmptyString => Err "cannot parse integer from empty string"
  | _ =>
      if negb (str_all is_dec_digit digits) then Err "invalid digit found in string"
      else
        let v := if (neg : bool) then - dec_value 0 digits else dec_value 0 digits in
        if v <? - 2 ^ 63 then Err "number too small to fit in target type"
        else if 2 ^ 63 <=? v then Err "number too large to fit in target type"
        else Ok v
  end.

(** [numbers[i].parse()?] scaled to seconds by a constructor of [chrono]. *)
Definition parse_part (numbers : list string) (i : nat) (unit_seconds : Z) :
    outcome (result string Z) :=
  match numbers !! i with
  | None => Panic IndexOutOfRange
  | Some text =>
      match parse_i64 text with
      | Err e => Ret (Err e)
      | Ok n => d ← chrono_seconds (n * unit_seconds); Ret (Ok d)
      end
  end.

(** [parse_duration]; a negative duration has no [std] counterpart. *)
Definition parse_duration (raw_time : string) : outcome (result string Z) :=
  let numbers := split_on ":" raw_time in
  hours ← parse_part numbers 0 3600;
  match hours with
  | Err e => Ret (Err e)
  | Ok h =>
      minutes ← parse_part numbers 1 60;
      match minutes with
      | Err e => Ret (Err e)
      | Ok m =>
          hm ← chrono_seconds (h + m);
          seconds ← parse_part numbers 2 1;
          match seconds with
          | Err e => Ret (Err e)
          | Ok s =>
              d ← chrono_seconds (hm + s);
              Ret (if d <? 0 then Err "Source duration value is out of range for the target type"
                   else Ok d)
          end
      end
  end.

Section start.
(** JSON: the parser of [qstat]'s output with the string at a path of keys, and
    the text of a [ManagerInfo] with its parser. *)
Context (Value : Type) (from_str : string -> result string Value).
Context (get_str : Value -> list string -> option string).
Context (info_to_string : ManagerInfo -> result string string).
Context (info_from_str : string -> result string ManagerInfo).
(** [std::env::var], and the run of [qstat -f -F json <job id>]: its output, or an
    error. *)
Context (env_var : string -> option string).
Context (qstat : string -> result string string).

(** [get_time]: the subtraction of [std] durations panics below zero. *)
Definition get_time (job_id data : string) : outcome (result string Z) :=
  match from_str data with
  | Err e => Ret (Err e)
  | Ok data_json =>
      match get_str data_json ["Jobs"; job_id; "Resource_List"; "walltime"] with
      | None => Ret (Err ("Could not find walltime key for job " +:+ job_id))
      | Some w =>
          walltime ← parse_duration w;
          match walltime with
          | Err e => Ret (Err e)
          | Ok walltime =>
              match get_str data_json ["Jobs"; job_id; "resources_used"; "walltime"] with
              | None => Ret (Err ("Could not find used time key for job " +:+ job_id))
              | Some u =>
                  used ← parse_duration u;
                  match used with
                  | Err e => Ret (Err e)
                  | Ok used =>
                      if walltime <? used then Panic UnwrapFailed else Ret (Ok (walltime - used))
                  end
              end
          end
      end
  end.

(** [get_remaining_timelimit] *)
Definition get_remaining_timelimit (job_id : string) : outcome (result string Z) :=
  match qstat job_id with
  | Err e => Ret (Err e)
  | Ok output => get_time job_id output
  end.

(** ** Detection of the manager ([src/worker/start.rs]) *)

(** [Result::unwrap] *)
Definition map_ok {E A B} (f : A -> B) (r : result E A) : result E B :=
  match r with Ok a => Ok (f a) | Err e => Err e end.

Definition unwrap_result {A} (r : result string A) : outcome A :=
  match r with Ok a => Ret a | Err _ => Panic UnwrapFailed end.

(** [try_get_pbs_info] *)
Definition try_get_pbs_info : outcome (result string ManagerInfo) :=
  match env_var "PBS_ENVIRONMENT" with
  | None => Ret (Err "PBS_ENVIRONMENT not found. The process is not running under PBS")
  | Some _ =>
      manager_job_id ← unwrap (env_var "PBS_JOBID");
      r ← get_remaining_timelimit manager_job_id;
      time_limit ← unwrap_result r;
      Ret (Ok {| mi_manager := Pbs; mi_job_id := manager_job_id; mi_time_limit := time_limit |})
  end.

(** [try_get_slurm_info] *)
Definition try_get_slurm_info : result string ManagerInfo :=
  let id := match env_var "SLURM_JOB_ID" with
            | Some id => Some id
            | None => env_var "SLURM_JOBID"
            end in
  match id with
  | None => Err "SLURM_JOB_ID/SLURM_JOBID not found. The process is not running under SLURM"
  | Some id => Ok {| mi_manager := Slurm; mi_job_id := id; mi_time_limit := 1 |}
  end.

(** [gather_manager_info] *)
Definition gather_manager_info (opts : ManagerOpts) : outcome (result string (option ManagerInfo)) :=
  match opts with
  | MDetect =>
      r ← try_get_pbs_info;
      Ret (Ok match r with
              | Ok info => Some info
              | Err _ => match try_get_slurm_info with Ok info => Some info | Err _ => None end
              end)
  | MNone => Ret (Ok None)
  | MPbs =>
      r ← try_get_pbs_info;
      Ret (map_ok Some r)
  | MSlurm => Ret (map_ok Some try_get_slurm_info)
  end.

(** [gethostname], the temporary directory and the resources. *)
Context (hostname : option string) (tmpdir : option string).
(** The arguments of [parse_cpu_definition] and [detect_resource]. *)
Context `{Nom} (new_with_socket_size : Z -> Z -> ResourceDescriptor).
Context (err_to_string : nom_Err ErrorKind -> string).
Context (read_to_string : string -> result string string) (num_cpus : Z).

(** The map [extra] of the configuration. *)
Definition extra_of (manager_info : option ManagerInfo) : result string (gmap string string) :=
  match manager_info with
  | Some info =>
      match info_to_string info with
      | Ok text => Ok {[WORKER_EXTRA_MANAGER_KEY := text]}
      | Err e => Err e
      end
  | None => Ok ∅
  end.

(** [gather_configuration] *)
Definition gather_configuration (opts : WorkerStartOpts) : outcome (result string WorkerConfig) :=
  hostname ← unwrap hostname;
  resources ← match ws_cpus opts with
              | Some cpus => parse_cpu_definition new_with_socket_size err_to_string cpus
              | None => detect_resource new_with_socket_size read_to_string num_cpus
              end;
  match resources with
  | Err e => Ret (Err e)
  | Ok resources =>
      tmpdir ← unwrap tmpdir;
      manager_info ← gather_manager_info (ws_manager opts);
      match manager_info with
      | Err e => Ret (Err e)
      | Ok manager_info =>
          Ret (map_ok (fun extra =>
            {| wc_resources := resources; wc_listen_address := ""; wc_hostname := hostname;
               wc_work_dir := path_join tmpdir "work"; wc_log_dir := path_join tmpdir "logs";
               wc_heartbeat_interval := ws_heartbeat opts;
               wc_idle_timeout := ws_idle_timeout opts; wc_extra := extra;
               wc_hw_state_poll_interval := None |}) (extra_of manager_info))
      end
  end.

(** [get_manager_info] *)
Definition get_manager_info (c : WorkerConfig) : option ManagerInfo :=
  match wc_extra c !! WORKER_EXTRA_MANAGER_KEY with
  | Some info => match info_from_str info with Ok i => Some i | Err _ => None end
  | None => None
  end.

End start.

(** ** Lemmas: durations *)

#[local] Arguments String.append !_ _ /.

(** A text of decimal digits. *)
Definition digits_text (s : string) : Prop := s <> "" /\ str_all is_dec_digit s = true.

Lemma split_on_app c a b :
  str_all (fun d => negb (Ascii.eqb d c)) a = true ->
  split_on c (a +:+ String c b) = a :: split_on c b.
Proof.
  induction a as [|d a IH]; simpl; [by rewrite Ascii.eqb_refl|].
  intros [Hd Ha]%andb_true_iff. apply negb_true_iff in Hd. by rewrite Hd, IH.
Qed.

Lemma split_on_last c a : str_all (fun d => negb (Ascii.eqb d c)) a = true -> split_on c a = [a].
Proof.
  induction a as [|d a IH]; simpl; [done|]. intros [Hd Ha]%andb_true_iff.
  apply negb_true_iff in Hd. by rewrite Hd, IH.
Qed.

Lemma digits_no_colon a :
  str_all is_dec_digit a = true -> str_all (fun d => negb (Ascii.eqb d ":")) a = true.
Proof.
  apply str_all_impl. intros c Hc. apply negb_true_iff.
  destruct (Ascii.eqb_spec c ":") as [->|]; [discriminate|done].
Qed.

Lemma parse_i64_digits s :
  digits_text s -> dec_value 0 s < 2 ^ 63 -> parse_i64 s = Ok (dec_value 0 s).
Proof.
  intros [Hne Hd] Hv. pose proof (dec_value_nonneg 0 s Hd ltac:(lia)) as Hv0.
  destruct s as [|c s]; [done|]. unfold parse_i64.
  assert (Hc : is_dec_digit c = true) by (simpl in Hd; by apply andb_true_iff in Hd as [? _]).
  replace (match String c s with
    | String "-" ((String _ _) as rest) => (true, rest)
    | String "+" ((String _ _) as rest) => (false, rest)
    | _ => (false, String c s) end) with (false, String c s)
    by (clear - Hc; destruct c as [[] [] [] [] [] [] [] []]; try done; by destruct s).
  cbv beta iota. rewrite Hd. cbn [negb].
  destruct (Z.ltb_spec (dec_value 0 (String c s)) (- 2 ^ 63)); [lia|].
  destruct (Z.leb_spec (2 ^ 63) (dec_value 0 (String c s))); [lia|done].
Qed.

(** The seconds of a time [h:m:s]. *)
Definition hms_seconds (h m s : string) : Z :=
  dec_value 0 h * 3600 + dec_value 0 m * 60 + dec_value 0 s.

(** Three digit texts whose sum is a [chrono] duration. *)
Definition hms_ok (h m s : string) : Prop :=
  digits_text h /\ digits_text m /\ digits_text s /\ hms_seconds h m s <= MAX_SECONDS.

Definition hms (h m s : string) : string := h +:+ String ":" (m +:+ String ":" s).

Lemma chrono_seconds_ret z : 0 <= z <= MAX_SECONDS -> chrono_seconds z = Ret z.
Proof.
  intros. unfold chrono_seconds.
  destruct (Z.leb_spec (- MAX_SECONDS) z), (Z.leb_spec z MAX_SECONDS); simpl; lia || done.
Qed.

Lemma parse_part_digits numbers i unit_seconds s :
  numbers !! i = Some s -> digits_text s -> 1 <= unit_seconds ->
  dec_value 0 s * unit_seconds <= MAX_SECONDS ->
  parse_part numbers i unit_seconds = Ret (Ok (dec_value 0 s * unit_seconds)).
Proof.
  intros Hi Hs Hu Hle. unfold parse_part. rewrite Hi.
  pose proof (dec_value_nonneg 0 s (proj2 Hs) ltac:(lia)) as H0.
  assert (MAX_SECONDS < 2 ^ 63) by (vm_compute; done).
  rewrite parse_i64_digits by (done || nia). by rewrite chrono_seconds_ret by nia.
Qed.

Lemma parse_duration_hms h m s :
  hms_ok h m s -> parse_duration (hms h m s) = Ret (Ok (hms_seconds h m s)).
Proof.
  intros (Hh & Hm & Hs & Hle). unfold hms_seconds in *.
  pose proof (dec_value_nonneg 0 h (proj2 Hh) ltac:(lia)).
  pose proof (dec_value_nonneg 0 m (proj2 Hm) ltac:(lia)).
  pose proof (dec_value_nonneg 0 s (proj2 Hs) ltac:(lia)).
  unfold parse_duration, hms.
  rewrite split_on_app by (apply digits_no_colon, Hh).
  rewrite split_on_app by (apply digits_no_colon, Hm).
  rewrite split_on_last by (apply digits_no_colon, Hs).
  rewrite (parse_part_digits _ 0 3600 h) by (done || lia). cbn [mbind outcome_bind].
  rewrite (parse_part_digits _ 1 60 m) by (done || lia). cbn [mbind outcome_bind].
  rewrite chrono_seconds_ret by lia. cbn [mbind outcome_bind].
  rewrite (parse_part_digits _ 2 1 s) by (done || lia). cbn [mbind outcome_bind].
  rewrite chrono_seconds_ret by lia. cbn [mbind outcome_bind].
  destruct (Z.ltb_spec (dec_value 0 h * 3600 + dec_value 0 m * 60 + dec_value 0 s * 1) 0); [lia|].
  do 2 f_equal. lia.
Qed.

(** ** What a worker started under PBS reports *)

Section theorems.
Context (Value : Type) (from_str : string -> result string Value).
Context (get_str : Value -> list string -> option string).
Context (info_to_string : ManagerInfo -> result string string).
Context (info_from_str : string -> result string ManagerInfo).
Context (env_var : string -> option string) (qstat : string -> result string string).
Context (hostname tmpdir : option string).
Context `{Nom} (new_with_socket_size : Z -> Z -> ResourceDescriptor).
Context (err_to_string : nom_Err ErrorKind -> string).
Context (read_to_string : string -> result string string) (num_cpus : Z).

Abbreviation get_time := (get_time Value from_str get_str).
Abbreviation try_get_pbs_info := (try_get_pbs_info Value from_str get_str env_var qstat).
Abbreviation gather_manager_info := (gather_manager_info Value from_str get_str env_var qstat).
Abbreviation gather_configuration :=
  (gather_configuration Value from_str get_str info_to_string env_var qstat hostname tmpdir
     new_with_socket_size err_to_string read_to_string num_cpus).

(** What [qstat] says of the job [id]: the limit and the time used. *)
Definition qstat_reports (id wh wm ws uh um us : string) : Prop :=
  exists output js, qstat id = Ok output /\ from_str output = Ok js /\
    get_str js ["Jobs"; id; "Resource_List"; "walltime"] = Some (hms wh wm ws) /\
    get_str js ["Jobs"; id; "resources_used"; "walltime"] = Some (hms uh um us).

(** The time left, if any is. *)
Definition time_left (wh wm ws uh um us : string) : option Z :=
  let left := hms_seconds wh wm ws - hms_seconds uh um us in
  if left <? 0 then None else Some left.

Lemma time_left_u64 wh wm ws uh um us t :
  hms_ok wh wm ws -> hms_ok uh um us -> time_left wh wm ws uh um us = Some t -> is_u64 t.
Proof.
  intros (_ & _ & _ & Hw) (Hh & Hm & Hs & _) Ht. unfold time_left in Ht.
  destruct (Z.ltb_spec (hms_seconds wh wm ws - hms_seconds uh um us) 0); [done|].
  injection Ht as <-. assert (MAX_SECONDS < 2 ^ 64) by (vm_compute; done).
  pose proof (dec_value_nonneg 0 uh (proj2 Hh) ltac:(lia)).
  pose proof (dec_value_nonneg 0 um (proj2 Hm) ltac:(lia)).
  pose proof (dec_value_nonneg 0 us (proj2 Hs) ltac:(lia)).
  unfold is_u64. assert (0 <= hms_seconds uh um us) by (unfold hms_seconds; lia). lia.
Qed.

Lemma remaining_time id wh wm ws uh um us :
  hms_ok wh wm ws -> hms_ok uh um us -> qstat_reports id wh wm ws uh um us ->
  get_remaining_timelimit Value from_str get_str qstat id
  = t ← unwrap (time_left wh wm ws uh um us); Ret (Ok t).
Proof.
  intros Hw Hu (output & js & Hq & Hf & Hgw & Hgu).
  unfold get_remaining_timelimit, WorkerStart.get_time, time_left.
  rewrite Hq, Hf, Hgw, parse_duration_hms by done. cbn [mbind outcome_bind].
  rewrite Hgu, parse_duration_hms by done. cbn [mbind outcome_bind].
  destruct (Z.ltb_spec (hms_seconds wh wm ws) (hms_seconds uh um us)),
    (Z.ltb_spec (hms_seconds wh wm ws - hms_seconds uh um us) 0); lia || done.
Qed.

Lemma pbs_info id wh wm ws uh um us :
  env_var "PBS_ENVIRONMENT" <> None -> env_var "PBS_JOBID" = Some id ->
  hms_ok wh wm ws -> hms_ok uh um us -> qstat_reports id wh wm ws uh um us ->
  try_get_pbs_info
  = t ← unwrap (time_left wh wm ws uh um us);
    Ret (Ok {| mi_manager := Pbs; mi_job_id := id; mi_time_limit := t |}).
Proof.
  intros He Hid Hw Hu Hq. unfold WorkerStart.try_get_pbs_info.
  destruct (env_var "PBS_ENVIRONMENT"); [|done]. rewrite Hid. cbn [unwrap mbind outcome_bind].
  rewrite (remaining_time _ _ _ _ _ _ _ Hw Hu Hq).
  by destruct (time_left wh wm ws uh um us).
Qed.

(** C34: a worker started inside a PBS job, with the manager detected or asked for,
    and a job limit that [qstat] prints as hours, minutes and seconds, has a
    configuration from which the server reads back the manager, the job identifier
    and exactly the time left (limit minus time used, in seconds); when more time was
    used than the limit, the worker process panics instead of starting. *)
Theorem pbs_worker_time_limit opts host dir res id wh wm ws uh um us :
  (forall i, is_u64 (mi_time_limit i) ->
     exists t, info_to_string i = Ok t /\ info_from_str t = Ok i) ->
  ws_manager opts = MDetect \/ ws_manager opts = MPbs ->
  hostname = Some host -> tmpdir = Some dir ->
  match ws_cpus opts with
  | Some cpus => parse_cpu_definition new_with_socket_size err_to_string cpus
  | None => detect_resource new_with_socket_size read_to_string num_cpus
  end = Ret (Ok res) ->
  env_var "PBS_ENVIRONMENT" <> None -> env_var "PBS_JOBID" = Some id ->
  hms_ok wh wm ws -> hms_ok uh um us -> qstat_reports id wh wm ws uh um us ->
  match time_left wh wm ws uh um us with
  | Some t => exists c, gather_configuration opts = Ret (Ok c) /\
      wc_resources c = res /\ wc_idle_timeout c = ws_idle_timeout opts /\
      get_manager_info info_from_str c
      = Some {| mi_manager := Pbs; mi_job_id := id; mi_time_limit := t |}
  | None => gather_configuration opts = Panic UnwrapFailed
  end.
Proof.
  intros Hjson Hm -> -> Hres He Hid Hw Hu Hq.
  assert (Hg : gather_manager_info (ws_manager opts)
    = t ← unwrap (time_left wh wm ws uh um us);
      Ret (Ok (Some {| mi_manager := Pbs; mi_job_id := id; mi_time_limit := t |}))).
  { destruct Hm as [-> | ->]; cbn [WorkerStart.gather_manager_info];
      rewrite (pbs_info _ _ _ _ _ _ _ He Hid Hw Hu Hq); by destruct (time_left wh wm ws uh um us). }
  unfold WorkerStart.gather_configuration. cbn [unwrap mbind outcome_bind].
  rewrite Hres. cbn [unwrap mbind outcome_bind]. rewrite Hg.
  destruct (time_left wh wm ws uh um us) as [t|] eqn:Htl; cbn [unwrap mbind outcome_bind]; [|done].
  destruct (Hjson {| mi_manager := Pbs; mi_job_id := id; mi_time_limit := t |}) as (text & Ht & Hb).
  { by apply (time_left_u64 wh wm ws uh um us). }
  unfold extra_of. rewrite Ht. cbn [map_ok]. eexists. split_and!; [done..|].
  unfold get_manager_info. cbn [wc_extra]. by rewrite lookup_singleton_eq, Hb.
Qed.

End theorems.
