(* ===== verification/Pipeline.v ===== *)
(** * From the output of a task to the printed log

    The composition of the launcher and the streamer of the workers
    ([src/worker/start.rs], [src/worker/streamer.rs]), the connections and the
    writer of the stream server ([src/stream/server/rpc.rs]) and the log reader
    ([src/stream/reader/logfile.rs]).  That the messages of a task begin a run of the
    launcher, which [co_runs] asks, is what the theorem of [TaskRun.v] states. *)

From S2P Require Import Prelude ArrayDef Messages StreamServer Streamer LogFile Launcher.

(** ** Interleavings *)

(** The messages of several senders in the order in which they arrive. *)
Inductive merged {A} : list (list A) -> list A -> Prop :=
| merged_nil ls : (forall l, l ∈ ls -> l = []) -> merged ls []
| merged_cons ls n x l ms : ls !! n = Some (x :: l) -> merged (<[n := l]> ls) ms -> merged ls (x :: ms).

Lemma merged_elem {A} (ls : list (list A)) ms x :
  merged ls ms -> x ∈ ms <-> exists n l, ls !! n = Some l /\ x ∈ l.
Proof.
  induction 1 as [ls Hnil|ls n y l ms Hn _ IH].
  - split; [by intros ?%elem_of_nil|]. intros (n & l & Hl & Hx).
    apply list_elem_of_lookup_2, Hnil in Hl as ->. by apply elem_of_nil in Hx.
  - rewrite elem_of_cons, IH. assert (n < length ls)%nat by by apply lookup_lt_Some in Hn. split.
    + intros [->|(m & l' & Hm & Hx)]; [exists n, (y :: l); split; [done|by left]|].
      apply list_lookup_insert_Some in Hm as [(<- & <- & _)|[? Hm]]; [|eauto].
      exists n. eexists. split; [done|by right].
    + intros (m & l' & Hm & Hx). destruct (decide (n = m)) as [<-|].
      * rewrite Hn in Hm. injection Hm as <-. apply elem_of_cons in Hx as [->|Hx]; [by left|].
        right. exists n, l. by rewrite list_lookup_insert_eq.
      * right. exists m, l'. by rewrite list_lookup_insert_ne.
Qed.

(** The messages of one kind that a single sender sends keep their order. *)
Lemma merged_filter {A} (P : A -> Prop) `{!forall x, Decision (P x)} ls ms n l :
  merged ls ms -> ls !! n = Some l ->
  (forall m l', m <> n -> ls !! m = Some l' -> Forall (fun x => ~ P x) l') ->
  filter P ms = filter P l.
Proof.
  intros Hm. revert l. induction Hm as [ls Hnil|ls k y r ms Hk _ IH]; intros l Hn Ho.
  - by apply list_elem_of_lookup_2, Hnil in Hn as ->.
  - assert (k < length ls)%nat by by apply lookup_lt_Some in Hk.
    destruct (decide (k = n)) as [->|Hne].
    + rewrite Hk in Hn. injection Hn as <-. rewrite !filter_cons.
      rewrite (IH r); [done|by rewrite list_lookup_insert_eq|].
      intros m l' Hmn. rewrite list_lookup_insert_ne by done. by apply Ho.
    + pose proof (Ho k _ Hne Hk) as Hr. apply Forall_cons in Hr as [Hy Hr].
      rewrite filter_cons_False by done. apply IH; [by rewrite list_lookup_insert_ne|].
      intros m l' Hmn [(<- & <- & _)|[? ?]]%list_lookup_insert_Some; [done|by eapply Ho].
Qed.

(** ** The queue of a connection of a worker *)

(** The message that an event puts into the queue of the connection [conn]. *)
Definition accepted (conn : Z) (w : World) (e : StreamerEvent) : list FromStreamerMessage :=
  let put s m := if decide (ss_conn s = conn /\ is_Some (w_conns w !! conn)) then [m] else [] in
  match e with
  | EStart s => put s (MStart (ss_task s) (ss_instance s))
  | EData s channel data => put s (MData (ss_task s) (ss_instance s) channel data)
  | EClose s => put s (MEnd (ss_task s) (ss_instance s))
  | _ => []
  end.

Fixpoint accepted_run (conn : Z) (w : World) (es : list StreamerEvent) : list FromStreamerMessage :=
  match es with
  | [] => []
  | e :: es' =>
      accepted conn w e
        ++ match streamer_step w e with
           | Ret w' => accepted_run conn w' es'
           | Panic _ => []
           end
  end.

Definition conn_messages (c : Connection) : list FromStreamerMessage := c_sent c ++ c_queue c.

(** The connections of [w'] are those of [w] with the accepted messages, or one
    new connection. *)
Definition conns_step (w : World) (e : StreamerEvent) (w' : World) : Prop :=
  w_next w <= w_next w' /\
  forall conn c', w_conns w' !! conn = Some c' ->
    conn < w_next w' /\
    ((exists c, w_conns w !! conn = Some c /\
        conn_messages c' = conn_messages c ++ accepted conn w e) \/
     (conn = w_next w /\ conn_messages c' = [] /\ accepted conn w e = [])).

Definition conns_bounded (w : World) : Prop :=
  forall conn c, w_conns w !! conn = Some c -> conn < w_next w.

Lemma conns_step_same w e w' :
  conns_bounded w -> (forall conn, accepted conn w e = []) ->
  w_conns w' ⊆ w_conns w -> w_next w' = w_next w -> conns_step w e w'.
Proof.
  intros Hb Ha Hsub Hn. split; [lia|]. intros conn c' Hc. eapply lookup_weaken in Hc; [|exact Hsub].
  split; [rewrite Hn; by eapply Hb|]. left. exists c'. rewrite Ha. by rewrite app_nil_r.
Qed.

Lemma queue_send_conns w s m f e :
  conns_bounded w ->
  (forall conn, accepted conn w e
     = if decide (ss_conn s = conn /\ is_Some (w_conns w !! conn)) then [m] else []) ->
  conns_step w e (queue_send w (ss_conn s) m f).1.
Proof.
  intros Hb Ha. unfold queue_send. destruct (w_conns w !! ss_conn s) as [c|] eqn:Hc; split; simpl;
    try lia; intros conn c' Hc'.
  - apply lookup_insert_Some in Hc' as [[<- <-]|[Hne Hc']].
    + split; [by eapply Hb|]. left. exists c. split; [done|]. rewrite Ha, decide_True by by eauto.
      unfold conn_messages. simpl. by rewrite app_assoc.
    + split; [by eapply Hb|]. left. exists c'. rewrite Ha, decide_False by naive_solver.
      by rewrite app_nil_r.
  - split; [by eapply Hb|]. left. exists c'. rewrite Ha, decide_False by naive_solver.
    by rewrite app_nil_r.
Qed.

Lemma streamer_step_conns w e w' :
  conns_bounded w -> streamer_step w e = Ret w' -> conns_step w e w'.
Proof.
  intros Hb Hs. destruct e as [j t i r|s|s ch d|s|s|conn|conn t|conn err|conn|conn|]; simpl in Hs.
  - unfold streamer_get_stream in Hs. destruct (w_streams w !! j) as [info|]; ret_inv.
    + by apply conns_step_same.
    + split; simpl; [lia|]. intros conn c' Hc. apply lookup_insert_Some in Hc as [[<- <-]|[_ Hc]].
      * split; [lia|]. by right.
      * split; [apply Hb in Hc; lia|]. left. exists c'. by rewrite app_nil_r.
  - simplify_eq. by apply queue_send_conns.
  - simplify_eq. by apply queue_send_conns.
  - simplify_eq. by apply queue_send_conns.
  - simplify_eq. by apply conns_step_same.
  - simplify_eq. unfold conn_forward. destruct (w_conns w !! conn) as [c|] eqn:Hc;
      [|by apply conns_step_same].
    destruct (c_queue c) as [|m q] eqn:Hq; [by apply conns_step_same|].
    split; simpl; [lia|]. intros k c' Hk.
    apply lookup_insert_Some in Hk as [[<- <-]|[_ Hk]]; (split; [by eapply Hb|]); left.
    + exists c. split; [done|]. unfold conn_messages. simpl. by rewrite Hq, app_nil_r, <- app_assoc.
    + exists c'. by rewrite app_nil_r.
  - unfold conn_response, close_task_stream in Hs.
    destruct (w_conns w !! conn); ret_inv; by apply conns_step_same.
  - unfold conn_failed, streamer_send_error in Hs. destruct (w_conns w !! conn); ret_inv;
      apply conns_step_same; try done; apply delete_subseteq.
  - simplify_eq. unfold conn_finished. destruct (w_conns w !! conn);
      apply conns_step_same; try done; apply delete_subseteq.
  - assert (Hf : conns_step w (EQueueClosed conn) (conn_finished w conn)).
    { unfold conn_finished. destruct (w_conns w !! conn);
        apply conns_step_same; try done; apply delete_subseteq. }
    destruct (w_conns w !! conn); [destruct (_ && _)|]; simplify_eq; [done|by apply conns_step_same..].
  - simplify_eq. by apply conns_step_same.
Qed.

(** A live connection sent or queues exactly the messages that were put into it,
    in order. *)
Lemma queue_is_fifo w es w' conn c' :
  conns_bounded w -> foldM streamer_step w es = Ret w' -> w_conns w' !! conn = Some c' ->
  exists msgs,
    match w_conns w !! conn with
    | Some c => msgs = conn_messages c
    | None => msgs = [] /\ w_next w <= conn
    end /\ conn_messages c' = msgs ++ accepted_run conn w es.
Proof.
  revert w. induction es as [|e es IH]; intros w Hb Hr Hc; simpl in Hr.
  - simplify_eq. rewrite Hc. eexists. split; [done|]. by rewrite app_nil_r.
  - destruct (streamer_step w e) as [w1|] eqn:Hs; simpl in Hr; [|done].
    destruct (streamer_step_conns w e w1 Hb Hs) as [Hn Hstep].
    assert (Hb1 : conns_bounded w1) by (intros k c Hk; by apply Hstep in Hk as [? _]).
    destruct (IH w1 Hb1 Hr Hc) as (msgs & Hm & Heq). cbn [accepted_run]. rewrite Hs.
    destruct (w_conns w1 !! conn) as [c1|] eqn:H1.
    + destruct (Hstep conn c1 H1) as (_ & [(c & -> & Hc1)|(-> & Hc1 & Ha)]).
      * exists (conn_messages c). split; [done|]. by rewrite Heq, Hm, Hc1, app_assoc.
      * exists []. rewrite Ha, Heq, Hm, Hc1. split; [|done].
        destruct (w_conns w !! w_next w) eqn:Hw; [|split; [done|lia]]. apply Hb in Hw. lia.
    + destruct Hm as [-> Hlt]. exists []. split.
      * destruct (w_conns w !! conn) eqn:Hw; [|split; [done|lia]]. apply Hb in Hw. lia.
      * rewrite Heq. simpl. enough (accepted conn w e = []) as -> by done.
        assert (Hnone : w_conns w !! conn = None)
          by (destruct (w_conns w !! conn) eqn:Hw; [apply Hb in Hw; lia|done]).
        unfold accepted. rewrite Hnone.
        destruct e; try done; rewrite decide_False; try done; intros [_ [? [=]]].
Qed.

(** ** Traces, stream by stream *)

Abbreviation of_key k := (fun m => stream_key m = k).

(** Only the messages of a stream decide whether it is started. *)
Lemma trace_step_key started m st :
  trace_step (started ∩ {[stream_key m]}) m = Some st ->
  exists started', trace_step started m = Some started' /\ started' ∩ {[stream_key m]} = st /\
    forall k, k <> stream_key m -> started' ∩ {[k]} = started ∩ {[k]}.
Proof.
  destruct m as [t i|t i c d|t i]; simpl; intros Hs; case_decide as Hc; simplify_eq.
  - destruct Hc as (Hn & Hb). rewrite decide_True by (split; [set_solver|done]).
    eexists. split; [done|]. split; [|intros]; set_solver.
  - destruct Hc as (Hn & Hb). rewrite decide_True by (split; [set_solver|done]).
    eexists. by split.
  - rewrite decide_True by set_solver. eexists. by split.
Qed.

(** A trace is well-formed when every stream of it is. *)
Lemma trace_run_by_key ms started :
  (forall k, is_Some (trace_run (started ∩ {[k]}) (filter (of_key k) ms))) ->
  is_Some (trace_run started ms).
Proof.
  revert started. induction ms as [|m ms IH]; intros started Hk; [by eexists|].
  pose proof (Hk (stream_key m)) as Hm. rewrite filter_cons_True in Hm by done.
  simpl in Hm. destruct (trace_step (started ∩ _) m) as [st|] eqn:Hs; [|by destruct Hm].
  destruct (trace_step_key _ _ _ Hs) as (started' & Hs' & Hst & Hother). simpl. rewrite Hs'. simpl.
  apply IH. intros k. destruct (decide (k = stream_key m)) as [->|Hne]; [by rewrite Hst|].
  rewrite Hother by done. specialize (Hk k). by rewrite filter_cons_False in Hk.
Qed.

Lemma trace_ok_by_key ms : (forall k, trace_ok (filter (of_key k) ms)) -> trace_ok ms.
Proof.
  intros Hk. apply trace_run_by_key. intros k. rewrite (intersection_empty_l_L {[k]}). apply Hk.
Qed.

Lemma stream_chunks_key ms t i c :
  stream_chunks (filter (of_key (t, i)) ms) t i c = stream_chunks ms t i c.
Proof.
  unfold stream_chunks. induction ms as [|m ms IH]; [done|].
  rewrite filter_cons. case_decide as Hk.
  - csimpl. by rewrite IH.
  - csimpl. rewrite IH. destruct m as [|t' i' c' d|]; try done. rewrite decide_False; [done|].
    intros [= -> -> ->]. done.
Qed.

(** ** The messages of a run of a task *)

Section run.
Context (t i : Z) (out err : list (list Z)).
(** Reads of a pipe are no longer than the buffer. *)
Hypothesis reads_short : Forall (fun b => Z.of_nat (length b) <= STDIO_BUFFER_SIZE) (out ++ err).

Definition run_data (m : FromStreamerMessage) : Prop :=
  exists c d, m = MData t i c d /\ 0 <= c < 2 /\ Z.of_nat (length d) < 2 ^ 32.

Lemma resend_stdio_prefix reads : resend_stdio reads `prefix_of` reads.
Proof.
  induction reads as [|[|b r] reads IH]; simpl; [done|apply prefix_nil|by apply prefix_cons].
Qed.

Lemma interleaving_Forall {A} (P : A -> Prop) l1 l2 l :
  interleaving l1 l2 l -> Forall P l1 -> Forall P l2 -> Forall P l.
Proof. induction 1; intros H1 H2; decompose_Forall_hyps; auto. Qed.

Lemma interleaving_omap {A B} (f : A -> option B) l1 l2 l :
  interleaving l1 l2 l -> interleaving (omap f l1) (omap f l2) (omap f l).
Proof.
  induction 1 as [|x l1 l2 l _ IH|x l1 l2 l _ IH]; csimpl; [constructor|..];
    destruct (f x); [by constructor|done|by constructor|done].
Qed.

Lemma interleaving_nil_r {A} (l1 l : list A) : interleaving l1 [] l -> l = l1.
Proof. remember [] as l2. induction 1; simplify_eq; [done|f_equal; auto]. Qed.

Lemma interleaving_nil_l {A} (l2 l : list A) : interleaving [] l2 l -> l = l2.
Proof. remember [] as l1. induction 1; simplify_eq; [done|f_equal; auto]. Qed.

Lemma interleaving_concat {A} (l1 l2 : list A) : interleaving l1 l2 (l1 ++ l2).
Proof.
  induction l1; simpl; [|by constructor]. induction l2; by constructor.
Qed.

Definition reads_of (c : Z) : list (list Z) := if c =? 0 then out else err.

Lemma run_data_ok data :
  interleaving (MData t i 0 <$> resend_stdio out) (MData t i 1 <$> resend_stdio err) data ->
  Forall run_data data /\
  forall c, 0 <= c < 2 -> stream_chunks data t i c = resend_stdio (reads_of c).
Proof.
  intros Hd. assert (Hlen : forall c reads, 0 <= c < 2 -> (forall b, b ∈ reads -> b ∈ out ++ err) ->
    Forall run_data (MData t i c <$> resend_stdio reads)).
  { intros c reads Hc Hin. apply Forall_fmap, Forall_forall. intros b Hb. exists c, b.
    split; [done|]. split; [done|]. rewrite Forall_forall in reads_short.
    assert (b ∈ reads) by (eapply elem_of_prefix; [exact Hb|apply resend_stdio_prefix]).
    pose proof (reads_short b ltac:(auto)). unfold STDIO_BUFFER_SIZE in *. lia. }
  assert (Hsame : forall c reads, stream_chunks (MData t i c <$> reads) t i c = reads).
  { intros c reads. induction reads as [|b reads IH]; [done|]. csimpl. rewrite decide_True by done.
    f_equal. exact IH. }
  assert (Hother : forall c c' reads, c' <> c -> stream_chunks (MData t i c' <$> reads) t i c = []).
  { intros c c' reads Hne. induction reads as [|b reads IH]; [done|]. csimpl.
    rewrite decide_False by congruence. exact IH. }
  split.
  - eapply interleaving_Forall; [exact Hd|apply Hlen..]; try lia; set_solver.
  - intros c Hc. unfold reads_of.
    apply (interleaving_omap (fun m => match m with
      | MData t' i' c' data => if decide ((t', i', c') = (t, i, c)) then Some data else None
      | _ => None end)) in Hd.
    fold (stream_chunks data t i c) in Hd.
    fold (stream_chunks (MData t i 0 <$> resend_stdio out) t i c) in Hd.
    fold (stream_chunks (MData t i 1 <$> resend_stdio err) t i c) in Hd.
    destruct (Z.eqb_spec c 0) as [->|Hne].
    + rewrite Hsame, Hother in Hd by done. by apply interleaving_nil_r in Hd.
    + assert (c = 1) as -> by lia. rewrite Hother, Hsame in Hd by done.
      by apply interleaving_nil_l in Hd.
Qed.

End run.

(** What the server gets of a run: nothing, or the start with some of the data,
    and the end only after all data. *)
Lemma run_prefix t i data l :
  l `prefix_of` (MStart t i :: data ++ [MEnd t i]) ->
  l = [] \/ exists d, d `prefix_of` data /\
    (l = MStart t i :: d \/ (d = data /\ l = MStart t i :: data ++ [MEnd t i])).
Proof.
  destruct l as [|m l]; [by left|]. intros [k Hk]. injection Hk as <- Hk. right.
  destruct k as [|x k _] using rev_ind.
  - rewrite app_nil_r in Hk. exists data. subst l. by auto.
  - rewrite app_assoc in Hk. apply app_inj_tail in Hk as [-> ->]. exists l.
    split; [by eexists|by left].
Qed.

Lemma run_trace t i d n :
  is_u32 t /\ is_u32 i -> Forall (run_data t i) d ->
  trace_ok (MStart t i :: d ++ replicate n (MEnd t i)).
Proof.
  intros Hk Hd. unfold trace_ok. cbn [trace_run trace_step].
  rewrite decide_True by (split; [set_solver|done]). cbn [mbind option_bind].
  rewrite union_empty_r_L. induction Hd as [|m d (c & b & -> & Hc) _ IH]; csimpl.
  - induction n as [|n IH]; csimpl; [by eexists|]. by rewrite decide_True by set_solver.
  - by rewrite decide_True by (split; [set_solver|done]).
Qed.

Lemma run_data_end t i d : Forall (run_data t i) d -> MEnd t i ∉ d.
Proof. intros Hd Hin. rewrite Forall_forall in Hd. by destruct (Hd _ Hin) as (? & ? & ? & _). Qed.

Lemma stream_chunks_app ms1 ms2 t i c :
  stream_chunks (ms1 ++ ms2) t i c = stream_chunks ms1 t i c ++ stream_chunks ms2 t i c.
Proof. apply omap_app. Qed.

Lemma stream_chunks_ends t i c n t' i' : stream_chunks (replicate n (MEnd t' i')) t i c = [].
Proof. by induction n. Qed.

(** ** A connection on the server *)

(** What a connection delivers: messages, then its orderly end or an error. *)
Definition connection_input (received : list FromStreamerMessage) (error : option string) :
    list (result string FromStreamerMessage) :=
  (Ok <$> received) ++ match error with Some e => [Err e] | None => [] end.

Lemma receive_loop_all op received error :
  exists op', receive_loop op (connection_input received error) = (received, op', error).
Proof.
  revert op. induction received as [|m received IH]; intros op.
  - by destruct error; eexists.
  - unfold connection_input in *. csimpl.
    edestruct IH as [op' H]. rewrite H. by eexists.
Qed.

Lemma handle_connection_received c received error :
  exists keys,
    sm_message <$> (handle_connection c (connection_input received error)).1
      = received ++ ((fun k => MEnd k.1 k.2) <$> keys) /\
    (forall t i, (t, i) ∈ keys -> MStart t i ∈ received) /\
    (forall t i, MStart t i ∈ received -> MEnd t i ∈ received \/ (t, i) ∈ keys).
Proof.
  unfold handle_connection. destruct (receive_loop_all ∅ received error) as [op E]. rewrite E.
  destruct (receive_loop_spec _ _ _ _ _ E) as (_ & _ & Hst & Hop). exists (elements op).
  cbn [fst]. setoid_rewrite elem_of_elements. split_and!.
  - rewrite fmap_app, <- !list_fmap_compose. f_equal; [apply list_fmap_id|].
    apply list_fmap_ext. by intros ? [t i] _.
  - intros t i [?|?]%Hop; [set_solver|done].
  - intros t i Hin. destruct (Hst t i Hin); auto.
Qed.

(** ** The whole path *)

(** A connection of a worker to the server: the steps of the worker, the number
    of the connection, and what the server received through it. *)
Record StreamedConnection := {
  sc_events : list StreamerEvent;
  sc_conn : Z;
  sc_received : list FromStreamerMessage;
  sc_error : option string
}.

(** The messages that the server forwards to the writer of the log. *)
Definition server_messages (n : nat) (sc : StreamedConnection) : list StreamMessage :=
  (handle_connection (Z.of_nat n) (connection_input (sc_received sc) (sc_error sc))).1.

Section pipeline.
Context `{ByteOrder}.
(** The reads of the pipe of channel [c] of instance [i] of task [t]. *)
Context (reads : Z -> Z -> Z -> list (list Z)).
Context (reads_buffer : forall t i c, Forall (fun b => Z.of_nat (length b) <= STDIO_BUFFER_SIZE) (reads t i c)).

(** The connection delivered a beginning of what the worker sent, and the
    messages of every task come from (a beginning of) its run. *)
Record connection_ok (sc : StreamedConnection) : Prop := {
  co_delivered : exists w c, foldM streamer_step streamer_start (sc_events sc) = Ret w /\
    w_conns w !! sc_conn sc = Some c /\ sc_received sc `prefix_of` c_sent c;
  co_runs : forall t i, exists run, run_task_messages t i (reads t i 0) (reads t i 1) run /\
    filter (of_key (t, i)) (accepted_run (sc_conn sc) streamer_start (sc_events sc)) `prefix_of` run;
  co_ids : forall t i, MStart t i ∈ sc_received sc -> is_u32 t /\ is_u32 i
}.

(** What the log may have of a stream; [complete]: the server got its end. *)
Definition stream_view (t i : Z) (complete : Prop) (l : list FromStreamerMessage) : Prop :=
  l = [] \/ exists d n,
    l = MStart t i :: d ++ replicate (S n) (MEnd t i) /\
    (is_u32 t /\ is_u32 i) /\ Forall (run_data t i) d /\
    forall c, 0 <= c < 2 ->
      stream_chunks d t i c `prefix_of` resend_stdio (reads t i c) /\
      (complete -> stream_chunks d t i c = resend_stdio (reads t i c)).

Lemma filter_prefix {A} (P : A -> Prop) `{!forall x, Decision (P x)} (l1 l2 : list A) :
  l1 `prefix_of` l2 -> filter P l1 `prefix_of` filter P l2.
Proof. intros [k ->]. rewrite filter_app. by apply prefix_app_r. Qed.

Lemma received_of_run sc t i :
  connection_ok sc ->
  exists data, interleaving (MData t i 0 <$> resend_stdio (reads t i 0))
      (MData t i 1 <$> resend_stdio (reads t i 1)) data /\
    filter (of_key (t, i)) (sc_received sc) `prefix_of` (MStart t i :: data ++ [MEnd t i]).
Proof.
  intros [(w & c & Hr & Hc & Hrec) Hruns _].
  destruct (Hruns t i) as (run & (data & Hd & ->) & Hacc). exists data. split; [done|].
  etrans; [|exact Hacc]. apply filter_prefix. etrans; [exact Hrec|].
  destruct (queue_is_fifo streamer_start (sc_events sc) w (sc_conn sc) c) as (msgs & Hm & Hf);
    [|done|done|].
  - intros k x Hx. unfold streamer_start in Hx. simpl in Hx. by rewrite lookup_empty in Hx.
  - unfold streamer_start in Hm at 1. simpl in Hm. rewrite lookup_empty in Hm. destruct Hm as [-> _].
    rewrite <- (app_nil_l (accepted_run _ _ _)), <- Hf. by apply prefix_app_r.
Qed.

Lemma filter_ends (t i : Z) (keys : list (Z * Z)) :
  exists n, filter (of_key (t, i)) ((fun k => MEnd k.1 k.2) <$> keys) = replicate n (MEnd t i) /\
    ((t, i) ∈ keys -> (0 < n)%nat) /\ ((t, i) ∉ keys -> n = O).
Proof.
  induction keys as [|[t' i'] keys (n & Hn & Hin & Hout)].
  - exists O. split; [done|]. split; [by intros ?%elem_of_nil|done].
  - csimpl. rewrite filter_cons. simpl. case_decide as Hk.
    + exists (S n). simplify_eq. rewrite Hn. split; [done|]. split; [lia|]. intros []. by left.
    + exists n. rewrite Hn. split; [done|]. split; [|set_solver].
      intros [Heq|]%elem_of_cons; [congruence|auto].
Qed.

Lemma connection_view n sc t i :
  connection_ok sc ->
  stream_view t i (MEnd t i ∈ sc_received sc)
    (filter (of_key (t, i)) (sm_message <$> server_messages n sc)).
Proof.
  intros Hok. destruct (received_of_run sc t i Hok) as (data & Hd & Hpre).
  unfold server_messages.
  destruct (handle_connection_received (Z.of_nat n) (sc_received sc) (sc_error sc))
    as (keys & -> & Hkeys & Hclosed).
  rewrite filter_app. destruct (filter_ends t i keys) as (k & -> & Hin & Hout).
  destruct (run_data_ok t i (reads t i 0) (reads t i 1)) with (data := data) as [Hall Hch];
    [by apply Forall_app|done|].
  assert (Hmem : forall m, stream_key m = (t, i) ->
    m ∈ sc_received sc <-> m ∈ filter (of_key (t, i)) (sc_received sc)).
  { intros m Hm. rewrite list_elem_of_filter. naive_solver. }
  assert (Hreads : forall c, 0 <= c < 2 -> reads_of (reads t i 0) (reads t i 1) c = reads t i c).
  { intros c Hc. unfold reads_of. destruct (Z.eqb_spec c 0) as [->|]; [done|].
    by replace c with 1 by lia. }
  destruct (run_prefix t i data _ Hpre) as [Hnil|(d & Hdd & Hcase)].
  - left. rewrite Hnil. rewrite Hout; [done|]. intros Hk. apply Hkeys in Hk.
    rewrite (Hmem (MStart t i)), Hnil in Hk by done. by apply elem_of_nil in Hk.
  - right. assert (Hs : MStart t i ∈ sc_received sc).
    { apply (Hmem (MStart t i)); [done|]. destruct Hcase as [->|[_ ->]]; by left. }
    assert (Hfd : Forall (run_data t i) d).
    { destruct Hdd as [r ->]. by apply Forall_app in Hall as [? _]. }
    assert (Hchd : forall c, 0 <= c < 2 ->
      stream_chunks d t i c `prefix_of` resend_stdio (reads t i c)).
    { intros c Hc. rewrite <- Hreads, <- Hch by done. destruct Hdd as [r ->].
      rewrite stream_chunks_app. by eexists. }
    destruct Hcase as [Heq|[-> Heq]]; rewrite Heq.
    + assert (Hno : MEnd t i ∉ sc_received sc).
      { rewrite (Hmem (MEnd t i)), Heq by done. intros [|Hd']%elem_of_cons; [done|].
        by apply (run_data_end t i d). }
      destruct (Hclosed t i Hs) as [|Hk]; [done|]. apply Hin in Hk. destruct k as [|k]; [lia|].
      exists d, k. split; [done|]. split; [by apply (co_ids sc Hok)|]. split; [done|].
      intros c Hc. split; [auto|done].
    + exists data, k. split; [simpl; by rewrite <- app_assoc|].
      split; [by apply (co_ids sc Hok)|]. split; [done|].
      intros c Hc. split; [auto|]. intros _. by rewrite <- Hreads, <- Hch.
Qed.

(** All connections of the workers of a job: a stream comes through one of them. *)
Context (conns : list StreamedConnection).
Hypothesis conns_ok : Forall connection_ok conns.
Hypothesis one_connection : forall n1 n2 a b x y,
  conns !! n1 = Some a -> conns !! n2 = Some b -> x ∈ sc_received a -> y ∈ sc_received b ->
  stream_key x = stream_key y -> n1 = n2.

(** The messages arrive at the writer in any order that keeps the order of each
    connection. *)
Context (sms : list StreamMessage).
Hypothesis arrival : merged (imap server_messages conns) sms.

(** The task ended the stream itself, and the server got the end. *)
Definition complete (t i : Z) : Prop := exists sc, sc ∈ conns /\ MEnd t i ∈ sc_received sc.

Lemma server_message_key n sc m :
  conns !! n = Some sc -> m ∈ server_messages n sc ->
  exists x, x ∈ sc_received sc /\ stream_key x = stream_key (sm_message m).
Proof.
  intros Hn Hm. apply (list_elem_of_fmap_2 sm_message) in Hm. unfold server_messages in Hm.
  destruct (handle_connection_received (Z.of_nat n) (sc_received sc) (sc_error sc))
    as (keys & Heq & Hkeys & _). rewrite Heq in Hm.
  apply elem_of_app in Hm as [Hm|([t i] & -> & Hk)%list_elem_of_fmap]; [by eexists|].
  exists (MStart t i). auto.
Qed.

Lemma filter_fmap_message k (l : list StreamMessage) :
  filter (of_key k) (sm_message <$> l) = sm_message <$> filter (fun m => stream_key (sm_message m) = k) l.
Proof. induction l as [|m l IH]; [done|]. rewrite fmap_cons, !filter_cons. case_decide; csimpl; by rewrite IH. Qed.

Lemma server_view t i :
  stream_view t i (complete t i) (filter (of_key (t, i)) (sm_message <$> sms)).
Proof.
  destruct (filter (of_key (t, i)) (sm_message <$> sms)) as [|m l] eqn:Hf; [by left|].
  assert (Hm : m ∈ filter (of_key (t, i)) (sm_message <$> sms)) by (rewrite Hf; left).
  rewrite <- Hf. apply list_elem_of_filter in Hm as [Hk (x & -> & Hx)%list_elem_of_fmap].
  apply (merged_elem _ _ _ arrival) in Hx as (n & msgs & Hn & Hx).
  rewrite list_lookup_imap in Hn. apply fmap_Some in Hn as (sc & Hn & ->).
  rewrite filter_fmap_message.
  rewrite (merged_filter (fun m => stream_key (sm_message m) = (t, i)) _ _ n (server_messages n sc) arrival).
  - rewrite <- filter_fmap_message. rewrite Forall_lookup in conns_ok.
    destruct (connection_view n sc t i (conns_ok _ _ Hn)) as [?|(d & k & ? & ? & ? & Hc)]; [by left|].
    right. exists d, k. split_and!; try tauto. intros c Hcc. destruct (Hc c Hcc) as [? Hend].
    split; [done|]. intros (sc' & Hin & He). apply Hend.
    apply list_elem_of_lookup in Hin as [n' Hn'].
    destruct (server_message_key n sc x Hn Hx) as (y & Hy & Hyk).
    assert (n' = n) as ->. { eapply one_connection; [exact Hn'|exact Hn|exact He|exact Hy|]. by rewrite Hyk, Hk. }
    congruence.
  - by rewrite list_lookup_imap, Hn.
  - intros n' l' Hne Hl'. rewrite list_lookup_imap in Hl'. apply fmap_Some in Hl' as (sc' & Hn' & ->).
    apply Forall_forall. intros x' Hx' Hk'. apply Hne.
    destruct (server_message_key n sc x Hn Hx) as (y & Hy & Hyk).
    destruct (server_message_key n' sc' x' Hn' Hx') as (y' & Hy' & Hyk').
    eapply one_connection; [exact Hn'|exact Hn|exact Hy'|exact Hy|]. by rewrite Hyk, Hk, Hyk', Hk'.
Qed.

Lemma server_trace_ok : trace_ok (sm_message <$> sms).
Proof.
  apply trace_ok_by_key. intros [t i].
  destruct (server_view t i) as [->|(d & n & -> & Hk & Hd & _)]; [by eexists|by apply run_trace].
Qed.

Lemma last_started_elem ms t :
  t ∈ started_tasks ms -> Forall message_wf ms -> MStart t (last_started ms t) ∈ ms.
Proof.
  intros Ht Hwf. assert (Hmax : last_started ms t = -1 /\ t ∉ started_tasks ms
    \/ 0 <= last_started ms t /\ MStart t (last_started ms t) ∈ ms).
  { clear Ht. induction Hwf as [|m ms Hm _ IH]; [left; split; [done|apply not_elem_of_empty]|].
    unfold started_tasks in *. destruct m as [t' i| |]; csimpl; [|set_solver..].
    simpl in Hm. destruct Hm as [_ [Hi _]]. destruct (Z.eqb_spec t' t) as [->|Hne]; [|set_solver by lia].
    right. destruct IH as [[-> _]|[? ?]].
    - rewrite Z.max_l by lia. split; [done|by left].
    - split; [lia|]. destruct (Z.max_spec i (last_started ms t)) as [[_ ->]|[_ ->]]; [by right|by left]. }
  destruct Hmax as [[_ ?]|[_ ?]]; [done|done].
Qed.

(** C3: whatever the interleaving of the tasks of the workers and of their
    connections, and wherever connections broke, once all connections of a job ended
    its log opens and [hq log cat] never fails: for every selected task it prints a
    beginning of what the newest started instance of the task wrote to the channel,
    unmixed with other tasks and instances, and everything it wrote when its own end
    message had reached the server. *)
Theorem streamed_output_is_printed `{Profile} io_error :
  let ms := sm_message <$> sms in
  exists lf,
    LogFile_open (file_writer (fun _ _ => true) (fun _ => true) io_error sms).1 = Some (Ok lf) /\
    forall opts ids,
      match co_task opts with
      | Some a => IntArray_iter a = Ret ids
      | None => ids = merge_sort Z.le (elements (started_tasks ms))
      end ->
      (forall t, t ∈ ids -> t ∈ started_tasks ms) ->
      exists outs, cat lf opts = Ret (Ok (concat outs)) /\
        Forall2 (fun t out =>
          let i := last_started ms t in
          let written := resend_stdio (reads t i (channel_id (co_channel opts))) in
          (exists chunks, chunks `prefix_of` written /\ out = concat chunks) /\
          (complete t i -> out = concat written)) ids outs.
Proof.
  intros ms. rewrite file_writer_ok. cbn [fst]. fold ms.
  pose proof server_trace_ok as Htr. fold ms in Htr.
  destruct (log_open ms Htr) as (index & Hopen & _). eexists. split; [exact Hopen|].
  intros opts ids Hids Hin. pose proof Htr as [st Hrun].
  assert (Hwf : Forall message_wf ms) by (eapply trace_messages_wf; [exact Hrun|set_solver]).
  exists (task_output ms (channel_id (co_channel opts)) <$> ids).
  assert (Hview : forall t, t ∈ ids -> let i := last_started ms t in
    exists d n, filter (of_key (t, i)) ms = MStart t i :: d ++ replicate (S n) (MEnd t i) /\
      forall c, 0 <= c < 2 ->
        stream_chunks d t i c `prefix_of` resend_stdio (reads t i c) /\
        (complete t i -> stream_chunks d t i c = resend_stdio (reads t i c))).
  { intros t Ht i. destruct (server_view t i) as [Hnil|(d & n & Heq & _ & _ & Hc)];
      [|exists d, n; by split].
    pose proof (last_started_elem ms t (Hin t Ht) Hwf) as Hs. fold i in Hs.
    assert (Hs' : MStart t i ∈ filter (of_key (t, i)) ms) by by apply list_elem_of_filter.
    unfold ms in Hs'. rewrite Hnil in Hs'. by apply elem_of_nil in Hs'. }
  split.
  - destruct (cat_spec ms _ opts ids Htr Hopen Hids Hin) as (r & -> & Hr).
    replace (forallb (last_ended ms) ids) with true in Hr; [by rewrite orb_true_r in Hr; rewrite Hr|].
    symmetry. apply forallb_forall. intros t Ht%list_elem_of_In.
    destruct (Hview t Ht) as (d & n & Heq & _). apply bool_decide_eq_true.
    enough (MEnd t (last_started ms t) ∈ filter (of_key (t, last_started ms t)) ms) as Hm
      by by apply list_elem_of_filter in Hm as [_ ?].
    rewrite Heq. right. apply elem_of_app. right. by left.
  - apply Forall2_fmap_r, Forall_Forall2_diag, Forall_forall. intros t Ht.
    destruct (Hview t Ht) as (d & n & Heq & Hc). unfold task_output. simpl.
    rewrite <- stream_chunks_key, Heq.
    change (stream_chunks (MStart ?a ?b :: ?l)) with (stream_chunks l).
    rewrite stream_chunks_app, stream_chunks_ends, app_nil_r.
    destruct (Hc (channel_id (co_channel opts))) as [Hp He]; [by destruct (co_channel opts)|].
    split; [by eexists|]. intros Hcomplete. by rewrite He.
Qed.

End pipeline.
