(* ===== verification/ServerDir.v ===== *)
(** * Server directories and the start of a server

    [src/common/serverdir.rs], [src/common/fsutils.rs], [src/transfer/auth.rs]
    (keys) and [src/server/bootstrap.rs]: the access record on disk, the link to
    the directory of the running server, and the decision to start a server.
    The file system is the part the code uses: directories, files and symbolic
    links whose targets are no links, without permission errors.  JSON, hex, keys,
    the clock, the process id and the sockets are arguments. *)

From S2P Require Import Prelude Messages Client.

(** ** The file system *)

Record FileSystem := {
  fs_dirs : gset string;
  fs_files : gmap string string;
  fs_links : gmap string string
}.

Definition with_dirs (fs : FileSystem) (d : gset string) : FileSystem :=
  {| fs_dirs := d; fs_files := fs_files fs; fs_links := fs_links fs |}.
Definition with_files (fs : FileSystem) (f : gmap string string) : FileSystem :=
  {| fs_dirs := fs_dirs fs; fs_files := f; fs_links := fs_links fs |}.
Definition with_links (fs : FileSystem) (l : gmap string string) : FileSystem :=
  {| fs_dirs := fs_dirs fs; fs_files := fs_files fs; fs_links := l |}.

Definition resolve (fs : FileSystem) (p : string) : string := default p (fs_links fs !! p).

(** [Path::is_dir] and [Path::exists]: both follow links. *)
Definition is_dir (fs : FileSystem) (p : string) : bool := bool_decide (resolve fs p ∈ fs_dirs fs).
Definition path_exists (fs : FileSystem) (p : string) : bool :=
  is_dir fs p || bool_decide (is_Some (fs_files fs !! resolve fs p)).

(** [fs::canonicalize] *)
Definition canonicalize (fs : FileSystem) (p : string) : option string :=
  if path_exists fs p then Some (resolve fs p) else None.

(** Something is at the path itself: a directory, a file or a link. *)
Definition occupied (fs : FileSystem) (p : string) : bool :=
  bool_decide (p ∈ fs_dirs fs) || bool_decide (is_Some (fs_files fs !! p))
  || bool_decide (is_Some (fs_links fs !! p)).

(** The path and its ancestors. *)
Fixpoint ancestors_from (prefix s : string) : list string :=
  match s with
  | EmptyString => [prefix]
  | String c s' =>
      (if (nat_of_ascii c =? 47)%nat then [prefix] else [])
        ++ ancestors_from (prefix +:+ String c "") s'
  end.

(** [fs::create_dir_all] *)
Definition create_dir_all (fs : FileSystem) (p : string) : result string FileSystem :=
  let ps := ancestors_from "" p in
  if existsb (fun q => bool_decide (is_Some (fs_files fs !! resolve fs q))) ps
  then Err "File exists"
  else if is_dir fs p then Ok fs
  else if bool_decide (is_Some (fs_links fs !! p)) then Err "File exists"
  else Ok (with_dirs fs (list_to_set ps ∪ fs_dirs fs)).

(** [fs::remove_file]: a file or a link itself. *)
Definition remove_file (fs : FileSystem) (p : string) : result string FileSystem :=
  if bool_decide (is_Some (fs_links fs !! p)) then Ok (with_links fs (delete p (fs_links fs)))
  else if bool_decide (is_Some (fs_files fs !! p)) then Ok (with_files fs (delete p (fs_files fs)))
  else if bool_decide (p ∈ fs_dirs fs) then Err "Is a directory"
  else Err "No such file or directory".

(** [unix::fs::symlink] *)
Definition symlink (fs : FileSystem) (target link : string) : result string FileSystem :=
  if occupied fs link then Err "File exists"
  else Ok (with_links fs (<[link := target]> (fs_links fs))).

(** [OpenOptions] with [create_new], and the content written. *)
Definition create_new (fs : FileSystem) (p content : string) : result string FileSystem :=
  if occupied fs p then Err "File exists"
  else Ok (with_files fs (<[p := content]> (fs_files fs))).

Definition read_file (fs : FileSystem) (p : string) : result string string :=
  match fs_files fs !! resolve fs p with
  | Some c => Ok c
  | None => Err "No such file or directory"
  end.

(** ** [src/common/fsutils.rs] *)

(** [Path::is_absolute] *)
Definition is_absolute (p : string) : bool :=
  match p with String c _ => (nat_of_ascii c =? 47)%nat | EmptyString => false end.

(** [create_symlink] *)
Definition create_symlink (fs : FileSystem) (symlink_path target : string) : result string FileSystem :=
  match (if path_exists fs symlink_path then remove_file fs symlink_path else Ok fs) with
  | Err e => Err e
  | Ok fs => symlink fs target symlink_path
  end.

(** ** What the environment provides *)

(** The secret keys of [orion] and the texts of bytes of [hex]. *)
Class Keys := {
  SecretKey : Type;
  SecretKey_eq_dec :: EqDecision SecretKey;
  unprotected_as_bytes : SecretKey -> list Z;
  from_slice : list Z -> result string SecretKey;
  hex_encode : list Z -> string;
  hex_decode : string -> result string (list Z);
  hex_roundtrip : forall b, hex_decode (hex_encode b) = Ok b;
  key_roundtrip : forall k, from_slice (unprotected_as_bytes k) = Ok k
}.

(** The record as the derived serialization sees it: its keys are texts
    ([serialize_with], [deserialize_with]). *)
Record RawRecord := {
  raw_version : string;
  raw_host : string;
  raw_pid : Z;
  raw_server_port : Z;
  raw_worker_port : Z;
  raw_start_date : Z;
  raw_hq_secret_key : string;
  raw_tako_secret_key : string
}.

(** [serde_json] on the record. *)
Class AccessFormat := {
  to_writer_pretty : RawRecord -> result string string;
  from_reader : string -> result string RawRecord;
  json_roundtrip : forall raw, exists text,
    to_writer_pretty raw = Ok text /\ from_reader text = Ok raw
}.

(** The process and the network: the current directory, the version of the package,
    the format of dates ([chrono]), and whether the network lets a connection to a
    host and port through. *)
Class HostEnv := {
  current_dir : option string;
  VERSION : string;
  format_date : Z -> string;
  reachable : string -> Z -> bool
}.

Section serverdir.
Context `{Keys} `{AccessFormat} `{HostEnv}.

(** [absolute_path] *)
Definition absolute_path (p : string) : outcome string :=
  if is_absolute p then Ret p
  else env ← unwrap current_dir; Ret (path_join env p).

(** ** Keys and access records *)

(** [serialize_key] and [deserialize_key] *)
Definition serialize_key (key : SecretKey) : string := hex_encode (unprotected_as_bytes key).

Definition deserialize_key (key : string) : result string SecretKey :=
  match hex_decode key with
  | Err _ => Err "Could not deserialize secret key"
  | Ok data =>
      match from_slice data with
      | Err _ => Err "Could not create secret key from slice"
      | Ok key => Ok key
      end
  end.

(** [struct AccessRecord] *)
Record AccessRecord := {
  ar_version : string;
  ar_host : string;
  ar_pid : Z;
  ar_server_port : Z;
  ar_worker_port : Z;
  ar_start_date : Z;
  ar_hq_secret_key : SecretKey;
  ar_tako_secret_key : SecretKey
}.

#[global] Instance AccessRecord_eq_dec : EqDecision AccessRecord.
Proof. solve_decision. Defined.

Definition to_raw (r : AccessRecord) : RawRecord :=
  {| raw_version := ar_version r; raw_host := ar_host r; raw_pid := ar_pid r;
     raw_server_port := ar_server_port r; raw_worker_port := ar_worker_port r;
     raw_start_date := ar_start_date r;
     raw_hq_secret_key := serialize_key (ar_hq_secret_key r);
     raw_tako_secret_key := serialize_key (ar_tako_secret_key r) |}.

(** [serde_deserialize_key] on both keys. *)
Definition of_raw (r : RawRecord) : result string AccessRecord :=
  match deserialize_key (raw_hq_secret_key r), deserialize_key (raw_tako_secret_key r) with
  | Ok hq, Ok tako =>
      Ok {| ar_version := raw_version r; ar_host := raw_host r; ar_pid := raw_pid r;
            ar_server_port := raw_server_port r; ar_worker_port := raw_worker_port r;
            ar_start_date := raw_start_date r;
            ar_hq_secret_key := hq; ar_tako_secret_key := tako |}
  | Err e, _ | _, Err e => Err ("Could not load secret key " +:+ e)
  end.

(** [store_access_record]: the file exists even when the record cannot be written. *)
Definition store_access_record (fs : FileSystem) (record : AccessRecord) (path : string) :
    FileSystem * result string unit :=
  match create_new fs path "" with
  | Err e => (fs, Err e)
  | Ok fs =>
      match to_writer_pretty (to_raw record) with
      | Err e => (fs, Err e)
      | Ok text => (with_files fs (<[path := text]> (fs_files fs)), Ok tt)
      end
  end.

(** [load_access_file] *)
Definition load_access_file (fs : FileSystem) (path : string) : result string AccessRecord :=
  match read_file fs path with
  | Err e => Err e
  | Ok text =>
      match from_reader text with
      | Err e => Err e
      | Ok raw => of_raw raw
      end
  end.

(** ** [ServerDir] *)

Definition SYMLINK_PATH : string := "hq-current".
Definition ACCESS_FILE : string := "access.json".

(** [resolve_active_directory] *)
Definition resolve_active_directory (fs : FileSystem) (path : string) : string :=
  match canonicalize fs (path_join path SYMLINK_PATH) with
  | Some p => if is_dir fs p then p else path
  | None => path
  end.

(** [ServerDir::open]; a server directory is its path. *)
Definition ServerDir_open (fs : FileSystem) (directory : string) : outcome (result string string) :=
  let path := resolve_active_directory fs directory in
  if negb (is_dir fs path) then Ret (Err (path +:+ " is not a directory"))
  else p ← absolute_path path; Ret (Ok p).

(** [ServerDir::access_filename] *)
Definition access_filename (server_dir : string) : string := path_join server_dir ACCESS_FILE.

(** [ServerDir::create] *)
Definition ServerDir_create (fs : FileSystem) (directory : string) (record : AccessRecord) :
    outcome (FileSystem * result string string) :=
  let dir_path := path_join directory (format_date (ar_start_date record)) in
  match create_dir_all fs dir_path with
  | Err e => Ret (fs, Err e)
  | Ok fs =>
      server_dir ← ServerDir_open fs dir_path;
      match server_dir with
      | Err e => Ret (fs, Err e)
      | Ok server_dir =>
          match store_access_record fs record (access_filename server_dir) with
          | (fs, Err e) => Ret (fs, Err e)
          | (fs, Ok _) =>
              match create_symlink fs (path_join directory SYMLINK_PATH) dir_path with
              | Err e => Ret (fs, Err e)
              | Ok fs => Ret (fs, Ok server_dir)
              end
          end
      end
  end.

(** [ServerDir::read_access_record] *)
Definition read_access_record (fs : FileSystem) (server_dir : string) : result string AccessRecord :=
  match load_access_file fs (access_filename server_dir) with
  | Err e => Err e
  | Ok record =>
      if String.eqb (ar_version record) VERSION then Ok record
      else Err ("Hyperqueue version mismatch detected. Server was started with version "
                  +:+ (ar_version record +:+ (", but the current version is " +:+ (VERSION +:+ "."))))
  end.

(** ** The start of a server ([src/server/bootstrap.rs]) *)

(** The file system and the running servers. *)
Record ServerWorld := {
  sw_fs : FileSystem;
  sw_running : list AccessRecord
}.

(** [HqConnection::connect_to_server]: a server listens on the port and has the key. *)
Definition connect_to_server (w : ServerWorld) (record : AccessRecord) : result string AccessRecord :=
  if negb (reachable (ar_host record) (ar_server_port record)) then Err "Connection failed"
  else
    match List.find (fun r => String.eqb (ar_host r) (ar_host record)
                           && (ar_server_port r =? ar_server_port record)
                           && bool_decide (ar_hq_secret_key r = ar_hq_secret_key record))
            (sw_running w) with
    | Some r => Ok r
    | None => Err "Connection failed"
    end.

(** [enum ServerStatus] *)
Inductive ServerStatus :=
| Offline (record : AccessRecord)
| Online (record : AccessRecord).

(** [get_server_status] *)
Definition get_server_status (w : ServerWorld) (server_directory : string) :
    outcome (result string ServerStatus) :=
  sd ← ServerDir_open (sw_fs w) server_directory;
  match sd with
  | Err e => Ret (Err e)
  | Ok sd =>
      match read_access_record (sw_fs w) sd with
      | Err e => Ret (Err e)
      | Ok record =>
          Ret (Ok match connect_to_server w record with
                  | Err _ => Offline record
                  | Ok _ => Online record
                  end)
      end
  end.

(** A path with [{:?}], as long as it has no characters that are escaped. *)
Definition debug_path (p : string) : string :=
  String (ascii_of_nat 34) (p +:+ String (ascii_of_nat 34) "").

(** [get_client_connection]: the server at the other end. *)
Definition get_client_connection (w : ServerWorld) (server_directory : string) :
    outcome (result string AccessRecord) :=
  sd ← ServerDir_open (sw_fs w) server_directory;
  match sd with
  | Err e => Ret (Err "Invalid server directory")
  | Ok sd =>
      match read_access_record (sw_fs w) sd with
      | Err e => Ret (Err ("No running instance of HQ found (cannot read access record from "
                             +:+ (debug_path (access_filename sd) +:+ ")")))
      | Ok record =>
          Ret match connect_to_server w record with
              | Err _ => Err ("Cannot connect to HQ server at port " +:+ (ar_host record +:+ (":"
                                +:+ to_string (ar_server_port record))))
              | Ok server => Ok server
              end
      end
  end.

(** What the environment gives to a new server: the host of the configuration, the
    ports, the time, the process id and the generated keys. *)
Record ServerStart := {
  st_host : string;
  st_server_port : Z;
  st_worker_port : Z;
  st_now : Z;
  st_pid : Z;
  st_hq_key : SecretKey;
  st_tako_key : SecretKey
}.

(** [AccessRecord::new] *)
Definition AccessRecord_new (x : ServerStart) : AccessRecord :=
  {| ar_version := VERSION; ar_host := st_host x; ar_pid := st_pid x;
     ar_server_port := st_server_port x; ar_worker_port := st_worker_port x;
     ar_start_date := st_now x; ar_hq_secret_key := st_hq_key x;
     ar_tako_secret_key := st_tako_key x |}.

(** [initialize_server], after the sockets and [Backend::start]; the server runs
    when it succeeds. *)
Definition initialize_server (w : ServerWorld) (server_directory : string) (x : ServerStart) :
    outcome (ServerWorld * result string AccessRecord) :=
  let record := AccessRecord_new x in
  '(fs, r) ← ServerDir_create (sw_fs w) server_directory record;
  Ret match r with
      | Err e => ({| sw_fs := fs; sw_running := sw_running w |}, Err e)
      | Ok _ => ({| sw_fs := fs; sw_running := record :: sw_running w |}, Ok record)
      end.

(** The end of [start_server], after the server stopped without an error. *)
Definition server_end (w : ServerWorld) (server_directory : string) (record : AccessRecord) : ServerWorld :=
  {| sw_fs := match remove_file (sw_fs w) (path_join server_directory SYMLINK_PATH) with
              | Ok fs => fs
              | Err _ => sw_fs w
              end;
     sw_running := List.filter (fun r => negb (bool_decide (r = record))) (sw_running w) |}.

(** [init_hq_server], up to the run of the server *)
Definition init_hq_server (w : ServerWorld) (server_directory : string) (x : ServerStart) :
    outcome (ServerWorld * result string AccessRecord) :=
  status ← get_server_status w server_directory;
  match status with
  | Err _ | Ok (Offline _) => initialize_server w server_directory x
  | Ok (Online _) =>
      Ret (w, Err ("Server at " +:+ (server_directory +:+
        (" is already online, please stop it first using `hq stop --server-dir "
           +:+ (server_directory +:+ "`")))))
  end.

(** [print_server_info]: the record that is printed. *)
Definition print_server_info (w : ServerWorld) (server_directory : string) :
    outcome (result string AccessRecord) :=
  status ← get_server_status w server_directory;
  Ret match status with
      | Err _ | Ok (Offline _) => Err "No online server found"
      | Ok (Online record) => Ok record
      end.

(** ** Lemmas *)

#[local] Arguments path_join : simpl never.

Lemma raw_roundtrip r : of_raw (to_raw r) = Ok r.
Proof.
  unfold of_raw, to_raw, deserialize_key, serialize_key. simpl.
  rewrite !hex_roundtrip, !key_roundtrip. by destruct r.
Qed.

(** The directory of a run started at [date] is new. *)
Record fresh_run (fs : FileSystem) (dir date : string) : Prop := {
  fr_absolute : is_absolute (path_join dir date) = true;
  fr_no_files : Forall (fun q => fs_files fs !! resolve fs q = None) (ancestors_from "" (path_join dir date));
  fr_last : path_join dir date ∈ ancestors_from "" (path_join dir date);
  fr_dir : occupied fs (path_join dir date) = false;
  fr_nested : Forall (fun p => occupied fs p = false /\ p ∉ ancestors_from "" (path_join dir date))
    [path_join (path_join dir date) SYMLINK_PATH; path_join (path_join dir date) ACCESS_FILE];
  fr_distinct : NoDup [path_join dir date; path_join dir SYMLINK_PATH;
    path_join (path_join dir date) SYMLINK_PATH; path_join (path_join dir date) ACCESS_FILE];
  fr_link : (path_join dir SYMLINK_PATH ∉ fs_dirs fs) /\ fs_files fs !! path_join dir SYMLINK_PATH = None /\
    path_join dir SYMLINK_PATH ∉ ancestors_from "" (path_join dir date)
}.

(** There is no link, or its target exists. *)
Definition link_replaceable (fs : FileSystem) (link : string) : Prop :=
  match fs_links fs !! link with
  | Some t => t ∈ fs_dirs fs \/ is_Some (fs_files fs !! t)
  | None => True
  end.

(** The file system after the creation of a server directory. *)
Definition created (fs : FileSystem) (dir date text : string) : FileSystem :=
  let dp := path_join dir date in
  {| fs_dirs := list_to_set (ancestors_from "" dp) ∪ fs_dirs fs;
     fs_files := <[path_join dp ACCESS_FILE := text]> (fs_files fs);
     fs_links := <[path_join dir SYMLINK_PATH := dp]> (fs_links fs) |}.

Lemma occupied_false fs p :
  occupied fs p = false <-> (p ∉ fs_dirs fs) /\ fs_files fs !! p = None /\ fs_links fs !! p = None.
Proof.
  unfold occupied. rewrite !orb_false_iff, !bool_decide_eq_false, <- !eq_None_not_Some. tauto.
Qed.

Lemma resolve_nolink fs p : fs_links fs !! p = None -> resolve fs p = p.
Proof. intros Hp. unfold resolve. by rewrite Hp. Qed.

Lemma path_exists_false fs p :
  fs_links fs !! p = None -> p ∉ fs_dirs fs -> fs_files fs !! p = None -> path_exists fs p = false.
Proof.
  intros Hl Hd Hf. unfold path_exists, is_dir. rewrite resolve_nolink by done.
  rewrite bool_decide_eq_false_2 by done. by rewrite Hf.
Qed.

Lemma open_fresh fs dir :
  is_absolute dir = true -> fs_links fs !! dir = None -> dir ∈ fs_dirs fs ->
  occupied fs (path_join dir SYMLINK_PATH) = false -> ServerDir_open fs dir = Ret (Ok dir).
Proof.
  intros Ha Hl Hd (Hsd & Hsf & Hsl)%occupied_false. unfold ServerDir_open, resolve_active_directory, canonicalize.
  rewrite path_exists_false by done. unfold is_dir. rewrite resolve_nolink by done.
  rewrite bool_decide_eq_true_2 by done. cbn [negb]. unfold absolute_path. by rewrite Ha.
Qed.

Lemma open_linked fs dir target :
  is_absolute target = true -> fs_links fs !! path_join dir SYMLINK_PATH = Some target ->
  fs_links fs !! target = None -> target ∈ fs_dirs fs -> ServerDir_open fs dir = Ret (Ok target).
Proof.
  intros Ha Hs Hl Hd. assert (Ht : is_dir fs target = true).
  { unfold is_dir. rewrite resolve_nolink by done. by apply bool_decide_eq_true_2. }
  assert (Hr : resolve fs (path_join dir SYMLINK_PATH) = target) by (unfold resolve; by rewrite Hs).
  assert (resolve_active_directory fs dir = target) as Hact.
  { unfold resolve_active_directory, canonicalize, path_exists. unfold is_dir at 1.
    rewrite Hr, bool_decide_eq_true_2 by done. cbn [orb]. by rewrite Ht. }
  unfold ServerDir_open. rewrite Hact, Ht. cbn [negb]. unfold absolute_path. by rewrite Ha.
Qed.

Lemma create_symlink_ok fs link target :
  link ∉ fs_dirs fs -> fs_files fs !! link = None ->
  link_replaceable fs link ->
  create_symlink fs link target = Ok (with_links fs (<[link := target]> (fs_links fs))).
Proof.
  intros Hd Hf Hl. unfold create_symlink. unfold link_replaceable in Hl. destruct (fs_links fs !! link) as [t|] eqn:Ht.
  - assert (path_exists fs link = true) as ->.
    { unfold path_exists, is_dir. assert (resolve fs link = t) as -> by (unfold resolve; by rewrite Ht).
      apply orb_true_iff. destruct Hl; [left|right]; by apply bool_decide_eq_true_2. }
    unfold remove_file. rewrite bool_decide_eq_true_2 by (rewrite Ht; by eauto).
    unfold symlink. assert (occupied (with_links fs (delete link (fs_links fs))) link = false) as ->.
    { apply occupied_false. simpl. by rewrite lookup_delete_eq. }
    simpl. by rewrite insert_delete_eq.
  - rewrite path_exists_false by done. unfold symlink.
    assert (occupied fs link = false) as -> by by apply occupied_false. done.
Qed.

Lemma create_dir_all_fresh fs dir date :
  fresh_run fs dir date ->
  create_dir_all fs (path_join dir date)
  = Ok (with_dirs fs (list_to_set (ancestors_from "" (path_join dir date)) ∪ fs_dirs fs)).
Proof.
  intros Hf. pose proof (fr_dir _ _ _ Hf) as (Hd & _ & Hl)%occupied_false. unfold create_dir_all.
  destruct (existsb _ _) eqn:Hex.
  - apply existsb_exists in Hex as (q & Hq & Hs). apply list_elem_of_In in Hq.
    pose proof (fr_no_files _ _ _ Hf) as Hn. rewrite Forall_forall in Hn.
    rewrite (Hn q Hq) in Hs. by apply bool_decide_eq_true in Hs as [? ?].
  - unfold is_dir. rewrite resolve_nolink by done. rewrite bool_decide_eq_false_2 by done.
    by rewrite Hl.
Qed.

(** The file system when the link is made. *)
Definition stored (fs : FileSystem) (dir date text : string) : FileSystem :=
  let dp := path_join dir date in
  {| fs_dirs := list_to_set (ancestors_from "" dp) ∪ fs_dirs fs;
     fs_files := <[path_join dp ACCESS_FILE := text]> (fs_files fs);
     fs_links := fs_links fs |}.

Lemma create_stored fs dir record :
  fresh_run fs dir (format_date (ar_start_date record)) ->
  let date := format_date (ar_start_date record) in
  exists text, from_reader text = Ok (to_raw record) /\
    ServerDir_create fs dir record
    = match create_symlink (stored fs dir date text) (path_join dir SYMLINK_PATH) (path_join dir date) with
      | Err e => Ret (stored fs dir date text, Err e)
      | Ok fs => Ret (fs, Ok (path_join dir date))
      end.
Proof.
  intros Hf date. unfold ServerDir_create. fold date in Hf |- *.
  rewrite create_dir_all_fresh by done. set (dp := path_join dir date) in *.
  pose proof (fr_dir _ _ _ Hf) as (Hd & Hdf & Hdl)%occupied_false.
  destruct (proj1 (Forall_cons _ _ _) (fr_nested _ _ _ Hf)) as [[Hs1 Hs2] Hn].
  destruct (proj1 (Forall_cons _ _ _) Hn) as [[Ha1 Ha2] _]. fold dp in Hs1, Hs2, Ha1, Ha2.
  apply occupied_false in Hs1 as (? & ? & ?), Ha1 as (? & ? & ?).
  rewrite open_fresh; [|apply Hf|done|simpl; apply elem_of_union_l, elem_of_list_to_set, Hf|].
  - cbn [mbind outcome_bind]. unfold store_access_record, create_new.
    assert (occupied (with_dirs fs (list_to_set (ancestors_from "" dp) ∪ fs_dirs fs))
      (access_filename dp) = false) as ->.
    { apply occupied_false. simpl. unfold access_filename. rewrite not_elem_of_union, elem_of_list_to_set. naive_solver. }
    destruct (json_roundtrip (to_raw record)) as (text & Ht & Hr). rewrite Ht. exists text. split; [done|].
    unfold stored, with_files, with_dirs, access_filename. cbn [fs_files fs_dirs fs_links].
    rewrite insert_insert_eq. done.
  - apply occupied_false. simpl. rewrite not_elem_of_union, elem_of_list_to_set. naive_solver.
Qed.

(** The link can be made or replaced in the file system with the access file. *)
Lemma link_unoccupied fs dir date text :
  fresh_run fs dir date ->
  (path_join dir SYMLINK_PATH ∉ fs_dirs (stored fs dir date text)) /\
  fs_files (stored fs dir date text) !! path_join dir SYMLINK_PATH = None.
Proof.
  intros Hf. destruct (fr_link _ _ _ Hf) as (Hl1 & Hl2 & Hl3).
  pose proof (fr_distinct _ _ _ Hf) as Hnd. apply NoDup_cons in Hnd as [_ [Hnin _]%NoDup_cons].
  simpl. rewrite not_elem_of_union, elem_of_list_to_set, lookup_insert_ne by set_solver. done.
Qed.

Lemma create_ok fs dir record :
  fresh_run fs dir (format_date (ar_start_date record)) ->
  link_replaceable fs (path_join dir SYMLINK_PATH) ->
  exists text, from_reader text = Ok (to_raw record) /\
    ServerDir_create fs dir record
    = Ret (created fs dir (format_date (ar_start_date record)) text,
           Ok (path_join dir (format_date (ar_start_date record)))).
Proof.
  intros Hf Hl. destruct (create_stored fs dir record Hf) as (text & Ht & ->). exists text.
  split; [done|]. destruct (link_unoccupied fs dir _ text Hf) as [Hs1 Hs2].
  rewrite create_symlink_ok; [done|done|done|]. unfold link_replaceable, stored in *. simpl.
  destruct (fs_links fs !! path_join dir SYMLINK_PATH) as [t|]; [|done].
  destruct Hl as [|Hx]; [left; set_solver|right]. apply lookup_insert_is_Some'. by right.
Qed.

(** What a directory with a running server shows. *)
Lemma created_record fs dir record text w :
  fresh_run fs dir (format_date (ar_start_date record)) -> from_reader text = Ok (to_raw record) ->
  ar_version record = VERSION ->
  sw_fs w = created fs dir (format_date (ar_start_date record)) text ->
  let dp := path_join dir (format_date (ar_start_date record)) in
  ServerDir_open (sw_fs w) dir = Ret (Ok dp) /\ read_access_record (sw_fs w) dp = Ok record.
Proof.
  intros Hf Ht Hv Hw dp. rewrite Hw.
  pose proof (fr_dir _ _ _ Hf) as (Hd & Hdf & Hdl)%occupied_false.
  destruct (proj1 (Forall_cons _ _ _) (fr_nested _ _ _ Hf)) as [_ Hn].
  destruct (proj1 (Forall_cons _ _ _) Hn) as [[Ha1 _] _]. apply occupied_false in Ha1 as (_ & _ & Ha1).
  pose proof (fr_distinct _ _ _ Hf) as Hnd. fold dp in Hd, Hdl, Ha1, Hnd.
  apply NoDup_cons in Hnd as [Hn1 [Hn2 _]%NoDup_cons]. split.
  - apply open_linked; [apply Hf|simpl; apply lookup_insert_eq|..]; fold dp.
    + simpl. rewrite lookup_insert_ne by set_solver. done.
    + simpl. apply elem_of_union_l, elem_of_list_to_set, Hf.
  - unfold read_access_record, load_access_file, read_file, access_filename.
    rewrite resolve_nolink.
    + simpl. rewrite lookup_insert_eq, Ht, raw_roundtrip, Hv. by rewrite String.eqb_refl.
    + simpl. rewrite lookup_insert_ne by set_solver. done.
Qed.

Lemma connect_running w record :
  reachable (ar_host record) (ar_server_port record) = true ->
  exists server, connect_to_server {| sw_fs := sw_fs w; sw_running := record :: sw_running w |} record = Ok server
    /\ server = record.
Proof.
  intros Hr. unfold connect_to_server. rewrite Hr. simpl.
  rewrite String.eqb_refl, Z.eqb_refl, bool_decide_eq_true_2 by done. simpl. eauto.
Qed.

(** After the end of a server nothing is found through the directory. *)
Lemma end_unpublishes fs w dir record text :
  fresh_run fs dir (format_date (ar_start_date record)) ->
  sw_fs w = created fs dir (format_date (ar_start_date record)) text ->
  is_absolute dir = true -> occupied fs (path_join dir ACCESS_FILE) = false ->
  path_join dir ACCESS_FILE <> path_join (path_join dir (format_date (ar_start_date record))) ACCESS_FILE ->
  exists e, get_client_connection (server_end w dir record) dir = Ret (Err e).
Proof.
  intros Hf Hw Ha (_ & Haf & Hal)%occupied_false Hne.
  destruct (fr_link _ _ _ Hf) as (Hs1 & Hs2 & Hs3). pose proof (fr_distinct _ _ _ Hf) as Hnd.
  set (dp := path_join dir (format_date _)) in *.
  apply NoDup_cons in Hnd as [_ [Hnin _]%NoDup_cons].
  unfold server_end, remove_file. rewrite Hw. simpl. rewrite lookup_insert_eq.
  rewrite bool_decide_eq_true_2 by eauto. rewrite delete_insert_eq.
  unfold get_client_connection. cbn [sw_fs]. set (fs2 := with_links _ _).
  assert (Hopen : ServerDir_open fs2 dir
    = Ret (if is_dir fs2 dir then Ok dir else Err (dir +:+ " is not a directory"))).
  { unfold ServerDir_open, resolve_active_directory, canonicalize. rewrite path_exists_false.
    - destruct (is_dir fs2 dir); [|done]. cbn [negb]. unfold absolute_path. by rewrite Ha.
    - simpl. apply lookup_delete_eq.
    - simpl. rewrite not_elem_of_union, elem_of_list_to_set. done.
    - simpl. rewrite lookup_insert_ne by set_solver. done. }
  rewrite Hopen. destruct (is_dir fs2 dir); cbn [mbind outcome_bind]; [|by eexists].
  unfold read_access_record, load_access_file, read_file, access_filename.
  assert (Hnone : fs_files fs2 !! resolve fs2 (path_join dir ACCESS_FILE) = None).
  { rewrite resolve_nolink.
    - simpl. by rewrite lookup_insert_ne.
    - simpl. apply lookup_delete_None. by right. }
  rewrite Hnone. by eexists.
Qed.

(** A start publishes the record of the new server. *)
Lemma start_publishes w dir x :
  fresh_run (sw_fs w) dir (format_date (st_now x)) ->
  link_replaceable (sw_fs w) (path_join dir SYMLINK_PATH) ->
  let record := AccessRecord_new x in
  exists text w1, initialize_server w dir x = Ret (w1, Ok record) /\
    sw_running w1 = record :: sw_running w /\
    sw_fs w1 = created (sw_fs w) dir (format_date (st_now x)) text /\
    forall running, exists sd,
      ServerDir_open (sw_fs w1) dir = Ret (Ok sd) /\ read_access_record (sw_fs w1) sd = Ok record /\
      get_server_status {| sw_fs := sw_fs w1; sw_running := running |} dir =
        Ret (Ok match connect_to_server {| sw_fs := sw_fs w1; sw_running := running |} record with
                | Ok _ => Online record
                | Err _ => Offline record
                end).
Proof.
  intros Hf Hlink record.
  destruct (create_ok (sw_fs w) dir record) as (text & Ht & Hc); [done..|].
  set (fs1 := created _ _ _ _) in Hc. set (w1 := {| sw_fs := fs1; sw_running := record :: sw_running w |}).
  destruct (created_record (sw_fs w) dir record text w1) as [Hopen Hread]; [done..|].
  exists text, w1. split_and!; [|done|done|].
  - unfold initialize_server. fold record. by rewrite Hc.
  - intros running. eexists. split; [exact Hopen|]. split; [exact Hread|].
    unfold get_server_status. cbn [sw_fs]. rewrite Hopen. cbn [mbind outcome_bind]. rewrite Hread.
    by destruct (connect_to_server _ record).
Qed.

(** ** Properties *)

(** No server is found through the directory. *)
Definition no_server (w : ServerWorld) (dir : string) : Prop :=
  exists status, get_server_status w dir = Ret status /\
    match status with Ok (Online _) => False | _ => True end.


(** C37: a link to a directory that was removed is not replaced, since the test for
    its existence follows the link: the start of a server fails although no server
    is found, and the access file of the server that did not start is left behind. *)
Theorem dangling_link_blocks_start w dir x target :
  let dp := path_join dir (format_date (st_now x)) in
  fs_links (sw_fs w) !! path_join dir SYMLINK_PATH = Some target ->
  occupied (sw_fs w) target = false -> (target ∉ ancestors_from "" dp) ->
  target <> path_join dp ACCESS_FILE ->
  fresh_run (sw_fs w) dir (format_date (st_now x)) -> no_server w dir ->
  exists w', init_hq_server w dir x = Ret (w', Err "File exists") /\
    is_Some (fs_files (sw_fs w') !! path_join dp ACCESS_FILE).
Proof.
  intros dp Hl (Ht1 & Ht2 & _)%occupied_false Ht3 Ht4 Hf (status & Hst & Hoff).
  destruct (create_stored (sw_fs w) dir (AccessRecord_new x) Hf) as (text & _ & Hc).
  cbn [ar_start_date AccessRecord_new] in Hc. fold dp in Hc. set (fs2 := stored _ _ _ _) in Hc.
  assert (Hs : create_symlink fs2 (path_join dir SYMLINK_PATH) dp = Err "File exists").
  { assert (Hr : resolve fs2 (path_join dir SYMLINK_PATH) = target) by (unfold resolve; simpl; by rewrite Hl).
    unfold create_symlink, path_exists, is_dir. rewrite Hr.
    rewrite bool_decide_eq_false_2; [|simpl; rewrite not_elem_of_union, elem_of_list_to_set; done].
    simpl. rewrite lookup_insert_ne by done. rewrite Ht2. simpl. unfold symlink, occupied. simpl.
    rewrite Hl. by rewrite (bool_decide_eq_true_2 (is_Some (Some target))), orb_true_r by eauto. }
  rewrite Hs in Hc. exists {| sw_fs := fs2; sw_running := sw_running w |}. split.
  - unfold init_hq_server. rewrite Hst. cbn [mbind outcome_bind].
    unfold initialize_server. rewrite Hc. by destruct status as [[?|?]|?].
  - simpl. rewrite lookup_insert_eq. by eexists.
Qed.

End serverdir.
