(* ===== verification/Connection.v ===== *)
(** * Connections of clients: [src/transfer/connection.rs]

    A connection seals the messages it sends and opens the messages it receives.
    The handshake, the sealing and the opening are [tako]'s
    ([tako::transfer::auth]) and are an interface; so is the encoding of messages.
    The outcome of a write to the socket and what a read of it returns are
    arguments of the operations.  The theorem puts the two ends on a link that
    delivers frames in order, and that may be closed or break at any time. *)

From S2P Require Import Prelude Messages Client ServerDir.

(** ** Interfaces *)

(** [Serialize] and [DeserializeOwned] for a message type. *)
Class Serde (M : Type) := {
  serialize_item : M -> result string (list Z);
  deserialize_item : list Z -> result string M
}.

(** One end of a handshake: protocol, role, role of the peer, secret key. *)
Record Endpoint `{Keys} := {
  ep_protocol : Z;
  ep_role : string;
  ep_peer_role : string;
  ep_secret : option SecretKey
}.

(** [tako::transfer::auth]; [do_authentication me peer] is the result at [me] when
    [peer] is at the other end, [open_message] also decodes the message. *)
Class Auth `{Keys} := {
  StreamSealer : Type;
  StreamOpener : Type;
  do_authentication : Endpoint -> Endpoint -> result string (option StreamSealer * option StreamOpener);
  seal_message : option StreamSealer -> list Z -> option StreamSealer * list Z;
  open_message : forall M `{Serde M}, option StreamOpener -> list Z -> option StreamOpener * result string M
}.

(** What the code relies on: the two ends of a successful handshake fit together, *)
Class AuthLaws `{Auth} := {
  paired : option StreamSealer -> option StreamOpener -> Prop;
  auth_paired : forall a b s o s' o',
    do_authentication a b = Ok (s, o) -> do_authentication b a = Ok (s', o') -> paired s o' /\ paired s' o
}.

(** and a fitting opener opens the messages of a type in the order of their sealing. *)
Class OpenSeal `{AuthLaws} (M : Type) `{Serde M} :=
  open_seal : forall (m : M) d s o,
    serialize_item m = Ok d -> paired s o ->
    exists o', open_message M o (seal_message s d).2 = (o', Ok m) /\ paired (seal_message s d).1 o'.

Section connection.
Context `{Auth}.

(** ** The connection *)

(** [serialize_message] *)
Definition serialize_message {S} `{Serde S} (item : S) (sealer : option StreamSealer) :
    option StreamSealer * result string (list Z) :=
  match serialize_item item with
  | Err e => (sealer, Err e)
  | Ok data => let '(sealer, b) := seal_message sealer data in (sealer, Ok b)
  end.

(** [deserialize_message] *)
Definition deserialize_message {R} `{Serde R} (message : result string (list Z)) (opener : option StreamOpener) :
    option StreamOpener * result string R :=
  match message with
  | Err e => (opener, Err e)
  | Ok m => open_message R opener m
  end.

(** [struct HqConnection], without the halves of the socket *)
Record HqConnection (R S : Type) := {
  sealer : option StreamSealer;
  opener : option StreamOpener
}.
#[global] Arguments sealer {_ _}.
#[global] Arguments opener {_ _}.

(** [HqConnection::send]: the new state, the frame that was written, and the result.
    [write]: the outcome of [self.writer.send]. *)
Definition send {R S} `{Serde S} (c : HqConnection R S) (write : list Z -> result string unit) (item : S) :
    HqConnection R S * option (list Z) * result string unit :=
  let '(sl, data) := serialize_message item (sealer c) in
  let c := {| sealer := sl; opener := opener c |} in
  match data with
  | Err e => (c, None, Err e)
  | Ok data =>
      match write data with
      | Err e => (c, None, Err e)
      | Ok _ => (c, Some data, Ok tt)
      end
  end.

(** [HqConnection::receive], from what [self.reader.next] returned. *)
Definition receive {R S} `{Serde R} (c : HqConnection R S) (next : option (result string (list Z))) :
    HqConnection R S * option (result string R) :=
  match next with
  | None => (c, None)
  | Some (Err e) => (c, Some (Err e))
  | Some (Ok m) =>
      let '(o, r) := deserialize_message (Ok m) (opener c) in
      ({| sealer := sealer c; opener := o |}, Some r)
  end.

(** [HqConnection::send_and_receive] *)
Definition send_and_receive {R S} `{Serde R} `{Serde S} (c : HqConnection R S)
    (write : list Z -> result string unit) (next : option (result string (list Z))) (item : S) :
    HqConnection R S * result string R :=
  let '(c, _, r) := send c write item in
  match r with
  | Err e => (c, Err e)
  | Ok _ =>
      let '(c, msg) := receive c next in
      (c, match msg with
          | Some msg => msg
          | None => Err "Expected response was not received"
          end)
  end.

(** [HqConnection::split]: the sink and the stream with their states. *)
Definition split {R S} `{Serde R} `{Serde S} (c : HqConnection R S) :
    (option StreamSealer * (option StreamSealer -> S -> option StreamSealer * result string (list Z))) *
    (option StreamOpener * (option StreamOpener -> result string (list Z) -> option StreamOpener * result string R)) :=
  ((sealer c, fun sl msg => serialize_message msg sl),
   (opener c, fun o message => deserialize_message message o)).

Definition COMM_PROTOCOL : Z := 0.

(** The arguments of [do_authentication] in [HqConnection::init] *)
Definition endpoint (server : bool) (key : SecretKey) : Endpoint :=
  let '(my_role, peer_role) :=
    if server then ("hq-server", "hq-client") else ("hq-client", "hq-server") in
  {| ep_protocol := COMM_PROTOCOL; ep_role := my_role; ep_peer_role := peer_role; ep_secret := Some key |}.

(** [HqConnection::init] with [peer] at the other end of the socket *)
Definition init {R S} (server : bool) (key : SecretKey) (peer : Endpoint) : result string (HqConnection R S) :=
  match do_authentication (endpoint server key) peer with
  | Err e => Err e
  | Ok (s, o) => Ok {| sealer := s; opener := o |}
  end.

(** [accept_client] *)
Definition accept_client {R S} (peer : Endpoint) (key : SecretKey) : result string (HqConnection R S) :=
  init true key peer.

End connection.

(** [ClientConnection::connect_to_server]; [tcp_connect]: who answers at an address. *)
Definition client_connect `{Auth} `{!AccessFormat} {R S} (tcp_connect : string -> result string Endpoint)
    (record : AccessRecord) : result string (HqConnection R S) :=
  match tcp_connect (ar_host record +:+ ":" +:+ to_string (ar_server_port record)) with
  | Err e => Err e
  | Ok peer => init false (ar_hq_secret_key record) peer
  end.

Section link.
Context `{Auth}.

(** ** A link between a client and the server *)

Context `{Tako} `{Serde FromClientMessage} `{Serde ToClientMessage}.

(** One direction of the socket: open, closed by its writer, or broken; and what its
    reader will still get. *)
Inductive WireState := WOpen | WClosed | WBroken.

Record Wire := {
  w_frames : list (result string (list Z));
  w_state : WireState
}.

Definition wire_new : Wire := {| w_frames := []; w_state := WOpen |}.

(** A frame is written; a broken direction loses it. *)
Definition put (w : Wire) (frame : option (list Z)) : Wire :=
  match frame, w_state w with
  | Some d, WOpen => {| w_frames := w_frames w ++ [Ok d]; w_state := WOpen |}
  | _, _ => w
  end.

(** What a read returns; [None]: it waits. *)
Definition next_frame (w : Wire) : option (Wire * option (result string (list Z))) :=
  match w_frames w, w_state w with
  | f :: fs, _ => Some ({| w_frames := fs; w_state := w_state w |}, Some f)
  | [], WOpen => None
  | [], _ => Some (w, None)
  end.

(** The end of a direction: its writer closes it, or it breaks, and only the first
    frames on the way arrive before the error. *)
Definition end_wire (w : Wire) (error : option (string * nat)) : option Wire :=
  match error, w_state w with
  | None, WOpen => Some {| w_frames := w_frames w; w_state := WClosed |}
  | Some (e, keep), (WOpen | WClosed) =>
      Some {| w_frames := take keep (w_frames w) ++ [Err e]; w_state := WBroken |}
  | _, _ => None
  end.

Definition writable (w : Wire) : bool := match w_state w with WClosed => false | _ => true end.

Record Link := {
  l_client : HqConnection ToClientMessage FromClientMessage;
  l_server : HqConnection FromClientMessage ToClientMessage;
  l_up : Wire;
  l_down : Wire
}.

Inductive LinkEvent :=
| ClientSend (m : FromClientMessage) (write : list Z -> result string unit)
| ServerSend (m : ToClientMessage) (write : list Z -> result string unit)
| ClientReceive
| ServerReceive
| EndUp (error : option (string * nat))
| EndDown (error : option (string * nat)).

(** What the two ends see; the inner [None] is the end of the connection. *)
Inductive LinkObs :=
| ClientSent (m : FromClientMessage) (r : result string unit)
| ServerSent (m : ToClientMessage) (r : result string unit)
| ClientGot (r : option (result string ToClientMessage))
| ServerGot (r : option (result string FromClientMessage))
| Ended.

(** One step; [None]: it cannot happen. *)
Definition link_step (l : Link) (e : LinkEvent) : option (Link * LinkObs) :=
  match e with
  | ClientSend m write =>
      if writable (l_up l) then
        let '(c, frame, r) := send (l_client l) write m in
        Some ({| l_client := c; l_server := l_server l; l_up := put (l_up l) frame; l_down := l_down l |},
              ClientSent m r)
      else None
  | ServerSend m write =>
      if writable (l_down l) then
        let '(c, frame, r) := send (l_server l) write m in
        Some ({| l_client := l_client l; l_server := c; l_up := l_up l; l_down := put (l_down l) frame |},
              ServerSent m r)
      else None
  | ClientReceive =>
      '(w, next) ← next_frame (l_down l);
      let '(c, r) := receive (l_client l) next in
      Some ({| l_client := c; l_server := l_server l; l_up := l_up l; l_down := w |}, ClientGot r)
  | ServerReceive =>
      '(w, next) ← next_frame (l_up l);
      let '(c, r) := receive (l_server l) next in
      Some ({| l_client := l_client l; l_server := c; l_up := w; l_down := l_down l |}, ServerGot r)
  | EndUp error =>
      w ← end_wire (l_up l) error;
      Some ({| l_client := l_client l; l_server := l_server l; l_up := w; l_down := l_down l |}, Ended)
  | EndDown error =>
      w ← end_wire (l_down l) error;
      Some ({| l_client := l_client l; l_server := l_server l; l_up := l_up l; l_down := w |}, Ended)
  end.

Fixpoint link_run (l : Link) (es : list LinkEvent) : option (Link * list LinkObs) :=
  match es with
  | [] => Some (l, [])
  | e :: es => '(l, o) ← link_step l e; '(l, os) ← link_run l es; Some (l, o :: os)
  end.

Definition link_new (c : HqConnection ToClientMessage FromClientMessage)
    (s : HqConnection FromClientMessage ToClientMessage) : Link :=
  {| l_client := c; l_server := s; l_up := wire_new; l_down := wire_new |}.

(** ** Specification: two queues of messages *)

Definition client_sends (o : LinkObs) : option (FromClientMessage * result string unit) :=
  match o with ClientSent m r => Some (m, r) | _ => None end.
Definition server_sends (o : LinkObs) : option (ToClientMessage * result string unit) :=
  match o with ServerSent m r => Some (m, r) | _ => None end.
Definition client_saw (o : LinkObs) : option (option (result string ToClientMessage)) :=
  match o with ClientGot r => Some r | _ => None end.
Definition server_saw (o : LinkObs) : option (option (result string FromClientMessage)) :=
  match o with ServerGot r => Some r | _ => None end.

(** The messages that were sent without an error. *)
Definition sent {M} (sends : list (M * result string unit)) : list M :=
  omap (fun x => match x.2 with Ok _ => Some x.1 | Err _ => None end) sends.

Definition all_ok {M} (sends : list (M * result string unit)) : bool :=
  forallb (fun x => match x.2 with Ok _ => true | Err _ => false end) sends.

(** Nothing is sent after a failed send: a client returns the error, and the server
    aborts ([System.response_written_or_abort]). *)
Definition disciplined {M} (sends : list (M * result string unit)) : Prop :=
  all_ok (removelast sends) = true.

(** What was received is what was sent, in order and without a gap, up to what is on
    the way; after the orderly end everything was received; a broken link delivers a
    beginning of what was sent and then its error. *)
Definition fifo {M} (sends : list (M * result string unit)) (saw : list (option (result string M))) (w : Wire) : Prop :=
  match w_state w with
  | WBroken =>
      exists e delivered rest, sent sends = delivered ++ rest /\
        omap id saw `prefix_of` (Ok <$> delivered) ++ [Err e]
  | _ =>
      exists on_the_way, Ok <$> sent sends = omap id saw ++ on_the_way /\
        length on_the_way = length (w_frames w) /\ (None ∈ saw -> on_the_way = [])
  end.

(** ** Lemmas: one direction *)

Context `{!AuthLaws}.

(** What the frames of a direction decode to, and the opener after them. *)
Fixpoint decoded {M} `{Serde M} (o : option StreamOpener) (fs : list (result string (list Z))) :
    list (result string M) * option StreamOpener :=
  match fs with
  | [] => ([], o)
  | Err e :: fs => let '(q, o) := decoded o fs in (Err e :: q, o)
  | Ok d :: fs =>
      let '(o, r) := open_message M o d in
      let '(q, o) := decoded o fs in (r :: q, o)
  end.

Lemma decoded_app {M} `{Serde M} o fs gs :
  @decoded M _ o (fs ++ gs) =
  let '(q1, o1) := decoded o fs in let '(q2, o2) := decoded o1 gs in (q1 ++ q2, o2).
Proof.
  revert o. induction fs as [|[d|e] fs IH]; intros o; simpl.
  - by destruct (decoded o gs).
  - destruct (open_message M o d) as [o1 r]. rewrite IH. destruct (decoded o1 fs) as [q1 o2].
    by destruct (decoded o2 gs).
  - rewrite IH. destruct (decoded o fs) as [q1 o2]. by destruct (decoded o2 gs).
Qed.

Lemma decoded_length {M} `{Serde M} o fs : length (@decoded M _ o fs).1 = length fs.
Proof.
  revert o. induction fs as [|[d|e] fs IH]; intros o; simpl; [done| |].
  - destruct (open_message M o d) as [o1 r]. specialize (IH o1).
    destruct (decoded o1 fs) as [q o2]. simpl in *. lia.
  - specialize (IH o). destruct (decoded o fs) as [q o2]. simpl in *. lia.
Qed.

Lemma decoded_take {M} `{Serde M} k o fs q o' :
  @decoded M _ o fs = (q, o') -> exists o1, decoded o (take k fs) = (take k q, o1).
Proof.
  intros Hd. destruct (decoded o (take k fs)) as [q1 o1] eqn:Htk.
  rewrite <- (take_drop k fs), decoded_app, Htk in Hd.
  pose proof (decoded_length o (take k fs)) as Hl. rewrite Htk in Hl. simpl in Hl.
  pose proof (decoded_length o1 (drop k fs)) as Hl2.
  destruct (decoded o1 (drop k fs)) as [q2 o2]. injection Hd as <- _. exists o1. simpl in Hl2.
  rewrite length_take in Hl. rewrite length_drop in Hl2. f_equal.
  destruct (decide (k <= length fs)%nat).
  - rewrite take_app_length'; [done|lia].
  - rewrite take_ge by (rewrite length_app; lia). assert (q2 = []) as -> by (apply length_zero_iff_nil; lia).
    by rewrite app_nil_r.
Qed.

(** A direction between what was sent and what was seen. *)
Record dir_inv {M} `{Serde M} (s : option StreamSealer) (o : option StreamOpener) (w : Wire)
    (sends : list (M * result string unit)) (saw : list (option (result string M)))
    (q : list (result string M)) (o' : option StreamOpener) : Prop := {
  di_frames : decoded o (w_frames w) = (q, o');
  di_paired : w_state w = WOpen -> all_ok sends = true -> paired s o';
  di_queue : match w_state w with
    | WBroken => exists e delivered rest, sent sends = delivered ++ rest /\
        omap id saw ++ q = (Ok <$> delivered) ++ [Err e]
    | _ => omap id saw ++ q = Ok <$> sent sends
    end;
  di_end : None ∈ saw -> w_state w <> WOpen /\ (w_state w = WClosed -> w_frames w = [])
}.

Definition dir_ok {M} `{Serde M} s o w (sends : list (M * result string unit)) saw : Prop :=
  exists q o', dir_inv s o w sends saw q o'.

Lemma sent_snoc {M} (l : list (M * result string unit)) m r :
  sent (l ++ [(m, r)]) = sent l ++ match r with Ok _ => [m] | Err _ => [] end.
Proof. unfold sent. rewrite omap_app. by destruct r. Qed.

Lemma all_ok_snoc {M} (l : list (M * result string unit)) m r :
  all_ok (l ++ [(m, r)]) = true -> all_ok l = true.
Proof. unfold all_ok. rewrite forallb_app. by intros [? _]%andb_true_iff. Qed.

Lemma dir_send {R M} `{Serde M, !OpenSeal M} (c : HqConnection R M) write o w (m : M) c1 frame r sends saw :
  send c write m = (c1, frame, r) -> all_ok sends = true -> writable w = true ->
  dir_ok (sealer c) o w sends saw ->
  opener c1 = opener c /\ dir_ok (sealer c1) o (put w frame) (sends ++ [(m, r)]) saw.
Proof.
  intros Hsend Hok Hw (q & o' & [Hf Hp Hq He]).
  assert (Hlost : forall e, r = Err e -> frame = None -> opener c1 = opener c ->
    opener c1 = opener c /\ dir_ok (sealer c1) o (put w frame) (sends ++ [(m, r)]) saw).
  { intros e -> -> Ho. split; [done|]. exists q, o'. split; [done| |by rewrite sent_snoc, app_nil_r|done].
    intros _. unfold all_ok. rewrite forallb_app, andb_true_iff. by intros [_ ?]. }
  unfold send, serialize_message in Hsend.
  destruct (serialize_item m) as [d|e] eqn:Hm; [|simplify_eq; by eapply Hlost].
  pose proof (fun Hpair => open_seal m d (sealer c) o' Hm Hpair) as Hos.
  destruct (seal_message (sealer c) d) as [s1 b]. simpl in Hos.
  destruct (write b) as [u|e]; simplify_eq; [|by eapply Hlost]. split; [done|]. unfold dir_ok, put.
  unfold writable in Hw. destruct (w_state w) eqn:Hst; [|done|].
  - destruct Hos as (o2 & Ho2 & Hp2); [auto|]. exists (q ++ [Ok m]), o2. split; simpl.
    + rewrite decoded_app, Hf. simpl. by rewrite Ho2.
    + done.
    + by rewrite sent_snoc, fmap_app, app_assoc, Hq.
    + intros Hn. by destruct (He Hn).
  - exists q, o'. rewrite <- Hst in *. split; [done|by rewrite Hst| |done]. rewrite Hst in *.
    destruct Hq as (e & delivered & rest & Hs & Hg). exists e, delivered, (rest ++ [m]).
    by rewrite sent_snoc, Hs, app_assoc.
Qed.

Lemma decoded_cons {M S} `{Serde M} (c : HqConnection M S) f fs q o' c1 r :
  receive c (Some f) = (c1, r) -> @decoded M _ (opener c) (f :: fs) = (q, o') ->
  sealer c1 = sealer c /\ exists r1 q1, r = Some r1 /\ q = r1 :: q1 /\ decoded (opener c1) fs = (q1, o').
Proof.
  destruct f as [d|e]; simpl.
  - destruct (open_message M (opener c) d) as [o1 r1]. intros [= <- <-]. simpl.
    destruct (decoded o1 fs) as [q1 o2]. intros [= <- <-]. eauto 10.
  - intros [= <- <-]. destruct (decoded (opener c) fs) as [q1 o2]. intros [= <- <-]. eauto 10.
Qed.

Lemma dir_receive {M S} `{Serde M} s (c : HqConnection M S) w w1 next c1 r sends saw :
  next_frame w = Some (w1, next) -> receive c next = (c1, r) ->
  dir_ok s (opener c) w sends saw ->
  sealer c1 = sealer c /\ dir_ok s (opener c1) w1 sends (saw ++ [r]).
Proof.
  intros Hn Hr (q & o' & [Hf Hp Hq He]). unfold next_frame in Hn.
  destruct (w_frames w) as [|f fs] eqn:Hfr.
  - simpl in Hf. injection Hf as <- <-.
    assert (Hst : w_state w <> WOpen) by (intros Hst; by rewrite Hst in Hn).
    assert (w1 = w /\ next = None) as [-> ->] by (destruct (w_state w); naive_solver).
    simpl in Hr. injection Hr as <- <-. split; [done|]. exists [], (opener c). split.
    + by rewrite Hfr.
    + done.
    + rewrite omap_app. simpl. by rewrite app_nil_r.
    + done.
  - injection Hn as <- <-. destruct (decoded_cons _ _ _ _ _ _ _ Hr Hf) as (-> & r1 & q1 & -> & -> & Hd).
    split; [done|]. exists q1, o'. split; simpl; [done|done| |].
    + rewrite omap_app. simpl. by rewrite <- app_assoc.
    + rewrite elem_of_app, list_elem_of_singleton. intros [Hin|]; [|done].
      destruct (He Hin) as [H1' H2']. split; [done|]. intros Hc. by specialize (H2' Hc).
Qed.

Lemma dir_end {M} `{Serde M} s o w error w1 (sends : list (M * result string unit)) saw :
  end_wire w error = Some w1 -> dir_ok s o w sends saw -> dir_ok s o w1 sends saw.
Proof.
  intros Hw (q & o' & [Hf Hp Hq He]). destruct error as [[e keep]|]; simpl in Hw.
  - destruct (decoded_take keep _ _ _ _ Hf) as (o1 & Hk).
    assert (Hopen : w_state w <> WBroken /\
      w1 = {| w_frames := take keep (w_frames w) ++ [Err e]; w_state := WBroken |})
      by (destruct (w_state w); naive_solver).
    destruct Hopen as [Hnb ->]. exists (take keep q ++ [Err e]), o1. split; simpl.
    + rewrite decoded_app, Hk. done.
    + done.
    + assert (Hq' : omap id saw ++ q = Ok <$> sent sends) by (destruct (w_state w); done).
      exists e, (take (length (omap id saw) + keep) (sent sends)), (drop (length (omap id saw) + keep) (sent sends)).
      rewrite take_drop. split; [done|]. rewrite fmap_take, <- Hq', take_app_add, app_assoc. done.
    + done.
  - destruct (w_state w) eqn:Hst; [|done..]. simplify_eq. exists q, o'. split; simpl; [done..|].
    intros Hin. by destruct (He Hin).
Qed.

Lemma dir_fifo {M} `{Serde M} s o w (sends : list (M * result string unit)) saw :
  dir_ok s o w sends saw -> fifo sends saw w.
Proof.
  intros (q & o' & [Hf Hp Hq He]). pose proof (decoded_length o (w_frames w)) as Hl. rewrite Hf in Hl.
  assert (Hend : w_state w <> WBroken -> None ∈ saw -> q = []).
  { intros Hnb Hin. destruct (He Hin) as [Hno Hc]. apply length_zero_iff_nil.
    simpl in Hl. rewrite Hl, Hc; [done|by destruct (w_state w)]. }
  unfold fifo. destruct (w_state w) eqn:Hst.
  1, 2: exists q; split; [done|]; split; [done|]; by apply Hend.
  destruct Hq as (e & delivered & rest & Hs & Hg). exists e, delivered, rest. split; [done|]. by exists q.
Qed.

(** ** Lemmas: both directions *)

Context `{!OpenSeal FromClientMessage, !OpenSeal ToClientMessage}.

Record link_inv (l : Link) (os : list LinkObs) : Prop := {
  li_up : dir_ok (sealer (l_client l)) (opener (l_server l)) (l_up l) (omap client_sends os) (omap server_saw os);
  li_down : dir_ok (sealer (l_server l)) (opener (l_client l)) (l_down l) (omap server_sends os) (omap client_saw os)
}.

Lemma link_run_snoc l es e l' os' :
  link_run l (es ++ [e]) = Some (l', os') ->
  exists l1 os o, link_run l es = Some (l1, os) /\ link_step l1 e = Some (l', o) /\ os' = os ++ [o].
Proof.
  revert l os'. induction es as [|e1 es IH]; intros l os' Hrun; simpl in Hrun |- *.
  - destruct (link_step l e) as [[l1 o]|] eqn:Hs; simpl in Hrun; [|done]. simplify_eq. by exists l, [], o.
  - destruct (link_step l e1) as [[l2 o2]|] eqn:Hs; simpl in Hrun |- *; [|done].
    destruct (link_run l2 (es ++ [e])) as [[l3 os3]|] eqn:Hr; simpl in Hrun; [|done]. simplify_eq.
    destruct (IH _ _ Hr) as (l1 & os & o & -> & Hstep & ->). simpl. by exists l1, (o2 :: os), o.
Qed.

Lemma disciplined_snoc {M} (l : list (M * result string unit)) x :
  disciplined (l ++ [x]) -> all_ok l = true /\ disciplined l.
Proof.
  unfold disciplined. rewrite removelast_last. intros Hl. split; [done|].
  destruct l as [|[m r] l' _] using rev_ind; [done|]. rewrite removelast_last. by apply all_ok_snoc in Hl.
Qed.

Lemma link_step_inv l e l' o os :
  link_inv l os -> link_step l e = Some (l', o) ->
  disciplined (omap client_sends (os ++ [o])) -> disciplined (omap server_sends (os ++ [o])) ->
  link_inv l' (os ++ [o]).
Proof.
  intros [Hu Hd] Hstep Hdu Hdd. rewrite omap_app in Hdu. rewrite omap_app in Hdd.
  destruct e as [m write|m write| | |error|error]; simpl in Hstep.
  - destruct (writable (l_up l)) eqn:Hw; [|done].
    destruct (send (l_client l) write m) as [[c frame] r] eqn:Hsend. simplify_eq. simpl in *.
    apply disciplined_snoc in Hdu as [Hok _].
    destruct (dir_send _ _ _ _ _ _ _ _ _ _ Hsend Hok Hw Hu) as [Ho Hu'].
    split; simpl; rewrite !omap_app; simpl; rewrite ?app_nil_r, ?Ho; done.
  - destruct (writable (l_down l)) eqn:Hw; [|done].
    destruct (send (l_server l) write m) as [[c frame] r] eqn:Hsend. simplify_eq. simpl in *.
    apply disciplined_snoc in Hdd as [Hok _].
    destruct (dir_send _ _ _ _ _ _ _ _ _ _ Hsend Hok Hw Hd) as [Ho Hd'].
    split; simpl; rewrite !omap_app; simpl; rewrite ?app_nil_r, ?Ho; done.
  - destruct (next_frame (l_down l)) as [[w next]|] eqn:Hn; simpl in Hstep; [|done].
    destruct (receive (l_client l) next) as [c r] eqn:Hr. simplify_eq.
    destruct (dir_receive _ _ _ _ _ _ _ _ _ Hn Hr Hd) as [Hs Hd'].
    split; simpl; rewrite !omap_app; simpl; rewrite ?app_nil_r, ?Hs; done.
  - destruct (next_frame (l_up l)) as [[w next]|] eqn:Hn; simpl in Hstep; [|done].
    destruct (receive (l_server l) next) as [c r] eqn:Hr. simplify_eq.
    destruct (dir_receive _ _ _ _ _ _ _ _ _ Hn Hr Hu) as [Hs Hu'].
    split; simpl; rewrite !omap_app; simpl; rewrite ?app_nil_r, ?Hs; done.
  - destruct (end_wire (l_up l) error) as [w|] eqn:Hw; simpl in Hstep; [|done]. simplify_eq.
    split; simpl; rewrite !omap_app; simpl; rewrite !app_nil_r; [by eapply dir_end|done].
  - destruct (end_wire (l_down l) error) as [w|] eqn:Hw; simpl in Hstep; [|done]. simplify_eq.
    split; simpl; rewrite !omap_app; simpl; rewrite !app_nil_r; [done|by eapply dir_end].
Qed.

Lemma disciplined_prefix {M} (f : LinkObs -> option (M * result string unit)) os o :
  disciplined (omap f (os ++ [o])) -> disciplined (omap f os).
Proof.
  rewrite omap_app. simpl. destruct (f o); simpl; [|by rewrite app_nil_r]. apply disciplined_snoc.
Qed.

Lemma link_run_inv l es l' os :
  link_inv l [] -> link_run l es = Some (l', os) ->
  disciplined (omap client_sends os) -> disciplined (omap server_sends os) -> link_inv l' os.
Proof.
  intros Hl. revert l' os. induction es as [|e es IH] using rev_ind; intros l' os Hrun Hdu Hdd.
  - simpl in Hrun. by simplify_eq.
  - apply link_run_snoc in Hrun as (l1 & os1 & o & Hrun & Hstep & ->).
    eapply link_step_inv; [|exact Hstep|done..]. eauto using disciplined_prefix.
Qed.

Lemma dir_new {M} `{Serde M} s o : paired s o -> @dir_ok M _ s o wire_new [] [].
Proof. intros. exists [], o. split; [done..|]. by intros ?%not_elem_of_nil. Qed.

(** ** Properties *)

(** C10: a client and the server that completed the handshake exchange messages like
    two queues: whatever the order of sending, receiving and closing, each side
    receives exactly the messages the other side sent, decoded, in order and without
    a gap, up to those still on the way; when it sees the orderly end nothing was
    lost; and a broken link delivers a beginning of what was sent and then its
    error.  The only condition is that a side stops sending after a failed send, as
    the callers do. *)
Theorem connection_is_fifo key_c key_s c s es l os :
  init false key_c (endpoint true key_s) = Ok c -> accept_client (endpoint false key_c) key_s = Ok s ->
  link_run (link_new c s) es = Some (l, os) ->
  disciplined (omap client_sends os) -> disciplined (omap server_sends os) ->
  fifo (omap client_sends os) (omap server_saw os) (l_up l)
  /\ fifo (omap server_sends os) (omap client_saw os) (l_down l).
Proof.
  intros Hc Hs Hrun Hdu Hdd. unfold accept_client, init in *.
  destruct (do_authentication (endpoint false key_c) _) as [[s1 o1]|] eqn:Ha; [|done].
  destruct (do_authentication (endpoint true key_s) _) as [[s2 o2]|] eqn:Hb; [|done].
  destruct (auth_paired _ _ _ _ _ _ Ha Hb) as [Hp1 Hp2]. simplify_eq.
  match type of Hrun with link_run ?l0 _ = _ => assert (link_inv l0 []) as Hinv by (split; by apply dir_new) end.
  destruct (link_run_inv _ _ _ _ Hinv Hrun Hdu Hdd) as [Hu Hd].
  split; by eapply dir_fifo.
Qed.
End link.
