(* ===== verification/System.v ===== *)
(** * The server and its clients

    The composition: clients on connections ([Connection.v]), the event loop of the
    server with its handlers ([Server.v], [Protocol.v]) and the channels to [tako]
    ([Backend.v]).  A connection task reads a request from its link, and the responses
    of the handlers are written to the links: [assert!(tx.send(response).await.is_ok())]
    of [client_rpc_loop].  The theorems follow a request from the client through the
    server and back. *)

From S2P Require Import Prelude ArrayDef Messages Job Status State Client Server Backend Protocol ServerDir Connection.

Section system.
Context `{Profile} `{Tako} `{Auth} `{Serde FromClientMessage} `{Serde ToClientMessage}.
Context {Core : Type}.
Context (process_client_message :
  Core -> FromGatewayMessage -> Core * list ToGatewayMessage * option string).
(** The secret key of the server. *)
Context (key_s : SecretKey).

Abbreviation bk_step := (bk_step process_client_message).

Record System := {
  sy_backend : Backend (Core := Core);
  sy_links : gmap Z Link
}.

Definition System_new (core : Core) : System := {| sy_backend := Backend_new core; sy_links := ∅ |}.

Definition sy_server (sys : System) : Server := bk_server (sy_backend sys).

(** What happens: a client connects; a client sends or receives, or the network ends
    a direction; the connection task of the server reads; anything else in the server;
    the server closes a connection that it left. *)
Inductive SysEvent :=
| SyConnect (c : Z) (key : SecretKey)
| SyClient (c : Z) (e : LinkEvent)
| SyRead (c : Z) (now : Z) (write : list Z -> result string unit)
| SyServer (e : BkEvent (Core := Core)) (write : list Z -> result string unit)
| SyClose (c : Z).

(** [assert!(tx.send(response).await.is_ok())] for the responses of a segment *)
Fixpoint send_replies (links : gmap Z Link) (replies : list (Z * ToClientMessage))
    (write : list Z -> result string unit) : outcome (gmap Z Link * list (Z * LinkObs)) :=
  match replies with
  | [] => Ret (links, [])
  | (c, m) :: rest =>
      l ← unwrap (links !! c);
      match link_step l (ServerSend m write) with
      | Some (l, ServerSent m (Ok u)) =>
          '(links, os) ← send_replies (<[c := l]> links) rest write;
          Ret (links, (c, ServerSent m (Ok u)) :: os)
      | _ => Panic AssertionFailed
      end
  end.

(** A step of the backend, and the responses it gives. *)
Definition server_part (cwd : string) (bk : Backend) (links : gmap Z Link) (e : BkEvent)
    (write : list Z -> result string unit) : outcome (System * list (Z * LinkObs)) :=
  bk' ← bk_step cwd bk e;
  '(links, os) ← send_replies links (drop (length (sv_replies (bk_server bk))) (sv_replies (bk_server bk'))) write;
  Ret ({| sy_backend := bk'; sy_links := links |}, os).

(** The events of the server that are not caused by a connection. *)
Definition internal_event (e : BkEvent (Core := Core)) : bool :=
  match e with
  | BkServer (EvConnect _ | EvClient _ _ _ | EvTako _ _ | EvDisconnect _) => false
  | _ => true
  end.

(** What the client and the network do to a link. *)
Definition client_event (e : LinkEvent) : bool :=
  match e with
  | ClientSend _ _ | ClientReceive | EndUp _ | EndDown (Some _) => true
  | _ => false
  end.

(** One event; one that cannot happen changes nothing. *)
Definition sys_step (cwd : string) (sys : System) (e : SysEvent) : outcome (System * list (Z * LinkObs)) :=
  match e with
  | SyConnect c key =>
      match sy_links sys !! c, init false key (endpoint true key_s), accept_client (endpoint false key) key_s with
      | None, Ok client, Ok server =>
          server_part cwd (sy_backend sys) (<[c := link_new client server]> (sy_links sys))
            (BkServer (EvConnect c)) (fun _ => Ok tt)
      | _, _, _ => Ret (sys, [])
      end
  | SyClient c e =>
      match sy_links sys !! c with
      | Some l =>
          match (if client_event e then link_step l e else None) with
          | Some (l, o) =>
              Ret ({| sy_backend := sy_backend sys; sy_links := <[c := l]> (sy_links sys) |}, [(c, o)])
          | None => Ret (sys, [])
          end
      | None => Ret (sys, [])
      end
  | SyRead c now write =>
      match (if decide (c ∈ sv_idle (sy_server sys)) then sy_links sys !! c else None) with
      | Some l =>
          match link_step l ServerReceive with
          | Some (l, ServerGot r) =>
              '(sys, os) ← server_part cwd (sy_backend sys) (<[c := l]> (sy_links sys))
                (BkServer match r with Some message => EvClient c message now | None => EvDisconnect c end) write;
              Ret (sys, (c, ServerGot r) :: os)
          | _ => Ret (sys, [])
          end
      | None => Ret (sys, [])
      end
  | SyServer e write =>
      if internal_event e then server_part cwd (sy_backend sys) (sy_links sys) e write else Ret (sys, [])
  | SyClose c =>
      match sy_links sys !! c with
      | Some l =>
          match (if decide ((c ∉ sv_idle (sy_server sys)) /\ handlers (sy_server sys) c = [])
                 then link_step l (EndDown None) else None) with
          | Some (l, o) =>
              Ret ({| sy_backend := sy_backend sys; sy_links := <[c := l]> (sy_links sys) |}, [(c, o)])
          | None => Ret (sys, [])
          end
      | None => Ret (sys, [])
      end
  end.

(** A run, with what every end of every connection saw. *)
Definition sys_run (cwd : string) (sys : System) (es : list SysEvent) : outcome (System * list (Z * LinkObs)) :=
  foldM (fun '(sys, os) e => '(sys, new) ← sys_step cwd sys e; Ret (sys, os ++ new)) (sys, []) es.

(** ** Specification *)

(** What the ends of connection [c] saw. *)
Definition conn_obs (c : Z) (os : list (Z * LinkObs)) : list LinkObs :=
  omap (fun o => if decide (o.1 = c) then Some (o.2) else None) os.

(** The requests a client sent, the messages the server read, the responses it sent,
    and what the client received. *)
Definition requests (c : Z) (os : list (Z * LinkObs)) : list FromClientMessage :=
  sent (omap client_sends (conn_obs c os)).
Definition reads (c : Z) (os : list (Z * LinkObs)) : list (result string FromClientMessage) :=
  omap id (omap server_saw (conn_obs c os)).
Definition responses (c : Z) (os : list (Z * LinkObs)) : list ToClientMessage :=
  sent (omap server_sends (conn_obs c os)).
Definition received (c : Z) (os : list (Z * LinkObs)) : list (result string ToClientMessage) :=
  omap id (omap client_saw (conn_obs c os)).

(** Clients send well-formed arrays and stop sending after a failed send. *)
Definition request_wf (m : FromClientMessage) : Prop :=
  match m with Submit r => job_type_wf (sr_job_type r) | _ => True end.

Definition sys_event_ok (e : SysEvent) : Prop :=
  match e with SyClient _ (ClientSend m _) => request_wf m | _ => True end.

(** ** Lemmas: the parts of an observation *)

Lemma conn_obs_app c os1 os2 : conn_obs c (os1 ++ os2) = conn_obs c os1 ++ conn_obs c os2.
Proof. apply omap_app. Qed.

Lemma conn_obs_one c d o : conn_obs c [(d, o)] = if decide (d = c) then [o] else [].
Proof. unfold conn_obs. simpl. by destruct (decide (d = c)). Qed.

Lemma reads_app c os1 os2 : reads c (os1 ++ os2) = reads c os1 ++ reads c os2.
Proof. unfold reads. by rewrite conn_obs_app, !omap_app. Qed.

Lemma responses_app c os1 os2 : responses c (os1 ++ os2) = responses c os1 ++ responses c os2.
Proof. unfold responses, sent. by rewrite conn_obs_app, !omap_app. Qed.

Context `{!AuthLaws} `{!OpenSeal FromClientMessage, !OpenSeal ToClientMessage}.

(** The clients stop after a failed send. *)
Definition clients_disciplined (os : list (Z * LinkObs)) : Prop :=
  forall c, disciplined (omap client_sends (conn_obs c os)).

Lemma all_ok_disciplined {M} (l : list (M * result string unit)) : all_ok l = true -> disciplined l.
Proof.
  unfold disciplined. destruct l as [|[m r] l' _] using rev_ind; [done|].
  rewrite removelast_last. apply all_ok_snoc.
Qed.

Lemma disciplined_app {M} (l k : list (M * result string unit)) : disciplined (l ++ k) -> disciplined l.
Proof.
  induction k as [|x k IH] using rev_ind; [by rewrite app_nil_r|].
  rewrite app_assoc. intros Hd. apply disciplined_snoc in Hd as [_ Hd]. auto.
Qed.

Lemma clients_disciplined_app os1 os2 : clients_disciplined (os1 ++ os2) -> clients_disciplined os1.
Proof. intros Hd c. specialize (Hd c). rewrite conn_obs_app, omap_app in Hd. by apply disciplined_app in Hd. Qed.

(** ** The invariant *)

(** A connection: its state at the server, its link and what its ends saw; [pending]:
    what was read and not handled yet. *)
Definition conn_ok (sv : Server) (links : gmap Z Link) (os : list (Z * LinkObs)) (c : Z)
    (pending : list (result string FromClientMessage)) : Prop :=
  exists st, conn_at sv c st /\
  match links !! c with
  | None => st = CGone /\ conn_obs c os = [] /\ pending = []
  | Some l => link_inv l (conn_obs c os) /\ all_ok (omap server_sends (conn_obs c os)) = true /\
      (w_state (l_down l) = WClosed -> st = CGone) /\
      exists handled, reads c os = handled ++ pending /\ answers_reads handled (responses c os) st
  end.

Record system_inv (sys : System) (os : list (Z * LinkObs)) : Prop := {
  sy_bk : backend_inv (sy_backend sys);
  sy_conn : forall c, conn_ok (sy_server sys) (sy_links sys) os c [];
  sy_wf : forall c, Forall request_wf (requests c os)
}.

Lemma conn_ok_conns sv links os : (forall c, exists pending, conn_ok sv links os c pending) -> conns_ok sv.
Proof. intros Hall c. destruct (Hall c) as (p & st & Hc & _). by exists st. Qed.

(** Only the server closes its direction. *)
Lemma link_closed l e l' o :
  link_step l e = Some (l', o) -> e <> EndDown None -> w_state (l_down l') = WClosed -> w_state (l_down l) = WClosed.
Proof.
  intros Hs He. destruct e as [m write|m write| | |er|[er|]]; simpl in Hs; try done.
  - destruct (writable _); [|done]. destruct (send _ _ _) as [[? ?] ?]. by simplify_eq.
  - destruct (writable _); [|done]. destruct (send _ _ _) as [[? frame] ?]. simplify_eq. simpl.
    unfold put. by destruct frame, (w_state (l_down l)) eqn:Hw; rewrite ?Hw.
  - destruct (next_frame (l_down l)) as [[w next]|] eqn:Hn; simpl in Hs; [|done].
    destruct (receive (l_client l) next). simplify_eq. simpl. unfold next_frame in Hn.
    destruct (w_frames _), (w_state (l_down l)) eqn:Hw; simplify_eq; simpl; congruence.
  - destruct (next_frame _) as [[w next]|]; simpl in Hs; [|done]. destruct (receive (l_server l) next). by simplify_eq.
  - destruct (end_wire _ _); simpl in Hs; by simplify_eq.
  - destruct er, (w_state _); simpl in Hs; simplify_eq; done.
Qed.

(** A link of [c] moves: what the server read and sent grows by [m] and [r]. *)
Lemma conn_ok_link sv links os c l e l' o p :
  links !! c = Some l -> link_step l e = Some (l', o) -> conn_ok sv links os c p ->
  clients_disciplined (os ++ [(c, o)]) -> server_sends o = None ->
  e <> EndDown None \/ conn_at sv c CGone ->
  conn_ok sv (<[c := l']> links) (os ++ [(c, o)]) c (p ++ omap id (option_list (server_saw o))).
Proof.
  intros Hl Hs (st & Hst & Hc) Hd Ho He. rewrite Hl in Hc. destruct Hc as (Hi & Hok & Hcl & h & Hr & Ha).
  exists st. split; [done|]. rewrite lookup_insert_eq.
  specialize (Hd c). rewrite responses_app, reads_app. unfold reads at 2, responses at 2.
  rewrite conn_obs_app, conn_obs_one in *. rewrite decide_True in * by done. split_and!.
  - eapply link_step_inv; [done|done|done|]. apply all_ok_disciplined. rewrite omap_app. simpl.
    by rewrite Ho, app_nil_r.
  - rewrite omap_app. simpl. by rewrite Ho, app_nil_r.
  - intros Hw. destruct He as [He|He]; [by eapply Hcl, link_closed|by eapply conn_at_unique].
  - exists h. simpl. rewrite Ho. simpl. rewrite Hr, <- app_assoc.
    split; [by destruct (server_saw o)|]. unfold sent. simpl. by rewrite app_nil_r.
Qed.

(** What another connection does is not seen. *)
Lemma conn_ok_other sv links os c d l o p :
  d <> c -> conn_ok sv links os c p -> conn_ok sv (<[d := l]> links) (os ++ [(d, o)]) c p.
Proof.
  intros Hd (st & Hst & Hc). exists st. split; [done|]. rewrite lookup_insert_ne by done.
  rewrite reads_app, responses_app. unfold reads at 2, responses at 2.
  rewrite conn_obs_app, conn_obs_one, decide_False, !app_nil_r by done. done.
Qed.

(** ** Lemmas: a step of the backend *)

(** What a step of the backend reads from [c]. *)
Definition bk_reads (sv : Server) (e : BkEvent (Core := Core)) (c : Z) : list (result string FromClientMessage) :=
  match e with BkServer e => event_reads sv e c | _ => [] end.

Definition is_connect (e : BkEvent (Core := Core)) (c : Z) : Prop := e = BkServer (EvConnect c).

Lemma bk_conns cwd bk e bk' :
  bk_step cwd bk e = Ret bk' -> conns_ok (bk_server bk) ->
  (forall c, is_connect e c -> conn_at (bk_server bk) c CGone) ->
  exists news, sv_replies (bk_server bk') = sv_replies (bk_server bk) ++ news /\ (length news <= 1)%nat /\
    forall c st, conn_at (bk_server bk) c st -> exists st', conn_at (bk_server bk') c st' /\
      (conn_step st (bk_reads (bk_server bk) e c) (replies_to c news) st' \/ is_connect e c /\ st' = CIdle /\ news = []).
Proof.
  intros Hs Hall Hf.
  assert (Hstay : bk_server bk' = bk_server bk -> (forall c, bk_reads (bk_server bk) e c = []) ->
    exists news, sv_replies (bk_server bk') = sv_replies (bk_server bk) ++ news /\ (length news <= 1)%nat /\
    forall c st, conn_at (bk_server bk) c st -> exists st', conn_at (bk_server bk') c st' /\
      (conn_step st (bk_reads (bk_server bk) e c) (replies_to c news) st' \/ is_connect e c /\ st' = CIdle /\ news = [])).
  { intros -> Hr. exists []. rewrite app_nil_r. split_and!; [done|simpl; lia|].
    intros c st Hc. exists st. rewrite Hr. split; [done|left; constructor]. }
  destruct e as [e| |now|core m].
  - destruct (is_tako_dec e) as [(m & now & ->)|Hn]; [simpl in Hs; simplify_eq; by apply Hstay|].
    destruct (bk_step_server process_client_message cwd bk e Hn) as [Heq _]. rewrite Heq in Hs.
    destruct (step cwd (bk_server bk) e) as [sv|] eqn:Hsv; simpl in Hs; [|done]. simplify_eq. simpl.
    assert (Hfr : fresh_connect (bk_server bk) e) by (destruct e; try done; by apply Hf).
    destruct (server_conns_step cwd _ e sv Hall Hfr Hsv) as (news & H1' & H2' & H3').
    exists news. split_and!; [done|done|]. intros c st Hc. destruct (H3' c st Hc) as (st' & ? & [?|(-> & ? & ?)]); eauto 10.
    exists st'. split; [done|]. by right.
  - simpl in Hs. simplify_eq. apply Hstay; [|done]. unfold tako_msg_sender. destruct (_ !! _); [|done].
    by destruct (process_client_message _ _) as [[??]?].
  - simpl in Hs. destruct (bk_from_tako bk) as [|m rest]; [simplify_eq; by apply Hstay|].
    destruct (tako_msg_reader (bk_server bk) m now) as [sv|] eqn:Hsv; simpl in Hs; [|done]. simplify_eq. simpl.
    destruct (server_conns_step cwd _ (EvTako m now) sv Hall I Hsv) as (news & H1' & H2' & H3').
    exists news. split_and!; [done|done|]. intros c st Hc. destruct (H3' c st Hc) as (st' & ? & [?|(? & ? & ?)]); eauto 10.
    done.
  - simpl in Hs. destruct (is_notification m); simplify_eq; by apply Hstay.
Qed.

(** The responses of a step are written, or the process ends. *)
Lemma send_replies_one links news write links' os :
  send_replies links news write = Ret (links', os) -> (length news <= 1)%nat ->
  (news = [] /\ links' = links /\ os = []) \/
  exists c m l l' u, news = [(c, m)] /\ links !! c = Some l /\
    link_step l (ServerSend m write) = Some (l', ServerSent m (Ok u)) /\
    links' = <[c := l']> links /\ os = [(c, ServerSent m (Ok u))].
Proof.
  destruct news as [|[c m] [|]]; intros Hs Hl; [simpl in Hs; simplify_eq; by left| |simpl in Hl; lia].
  right. cbn [send_replies] in Hs. destruct (links !! c) as [l|] eqn:Hc; [|done].
  cbn [unwrap mbind outcome_bind] in Hs.
  destruct (link_step l (ServerSend m write)) as [[l' o]|] eqn:Hst; [|done].
  destruct o as [|m' r| | |]; try done.
  destruct r as [u|]; [|done]. cbn [mbind outcome_bind] in Hs. simplify_eq.
  assert (m' = m) as -> by (cbn in Hst; repeat case_match; by simplify_eq).
  by exists c, m, l, l', u.
Qed.

(** ** Lemmas: preservation *)

(** A connection between the step of the server and the writing of its responses. *)
Definition conn_mid (sv : Server) (links : gmap Z Link) (os : list (Z * LinkObs)) (news : list (Z * ToClientMessage))
    (c : Z) : Prop :=
  exists st, conn_at sv c st /\
  match links !! c with
  | None => st = CGone /\ conn_obs c os = []
  | Some l => link_inv l (conn_obs c os) /\ all_ok (omap server_sends (conn_obs c os)) = true /\
      (w_state (l_down l) = WClosed -> st = CGone /\ replies_to c news = []) /\
      answers_reads (reads c os) (responses c os ++ replies_to c news) st
  end.

Lemma conn_ok_mid sv sv' links os (e : BkEvent) c news :
  conn_ok sv links os c (bk_reads sv e c) ->
  (is_connect e c -> conn_obs c os = [] /\ exists l, links !! c = Some l /\ w_state (l_down l) = WOpen) ->
  (forall st, conn_at sv c st -> exists st', conn_at sv' c st' /\
      (conn_step st (bk_reads sv e c) (replies_to c news) st' \/ is_connect e c /\ st' = CIdle /\ news = [])) ->
  conn_mid sv' links os news c.
Proof.
  intros (st & Hst & Hc) Hcon Hs. destruct (Hs st Hst) as (st' & Hst' & Hstep). exists st'. split; [done|].
  destruct (links !! c) as [l|].
  - destruct Hc as (Hl & Hok & Hcl & h & Hr & Ha). split_and!; [done|done| |].
    { intros Hw. destruct Hstep as [Hstep|(Hcn & _ & _)].
      - rewrite (Hcl Hw) in Hstep. by inversion Hstep; subst.
      - destruct (Hcon Hcn) as (_ & l' & [= <-] & Hw'). by rewrite Hw in Hw'. }
    rewrite Hr. destruct Hstep as [Hstep|(Hcn & -> & ->)]; [by eapply answers_reads_step|].
    destruct (Hcon Hcn) as [Hobs _]. unfold reads in Hr. unfold responses. rewrite Hobs in *. simpl in *.
    symmetry in Hr. apply app_eq_nil in Hr as [-> ->]. by exists [], [].
  - destruct Hc as (-> & Hobs & Hp). rewrite Hp in Hstep.
    destruct Hstep as [Hstep|(Hcn & _ & _)]; [by inversion Hstep; subst|].
    by destruct (Hcon Hcn) as (_ & ? & ? & _).
Qed.

Lemma conn_mid_ok sv links os news write links' os' c :
  send_replies links news write = Ret (links', os') -> (length news <= 1)%nat -> clients_disciplined os ->
  conn_mid sv links os news c -> conn_ok sv links' (os ++ os') c [].
Proof.
  intros Hs Hlen Hd (st & Hst & Hc).
  destruct (send_replies_one _ _ _ _ _ Hs Hlen) as [(-> & -> & ->)|(d & m & l & l' & u & -> & Hl & Hstep & -> & ->)].
  - exists st. split; [done|]. rewrite app_nil_r. destruct (links !! c); [|naive_solver].
    destruct Hc as (H1' & H2' & H4' & H3'). split_and!; [done|done|naive_solver|]. exists (reads c os).
    rewrite app_nil_r. split; [done|]. revert H3'. unfold replies_to. simpl. by rewrite app_nil_r.
  - destruct (decide (d = c)) as [->|Hdc].
    + exists st. split; [done|]. rewrite lookup_insert_eq. rewrite Hl in Hc. destruct Hc as (Hi & Hok & Hcl & Ha).
      specialize (Hd c). rewrite responses_app, reads_app. unfold reads at 2, responses at 2.
      rewrite conn_obs_app, conn_obs_one, decide_True by done.
      assert (Hok' : all_ok (omap server_sends (conn_obs c os ++ [ServerSent m (Ok u)])) = true)
        by (rewrite omap_app; unfold all_ok in *; by rewrite forallb_app, Hok).
      split_and!; [|done| |].
      * eapply link_step_inv; [done|done| |by apply all_ok_disciplined].
        rewrite omap_app. simpl. by rewrite app_nil_r.
      * intros Hw. eapply link_closed in Hw; [|done..]. by apply Hcl.
      * exists (reads c os). simpl. rewrite !app_nil_r. split; [done|].
        revert Ha. unfold replies_to. simpl. by rewrite decide_True.
    + apply conn_ok_other; [done|]. exists st. split; [done|].
      destruct (links !! c); [|naive_solver]. destruct Hc as (H1' & H2' & H4' & H3').
      split_and!; [done|done|naive_solver|]. exists (reads c os). rewrite app_nil_r.
      split; [done|]. revert H3'. unfold replies_to. simpl. rewrite decide_False by done. by rewrite app_nil_r.
Qed.

Context (contract : tako_contract process_client_message).

Lemma server_part_inv cwd bk links e write sys' os os' :
  backend_inv bk -> job_id_counter (sv_state (bk_server bk)) < 2 ^ 32 - 1 -> bk_event_ok e ->
  server_part cwd bk links e write = Ret (sys', os') ->
  (forall c, conn_ok (bk_server bk) links os c (bk_reads (bk_server bk) e c)) ->
  (forall c, is_connect e c -> conn_at (bk_server bk) c CGone /\ conn_obs c os = [] /\
    exists l, links !! c = Some l /\ w_state (l_down l) = WOpen) ->
  clients_disciplined os -> (forall c, Forall request_wf (requests c os)) ->
  system_inv sys' (os ++ os') /\
  job_id_counter (sv_state (sy_server sys')) <= job_id_counter (sv_state (bk_server bk)) + 1.
Proof.
  intros Hbk Hlt Hok Hs Hc Hcon Hd Hwf. unfold server_part in Hs.
  destruct (bk_step cwd bk e) as [bk'|] eqn:Hb; simpl in Hs; [|done].
  destruct (bk_step_inv process_client_message cwd bk e bk' contract Hbk Hlt Hok Hb) as (_ & _ & Hinv & Hcnt).
  destruct (bk_conns cwd bk e bk' Hb) as (news & Hn & Hl & Hst);
    [eapply conn_ok_conns; intros c; eexists; apply Hc|intros c Hi; by destruct (Hcon c Hi)|].
  rewrite Hn, drop_app_length in Hs.
  destruct (send_replies links news write) as [[links' os1]|] eqn:Hsend; simpl in Hs; [|done]. simplify_eq.
  split; [|done]. split; simpl; [done| |].
  - intros c. eapply conn_mid_ok; [done|done|done|]. eapply conn_ok_mid; [done| |by apply Hst].
    intros Hi. by destruct (Hcon c Hi) as (_ & ? & ?).
  - intros c. unfold requests. rewrite conn_obs_app, omap_app. unfold sent. rewrite omap_app.
    destruct (send_replies_one _ _ _ _ _ Hsend Hl) as [(_ & _ & ->)|(d & m & l & l' & u & _ & _ & _ & _ & ->)].
    + simpl. rewrite app_nil_r. apply Hwf.
    + rewrite conn_obs_one. case_decide; simpl; rewrite app_nil_r; apply Hwf.
Qed.

Lemma fifo_lookup {M} (sends : list (M * result string unit)) saw w i m :
  fifo sends saw w -> omap id saw !! i = Some (Ok m) -> sent sends !! i = Some m.
Proof.
  intros Hf Hi. assert (Hmap : forall l : list M, (Ok <$> l : list (result string M)) !! i = Some (Ok m) -> l !! i = Some m).
  { intros l. rewrite list_lookup_fmap. destruct (l !! i); simpl; [by intros [= ->]|done]. }
  assert (Hq : forall q, Ok <$> sent sends = omap id saw ++ q -> sent sends !! i = Some m).
  { intros q Hq. apply Hmap. rewrite Hq. by apply lookup_app_l_Some. }
  unfold fifo in Hf. destruct (w_state w); [by destruct Hf as (q & ? & _); eauto..|].
  destruct Hf as (e & dl & rest & Hs & q & Hp). rewrite Hs. apply lookup_app_l_Some, Hmap.
  pose proof (lookup_app_l_Some _ q _ _ Hi) as Hl. rewrite <- Hp in Hl.
  apply lookup_app_Some in Hl as [|[_ Hl]]; [done|]. by apply list_lookup_singleton_Some in Hl as [_ ?].
Qed.

(** An error is read only when the direction broke. *)
Lemma fifo_error {M} (sends : list (M * result string unit)) saw w i e :
  fifo sends saw w -> omap id saw !! i = Some (Err e) -> w_state w = WBroken.
Proof.
  intros Hf Hi. unfold fifo in Hf. destruct (w_state w); [..|done].
  all: destruct Hf as (q & Hq & _); pose proof (lookup_app_l_Some _ q _ _ Hi) as Hl; rewrite <- Hq in Hl;
    rewrite list_lookup_fmap in Hl; by destruct (sent sends !! i).
Qed.

Lemma requests_wf_snoc os c o :
  (forall d, Forall request_wf (requests d os)) ->
  match o with ClientSent m _ => request_wf m | _ => True end ->
  forall d, Forall request_wf (requests d (os ++ [(c, o)])).
Proof.
  intros Hwf Ho d. unfold requests. rewrite conn_obs_app, conn_obs_one, omap_app. unfold sent. rewrite omap_app.
  apply Forall_app. split; [apply Hwf|]. case_decide; [|constructor]. destruct o as [m []| | | |]; simpl; by constructor.
Qed.

(** A link moves and the server does not. *)
Lemma link_moves_inv sys os c l e l' o :
  system_inv sys os -> e <> EndDown None \/ conn_at (sy_server sys) c CGone ->
  sy_links sys !! c = Some l -> link_step l e = Some (l', o) ->
  server_saw o = None -> server_sends o = None -> match o with ClientSent m _ => request_wf m | _ => True end ->
  clients_disciplined (os ++ [(c, o)]) ->
  system_inv {| sy_backend := sy_backend sys; sy_links := <[c := l']> (sy_links sys) |} (os ++ [(c, o)]).
Proof.
  intros [Hbk Hc Hwf] He Hl Hs Hsaw Hsend Ho Hd. split; simpl; [done| |by apply requests_wf_snoc].
  intros d. destruct (decide (c = d)) as [->|Hcd]; [|by apply conn_ok_other].
  pose proof (conn_ok_link _ _ _ _ _ _ _ _ [] Hl Hs (Hc d) Hd Hsend He) as Hk. by rewrite Hsaw in Hk.
Qed.

Lemma link_new_inv c s key :
  init false key (endpoint true key_s) = Ok c -> accept_client (endpoint false key) key_s = Ok s ->
  link_inv (link_new c s) [].
Proof.
  intros Hc Hs. unfold accept_client, init in *.
  destruct (do_authentication (endpoint false key) _) as [[s1 o1]|] eqn:Ha; [|done].
  destruct (do_authentication (endpoint true key_s) _) as [[s2 o2]|] eqn:Hb; [|done].
  destruct (auth_paired _ _ _ _ _ _ Ha Hb) as [Hp1 Hp2]. simplify_eq. split; by apply dir_new.
Qed.

Lemma conn_ok_server sv links os c d l p :
  d <> c -> conn_ok sv links os c p -> conn_ok sv (<[d := l]> links) os c p.
Proof. intros Hd (st & Hst & Hc). exists st. by rewrite lookup_insert_ne. Qed.

Lemma connect_inv cwd sys os c key cc cs sys' new :
  system_inv sys os -> job_id_counter (sv_state (sy_server sys)) < 2 ^ 32 - 1 ->
  sy_links sys !! c = None ->
  init false key (endpoint true key_s) = Ok cc -> accept_client (endpoint false key) key_s = Ok cs ->
  server_part cwd (sy_backend sys) (<[c := link_new cc cs]> (sy_links sys)) (BkServer (EvConnect c)) (fun _ => Ok tt)
    = Ret (sys', new) ->
  clients_disciplined os ->
  system_inv sys' (os ++ new) /\
  job_id_counter (sv_state (sy_server sys')) <= job_id_counter (sv_state (sy_server sys)) + 1.
Proof.
  intros [Hbk Hc Hwf] Hlt Hl Hcc Hcs Hs Hd. pose proof (Hc c) as (st & Hst & Hn). rewrite Hl in Hn.
  destruct Hn as (-> & Hobs & _).
  refine (server_part_inv _ _ _ (BkServer (EvConnect c)) _ _ os _ Hbk Hlt I Hs _ _ Hd Hwf).
  - intros d. destruct (decide (c = d)) as [<-|Hcd]; [|apply conn_ok_server; [done|apply Hc]].
    exists CGone. split; [done|]. rewrite lookup_insert_eq, Hobs. split_and!; [by eapply link_new_inv|done|done|].
    exists []. unfold reads, responses. rewrite Hobs. split; [done|]. exists [], []. split_and!; [done|by left|constructor].
  - intros d [= <-]. split_and!; [done|done|]. rewrite lookup_insert_eq. by eexists.
Qed.

Lemma read_inv cwd sys os c now write l l' r sys' new :
  system_inv sys os -> job_id_counter (sv_state (sy_server sys)) < 2 ^ 32 - 1 ->
  c ∈ sv_idle (sy_server sys) -> sy_links sys !! c = Some l -> link_step l ServerReceive = Some (l', ServerGot r) ->
  server_part cwd (sy_backend sys) (<[c := l']> (sy_links sys))
    (BkServer match r with Some message => EvClient c message now | None => EvDisconnect c end) write
    = Ret (sys', new) ->
  clients_disciplined (os ++ [(c, ServerGot r)]) ->
  system_inv sys' ((os ++ [(c, ServerGot r)]) ++ new) /\
  job_id_counter (sv_state (sy_server sys')) <= job_id_counter (sv_state (sy_server sys)) + 1.
Proof.
  intros [Hbk Hc Hwf] Hlt Hi Hl Hstep Hs Hd.
  assert (Hne : ServerReceive <> EndDown None) by done.
  pose proof (conn_ok_link _ _ _ _ _ _ _ _ [] Hl Hstep (Hc c) Hd eq_refl (or_introl Hne)) as Hk. simpl in Hk.
  refine (server_part_inv _ _ _ _ _ _ _ _ Hbk Hlt _ Hs _ _ Hd (requests_wf_snoc _ _ (ServerGot r) Hwf I)); [| |by intros d; destruct r].
  - destruct r as [[m|]|]; simpl; [|done..]. destruct m as [req| | | | | | | | |]; try done.
    destruct Hk as (st & _ & Hk). rewrite lookup_insert_eq in Hk. destruct Hk as ([Hup _] & _ & _ & h & Hr & _).
    apply dir_fifo in Hup.
    assert (Hreq : requests c (os ++ [(c, ServerGot (Some (Ok (Submit req))))]) !! length h = Some (Submit req)).
    { eapply fifo_lookup; [exact Hup|]. change (omap id _) with (reads c (os ++ [(c, ServerGot (Some (Ok (Submit req))))])).
      rewrite Hr. by apply list_lookup_middle. }
    apply (Forall_lookup_1 request_wf _ _ _ (requests_wf_snoc os c (ServerGot _) Hwf I c) Hreq).
  - intros d. destruct (decide (c = d)) as [<-|Hcd].
    + destruct r as [m|]; simpl in *; [|done]. by rewrite decide_True.
    + replace (bk_reads _ _ d) with (@nil (result string FromClientMessage)); [by apply conn_ok_other|].
      destruct r; simpl; [|done]. rewrite decide_False; [done|]. by intros [? _].
Qed.

Lemma client_event_obs c l e l' o :
  link_step l e = Some (l', o) -> client_event e = true -> sys_event_ok (SyClient c e) ->
  server_saw o = None /\ server_sends o = None /\ match o with ClientSent m _ => request_wf m | _ => True end.
Proof.
  intros Hs He Hok. destruct e as [m write|m write| | |er|[er|]]; try done; simpl in Hs.
  - destruct (writable _); [|done]. destruct (send _ _ _) as [[? ?] ?]. by simplify_eq.
  - destruct (next_frame _) as [[? ?]|]; simpl in Hs; [|done]. destruct (receive _ _). by simplify_eq.
  - destruct (end_wire _ _); simpl in Hs; simplify_eq; done.
  - destruct er, (w_state _); simpl in Hs; simplify_eq; done.
Qed.

Lemma sys_step_inv cwd sys e sys' os new :
  system_inv sys os -> job_id_counter (sv_state (sy_server sys)) < 2 ^ 32 - 1 -> sys_event_ok e ->
  sys_step cwd sys e = Ret (sys', new) -> clients_disciplined (os ++ new) ->
  system_inv sys' (os ++ new) /\
  job_id_counter (sv_state (sy_server sys')) <= job_id_counter (sv_state (sy_server sys)) + 1.
Proof.
  intros Hinv Hlt Hok Hs Hd.
  assert (Hstay : Ret (sys, []) = Ret (sys', new) -> system_inv sys' (os ++ new) /\
    job_id_counter (sv_state (sy_server sys')) <= job_id_counter (sv_state (sy_server sys)) + 1).
  { intros [= <- <-]. rewrite app_nil_r. split; [done|lia]. }
  destruct e as [c key|c e|c now write|e write|c]; cbn [sys_step] in Hs.
  - destruct (sy_links sys !! c) eqn:Hl; [by apply Hstay|].
    destruct (init _ _ _) as [cc|] eqn:Hcc; [|by apply Hstay].
    destruct (accept_client _ _) as [cs|] eqn:Hcs; [|by apply Hstay].
    eapply connect_inv; [done|done|done|exact Hcc|exact Hcs|exact Hs|by eapply clients_disciplined_app].
  - destruct (sy_links sys !! c) as [l|] eqn:Hl; [|by apply Hstay].
    destruct (client_event e) eqn:Hce; [|by apply Hstay].
    destruct (link_step l e) as [[l' o]|] eqn:Hst; [|by apply Hstay]. simplify_eq.
    destruct (client_event_obs _ _ _ _ _ Hst Hce Hok) as (? & ? & ?).
    split; [eapply link_moves_inv; try done; left; by destruct e as [| | | | |[]]|unfold sy_server; simpl; lia].
  - destruct (decide _) as [Hi|]; [|by apply Hstay].
    destruct (sy_links sys !! c) as [l|] eqn:Hl; [|by apply Hstay].
    destruct (link_step l ServerReceive) as [[l' o]|] eqn:Hst; [|by apply Hstay].
    destruct o as [| | |r|]; try by apply Hstay.
    destruct (server_part _ _ _ _ _) as [[sys1 os1]|] eqn:Hp; [|done]. cbn [mbind outcome_bind] in Hs. simplify_eq.
    change (os ++ (c, ServerGot r) :: os1) with (os ++ [(c, ServerGot r)] ++ os1) in *. rewrite app_assoc in *.
    eapply read_inv; [done|done|done|exact Hl|exact Hst|exact Hp|by eapply clients_disciplined_app].
  - destruct (internal_event e) eqn:He; [|by apply Hstay]. destruct Hinv as [Hbk Hc Hwf].
    refine (server_part_inv _ _ _ _ _ _ _ _ Hbk Hlt _ Hs _ _ (clients_disciplined_app _ _ Hd) Hwf);
      [by destruct e as [[]| | |]| |].
    + intros c. replace (bk_reads _ _ _) with (@nil (result string FromClientMessage)); [done|by destruct e as [[]| | |]].
    + intros c ->. done.
  - destruct (sy_links sys !! c) as [l|] eqn:Hl; [|by apply Hstay].
    destruct (decide _) as [Hi|]; [|by apply Hstay].
    destruct (link_step l (EndDown None)) as [[l' o]|] eqn:Hst; [|by apply Hstay]. simplify_eq.
    split; [|unfold sy_server; simpl; lia]. assert (o = Ended) as ->.
    { cbn in Hst. destruct (w_state (l_down l)); cbn in Hst; by simplify_eq. }
    eapply link_moves_inv; try done. by right.
Qed.

Lemma System_new_inv core : system_inv (System_new core) [].
Proof.
  split; simpl; [apply Backend_new_inv| |by intros c; constructor]. intros c. exists CGone.
  split; [apply Server_new_conns|done].
Qed.

Lemma sys_run_snoc cwd sys es e sys' os :
  sys_run cwd sys (es ++ [e]) = Ret (sys', os) ->
  exists sys1 os1 new, sys_run cwd sys es = Ret (sys1, os1) /\ sys_step cwd sys1 e = Ret (sys', new) /\ os = os1 ++ new.
Proof.
  unfold sys_run. rewrite foldM_app. intros Hr.
  destruct (foldM _ (sys, []) es) as [[sys1 os1]|]; simpl in Hr; [|done].
  destruct (sys_step cwd sys1 e) as [[sys2 new]|] eqn:Hs; simpl in Hr; [|done]. simplify_eq.
  by exists sys1, os1, new.
Qed.

Lemma sys_run_inv cwd core es sys os :
  Z.of_nat (length es) < 2 ^ 32 - 1 -> Forall sys_event_ok es ->
  sys_run cwd (System_new core) es = Ret (sys, os) -> clients_disciplined os ->
  system_inv sys os /\ job_id_counter (sv_state (sy_server sys)) <= 1 + Z.of_nat (length es).
Proof.
  revert sys os. induction es as [|e es IH] using rev_ind; intros sys os Hlen Hok Hr Hd.
  - unfold sys_run in Hr. simpl in Hr. simplify_eq. split; [apply System_new_inv|done].
  - apply sys_run_snoc in Hr as (sys1 & os1 & new & Hr & Hs & ->). rewrite length_app in *. simpl in *.
    apply Forall_app in Hok as [Hok He]. apply Forall_cons in He as [He _].
    destruct (IH sys1 os1) as [Hinv Hcnt]; [lia|done|done|by eapply clients_disciplined_app|].
    destruct (sys_step_inv cwd sys1 e sys os1 new) as [? ?]; [done|lia|done|done|done|]. split; [done|lia].
Qed.

(** The requests and the responses of a connection. *)
Lemma conn_answered sys os c l :
  system_inv sys os -> sy_links sys !! c = Some l ->
  fifo (omap client_sends (conn_obs c os)) (omap server_saw (conn_obs c os)) (l_up l) /\
  fifo (omap server_sends (conn_obs c os)) (omap client_saw (conn_obs c os)) (l_down l) /\
  exists st, conn_at (sy_server sys) c st /\ answers_reads (reads c os) (responses c os) st.
Proof.
  intros [_ Hc _] Hl. destruct (Hc c) as (st & Hst & Hk). rewrite Hl in Hk.
  destruct Hk as ([Hup Hdown] & _ & _ & h & Hr & Ha). rewrite app_nil_r in Hr. subst h.
  split_and!; [by eapply dir_fifo..|]. by exists st.
Qed.

(** The response of a suspended handler finds its connection. *)
Lemma internal_reply cwd sys os e bk' :
  system_inv sys os -> internal_event e = true -> bk_step cwd (sy_backend sys) e = Ret bk' ->
  drop (length (sv_replies (sy_server sys))) (sv_replies (bk_server bk')) = [] \/
  exists c m l, drop (length (sv_replies (sy_server sys))) (sv_replies (bk_server bk')) = [(c, m)] /\
    sy_links sys !! c = Some l /\ writable (l_down l) = true.
Proof.
  intros [_ Hc _] He Hb. destruct (bk_conns cwd _ e bk' Hb) as (news & Hn & Hl & Hst);
    [eapply conn_ok_conns; intros c; eexists; apply Hc|by intros c ->|].
  change (bk_server (sy_backend sys)) with (sy_server sys) in *. rewrite Hn, drop_app_length.
  destruct news as [|[c m] [|]]; [by left|right|simpl in Hl; lia].
  destruct (Hc c) as (st & Hat & Hk). destruct (Hst c st Hat) as (st' & _ & [Hstep|(-> & _)]); [|done].
  replace (bk_reads (sy_server sys) e c) with (@nil (result string FromClientMessage)) in Hstep
    by (by destruct e as [[]| | |]).
  unfold replies_to in Hstep. simpl in Hstep. rewrite decide_True in Hstep by done.
  destruct (sy_links sys !! c) as [l|] eqn:Hlk.
  - exists c, m, l. split_and!; [done|done|]. destruct Hk as (_ & _ & Hcl & _). unfold writable.
    destruct (w_state (l_down l)); [done| |done]. rewrite (Hcl eq_refl) in Hstep. by inversion Hstep.
  - destruct Hk as (-> & _). by inversion Hstep.
Qed.

(** ** Properties *)

(** C2: the whole way of a request.  Clients, connections, the server with its
    handlers and callbacks, the two loops of the backend and [tako] run interleaved
    in any way, and connections may close or break at any time.  The response that a
    client receives at a position answers the request that it sent at this position:
    it has the kind of the request, and only a broken connection gives an error
    instead.  When a connection is idle and nothing is on the way, every request was
    answered.  The invariant of the server holds throughout. *)
Theorem requests_answered_in_order cwd core es sys os :
  Z.of_nat (length es) < 2 ^ 32 - 1 -> Forall sys_event_ok es ->
  sys_run cwd (System_new core) es = Ret (sys, os) -> clients_disciplined os ->
  server_inv (sy_server sys) /\
  forall c l, sy_links sys !! c = Some l ->
    (forall i r, received c os !! i = Some (Ok r) ->
      (exists m, requests c os !! i = Some m /\ response_kind (kind_of m) r = true) \/
      w_state (l_up l) = WBroken /\ exists e, r = ErrorMsg e) /\
    (conn_at (sy_server sys) c CIdle -> l_up l = wire_new -> l_down l = wire_new ->
      length (received c os) = length (requests c os)).
Proof.
  intros Hlen Hok Hr Hd. destruct (sys_run_inv cwd core es sys os Hlen Hok Hr Hd) as [Hinv _].
  split; [apply Hinv|]. intros c l Hl.
  destruct (conn_answered sys os c l Hinv Hl) as (Hup & Hdown & st & Hst & dn & rest & Hreads & Hu & Hf). split.
  - intros i r Hi. apply (fifo_lookup _ _ _ _ _ Hdown) in Hi.
    destruct (Forall2_lookup_r _ _ _ _ _ Hf Hi) as (m & Hm & Hresp).
    assert (Hrd : reads c os !! i = Some m) by (rewrite Hreads; by apply lookup_app_l_Some).
    destruct m as [m|e].
    + left. exists m. split; [|done]. by apply (fifo_lookup _ _ _ _ _ Hup).
    + right. split; [by eapply fifo_error|]. destruct r; try done. eauto.
  - intros Hidle Hu0 Hd0. rewrite (conn_at_unique _ _ _ _ Hst Hidle) in Hu. simpl in Hu. subst rest.
    rewrite app_nil_r in Hreads. apply Forall2_length in Hf.
    assert (Hcount : forall M (sends : list (M * result string unit)) saw,
      fifo sends saw wire_new -> length (omap id saw) = length (sent sends)).
    { intros M sends saw (q & Hq & Hlq & _). apply length_zero_iff_nil in Hlq. subst q.
      rewrite app_nil_r in Hq. by rewrite <- Hq, length_fmap. }
    rewrite Hu0 in Hup. rewrite Hd0 in Hdown. pose proof (Hcount _ _ _ Hup) as H1'. pose proof (Hcount _ _ _ Hdown) as H2'.
    unfold received, requests. rewrite H2', <- H1'. unfold reads in Hreads. rewrite Hreads. symmetry. exact Hf.
Qed.

(** C15: the server survives exactly the responses that it can write.  The response of
    a suspended handler is written to the connection of its client, which is there and
    not closed by the server; when it does not serialize, or when the write fails
    (the client went away while its request was handled, or the response does not fit
    into a frame), the whole process ends. *)
Theorem response_written_or_abort cwd core es sys os e write bk' :
  Z.of_nat (length es) < 2 ^ 32 - 1 -> Forall sys_event_ok es ->
  sys_run cwd (System_new core) es = Ret (sys, os) -> clients_disciplined os ->
  internal_event e = true -> bk_step cwd (sy_backend sys) e = Ret bk' ->
  match drop (length (sv_replies (sy_server sys))) (sv_replies (bk_server bk')) with
  | [] => sys_step cwd sys (SyServer e write) = Ret ({| sy_backend := bk'; sy_links := sy_links sys |}, [])
  | (c, m) :: _ =>
      exists l, sy_links sys !! c = Some l /\
      match serialize_item m with
      | Err _ => sys_step cwd sys (SyServer e write) = Panic AssertionFailed
      | Ok d =>
          match write (seal_message (sealer (l_server l)) d).2 with
          | Err _ => sys_step cwd sys (SyServer e write) = Panic AssertionFailed
          | Ok _ => exists sys', sys_step cwd sys (SyServer e write) = Ret (sys', [(c, ServerSent m (Ok tt))]) /\
              sy_backend sys' = bk'
          end
      end
  end.
Proof.
  intros Hlen Hok Hr Hd He Hb. destruct (sys_run_inv cwd core es sys os Hlen Hok Hr Hd) as [Hinv _].
  cbn [sys_step]. rewrite He. unfold server_part. rewrite Hb. cbn [mbind outcome_bind].
  change (bk_server (sy_backend sys)) with (sy_server sys).
  destruct (internal_reply cwd sys os e bk' Hinv He Hb) as [->|(c & m & l & -> & Hl & Hw)]; [done|].
  exists l. split; [done|]. cbn [send_replies]. rewrite Hl. cbn [unwrap mbind outcome_bind link_step]. rewrite Hw.
  unfold send, serialize_message. destruct (serialize_item m) as [d|]; [|done].
  destruct (seal_message _ d) as [s1 b]. simpl. destruct (write b) as [u|]; [|done]. destruct u. by eexists.
Qed.

End system.
