(* ===== verification/Bootstrap.v ===== *)
(** * The life of a server process: [src/server/bootstrap.rs]

    [hq server start] as a whole: the decision to start ([ServerDir.v]), the setup,
    the [select!] of [initialize_server] over the running server ([System.v]) and what
    is left behind.  The sockets, the generated keys and the start of [tako] are given
    by the environment.  The process of automatic allocation shares no state with the
    rest and never ends; it is the subject of [AutoAlloc.v]. *)

From S2P Require Import Prelude ArrayDef Messages Job Status State Client Server Backend Protocol ServerDir Connection System.

Section bootstrap.
Context `{Profile} `{Tako} `{Auth} `{!AccessFormat} `{HostEnv} `{Serde FromClientMessage} `{Serde ToClientMessage}.
Context {Core : Type}.
Context (process_client_message :
  Core -> FromGatewayMessage -> Core * list ToGatewayMessage * option string).

Abbreviation System := (System (Core := Core)).
Abbreviation SysEvent := (SysEvent (Core := Core)).
Abbreviation sys_step := (sys_step process_client_message).
Abbreviation sys_run := (sys_run process_client_message).

(** ** Setup *)

(** [DEFAULT_AUTOALLOC_REFRESH_INTERVAL], in seconds *)
Definition DEFAULT_AUTOALLOC_REFRESH_INTERVAL : Z := 5.

(** [struct ServerConfig] *)
Record ServerConfig := {
  cfg_host : string;
  cfg_idle_timeout : option Z;
  cfg_autoalloc_interval : option Z
}.

(** What the environment gives: the port of the bound socket, the generated keys,
    the worker port and the state of a [tako] that was started with an idle timeout,
    the time and the process id. *)
Record Environment := {
  env_bind : result string Z;
  env_hq_key : SecretKey;
  env_tako_key : SecretKey;
  env_start : option Z -> result string (Z * Core);
  env_now : Z;
  env_pid : Z
}.

(** The refresh interval of [StateRef::new] in [initialize_server] *)
Definition autoalloc_interval (cfg : ServerConfig) : Z :=
  default DEFAULT_AUTOALLOC_REFRESH_INTERVAL (cfg_autoalloc_interval cfg).

(** [initialize_server], up to the future: the world, and the record and the state of
    the server that will run. *)
Definition setup_server (w : ServerWorld) (server_directory : string) (cfg : ServerConfig) (env : Environment) :
    outcome (ServerWorld * result string (AccessRecord * System)) :=
  match env_bind env with
  | Err e => Ret (w, Err "Cannot create HQ server socket")
  | Ok server_port =>
      match env_start env (cfg_idle_timeout cfg) with
      | Err e => Ret (w, Err e)
      | Ok (worker_port, core) =>
          '(w, r) ← initialize_server w server_directory
            {| st_host := cfg_host cfg; st_server_port := server_port; st_worker_port := worker_port;
               st_now := env_now env; st_pid := env_pid env;
               st_hq_key := env_hq_key env; st_tako_key := env_tako_key env |};
          Ret (w, match r with Ok record => Ok (record, System_new core) | Err e => Err e end)
      end
  end.

(** ** The run *)

(** The branches of the [select!]: SIGINT, the flag set by [Stop], the end of the loop
    that accepts connections, the end of the future of the backend; and a step of the
    running server. *)
Inductive SelectEvent :=
| SeInterrupt
| SeStop
| SeAcceptFailed
| SeBackend (r : result string unit)
| SeSystem (e : SysEvent).

(** One event: the server goes on ([inl]), or the future ends ([inr]). *)
Definition select_step (key : SecretKey) (cwd : string) (sys : System) (e : SelectEvent) :
    outcome (System * list (Z * LinkObs) + result string unit) :=
  match e with
  | SeInterrupt => Ret (inr (Ok tt))
  | SeStop => Ret (if sv_stopped (sy_server sys) then inr (Ok tt) else inl (sys, []))
  | SeAcceptFailed => Ret (inr (Ok tt))
  | SeBackend r => Ret (inr r)
  | SeSystem e => r ← sys_step key cwd sys e; Ret (inl r)
  end.

(** The future: [None] when it still runs after the events; and what the ends of the
    connections saw. *)
Fixpoint serve (key : SecretKey) (cwd : string) (sys : System) (es : list SelectEvent) :
    outcome (list (Z * LinkObs) * (System + result string unit)) :=
  match es with
  | [] => Ret ([], inl sys)
  | e :: es =>
      r ← select_step key cwd sys e;
      match r with
      | inl (sys, os) => '(os', r) ← serve key cwd sys es; Ret (os ++ os', r)
      | inr r => Ret ([], inr r)
      end
  end.

(** The world after the end of the process, without the removal of the link. *)
Definition process_gone (w : ServerWorld) (record : AccessRecord) : ServerWorld :=
  {| sw_fs := sw_fs w; sw_running := List.filter (fun r => negb (bool_decide (r = record))) (sw_running w) |}.

(** How far [hq server start] came. *)
Inductive StartResult :=
| StartEnded (r : result string unit)
| StartRuns (record : AccessRecord) (sys : System).

(** [start_server] *)
Definition start_server (w : ServerWorld) (server_directory cwd : string) (cfg : ServerConfig) (env : Environment)
    (es : list SelectEvent) : outcome (ServerWorld * StartResult) :=
  '(w, r) ← setup_server w server_directory cfg env;
  match r with
  | Err e => Ret (w, StartEnded (Err e))
  | Ok (record, sys) =>
      '(_, r) ← serve (env_hq_key env) cwd sys es;
      Ret match r with
          | inl sys => (w, StartRuns record sys)
          | inr (Err e) => (process_gone w record, StartEnded (Err e))
          | inr (Ok _) => (server_end w server_directory record, StartEnded (Ok tt))
          end
  end.

(** [init_hq_server], with the run of the server *)
Definition hq_server_start (w : ServerWorld) (server_directory cwd : string) (cfg : ServerConfig) (env : Environment)
    (es : list SelectEvent) : outcome (ServerWorld * StartResult) :=
  status ← get_server_status w server_directory;
  match status with
  | Err _ | Ok (Offline _) => start_server w server_directory cwd cfg env es
  | Ok (Online _) =>
      Ret (w, StartEnded (Err ("Server at " +:+ (server_directory +:+
        (" is already online, please stop it first using `hq stop --server-dir "
           +:+ (server_directory +:+ "`"))))))
  end.

(** The rows of [print_access_record]; [format_start_date]: the format [%F %T %Z]. *)
Definition access_record_rows (format_start_date : Z -> string) (server_dir : string) (record : AccessRecord) :
    list (string * string) :=
  [("Server directory", server_dir);
   ("Host", ar_host record);
   ("Pid", to_string (ar_pid record));
   ("HQ port", to_string (ar_server_port record));
   ("Workers port", to_string (ar_worker_port record));
   ("Start date", format_start_date (ar_start_date record));
   ("Version", ar_version record)].

(** ** Lemmas: the flag set by [Stop] *)

Lemma stopped_continue sv c next : sv_stopped (continue_with sv c next) = sv_stopped sv.
Proof. by destruct next, c. Qed.

Lemma stopped_commit sv c seg : sv_stopped (commit sv c seg) = sv_stopped sv.
Proof. destruct seg as [[s ctl] next]. unfold commit. by rewrite stopped_continue. Qed.

Lemma stopped_reader sv m now sv' : tako_msg_reader sv m now = Ret sv' -> sv_stopped sv' = sv_stopped sv.
Proof.
  intros Hr. assert (Hpop : pop_response sv m = Ret sv' -> sv_stopped sv' = sv_stopped sv).
  { unfold pop_response. destruct (sv_tako_responses sv); intros; by simplify_eq. }
  destruct m; simpl in Hr; try (by apply Hpop in Hr);
    repeat (match type of Hr with (?x ≫= _) = _ => destruct x as [?|] eqn:?; simpl in Hr; [|done] end
            || case_match); by simplify_eq.
Qed.

Lemma stopped_client cwd sv c message now sv' :
  client_rpc_loop cwd sv c message now = Ret sv' -> message = Ok Stop \/ sv_stopped sv' = sv_stopped sv.
Proof.
  intros Hr. destruct message as [m|e]; simpl in Hr; [|simplify_eq; by right].
  destruct m; simpl in Hr; try (by left); right;
    try match type of Hr with (?x ≫= _) = _ => destruct x as [?|]; simpl in Hr; [|done] end;
    simplify_eq; rewrite ?stopped_commit, ?stopped_continue; done.
Qed.

Lemma step_stopped cwd sv e sv' :
  step cwd sv e = Ret sv' -> (exists c now, e = EvClient c (Ok Stop) now) \/ sv_stopped sv' = sv_stopped sv.
Proof.
  destruct e as [c|c m now|m now|i now|i|i st|i|c]; simpl; intros Hs; try (right; by simplify_eq).
  - case_decide; [|right; by simplify_eq]. apply stopped_client in Hs as [->|Hs]; [left; eauto|by right].
  - right. by apply stopped_reader in Hs.
  - right. destruct (sv_woken sv !! i) as [[w m]|]; [|by simplify_eq]. unfold resume in Hs.
    destruct w.2; simpl in Hs;
      match type of Hs with (?x ≫= _) = _ => destruct x as [?|]; simpl in Hs; [|done] end;
      simplify_eq; by rewrite ?stopped_commit, ?stopped_continue.
  - right. destruct (sv_registering sv !! i) as [[[c defs] job]|]; by simplify_eq.
  - right. destruct (sv_stats sv !! i); by simplify_eq.
  - right. destruct (sv_spawned sv !! i) as [[id tasks]|]; by simplify_eq.
Qed.

Lemma bk_step_stopped cwd bk e bk' :
  bk_step process_client_message cwd bk e = Ret bk' ->
  (exists c now, e = BkServer (EvClient c (Ok Stop) now)) \/ sv_stopped (bk_server bk') = sv_stopped (bk_server bk).
Proof.
  intros Hs. destruct e as [e| |now|core m].
  - destruct (is_tako_dec e) as [(m & now & ->)|Hn]; [simpl in Hs; simplify_eq; by right|].
    destruct (bk_step_server process_client_message cwd bk e Hn) as [Heq _]. rewrite Heq in Hs.
    destruct (step cwd (bk_server bk) e) as [sv|] eqn:Hsv; simpl in Hs; [|done]. simplify_eq.
    destruct (step_stopped _ _ _ _ Hsv) as [(c & now & ->)|]; [left; eauto|by right].
  - right. simpl in Hs. simplify_eq. unfold tako_msg_sender. destruct (_ !! _); [|done].
    by destruct (process_client_message _ _) as [[??]?].
  - right. simpl in Hs. destruct (bk_from_tako bk) as [|m rest]; [by simplify_eq|].
    destruct (tako_msg_reader (bk_server bk) m now) as [sv|] eqn:Hsv; simpl in Hs; [|done]. simplify_eq.
    by apply stopped_reader in Hsv.
  - right. simpl in Hs. by destruct (is_notification m); simplify_eq.
Qed.

Lemma server_part_stopped cwd bk links e write sys os :
  server_part process_client_message cwd bk links e write = Ret (sys, os) ->
  (exists c now, e = BkServer (EvClient c (Ok Stop) now)) \/ sv_stopped (sy_server sys) = sv_stopped (bk_server bk).
Proof.
  unfold server_part. intros Hs.
  destruct (bk_step process_client_message cwd bk e) as [bk'|] eqn:Hb; simpl in Hs; [|done].
  destruct (send_replies _ _ _) as [[links' os']|]; simpl in Hs; [|done]. simplify_eq.
  by apply bk_step_stopped in Hb.
Qed.

(** The server stops only after it read [Stop]. *)
Lemma sys_step_stopped key cwd sys e sys' new :
  sys_step key cwd sys e = Ret (sys', new) ->
  sv_stopped (sy_server sys') = sv_stopped (sy_server sys) \/ exists c, Ok Stop ∈ reads c new.
Proof.
  intros Hs.
  assert (Hstay : Ret (sys, []) = Ret (sys', new) ->
    sv_stopped (sy_server sys') = sv_stopped (sy_server sys) \/ exists c, Ok Stop ∈ reads c new)
    by (intros; simplify_eq; by left).
  destruct e as [c k|c e|c now write|e write|c]; cbn [System.sys_step] in Hs.
  - destruct (sy_links sys !! c); [by apply Hstay|]. destruct (init _ _ _); [|by apply Hstay].
    destruct (accept_client _ _); [|by apply Hstay].
    apply server_part_stopped in Hs as [(? & ? & [=])|]; by left.
  - destruct (sy_links sys !! c) as [l|]; [|by apply Hstay].
    destruct (if client_event e then link_step l e else None) as [[l' o]|]; [|by apply Hstay]. simplify_eq. by left.
  - destruct (if decide _ then _ else None) as [l|]; [|by apply Hstay].
    destruct (link_step l ServerReceive) as [[l' o]|]; [|by apply Hstay].
    destruct o as [| | |r|]; try by apply Hstay.
    destruct (server_part _ _ _ _ _ _) as [[sys1 os1]|] eqn:Hp; [|done]. cbn [mbind outcome_bind] in Hs. simplify_eq.
    apply server_part_stopped in Hp as [(d & now' & Hd)|]; [right|by left].
    destruct r as [m|]; [|done]. simplify_eq. exists d. unfold reads, conn_obs. simpl. rewrite decide_True by done.
    simpl. by left.
  - destruct (internal_event e) eqn:He; [|by apply Hstay].
    apply server_part_stopped in Hs as [(d & now & ->)|]; [done|by left].
  - destruct (sy_links sys !! c) as [l|]; [|by apply Hstay].
    destruct (if decide _ then _ else None) as [[l' o]|]; [|by apply Hstay]. simplify_eq. by left.
Qed.

Lemma sys_run_stopped key cwd core es sys os :
  sys_run key cwd (System_new core) es = Ret (sys, os) -> sv_stopped (sy_server sys) = true ->
  exists c, Ok Stop ∈ reads c os.
Proof.
  revert sys os. induction es as [|e es IH] using rev_ind; intros sys os Hr Hs.
  - unfold System.sys_run in Hr. simpl in Hr. by simplify_eq.
  - apply sys_run_snoc in Hr as (sys1 & os1 & new & Hr & Hst & ->).
    destruct (sys_step_stopped key cwd sys1 e sys new Hst) as [Heq|[c Hc]].
    + rewrite Heq in Hs. destruct (IH _ _ Hr Hs) as [c Hc]. exists c. rewrite reads_app. apply elem_of_app. by left.
    + exists c. rewrite reads_app. apply elem_of_app. by right.
Qed.

(** ** Lemmas: the run *)

Lemma sys_run_from key cwd sys es os0 :
  foldM (fun '(sys, os) e => '(sys, new) ← sys_step key cwd sys e; Ret (sys, os ++ new)) (sys, os0) es =
  ('(sys, os) ← sys_run key cwd sys es; Ret (sys, os0 ++ os)).
Proof.
  unfold System.sys_run. revert sys os0. induction es as [|e es IH]; intros sys os0; simpl; [by rewrite app_nil_r|].
  destruct (sys_step key cwd sys e) as [[sys1 new]|]; simpl; [|done].
  rewrite (IH sys1 new), (IH sys1 (os0 ++ new)).
  destruct (foldM _ (sys1, []) es) as [[sys2 os2]|]; simpl; [|done]. by rewrite app_assoc.
Qed.

Lemma sys_run_cons key cwd sys e es :
  sys_run key cwd sys (e :: es) =
  ('(sys1, new) ← sys_step key cwd sys e; '(sys2, os) ← sys_run key cwd sys1 es; Ret (sys2, new ++ os)).
Proof.
  unfold System.sys_run at 1. simpl. destruct (sys_step key cwd sys e) as [[sys1 new]|]; simpl; [|done].
  apply sys_run_from.
Qed.

(** Why the future of the server has the result [r] in the state [sys]. *)
Definition ended_by (sys : System) (r : result string unit) (e : SelectEvent) : Prop :=
  match e with
  | SeInterrupt | SeAcceptFailed => r = Ok tt
  | SeStop => sv_stopped (sy_server sys) = true /\ r = Ok tt
  | SeBackend r' => r = r'
  | SeSystem _ => False
  end.

(** The steps of the server among the events, the state they lead to, and the end. *)
Definition served (key : SecretKey) (cwd : string) (sys : System) (es : list SelectEvent)
    (os : list (Z * LinkObs)) (r : System + result string unit) : Prop :=
  exists ses sys', sys_run key cwd sys ses = Ret (sys', os) /\ (SeSystem <$> ses) `sublist_of` es /\
    match r with
    | inl sys'' => sys'' = sys'
    | inr r => exists e, e ∈ es /\ ended_by sys' r e
    end.

Lemma served_skip key cwd sys e es os r : served key cwd sys es os r -> served key cwd sys (e :: es) os r.
Proof.
  intros (ses & sys' & H1' & H2' & H3'). exists ses, sys'. split_and!; [done|by apply sublist_cons|].
  destruct r; [done|]. destruct H3' as (e' & ? & ?). exists e'. split; [by right|done].
Qed.

Lemma served_step key cwd sys e es sys1 new os r :
  sys_step key cwd sys e = Ret (sys1, new) -> served key cwd sys1 es os r ->
  served key cwd sys (SeSystem e :: es) (new ++ os) r.
Proof.
  intros Hs (ses & sys' & H1' & H2' & H3'). exists (e :: ses), sys'. split_and!.
  - rewrite sys_run_cons, Hs. cbn [mbind outcome_bind]. by rewrite H1'.
  - by apply sublist_skip.
  - destruct r; [done|]. destruct H3' as (e' & ? & ?). exists e'. split; [by right|done].
Qed.

Lemma served_end key cwd sys e es r : ended_by sys r e -> served key cwd sys (e :: es) [] (inr r).
Proof. intros He. exists [], sys. split_and!; [done|apply sublist_nil_l|]. exists e. split; [by left|done]. Qed.

Lemma serve_run key cwd sys es os r : serve key cwd sys es = Ret (os, r) -> served key cwd sys es os r.
Proof.
  revert sys os. induction es as [|e es IH]; intros sys os Hs; cbn [serve] in Hs.
  { simplify_eq. by exists [], sys. }
  destruct e as [| | |r'|e]; cbn [select_step mbind outcome_bind] in Hs.
  - simplify_eq. by apply served_end.
  - destruct (sv_stopped (sy_server sys)) eqn:Hst; [simplify_eq; by apply served_end|].
    destruct (serve key cwd sys es) as [[os' r0]|] eqn:Hse; simpl in Hs; [|done]. simplify_eq.
    by apply served_skip, IH.
  - simplify_eq. by apply served_end.
  - simplify_eq. by apply served_end.
  - destruct (sys_step key cwd sys e) as [[sys1 new]|] eqn:Hstep; cbn [mbind outcome_bind] in Hs; [|done].
    destruct (serve key cwd sys1 es) as [[os' r0]|] eqn:Hse; cbn [mbind outcome_bind] in Hs; [|done]. simplify_eq.
    eapply served_step; [done|by apply IH].
Qed.

(** A request to stop that was read was sent by a client with the key. *)
Lemma stop_was_sent `{!AuthLaws} `{!OpenSeal FromClientMessage, !OpenSeal ToClientMessage} key cwd core es ses sys os :
  tako_contract process_client_message ->
  Z.of_nat (length es) < 2 ^ 32 - 1 ->
  Forall (fun e => match e with SeSystem e => sys_event_ok e | _ => True end) es ->
  (SeSystem <$> ses) `sublist_of` es ->
  sys_run key cwd (System_new core) ses = Ret (sys, os) -> clients_disciplined os ->
  sv_stopped (sy_server sys) = true -> exists c, Stop ∈ requests c os.
Proof.
  intros Hc Hlen Hok Hsub Hr Hd Hs. destruct (sys_run_stopped _ _ _ _ _ _ Hr Hs) as [c Hin].
  assert (Hok' : Forall sys_event_ok ses).
  { apply Forall_forall. intros e He. assert (Hin' : SeSystem e ∈ es).
    { eapply elem_of_sublist; [|exact Hsub]. by apply list_elem_of_fmap_2. }
    by apply (proj1 (Forall_forall _ _) Hok (SeSystem e) Hin'). }
  pose proof (sublist_length _ _ Hsub) as Hle. rewrite length_fmap in Hle.
  destruct (sys_run_inv process_client_message key Hc cwd core ses sys os) as [Hinv _]; [lia|done..|].
  exists c. apply list_elem_of_lookup_1 in Hin as [i Hi].
  destruct (sy_links sys !! c) as [l|] eqn:Hl.
  - destruct (conn_answered sys os c l Hinv Hl) as (Hup & _).
    eapply list_elem_of_lookup_2. by apply (fifo_lookup _ _ _ _ _ Hup Hi).
  - destruct (sy_conn sys os Hinv c) as (st & _ & Hk). rewrite Hl in Hk. destruct Hk as (_ & Hobs & _).
    unfold reads in Hi. by rewrite Hobs in Hi.
Qed.

(** A client that is served can stop the server. *)
Lemma stop_ends_server key cwd sys c now write l l' :
  c ∈ sv_idle (sy_server sys) -> sy_links sys !! c = Some l ->
  link_step l ServerReceive = Some (l', ServerGot (Some (Ok Stop))) ->
  exists os, serve key cwd sys [SeSystem (SyRead c now write); SeStop] = Ret (os, inr (Ok tt)).
Proof.
  intros Hi Hl Hs. eexists. cbn [serve select_step System.sys_step]. rewrite decide_True, Hl by done.
  cbn [mbind outcome_bind]. rewrite Hs. unfold server_part.
  assert (Hb : exists sv, step cwd (bk_server (sy_backend sys)) (EvClient c (Ok Stop) now) = Ret sv /\
    sv_stopped sv = true /\ sv_replies sv = sv_replies (bk_server (sy_backend sys))).
  { eexists. cbn [step]. rewrite decide_True by done. by split_and!. }
  destruct Hb as (sv & Hsv & Hst & Hr). cbn [Backend.bk_step]. rewrite Hsv. cbn [mbind outcome_bind bk_server].
  rewrite Hr, drop_all. cbn. unfold sy_server. cbn. by rewrite Hst.
Qed.

(** ** Properties *)

(** What the environment gives to a new server, once the sockets are there. *)
Definition start_of (cfg : ServerConfig) (env : Environment) (port worker_port : Z) : ServerStart :=
  {| st_host := cfg_host cfg; st_server_port := port; st_worker_port := worker_port;
     st_now := env_now env; st_pid := env_pid env;
     st_hq_key := env_hq_key env; st_tako_key := env_tako_key env |}.

(** The directory is free for a server with this record. *)
Record startable (w : ServerWorld) (dir : string) (x : ServerStart) : Prop := {
  sa_none : no_server w dir;
  sa_fresh : fresh_run (sw_fs w) dir (format_date (st_now x));
  sa_link : link_replaceable (sw_fs w) (path_join dir SYMLINK_PATH);
  sa_port : reachable (st_host x) (st_server_port x) = true /\
    Forall (fun r => ar_host r = st_host x -> ar_server_port r <> st_server_port x) (sw_running w);
  sa_access : is_absolute dir = true /\ occupied (sw_fs w) (path_join dir ACCESS_FILE) = false /\
    path_join dir ACCESS_FILE <> path_join (path_join dir (format_date (st_now x))) ACCESS_FILE
}.

Lemma filter_gone w record :
  Forall (fun r => ar_host r = ar_host record -> ar_server_port r <> ar_server_port record) (sw_running w) ->
  forall w1, sw_running w1 = record :: sw_running w ->
  connect_to_server (process_gone w1 record) record = Err "Connection failed".
Proof.
  intros Hall w1 Hw. unfold connect_to_server, process_gone. destruct (negb _); [done|]. cbn [sw_running].
  rewrite Hw. cbn [List.filter]. rewrite bool_decide_eq_true_2 by done. cbn [negb].
  destruct (List.find _ _) as [r|] eqn:Hf; [|done]. apply List.find_some in Hf as [Hin Hb].
  apply List.filter_In in Hin as [Hin _]. apply list_elem_of_In in Hin.
  pose proof (proj1 (Forall_forall _ _) Hall r Hin) as Hne.
  apply andb_true_iff in Hb as [[Hh%String.eqb_eq Hp%Z.eqb_eq]%andb_true_iff _]. by destruct (Hne Hh).
Qed.

Lemma serving_published w w1 x :
  reachable (st_host x) (st_server_port x) = true -> sw_running w1 = AccessRecord_new x :: sw_running w ->
  connect_to_server w1 (AccessRecord_new x) = Ok (AccessRecord_new x).
Proof.
  intros Hr Hw. destruct (connect_running {| sw_fs := sw_fs w1; sw_running := sw_running w |} (AccessRecord_new x))
    as (s & Hs & ->); [done|]. simpl in Hs. rewrite <- Hw in Hs. by destruct w1.
Qed.


End bootstrap.
