(* ===== verification/Borrows.v ===== *)
(** * The borrows of the server, the stream server and the worker

    Which cells ([common/wrapped.rs]) the functions of [src/server/], [src/stream/server/]
    and [src/worker/] borrow, in the order in which they do it, and where they await.  Branches and
    rounds of loops that depend on data are left open, so every run of a function is a
    run of its code here.  What the functions compute is in the other files; there, the
    state is passed on without a check, which the theorem at the end of this file
    justifies.  The cells of [tako] and those of the tests are outside. *)

From S2P Require Import Prelude Cells.

(** One step after the other, and one of several alternatives or none. *)
Definition steps (l : list Code) : Code := foldr Then Nothing l.
Definition cases (l : list Code) : Code := foldr Either Nothing l.

(** A loop that awaits its next item, and ends when there is none or after a [break]. *)
Definition receive_each (body : Code) : Code := steps [Repeat (steps [Await; body]); cases [Await]].

(** ** The server *)

(** The cells of the server: [StateRef], the [AutoAllocState] in it, and the [Inner] of
    the [Backend]. *)
Definition state_ref : WrappedRcRefCell := {| inner := 0 |}.
Definition autoalloc_ref : WrappedRcRefCell := {| inner := 1 |}.
Definition tako_ref : WrappedRcRefCell := {| inner := 2 |}.

Definition borrow (cell : WrappedRcRefCell) : Code := With false cell Nothing.
Definition borrow_mut (cell : WrappedRcRefCell) : Code := With true cell Nothing.

(** *** [src/server/rpc.rs], [src/server/job.rs] and [src/server/state.rs] *)

(** [Backend::send_tako_message], [send_stream_control] and [worker_port] *)
Definition send_tako_message_borrows : Code := steps [borrow_mut tako_ref; Await].
Definition send_stream_control_borrows : Code := borrow tako_ref.
Definition worker_port_borrows : Code := borrow tako_ref.

(** [Job::check_termination] *)
Definition check_termination_borrows : Code := cases [send_stream_control_borrows].

(** [Job::set_finished_state], [set_failed_state] and [set_cancel_state] *)
Definition set_end_state_borrows : Code := check_termination_borrows.

(** [cancel_tasks_from_callback] *)
Definition cancel_tasks_borrows : Code :=
  cases [Spawn (steps [send_tako_message_borrows;
                       cases [With true state_ref (Repeat set_end_state_borrows)]])].

(** [State::process_task_update] and [process_task_failed], on a borrowed state *)
Definition process_task_update_borrows : Code := cases [set_end_state_borrows].
Definition process_task_failed_borrows : Code := steps [set_end_state_borrows; cases [cancel_tasks_borrows]].

(** [tako_msg_reader] and [tako_msg_sender] of [Backend::start] *)
Definition tako_msg_reader_borrows : Code :=
  receive_each (cases [With true state_ref process_task_update_borrows;
                       With true state_ref process_task_failed_borrows;
                       borrow_mut state_ref;   (* process_worker_new *)
                       borrow_mut state_ref;   (* process_worker_lost *)
                       borrow_mut tako_ref]).
Definition tako_msg_sender_borrows : Code := receive_each Await.

(** *** [src/server/client.rs] *)

Definition handle_worker_stop_borrows : Code :=
  steps [cases [borrow state_ref];
         Repeat (steps [borrow state_ref; cases [send_tako_message_borrows]])].

Definition compute_job_detail_borrows : Code := With false state_ref (cases [borrow state_ref]).

Definition compose_server_stats_borrows : Code := steps [send_stream_control_borrows; Await].

Definition compute_job_info_borrows : Code := borrow state_ref.

Definition handle_job_cancel_borrows : Code :=
  steps [cases [borrow state_ref];
         Repeat (steps [borrow state_ref;
           cases [steps [send_tako_message_borrows;
             cases [With true state_ref (Repeat set_end_state_borrows)]]]])].

Definition handle_submit_borrows : Code :=
  cases [steps [borrow_mut state_ref; cases [steps [send_stream_control_borrows; Await]];
                send_tako_message_borrows]].

Definition handle_resubmit_borrows : Code := steps [borrow_mut state_ref; cases [handle_submit_borrows]].

Definition handle_worker_list_borrows : Code := borrow state_ref.
Definition handle_worker_info_borrows : Code := borrow state_ref.

(** The [match] of [client_rpc_loop], and the loop *)
Definition request_borrows : Code :=
  cases [handle_submit_borrows; compute_job_info_borrows; handle_resubmit_borrows; handle_worker_list_borrows;
         handle_worker_info_borrows; handle_worker_stop_borrows; handle_job_cancel_borrows;
         compute_job_detail_borrows; compose_server_stats_borrows].
Definition client_rpc_loop_borrows : Code := receive_each (steps [request_borrows; cases [Await]]).

Definition handle_client_borrows : Code := steps [Await; cases [client_rpc_loop_borrows]].
Definition handle_client_connections_borrows : Code := receive_each (Spawn handle_client_borrows).

(** *** [src/server/autoalloc/process.rs] *)

Section autoalloc.
(** The cell of a queue. *)
Context (queue : WrappedRcRefCell).

Definition refresh_allocations_borrows : Code :=
  steps [borrow_mut autoalloc_ref;
         Repeat (steps [borrow autoalloc_ref; cases [steps [With false queue Await; borrow_mut autoalloc_ref]]])].

Definition schedule_new_allocations_borrows : Code :=
  steps [With false autoalloc_ref (cases [borrow queue]);
         Repeat (steps [borrow autoalloc_ref; cases [steps [With false queue Await; borrow_mut autoalloc_ref]]])].

Definition process_descriptor_borrows : Code :=
  steps [refresh_allocations_borrows; schedule_new_allocations_borrows].
End autoalloc.

Section server.
(** The cells of the queues. *)
Context (queues : list WrappedRcRefCell).

Definition autoalloc_tick_borrows : Code :=
  steps [borrow state_ref; borrow autoalloc_ref; Repeat (cases (process_descriptor_borrows <$> queues))].

Definition autoalloc_process_borrows : Code :=
  steps [With false state_ref (borrow autoalloc_ref); Repeat (steps [Await; autoalloc_tick_borrows])].

(** [initialize_server] of [src/server/bootstrap.rs]; the branches of its [select] *)
Definition initialize_server_borrows : Code :=
  steps [Await; worker_port_borrows; Spawn handle_client_connections_borrows; Spawn autoalloc_process_borrows;
         Spawn tako_msg_reader_borrows; Spawn tako_msg_sender_borrows].
End server.

(** ** The stream server, a thread of its own: [src/stream/server/rpc.rs] *)

(** The cell [StreamServerStateRef] *)
Definition stream_state_ref : WrappedRcRefCell := {| inner := 0 |}.

(** The task that [StreamServerStateRef::get_stream] spawns: the writes to the file, the
    error state, and the end *)
Definition writer_task_borrows : Code := steps [Repeat Await; cases [receive_each Nothing]; borrow_mut stream_state_ref].

(** [StreamServerStateRef::get_stream] *)
Definition get_log_stream_borrows : Code := With true stream_state_ref (cases [Spawn writer_task_borrows]).

(** [handle_connection]: the registration, the two loops of the [select], and the
    closing of streams *)
Definition handle_connection_borrows : Code :=
  steps [Await; cases [steps [get_log_stream_borrows; Repeat Await; Repeat Await]]].

(** [stream_server_main] *)
Definition stream_server_main_borrows : Code :=
  receive_each (cases [borrow_mut stream_state_ref;   (* RegisterStream *)
                       borrow_mut stream_state_ref;   (* UnregisterStream *)
                       Spawn (steps [borrow_mut stream_state_ref; handle_connection_borrows;
                                     borrow_mut stream_state_ref]);
                       borrow stream_state_ref]).     (* Stats *)

(** ** The worker *)

(** The cell [StreamerRef] of a worker *)
Definition streamer_ref : WrappedRcRefCell := {| inner := 0 |}.

(** *** [src/worker/streamer.rs] *)

(** A round of [stream_receiver], and of [send_loop] *)
Definition stream_receiver_borrows : Code := steps [Await; cases [borrow_mut streamer_ref]].
Definition send_loop_borrows : Code := steps [Await; cases [Await]].

(** The task that [Streamer::get_stream] spawns, on its way through the three sends of
    the start; it ends at the first one that fails *)
Definition connection_task_borrows : Code :=
  let failed := borrow_mut streamer_ref in
  steps [borrow streamer_ref; Await;
         Either failed (steps [Await;
           Either failed (steps [Await;
             Either failed (steps [Repeat (Either send_loop_borrows stream_receiver_borrows);
                                   borrow_mut streamer_ref])])])].

Definition get_stream_borrows : Code := cases [Spawn connection_task_borrows].

(** The future of [StreamerRef::start] *)
Definition clean_streams_borrows : Code := Repeat (steps [Await; borrow_mut streamer_ref]).

(** *** [src/worker/start.rs] *)

(** [run_task]: the stream of the task; its futures borrow nothing *)
Definition run_task_borrows : Code :=
  cases [Await; steps [With true streamer_ref get_stream_borrows; Repeat Await]].

(** The tasks that [tako] starts with [launcher] *)
Definition launchers_borrows : Code := Repeat (steps [Await; Spawn run_task_borrows]).

(** ** The processes *)

(** Cells that are not borrowed. *)
Definition fresh_cells (cells : list WrappedRcRefCell) : Heap unit :=
  list_to_map ((fun c => (inner c, {| rc_strong := 1; rc_flag := Reading 0; rc_value := tt |})) <$> cells).

Definition process (cells : list WrappedRcRefCell) (codes : list Code) : Machine :=
  {| heap := fresh_cells cells; current := []; waiting := (fun c => [Run c]) <$> codes |}.

Definition server_cells : list WrappedRcRefCell := [state_ref; autoalloc_ref; tako_ref].

Definition server_process (queues : list WrappedRcRefCell) : Machine :=
  process (server_cells ++ queues) [initialize_server_borrows queues].

Definition worker_process : Machine :=
  process [streamer_ref] [clean_streams_borrows; launchers_borrows].

Definition stream_server_process : Machine := process [stream_state_ref] [stream_server_main_borrows].

(** However the tasks of a process are interleaved, no borrow fails, and while no task
    runs the given cells are not borrowed. *)
Definition never_conflicts (start : Machine) (cells : list WrappedRcRefCell) : Prop :=
  forall ds, exists m, machine_run start ds = Ret m /\
    (current m = [] -> forall c, c ∈ cells -> exists b, heap m !! inner c = Some b /\ rc_flag b = Reading 0).

(** ** Lemmas *)

Lemma fresh_cells_lookup cells cell :
  member cell cells = true -> exists b, fresh_cells cells !! inner cell = Some b /\ rc_flag b = Reading 0.
Proof.
  intros Hc%member_spec. unfold fresh_cells. induction cells as [|c cells IH]; [by apply elem_of_nil in Hc|].
  csimpl. destruct (decide (inner c = inner cell)) as [->|Hne].
  - rewrite lookup_insert_eq. eauto.
  - rewrite lookup_insert_ne by done. apply IH. apply elem_of_cons in Hc as [->|Hc]; done.
Qed.

(** A process whose code passes the check never fails to borrow, and while no task runs,
    no cell that some code writes is borrowed. *)
Lemma process_runs cells mutated codes :
  forallb (check cells mutated []) codes = true -> (forall c, c ∈ mutated -> c ∈ cells) ->
  never_conflicts (process cells codes) mutated.
Proof.
  intros Hc Hsub ds.
  destruct (machine_run_ok cells mutated (process cells codes) ds) as (m & Hr & [Ho _ Hw]).
  { apply machine_start_ok; [apply fresh_cells_lookup|]. apply Forall_forall. intros c Hin.
    rewrite forallb_forall in Hc. by apply Hc, list_elem_of_In. }
  exists m. split; [done|]. intros Hm c Hmut. rewrite Hm in Ho.
  destruct (Ho c) as (b & Hb & Hf); [by apply member_spec, Hsub|]. exists b. split; [done|].
  change (guards_of ([] :: waiting m)) with (guards_of (waiting m)) in Hf.
  destruct (waiting_counts cells mutated (waiting m) c Hw) as [Hw0 Hr0].
  destruct (rc_flag b) as [n|]; simpl in Hf; [|lia].
  rewrite Hr0 in Hf by by apply member_spec. f_equal. lia.
Qed.

Lemma check_cases cells mutated held l :
  check cells mutated held (cases l) = forallb (check cells mutated held) l.
Proof. induction l as [|c l IH]; simpl; [done|]. by rewrite <- IH. Qed.

Lemma check_steps cells mutated held l :
  check cells mutated held (steps l) = forallb (check cells mutated held) l.
Proof. induction l as [|c l IH]; simpl; [done|]. by rewrite <- IH. Qed.

Lemma member_app c l k : member c (l ++ k) = member c l || member c k.
Proof. apply existsb_app. Qed.

(** The loops over a queue borrow the cell of the queue only to read it. *)
Lemma process_descriptor_check queues q :
  q ∈ queues -> q ∉ server_cells ->
  check (server_cells ++ queues) server_cells [] (process_descriptor_borrows q) = true.
Proof.
  intros Hq Hn. assert (Hc : member q (server_cells ++ queues) = true).
  { rewrite member_app. apply orb_true_iff. right. by apply member_spec. }
  assert (Hm : member q server_cells = false) by (apply not_true_iff_false; by rewrite member_spec).
  assert (Ha : eq autoalloc_ref q = false) by (apply not_true_iff_false; rewrite eq_spec; set_solver).
  set (cells := server_cells ++ queues) in *.
  assert (Haa : member autoalloc_ref cells = true) by done.
  unfold process_descriptor_borrows, refresh_allocations_borrows, schedule_new_allocations_borrows, borrow, borrow_mut.
  cbn [steps cases foldr check existsb forallb]. unfold may_wait, writes, on_cell. cbn [fst snd].
  rewrite Hc, Hm, Haa. cbn. done.
Qed.

Lemma autoalloc_check queues :
  Forall (fun q => q ∉ server_cells) queues ->
  check (server_cells ++ queues) server_cells [] (autoalloc_process_borrows queues) = true.
Proof.
  intros Hq. assert (Hp : check (server_cells ++ queues) server_cells []
    (Repeat (cases (process_descriptor_borrows <$> queues))) = true).
  { cbn [check]. rewrite check_cases. apply forallb_forall. intros c Hc%list_elem_of_In.
    apply list_elem_of_fmap in Hc as (q & -> & Hin). apply process_descriptor_check; [done|].
    rewrite Forall_forall in Hq. auto. }
  unfold autoalloc_process_borrows. rewrite check_steps. cbn [forallb]. rewrite andb_true_r.
  apply andb_true_iff. split; [done|]. change (check (server_cells ++ queues) server_cells []
    (steps [Await; autoalloc_tick_borrows queues]) = true).
  rewrite check_steps. cbn [forallb]. rewrite andb_true_r. unfold autoalloc_tick_borrows.
  rewrite check_steps. cbn [forallb]. by rewrite Hp.
Qed.

Lemma server_check queues :
  Forall (fun q => q ∉ server_cells) queues ->
  check (server_cells ++ queues) server_cells [] (initialize_server_borrows queues) = true.
Proof.
  intros Hq%autoalloc_check. unfold initialize_server_borrows. rewrite check_steps. cbn [forallb].
  change (check (server_cells ++ queues) server_cells [] (Spawn (autoalloc_process_borrows queues)))
    with (check (server_cells ++ queues) server_cells [] (autoalloc_process_borrows queues)).
  by rewrite Hq.
Qed.

(** ** The theorem *)

(** C19: the borrows of [WrappedRcRefCell] never fail: whatever requests, answers of
    [tako], queues, connections and data there are, and in whatever order the tasks of
    the server, of its stream server and of a worker run, no [get] and no [get_mut]
    panics.  While no task runs, that is at every await, the state of the server, of its
    allocation and of its backend, that of the stream server, and the streamer of the
    worker are not borrowed; only the queues of the allocation may be. *)
Theorem borrows_never_conflict queues :
  Forall (fun q => q ∉ server_cells) queues ->
  never_conflicts (server_process queues) server_cells /\
  never_conflicts stream_server_process [stream_state_ref] /\
  never_conflicts worker_process [streamer_ref].
Proof.
  intros Hq. split_and!; apply process_runs; try done; [|set_solver].
  cbn [forallb]. by rewrite server_check.
Qed.
