(* ===== verification/Wait.v ===== *)
(** * Waiting for jobs: [src/client/commands/wait.rs]

    The polling loop of [hq job wait] and [hq submit --wait], and the progress
    bar of [src/client/utils.rs].  The answers of the server are an argument:
    [rpc k] is the answer to the [k]-th request.  The loop has the number of
    rounds as fuel; [None] means that it still waits. *)

From S2P Require Import Prelude ArrayDef Messages Job Nom Status.

(** ** The progress line *)

Section progress.
(** Terminal colours (crate [colored]) and the number of characters of a count,
    [(count as f64 / n_tasks as f64 * width as f64).ceil() as usize]. *)
Context (Color : Type) (color : Color -> string -> string).
Context (MAGENTA RED GREEN YELLOW : Color) (chars : Z -> nat).

Fixpoint repeat_char (c : ascii) (n : nat) : string :=
  match n with
  | O => ""
  | S n => String c (repeat_char c n)
  end.

(** The loop of [job_progress_bar]: the buffer and [total_char_count]. *)
Fixpoint bar_loop (width : nat) (buffer : string) (total : nat) (parts : list (Z * Color)) :
    string * nat :=
  match parts with
  | [] => (buffer, total)
  | (count, col) :: parts' =>
      let char_count := Nat.min (width - total) (chars count) in
      bar_loop width (buffer +:+ color col (repeat_char "#" char_count)) (total + char_count) parts'
  end.

(** [job_progress_bar] *)
Definition job_progress_bar (counters : JobTaskCounters) (width : nat) : string :=
  let '(buffer, total) := bar_loop width "[" 0
    [(n_canceled_tasks counters, MAGENTA); (n_failed_tasks counters, RED);
     (n_finished_tasks counters, GREEN); (n_running_tasks counters, YELLOW)] in
  buffer +:+ repeat_char "." (width - total) +:+ "]".

(** The closure [add_count]. *)
Definition add_count (count : Z) (name : string) (col : Color) (statuses : list string) :
    list string :=
  if count >? 0 then statuses ++ [to_string count +:+ " " +:+ color col name] else statuses.

(** The status part of the progress line. *)
Definition status_text (c : JobTaskCounters) : string :=
  let statuses := add_count (n_running_tasks c) "RUNNING" YELLOW [] in
  let statuses := add_count (n_finished_tasks c) "FINISHED" GREEN statuses in
  let statuses := add_count (n_failed_tasks c) "FAILED" RED statuses in
  let statuses := add_count (n_canceled_tasks c) "CANCELED" MAGENTA statuses in
  match statuses with
  | [] => ""
  | _ => "(" +:+ String.concat ", " statuses +:+ ")"
  end.

End progress.

(** Without colours the bar always has [width] characters between the brackets. *)
Lemma length_repeat_char c n : String.length (repeat_char c n) = n.
Proof. induction n; simpl; auto. Qed.

Lemma bar_loop_length Color chars width parts buffer total :
  (total <= width)%nat -> String.length buffer = S total ->
  let '(b, t) := bar_loop Color (fun _ s => s) chars width buffer total parts in
  (t <= width)%nat /\ String.length b = S t.
Proof.
  revert buffer total. induction parts as [|[count col] parts IH]; intros buffer total Ht Hb; simpl.
  - done.
  - apply IH; [lia|]. rewrite length_app_str, length_repeat_char. lia.
Qed.

Lemma job_progress_bar_length Color m r g y chars counters width :
  String.length (job_progress_bar Color (fun _ s => s) m r g y chars counters width)
    = (width + 2)%nat.
Proof.
  unfold job_progress_bar.
  pose proof (bar_loop_length Color chars width [(n_canceled_tasks counters, m);
    (n_failed_tasks counters, r); (n_finished_tasks counters, g); (n_running_tasks counters, y)]
    "[" 0 ltac:(lia) eq_refl) as Hb.
  destruct (bar_loop _ _ _ _ _ _ _) as [b t]. destruct Hb as [Ht Hb].
  rewrite !length_app_str, length_repeat_char, Hb. simpl. lia.
Qed.

(** ** The loop *)

Section wait.
Context `{Profile} `{Tako}.

(** The numbers of the progress line: completed and all jobs, completed and all
    tasks. *)
Record Progress := {
  pr_jobs : Z * Z;
  pr_tasks : Z * Z;
  pr_counters : JobTaskCounters
}.

(** The state of the loop of [wait_for_jobs]: [remaining_job_ids], [counters]
    and the progress lines printed so far. *)
Record WaitState := {
  wt_remaining : gset Z;
  wt_counters : JobTaskCounters;
  wt_lines : list Progress
}.

(** One iteration of the loop over the jobs of a response:
    [remaining_job_ids], [counters] and [current_counters]. *)
Definition wait_job (st : gset Z * JobTaskCounters * JobTaskCounters) (job : JobInfo) :
    outcome (gset Z * JobTaskCounters * JobTaskCounters) :=
  let '(remaining, counters, current) := st in
  current ← counters_add current (ji_counters job);
  t ← info_is_terminated job;
  if (t : bool) then
    counters ← counters_add counters (ji_counters job);
    Ret (remaining ∖ {[ji_id job]}, counters, current)
  else Ret (remaining, counters, current).

(** A round of the loop after the answer [jobs] arrived. *)
Definition wait_round (total_jobs total_tasks : Z) (w : WaitState) (jobs : list JobInfo) :
    outcome WaitState :=
  st ← foldM wait_job (wt_remaining w, wt_counters w, wt_counters w) jobs;
  let '(remaining, counters, current) := st in
  completed_jobs ← u64_sub total_jobs (Z.of_nat (size remaining));
  a ← u32_add (n_finished_tasks current) (n_canceled_tasks current);
  completed_tasks ← u32_add a (n_failed_tasks current);
  Ret {| wt_remaining := remaining; wt_counters := counters;
         wt_lines := wt_lines w ++ [{| pr_jobs := (completed_jobs, total_jobs);
           pr_tasks := (completed_tasks, total_tasks); pr_counters := current |}] |}.

(** The answers of the server: the jobs, or the error of [rpc_call!]. *)
Context (rpc : nat -> Selector -> result string (list JobInfo)).

(** The [loop] of [wait_for_jobs], from the [k]-th request on. *)
Fixpoint wait_loop (fuel : nat) (total_jobs total_tasks : Z) (k : nat) (w : WaitState) :
    option (outcome (result string WaitState)) :=
  match fuel with
  | O => None
  | S fuel =>
      match from_ids (elements (wt_remaining w)) with
      | Panic p => Some (Panic p)
      | Ret ids =>
          match rpc k (SelSpecific ids) with
          | Err e => Some (Ret (Err e))
          | Ok jobs =>
              match wait_round total_jobs total_tasks w jobs with
              | Panic p => Some (Panic p)
              | Ret w =>
                  if decide (wt_remaining w = ∅) then Some (Ret (Ok w))
                  else wait_loop fuel total_jobs total_tasks (S k) w
              end
          end
      end
  end.

(** The end of [wait_for_jobs]. *)
Definition verdict (counters : JobTaskCounters) : result string unit :=
  if n_failed_tasks counters >? 0 then Err "Some jobs have failed"
  else if n_canceled_tasks counters >? 0 then Err "Some jobs were canceled"
  else Ok tt.

(** [jobs.retain(|info| !is_terminated(info))] *)
Fixpoint retain_running (jobs : list JobInfo) : outcome (list JobInfo) :=
  match jobs with
  | [] => Ret []
  | info :: jobs' =>
      t ← info_is_terminated info;
      rest ← retain_running jobs';
      Ret (if (t : bool) then rest else info :: rest)
  end.

(** [wait_for_jobs], from the [k]-th request on *)
Definition wait_for_jobs (fuel k : nat) (jobs : list JobInfo) :
    option (outcome (result string unit)) :=
  match retain_running jobs with
  | Panic p => Some (Panic p)
  | Ret [] => Some (Ret (Ok tt))
  | Ret jobs =>
      match u32_sum (ji_n_tasks <$> jobs) with
      | Panic p => Some (Panic p)
      | Ret total_tasks =>
          let remaining : gset Z := list_to_set (ji_id <$> jobs) in
          match wait_loop fuel (Z.of_nat (size remaining)) total_tasks k
                  {| wt_remaining := remaining; wt_counters := counters_default; wt_lines := [] |}
          with
          | Some (Ret (Ok w)) => Some (Ret (verdict (wt_counters w)))
          | Some (Ret (Err e)) => Some (Ret (Err e))
          | Some (Panic p) => Some (Panic p)
          | None => None
          end
      end
  end.

(** [wait_for_job_with_info] *)
Definition wait_for_job_with_info (fuel : nat) (job_info : JobInfo) :
    option (outcome (result string unit)) := wait_for_jobs fuel 0 [job_info].

(** [wait_for_job_with_selector] *)
Definition wait_for_job_with_selector (fuel : nat) (selector : Selector) :
    option (outcome (result string unit)) :=
  match rpc 0 selector with
  | Err e => Some (Ret (Err e))
  | Ok jobs => wait_for_jobs fuel 1 jobs
  end.

End wait.

(** ** Exact counting *)

(** Addition of counters without overflow. *)
Definition cplus (a b : JobTaskCounters) : JobTaskCounters :=
  {| n_running_tasks := n_running_tasks a + n_running_tasks b;
     n_finished_tasks := n_finished_tasks a + n_finished_tasks b;
     n_failed_tasks := n_failed_tasks a + n_failed_tasks b;
     n_canceled_tasks := n_canceled_tasks a + n_canceled_tasks b |}.

Fixpoint csum (l : list JobTaskCounters) : JobTaskCounters :=
  match l with
  | [] => counters_default
  | c :: l' => cplus c (csum l')
  end.

(** All tasks that are counted. *)
Definition ctotal (c : JobTaskCounters) : Z :=
  n_running_tasks c + n_finished_tasks c + n_failed_tasks c + n_canceled_tasks c.

Definition counters_nonneg (c : JobTaskCounters) : Prop :=
  0 <= n_running_tasks c /\ 0 <= n_finished_tasks c /\ 0 <= n_failed_tasks c /\
  0 <= n_canceled_tasks c.

Lemma cplus_assoc a b c : cplus a (cplus b c) = cplus (cplus a b) c.
Proof. unfold cplus. simpl. f_equal; lia. Qed.

Lemma cplus_comm a b : cplus a b = cplus b a.
Proof. unfold cplus. f_equal; lia. Qed.

Lemma cplus_default c : cplus c counters_default = c.
Proof. destruct c. unfold cplus. simpl. f_equal; lia. Qed.

Lemma csum_app l1 l2 : csum (l1 ++ l2) = cplus (csum l1) (csum l2).
Proof.
  induction l1 as [|c l1 IH]; simpl.
  - by rewrite cplus_comm, cplus_default.
  - by rewrite IH, cplus_assoc.
Qed.

#[global] Instance csum_perm : Proper ((≡ₚ) ==> eq) csum.
Proof.
  induction 1 as [|c l1 l2 _ IH|a b l|? ? ? _ IH1 _ IH2]; simpl; [done|by rewrite IH| |congruence].
  rewrite !cplus_assoc. by rewrite (cplus_comm a b).
Qed.

Lemma csum_nonneg l : Forall counters_nonneg l -> counters_nonneg (csum l).
Proof.
  unfold counters_nonneg. induction 1 as [|c l Hc _ IH]; simpl; [done|]. lia.
Qed.

Section exact.
Context `{Profile} `{Tako}.

Lemma counters_add_exact a b :
  counters_nonneg a -> counters_nonneg b -> ctotal a + ctotal b < 2 ^ 32 ->
  counters_add a b = Ret (cplus a b).
Proof.
  unfold counters_nonneg, ctotal, counters_add. intros.
  by rewrite !u32_add_exact by lia.
Qed.

(** The description of a job counts at most its tasks. *)
Definition info_wf (i : JobInfo) : Prop :=
  counters_nonneg (ji_counters i) /\ ctotal (ji_counters i) <= ji_n_tasks i < 2 ^ 32.

(** No task runs or waits. *)
Definition ended (i : JobInfo) : bool :=
  (n_running_tasks (ji_counters i) =? 0) && (ctotal (ji_counters i) =? ji_n_tasks i).

Lemma info_is_terminated_wf i : info_wf i -> info_is_terminated i = Ret (ended i).
Proof.
  unfold info_wf, counters_nonneg, ctotal, ended. intros [? ?]. unfold info_is_terminated.
  destruct (Z.eqb_spec (n_running_tasks (ji_counters i)) 0) as [Hr|]; [|done]. simpl.
  unfold n_waiting_tasks. rewrite u32_sub_exact by lia. simpl. rewrite u32_sub_exact by lia. simpl.
  rewrite u32_sub_exact by lia. simpl. rewrite u32_sub_exact by lia. simpl. f_equal.
  unfold ctotal. rewrite Hr. apply Bool.eq_iff_eq_true. rewrite !Z.eqb_eq. lia.
Qed.

Lemma retain_running_wf l :
  Forall info_wf l -> retain_running l = Ret (List.filter (fun i => negb (ended i)) l).
Proof.
  induction 1 as [|i l Hi _ IH]; simpl; [done|].
  rewrite info_is_terminated_wf by done. simpl. rewrite IH. simpl. by destruct (ended i).
Qed.

End exact.

(** ** Rounds *)

Section rounds.
Context `{Profile} `{Tako}.

(** The jobs as the server describes them at the [k]-th request; the number of
    tasks of a job does not change. *)
Context (snap : nat -> Z -> JobInfo) (n_tasks_of : Z -> Z).
Context (snap_wf : forall k id, info_wf (snap k id)).
Context (snap_id : forall k id, ji_id (snap k id) = id).
Context (snap_tasks : forall k id, ji_n_tasks (snap k id) = n_tasks_of id).

Definition counters_at (k : nat) (id : Z) : JobTaskCounters := ji_counters (snap k id).
Definition ended_at (k : nat) (id : Z) : bool := ended (snap k id).

(** The first request, from the [k]-th on, at which the job has ended. *)
Fixpoint first_ended (fuel k : nat) (id : Z) : nat :=
  match fuel with
  | O => k
  | S fuel => if ended_at k id then k else first_ended fuel (S k) id
  end.

Lemma n_tasks_of_nonneg id : 0 <= n_tasks_of id.
Proof.
  rewrite <- (snap_tasks 0 id). destruct (snap_wf 0 id) as [Hc Ht].
  unfold counters_nonneg, ctotal in *. lia.
Qed.

Lemma ctotal_counters_at k id : counters_nonneg (counters_at k id) /\
  0 <= ctotal (counters_at k id) <= n_tasks_of id.
Proof.
  rewrite <- (snap_tasks k id). destruct (snap_wf k id) as [Hc Ht].
  unfold counters_at. split; [done|]. unfold counters_nonneg, ctotal in *. lia.
Qed.

Lemma wait_job_fold k l R C cur :
  counters_nonneg C -> counters_nonneg cur ->
  ctotal C + sumZ (n_tasks_of <$> l) < 2 ^ 32 -> ctotal cur + sumZ (n_tasks_of <$> l) < 2 ^ 32 ->
  foldM wait_job (R, C, cur) (snap k <$> l) =
  Ret (R ∖ list_to_set (List.filter (ended_at k) l),
       cplus C (csum (counters_at k <$> List.filter (ended_at k) l)),
       cplus cur (csum (counters_at k <$> l))).
Proof.
  revert R C cur. induction l as [|id l IH]; intros R C cur HC Hcur HCt Hcurt; csimpl.
  - rewrite !cplus_default. do 3 f_equal. set_solver.
  - csimpl in HCt. csimpl in Hcurt.
    assert (0 <= sumZ (n_tasks_of <$> l)).
    { apply sumZ_nonneg, Forall_fmap, Forall_forall. intros ? _. apply n_tasks_of_nonneg. }
    destruct (ctotal_counters_at k id) as [Hn Ht].
    change (ji_counters (snap k id)) with (counters_at k id).
    rewrite (counters_add_exact cur) by (done || lia). csimpl.
    rewrite info_is_terminated_wf by done. csimpl. change (ended (snap k id)) with (ended_at k id).
    assert (Hplus : forall a b, counters_nonneg a -> counters_nonneg b -> counters_nonneg (cplus a b)
      /\ ctotal (cplus a b) = ctotal a + ctotal b)
      by (unfold counters_nonneg, ctotal; simpl; lia).
    destruct (Hplus cur (counters_at k id) Hcur Hn) as [? ?].
    destruct (Hplus C (counters_at k id) HC Hn) as [? ?].
    destruct (ended_at k id); csimpl.
    + rewrite (counters_add_exact C) by (done || lia). csimpl.
      rewrite IH by (done || lia). rewrite snap_id, !cplus_assoc. do 3 f_equal. set_solver.
    + rewrite IH by (done || lia). by rewrite !cplus_assoc.
Qed.

Lemma List_filter_perm {A} (p : A -> bool) l1 l2 :
  l1 ≡ₚ l2 -> List.filter p l1 ≡ₚ List.filter p l2.
Proof.
  induction 1 as [|x l1 l2 _ IH|x y l|l1 l2 l3 _ IH1 _ IH2]; simpl; [done|..].
  - destruct (p x); [by constructor|done].
  - destruct (p x), (p y); (apply perm_swap || done).
  - by etransitivity.
Qed.

Lemma filter_split {A} (p : A -> bool) l :
  l ≡ₚ List.filter p l ++ List.filter (fun x => negb (p x)) l.
Proof.
  induction l as [|x l IH]; simpl; [done|]. destruct (p x); simpl; [by rewrite IH at 1|].
  rewrite IH at 1. apply Permutation_middle.
Qed.

Lemma elements_remaining k R l :
  l ≡ₚ elements R ->
  elements (R ∖ list_to_set (List.filter (ended_at k) l) : gset Z)
    ≡ₚ List.filter (fun id => negb (ended_at k id)) l.
Proof.
  intros Hl. assert (Hnd : NoDup l) by (rewrite Hl; apply NoDup_elements).
  apply NoDup_Permutation.
  - apply NoDup_elements.
  - rewrite (filter_split (ended_at k) l) in Hnd. by apply NoDup_app in Hnd as (_ & _ & ?).
  - intros x. rewrite elem_of_elements, elem_of_difference, elem_of_list_to_set.
    rewrite !list_elem_of_In, !filter_In, <- !list_elem_of_In, Hl, elem_of_elements.
    destruct (ended_at k x); simpl; naive_solver.
Qed.

Context (rpc : nat -> Selector -> result string (list JobInfo)).
(** The jobs that exist at the first request. *)
Context (known : Z -> Prop).
Context (rpc_specific : forall k a, (1 <= k)%nat -> array_wf a -> Forall known (array_ids a) ->
  rpc k (SelSpecific a) = Ok (snap k <$> array_ids a)).

(** A round never panics and removes the ended jobs. *)
Lemma wait_round_spec total_jobs total_tasks k w l :
  l ≡ₚ elements (wt_remaining w) ->
  counters_nonneg (wt_counters w) -> ctotal (wt_counters w) + sumZ (n_tasks_of <$> l) < 2 ^ 32 ->
  Z.of_nat (size (wt_remaining w)) <= total_jobs < 2 ^ 64 ->
  exists lines, wait_round total_jobs total_tasks w (snap k <$> l) =
    Ret {| wt_remaining := wt_remaining w ∖ list_to_set (List.filter (ended_at k) l);
           wt_counters := cplus (wt_counters w)
             (csum (counters_at k <$> List.filter (ended_at k) l));
           wt_lines := lines |}.
Proof.
  intros Hl Hc Ht Hjobs. unfold wait_round. rewrite wait_job_fold by done. simpl.
  set (R := wt_remaining w ∖ _).
  assert (size R <= size (wt_remaining w))%nat by (apply subseteq_size; set_solver).
  unfold u64_sub. rewrite arith_exact by lia. simpl.
  assert (Hsum : counters_nonneg (csum (counters_at k <$> l)) /\
    ctotal (csum (counters_at k <$> l)) <= sumZ (n_tasks_of <$> l)).
  { clear - snap_wf snap_tasks. induction l as [|id l [IH1 IH2]]; csimpl; [done|].
    destruct (ctotal_counters_at k id). unfold counters_nonneg, ctotal in *. simpl. lia. }
  unfold counters_nonneg, ctotal in *. rewrite u32_add_exact by (simpl; lia). simpl.
  rewrite u32_add_exact by (simpl; lia). simpl. by eexists.
Qed.

(** ** The loop *)

Lemma first_ended_here n k id : ended_at k id = true -> first_ended (S n) k id = k.
Proof. simpl. by intros ->. Qed.

Lemma first_ended_later n k id :
  ended_at k id = false -> first_ended (S n) k id = first_ended n (S k) id.
Proof. simpl. by intros ->. Qed.

(** A job that is ended after [n] requests is found ended until then. *)
Lemma first_ended_spec n k id :
  ended_at (k + n) id = true ->
  exists d, (d <= n)%nat /\ first_ended (S n) k id = (k + d)%nat /\ ended_at (k + d) id = true.
Proof.
  revert k. induction n as [|n IH]; intros k He.
  - exists 0%nat. rewrite Nat.add_0_r in *. by rewrite first_ended_here.
  - destruct (ended_at k id) eqn:Hk.
    + exists 0%nat. rewrite Nat.add_0_r, first_ended_here by done. split; [lia|done].
    + rewrite first_ended_later by done. destruct (IH (S k)) as (d & ? & -> & Hd).
      { by replace (S k + n)%nat with (k + S n)%nat by lia. }
      exists (S d). replace (k + S d)%nat with (S k + d)%nat by lia. split; [lia|done].
Qed.

(** The state in which the loop can go on: nothing can overflow. *)
Definition loop_ok (total_jobs : Z) (w : WaitState) : Prop :=
  Forall (fun id => small_id id /\ known id) (elements (wt_remaining w)) /\ counters_nonneg (wt_counters w) /\
  ctotal (wt_counters w) + sumZ (n_tasks_of <$> elements (wt_remaining w)) < 2 ^ 32 /\
  Z.of_nat (size (wt_remaining w)) <= total_jobs < 2 ^ 32.

Lemma sum_tasks_filter p l :
  sumZ (n_tasks_of <$> List.filter p l) <= sumZ (n_tasks_of <$> l).
Proof.
  induction l as [|id l IH]; csimpl; [done|]. pose proof (n_tasks_of_nonneg id).
  destruct (p id); csimpl; lia.
Qed.

Lemma ended_sum k l :
  let c := csum (counters_at k <$> List.filter (ended_at k) l) in
  counters_nonneg c /\
  ctotal c + sumZ (n_tasks_of <$> List.filter (fun id => negb (ended_at k id)) l)
    <= sumZ (n_tasks_of <$> l).
Proof.
  induction l as [|id l [IH1 IH2]]; csimpl; [done|].
  destruct (ctotal_counters_at k id) as [Hn Ht].
  destruct (ended_at k id); csimpl; unfold counters_nonneg, ctotal in *; simpl; lia.
Qed.

(** One round of the loop. *)
Lemma wait_loop_round fuel total_jobs total_tasks k w :
  (1 <= k)%nat -> loop_ok total_jobs w ->
  exists w', loop_ok total_jobs w' /\
    wt_counters w' = cplus (wt_counters w)
      (csum (counters_at k <$> List.filter (ended_at k) (elements (wt_remaining w)))) /\
    elements (wt_remaining w')
      ≡ₚ List.filter (fun id => negb (ended_at k id)) (elements (wt_remaining w)) /\
    wait_loop rpc (S fuel) total_jobs total_tasks k w =
      if decide (wt_remaining w' = ∅) then Some (Ret (Ok w'))
      else wait_loop rpc fuel total_jobs total_tasks (S k) w'.
Proof.
  intros Hk (Hsmall & Hc & Ht & Hjobs). set (R := wt_remaining w) in *.
  assert (Hlen : Z.of_nat (length (elements R)) < 2 ^ 32)
    by (change (length (elements R)) with (size R); lia).
  apply Forall_and in Hsmall as [Hsm Hkn].
  destruct (from_ids_wf (elements R) Hsm Hlen) as (a & Ha & Hawf & Hp & _).
  cbn [wait_loop]. fold R. rewrite Ha, rpc_specific by (done || by rewrite Hp).
  assert (Hsum : sumZ (n_tasks_of <$> array_ids a) = sumZ (n_tasks_of <$> elements R))
    by by apply sumZ_perm, Permutation_map.
  destruct (wait_round_spec total_jobs total_tasks k w (array_ids a)) as (lines & ->);
    [done|done|by rewrite Hsum|fold R; lia|].
  set (R' := R ∖ list_to_set (List.filter (ended_at k) (array_ids a))).
  assert (HR' : elements R' ≡ₚ List.filter (fun id => negb (ended_at k id)) (elements R)).
  { unfold R'. rewrite elements_remaining by done. by apply List_filter_perm. }
  destruct (ended_sum k (array_ids a)) as [Hn Hle].
  eexists. split; [|split_and!; [..|reflexivity]]; simpl; fold R; fold R'; [|..|done].
  2: { f_equal. by apply csum_perm, Permutation_map, List_filter_perm. }
  split_and!; simpl.
  - rewrite HR'. apply Forall_forall. intros id. rewrite list_elem_of_In, filter_In.
    intros [Hid%list_elem_of_In _]. rewrite Forall_forall in Hsm, Hkn. auto.
  - unfold counters_nonneg in *. simpl. lia.
  - assert (sumZ (n_tasks_of <$> elements R')
      = sumZ (n_tasks_of <$> List.filter (fun id => negb (ended_at k id)) (array_ids a))).
    { apply sumZ_perm, fmap_Permutation. rewrite HR'. symmetry. by apply List_filter_perm. }
    unfold ctotal in *. simpl in *. lia.
  - assert (size R' <= size R)%nat by (apply subseteq_size; set_solver). lia.
  - lia.
Qed.

Lemma csum_first_ended n k l :
  csum ((fun id => counters_at (first_ended (S n) k id) id) <$> l) =
  cplus (csum (counters_at k <$> List.filter (ended_at k) l))
    (csum ((fun id => counters_at (first_ended n (S k) id) id)
             <$> List.filter (fun id => negb (ended_at k id)) l)).
Proof.
  induction l as [|id l IH]; [done|]. rewrite fmap_cons. cbn [csum List.filter]. rewrite IH.
  destruct (ended_at k id) eqn:He; cbn [negb]; rewrite fmap_cons; cbn [csum].
  - rewrite first_ended_here by done. apply cplus_assoc.
  - rewrite first_ended_later, !cplus_assoc by done. f_equal. apply cplus_comm.
Qed.

(** The loop ends as soon as every job was reported as ended, and has added up
    the counters of each job at its first such report. *)
Lemma wait_loop_spec n total_jobs total_tasks k w :
  (1 <= k)%nat -> loop_ok total_jobs w ->
  (forall id, id ∈ wt_remaining w -> exists d, (d <= n)%nat /\ ended_at (k + d) id = true) ->
  exists w', wait_loop rpc (S n) total_jobs total_tasks k w = Some (Ret (Ok w')) /\
    wt_counters w' = cplus (wt_counters w)
      (csum ((fun id => counters_at (first_ended (S n) k id) id) <$> elements (wt_remaining w))).
Proof.
  revert k w. induction n as [|n IH]; intros k w Hk Hok Hend;
    [destruct (wait_loop_round 0 total_jobs total_tasks k w Hk Hok) as (w1 & Hok1 & Hc1 & HR1 & ->)
    |destruct (wait_loop_round (S n) total_jobs total_tasks k w Hk Hok)
      as (w1 & Hok1 & Hc1 & HR1 & ->)];
    (assert (Hin : forall id, id ∈ wt_remaining w1 <->
       id ∈ wt_remaining w /\ ended_at k id = false);
     [intros id; rewrite <- !elem_of_elements, HR1, list_elem_of_In, filter_In, <- list_elem_of_In;
      destruct (ended_at k id); naive_solver|]);
    rewrite csum_first_ended.
  - assert (wt_remaining w1 = ∅) as He.
    { apply elem_of_equiv_empty_L. intros id [Hid Hn]%Hin.
      destruct (Hend id Hid) as (d & Hd & He). replace (k + d)%nat with k in He by lia. congruence. }
    rewrite decide_True by done. exists w1. split; [done|]. rewrite Hc1. f_equal.
    apply (f_equal elements) in He. rewrite elements_empty in He. rewrite He in HR1.
    apply Permutation_nil in HR1. rewrite HR1. simpl. by rewrite cplus_default.
  - destruct (decide (wt_remaining w1 = ∅)) as [He|He].
    + exists w1. split; [done|]. rewrite Hc1. f_equal.
      apply (f_equal elements) in He. rewrite elements_empty in He. rewrite He in HR1.
      apply Permutation_nil in HR1. rewrite HR1. simpl. by rewrite cplus_default.
    + destruct (IH (S k) w1) as (w2 & Hw2 & Hc2); [lia|done| |].
      { intros id [Hid Hn]%Hin. destruct (Hend id Hid) as (d & Hd & He').
        destruct d as [|d]; [rewrite Nat.add_0_r in He'; congruence|].
        exists d. split; [lia|]. by replace (S k + d)%nat with (k + S d)%nat by lia. }
      exists w2. split; [done|]. rewrite Hc2, Hc1, <- cplus_assoc. do 2 f_equal.
      by apply csum_perm, fmap_Permutation.
Qed.

(** ** The verdict *)

Lemma csum_positive (f : JobTaskCounters -> Z) (g : Z -> JobTaskCounters) l :
  (forall a b, f (cplus a b) = f a + f b) -> f counters_default = 0 ->
  Forall (fun c => 0 <= f c) (g <$> l) ->
  (f (cplus counters_default (csum (g <$> l))) >? 0) = existsb (fun id => f (g id) >? 0) l.
Proof.
  intros Hp Hz Hl. rewrite cplus_comm, cplus_default.
  induction l as [|id l IH]; csimpl; [by rewrite Hz|].
  apply Forall_cons in Hl as [Hid Hl]. rewrite Hp, <- IH by done.
  assert (0 <= f (csum (g <$> l))).
  { clear - Hp Hz Hl. induction l; csimpl; [lia|]. apply Forall_cons in Hl as [? ?].
    rewrite Hp. specialize (IHl ltac:(done)). lia. }
  apply Bool.eq_iff_eq_true. rewrite orb_true_iff, !Z.gtb_lt. lia.
Qed.

Lemma snap_running k (l : list Z) :
  List.filter (fun i => negb (ended i)) (snap k <$> l)
  = snap k <$> List.filter (fun id => negb (ended_at k id)) l.
Proof.
  induction l as [|id l IH]; csimpl; [done|]. rewrite IH.
  change (ended (snap k id)) with (ended_at k id). by destruct (ended_at k id).
Qed.

Lemma snap_ids k (l : list Z) : ji_id <$> (snap k <$> l) = l.
Proof.
  rewrite <- list_fmap_compose. transitivity (id <$> l); [|apply list_fmap_id].
  apply list_fmap_ext. intros. apply snap_id.
Qed.

Lemma snap_n_tasks k (l : list Z) : ji_n_tasks <$> (snap k <$> l) = n_tasks_of <$> l.
Proof. rewrite <- list_fmap_compose. apply list_fmap_ext. intros. apply snap_tasks. Qed.

Lemma length_List_filter {A} (p : A -> bool) l : (length (List.filter p l) <= length l)%nat.
Proof. induction l as [|a l IH]; simpl; [done|]. destruct (p a); simpl; lia. Qed.

(** The counters of a job at the first report that it has ended. *)
Definition final_counters (n : nat) (id : Z) : JobTaskCounters :=
  counters_at (first_ended (S n) 1 id) id.

(** The verdict on the counters of the jobs that were waited for. *)
Lemma verdict_spec n l l' :
  l' ≡ₚ l ->
  verdict (cplus counters_default
    (csum ((fun id => counters_at (first_ended (S n) 1 id) id) <$> l'))) =
  if existsb (fun id => n_failed_tasks (final_counters n id) >? 0) l
  then Err "Some jobs have failed"
  else if existsb (fun id => n_canceled_tasks (final_counters n id) >? 0) l
  then Err "Some jobs were canceled"
  else Ok tt.
Proof.
  intros Hp. rewrite (csum_perm _ (final_counters n <$> l)) by by apply fmap_Permutation.
  unfold verdict.
  assert (Hnn : forall id, counters_nonneg (final_counters n id))
    by (intros; apply ctotal_counters_at).
  rewrite (csum_positive n_failed_tasks), (csum_positive n_canceled_tasks); try done.
  all: apply Forall_fmap, Forall_forall; intros id _; apply (Hnn id).
Qed.

(** Waiting for the jobs of a selector terminates as soon as the server has
    reported each of them as ended, without a panic; it fails exactly when a
    waited job ended with a failed task (or, if none did, with a canceled one),
    and jobs that had ended before the first request are not waited for. *)
Theorem wait_verdict n sel ids :
  rpc 0 sel = Ok (snap 0 <$> ids) ->
  NoDup ids -> Forall (fun id => small_id id /\ known id) ids -> sumZ (n_tasks_of <$> ids) < 2 ^ 32 ->
  Z.of_nat (length ids) < 2 ^ 32 ->
  (forall id, id ∈ ids -> exists d, (d <= n)%nat /\ ended_at (1 + d) id = true) ->
  let waited := List.filter (fun id => negb (ended_at 0 id)) ids in
  wait_for_job_with_selector rpc (S n) sel = Some (Ret (
    if existsb (fun id => n_failed_tasks (final_counters n id) >? 0) waited
    then Err "Some jobs have failed"
    else if existsb (fun id => n_canceled_tasks (final_counters n id) >? 0) waited
    then Err "Some jobs were canceled"
    else Ok tt)).
Proof.
  intros Hrpc Hnd Hsmall Hsum Hlen Hend waited.
  unfold wait_for_job_with_selector. rewrite Hrpc. unfold wait_for_jobs.
  rewrite retain_running_wf by (apply Forall_fmap, Forall_forall; intros; apply snap_wf).
  rewrite snap_running. fold waited. destruct (decide (waited = [])) as [->|Hne]; [done|].
  assert (Hsub : forall id, id ∈ waited -> id ∈ ids).
  { intros id. unfold waited. rewrite !list_elem_of_In, filter_In. naive_solver. }
  assert (Hndw : NoDup waited).
  { rewrite (filter_split (ended_at 0) ids) in Hnd. by apply NoDup_app in Hnd as (_ & _ & ?). }
  pose proof (sum_tasks_filter (fun id => negb (ended_at 0 id)) ids) as Hle. fold waited in Hle.
  destruct (snap 0 <$> waited) as [|i l] eqn:Hl; [by apply fmap_nil_inv in Hl|].
  rewrite <- Hl, snap_ids, snap_n_tasks, u32_sum_exact.
  2: { apply Forall_fmap, Forall_forall. intros. apply n_tasks_of_nonneg. }
  2: lia.
  set (w := {| wt_remaining := list_to_set waited; wt_counters := _; wt_lines := _ |}).
  assert (Hel : elements (list_to_set waited : gset Z) ≡ₚ waited) by by apply elements_list_to_set.
  assert (Hsize : size (list_to_set waited : gset Z) = length waited)
    by by rewrite size_list_to_set.
  pose proof (length_List_filter (fun id => negb (ended_at 0 id)) ids) as Hlw. fold waited in Hlw.
  destruct (wait_loop_spec n (Z.of_nat (size (list_to_set waited : gset Z)))
    (sumZ (n_tasks_of <$> waited)) 1 w) as (w' & -> & Hc); [done|..].
  - split_and!; simpl.
    + rewrite Hel. apply Forall_forall. intros id Hid.
      eapply Forall_forall in Hsmall; [done|auto].
    + done.
    + rewrite (sumZ_perm _ (n_tasks_of <$> waited)) by by apply fmap_Permutation.
      unfold ctotal. simpl. lia.
    + done.
    + lia.
  - intros id Hid. apply Hend, Hsub. simpl in Hid. set_solver.
  - do 2 f_equal. rewrite Hc. by apply verdict_spec.
Qed.

End rounds.
