(* ===== verification/JobView.v ===== *)
(** * What the command line shows

    The commands of [src/client/commands/jobs.rs], [src/client/commands/worker.rs]
    and [src/client/commands/stats.rs] with the tables of [src/client/job.rs],
    [src/client/worker.rs] and [src/worker/output.rs] and the formats of
    [src/common/format.rs].  A table is the list of the texts of its rows; bold and
    coloured cells, justification and the printing itself are left out, log
    messages are texts.  The answers of the server are an argument. *)

From S2P Require Import Prelude Nom ArrayDef Resources Messages Job State Client Status StreamServer Streamer Launcher WorkerStart Wait.

(** ** Formats ([src/common/format.rs]) *)

(** [human_size] *)
Definition human_size (size : Z) : string :=
  if size <? 2048 then to_string size +:+ " B"
  else if size <? 2 * 1024 * 1024 then to_string (size / 1024) +:+ " KiB"
  else if size <? 2 * 1024 * 1024 * 1024 then to_string (size / (1024 * 1024)) +:+ " MiB"
  else to_string (size / (1024 * 1024 * 1024)) +:+ " GiB".

(** [chrono::Duration] as nanoseconds: the numbers of whole units, rounded to zero. *)
Definition MILLISECOND : Z := 1000 * 1000.
Definition SECOND : Z := 1000 * MILLISECOND.
Definition MINUTE : Z := 60 * SECOND.
Definition HOUR : Z := 60 * MINUTE.

(** The precision [human_duration] keeps. *)
Definition truncate_duration (duration : Z) : Z :=
  if Z.quot duration HOUR >? 0 then MINUTE * Z.quot duration MINUTE
  else if Z.quot duration MINUTE >? 0 then SECOND * Z.quot duration SECOND
  else MILLISECOND * Z.quot duration MILLISECOND.

(** ** Sorting and filtering *)

Definition key_le {A} (f : A -> Z) (a b : A) : Prop := f a <= f b.

#[global] Instance key_le_dec {A} (f : A -> Z) : RelDecision (key_le f).
Proof. intros a b. unfold key_le. apply _. Defined.

#[global] Instance key_le_total {A} (f : A -> Z) : Total (key_le f).
Proof. intros a b. unfold key_le. lia. Qed.

#[global] Instance key_le_trans {A} (f : A -> Z) : Transitive (key_le f).
Proof. intros a b c. unfold key_le. lia. Qed.

(** [sort_unstable_by_key]; the keys the code sorts by are distinct. *)
Definition sort_by_key {A} (f : A -> Z) (l : list A) : list A := merge_sort (key_le f) l.

(** [Vec::retain] with a closure that may panic. *)
Fixpoint retainM {A} (p : A -> outcome bool) (l : list A) : outcome (list A) :=
  match l with
  | [] => Ret []
  | a :: l' => b ← p a; r ← retainM p l'; Ret (if (b : bool) then a :: r else r)
  end.

(** [BTreeSet] of numbers, from a list. *)
Definition btree_set (l : list Z) : list Z := merge_sort Z.le (elements (list_to_set l : gset Z)).

(** [iter.join(sep)] *)
Definition join (sep : string) (l : list string) : string := String.concat sep l.

Definition newline : string := String "010" "".

(** The text of a status ([status_cell]). *)
Definition status_cell (s : Status) : string :=
  match s with
  | SWaiting => "WAITING" | SFinished => "FINISHED" | SFailed => "FAILED"
  | SRunning => "RUNNING" | SCanceled => "CANCELED"
  end.

(** [stdio_to_cell] *)
Definition stdio_to_cell (d : StdioDef) : string :=
  match d with
  | StdioNull => "<None>"
  | StdioFile filename => filename
  | StdioPipe => "<Stream>"
  end.

(** [is_hq_env] *)
Definition is_hq_env (name : string) : bool :=
  match strip_prefix "HQ_" name with Some _ => true | None => false end.

Definition env_le (a b : string * string) : Prop := String.leb a.1 b.1 = true.

#[global] Instance env_le_dec : RelDecision env_le.
Proof. intros a b. unfold env_le. apply _. Defined.

(** [human_duration]; a negative duration has no [std] counterpart. *)
Definition human_duration (format_duration : Z -> string) (duration : Z) : string :=
  let d := truncate_duration duration in
  if d <? 0 then "Invalid duration" else format_duration d.

(** ** What other crates give *)

(** Durations ([humantime], on nanoseconds), dates ([chrono]); from [tako] the CPU request
    of a resource request, the fields of a worker configuration and the summary of its
    resources; the parser of a [ManagerInfo] ([serde_json]); terminal colours and the
    length of a part of the progress bar. *)
Class Terminal `{Tako} := {
  format_duration : Z -> string;
  show_date : Z -> string;
  request_cpus : ResourceRequest -> CpuRequest;
  worker_config : WorkerConfiguration -> WorkerConfig;
  resources_summary : ResourceDescriptor -> string;
  manager_from_str : string -> result string ManagerInfo;
  Color : Type;
  color : Color -> string -> string;
  MAGENTA : Color;
  RED : Color;
  GREEN : Color;
  YELLOW : Color;
  CYAN : Color;
  chars : Z -> Z -> nat
}.

Section view.
Context `{Profile} `{Tako} `{!Terminal}.

(** ** Jobs ([src/client/job.rs]) *)

Abbreviation WorkerMap := (gmap Z string).

(** [job_status_with_counts_cells] *)
Definition job_status_with_counts_cells (info : JobInfo) : outcome string :=
  let row s value col :=
    if value >? 0 then color col (s +:+ " (" +:+ to_string value +:+ ")") +:+ newline else "" in
  w ← n_waiting_tasks (ji_counters info) (ji_n_tasks info);
  Ret (job_progress_bar Color color MAGENTA RED GREEN YELLOW (chars (ji_n_tasks info))
         (ji_counters info) 40 +:+ newline
       +:+ row "RUNNING" (n_running_tasks (ji_counters info)) YELLOW
       +:+ row "FAILED" (n_failed_tasks (ji_counters info)) RED
       +:+ row "FINISHED" (n_finished_tasks (ji_counters info)) GREEN
       +:+ row "CANCELED" (n_canceled_tasks (ji_counters info)) MAGENTA
       +:+ row "WAITING" w CYAN).

(** [print_job_list]: the rows below the title. *)
Definition print_job_list (tasks : list JobInfo) : outcome (list (list string)) :=
  mapM (fun t =>
    st ← job_status t;
    Ret [to_string (ji_id t); ji_name t; status_cell st; to_string (ji_n_tasks t)]) tasks.

Definition MAX_DISPLAYED_WORKERS : nat := 2.

(** [format_worker] *)
Definition format_worker (id : Z) (worker_map : WorkerMap) : string :=
  default "N/A" (worker_map !! id).

(** [format_job_workers] *)
Definition format_job_workers (job : JobDetail) (worker_map : WorkerMap) : string :=
  let worker_set := btree_set (omap (fun t => get_worker (jti_state t)) (jd_tasks job)) in
  let result := join ", " ((fun id => format_worker id worker_map) <$> take MAX_DISPLAYED_WORKERS worker_set) in
  if (MAX_DISPLAYED_WORKERS <? length worker_set)%nat
  then result +:+ ", … (" +:+ to_string (Z.of_nat (length worker_set)) +:+ " total)"
  else result.

(** [format_task_duration] *)
Definition format_task_duration (completion_date_or_now : Z) (state : JobTaskState) : string :=
  match state with
  | Canceled | Waiting => ""
  | Running _ start_date => human_duration format_duration (completion_date_or_now - start_date)
  | Finished _ start_date end_date | Failed _ start_date end_date _ =>
      human_duration format_duration (end_date - start_date)
  end.

Definition SHOWN_TASKS : nat := 5.

(** The closure [make_error_row] *)
Definition make_error_row (worker_map : WorkerMap) (t : JobTaskInfo) : option (list string) :=
  match jti_state t with
  | Failed worker _ _ error => Some [to_string (jti_task_id t); format_worker worker worker_map; error]
  | _ => None
  end.

(** The row of a task with [--tasks] *)
Definition task_row (completion_date_or_now : Z) (worker_map : WorkerMap) (t : JobTaskInfo) : list string :=
  [to_string (jti_task_id t); status_cell (task_status (jti_state t));
   match get_worker (jti_state t) with Some w => format_worker w worker_map | None => "" end;
   format_task_duration completion_date_or_now (jti_state t);
   match jti_state t with Failed _ _ _ error => error | _ => "" end].

(** [print_job_tasks]: the rows of the table, and the line below it. *)
Definition print_job_tasks (completion_date_or_now : Z) (tasks : list JobTaskInfo) (show_tasks : bool)
    (counters : JobTaskCounters) (worker_map : WorkerMap) : list (list string) * option string :=
  let tasks := sort_by_key jti_task_id tasks in
  if show_tasks then (task_row completion_date_or_now worker_map <$> tasks, None)
  else
    let fail_rows := take SHOWN_TASKS (omap (make_error_row worker_map) tasks) in
    match fail_rows with
    | [] => ([], None)
    | _ =>
        let count := as_u32 (Z.of_nat (length fail_rows)) in
        (fail_rows,
         Some (if count <? n_failed_tasks counters
               then to_string (n_failed_tasks counters) +:+ " tasks failed. (" +:+ to_string count +:+ " shown)"
               else to_string (n_failed_tasks counters) +:+ " tasks failed."))
    end.

(** The environment of a program, without the variables of HyperQueue. *)
Definition env_cell (env : gmap string string) : string :=
  join newline ((fun kv => kv.1 +:+ "=" +:+ kv.2)
    <$> merge_sort env_le (List.filter (fun kv => negb (is_hq_env kv.1)) (map_to_list env))).

(** [print_job_detail]: the rows of the job, then the table of its tasks, if it has
    tasks. *)
Definition print_job_detail (job : JobDetail) (just_submitted show_tasks : bool) (worker_map : WorkerMap) :
    outcome (list (list string) * option (list (list string) * option string)) :=
  let info := jd_info job in
  status ← (if just_submitted then Ret "SUBMITTED"
            else if ji_n_tasks info =? 1 then st ← job_status info; Ret (status_cell st)
            else job_status_with_counts_cells info);
  n_tasks ← match jd_job_type job with
            | Array a => ids ← IntArray_fmt a; Ret (to_string (ji_n_tasks info) +:+ "; Ids: " +:+ ids)
            | Simple => Ret (to_string (ji_n_tasks info))
            end;
  let resources := cpu_request_to_string (request_cpus (jd_resources job)) in
  let program_def := jd_program_def job in
  cwd ← unwrap (pd_cwd program_def);
  let rows :=
    [["Id"; to_string (ji_id info)]; ["Name"; ji_name info]; ["State"; status]; ["Tasks"; n_tasks];
     ["Workers"; format_job_workers job worker_map];
     ["Resources"; if jd_pin job then resources +:+ " [pin]" else resources];
     ["Priority"; show_int (jd_priority job)];
     ["Command"; join newline (pd_args program_def)];
     ["Stdout"; stdio_to_cell (pd_stdout program_def)];
     ["Stderr"; stdio_to_cell (pd_stderr program_def)];
     ["Environment"; env_cell (pd_env program_def)];
     ["Working Dir"; cwd];
     ["Submission date"; show_date (jd_submission_date job)];
     ["Task time limit"; match jd_time_limit job with Some d => format_duration d | None => "None" end];
     ["Makespan"; human_duration format_duration (jd_completion_date_or_now job - jd_submission_date job)]] in
  Ret (rows,
       match jd_tasks job with
       | [] => None
       | tasks => Some (print_job_tasks (jd_completion_date_or_now job) tasks show_tasks
                          (ji_counters info) worker_map)
       end).

(** ** Requests ([src/client/utils.rs]) *)

(** [ClientConnection::send_and_receive], and the text of an unexpected message. *)
Context (send_and_receive : FromClientMessage -> result string ToClientMessage).
Context (debug_message : ToClientMessage -> string).

(** [rpc_call!] *)
Definition rpc_call {A} (message : FromClientMessage) (matcher : ToClientMessage -> option A) : result string A :=
  match send_and_receive message with
  | Err e => Err e
  | Ok msg =>
      match matcher msg with
      | Some a => Ok a
      | None => Err ("Received an invalid message " +:+ debug_message msg)
      end
  end.

Definition job_infos (m : ToClientMessage) : option (list JobInfo) :=
  match m with JobInfoResponse jobs => Some jobs | _ => None end.
Definition job_details (m : ToClientMessage) : option (list (Z * option JobDetail)) :=
  match m with JobDetailResponse jobs => Some jobs | _ => None end.
Definition cancel_responses (m : ToClientMessage) : option (list (Z * CancelJobResponse)) :=
  match m with CancelJobResponseMsg r => Some r | _ => None end.
Definition worker_infos (m : ToClientMessage) : option (list WorkerInfo) :=
  match m with WorkerListResponse r => Some r | _ => None end.
Definition worker_details (m : ToClientMessage) : option (option WorkerInfo) :=
  match m with WorkerInfoResponse r => Some r | _ => None end.
Definition stop_responses (m : ToClientMessage) : option (list (Z * StopWorkerResponse)) :=
  match m with StopWorkerResponseMsg r => Some r | _ => None end.

(** ** Commands on jobs ([src/client/commands/jobs.rs]) *)

(** The host name in a worker configuration. *)
Definition hostname (configuration : WorkerConfiguration) : string := wc_hostname (worker_config configuration).

(** [get_worker_map] *)
Definition get_worker_map : result string WorkerMap :=
  match rpc_call WorkerList worker_infos with
  | Err e => Err e
  | Ok ws => Ok (collect_map ((fun w => (wi_id w, hostname (wi_configuration w))) <$> ws))
  end.

(** [get_last_job_id] *)
Definition get_last_job_id : result string (option Z) :=
  match rpc_call (JobInfoRequest (SelLastN 1)) job_infos with
  | Err e => Err e
  | Ok jobs => Ok (ji_id <$> last jobs)
  end.

(** [get_job_ids] *)
Definition get_job_ids : result string (option (list Z)) :=
  match rpc_call (JobInfoRequest SelAll) job_infos with
  | Err e => Err e
  | Ok jobs => Ok (Some (ji_id <$> jobs))
  end.

(** [output_job_list]: the rows of the table. *)
Definition output_job_list (job_filters : list Status) : outcome (result string (list (list string))) :=
  match rpc_call (JobInfoRequest SelAll) job_infos with
  | Err e => Ret (Err e)
  | Ok jobs =>
      jobs ← match job_filters with
             | [] => Ret jobs
             | _ => retainM (fun j => st ← job_status j; Ret (bool_decide (st ∈ job_filters))) jobs
             end;
      rows ← print_job_list (sort_by_key ji_id jobs);
      Ret (Ok rows)
  end.

(** What [output_job_detail] shows of a job: its tables, or the message that it
    was not found. *)
Inductive Shown :=
| ShownJob (table : list (list string) * option (list (list string) * option string))
| ShownError (message : string).

(** The loop of [output_job_detail]: it ends at the first failed request. *)
Fixpoint show_details (responses : list (Z * option JobDetail)) (show_tasks : bool) :
    outcome (list Shown * result string unit) :=
  match responses with
  | [] => Ret ([], Ok tt)
  | (id, None) :: rest =>
      '(shown, r) ← show_details rest show_tasks;
      Ret (ShownError ("Job " +:+ to_string id +:+ " not found") :: shown, r)
  | (id, Some job) :: rest =>
      match get_worker_map with
      | Err e => Ret ([], Err e)
      | Ok workers =>
          t ← print_job_detail job false show_tasks workers;
          '(shown, r) ← show_details rest show_tasks;
          Ret (ShownJob t :: shown, r)
      end
  end.

(** [output_job_detail] *)
Definition output_job_detail (selector : Selector) (show_tasks : bool) :
    outcome (list Shown * result string unit) :=
  match selector with
  | SelAll =>
      Ret ([ShownError "Job detail doesn't support --all specifier, did you mean: job list?"], Ok tt)
  | _ =>
      match rpc_call (JobDetailRequest selector true) job_details with
      | Err e => Ret ([], Err e)
      | Ok responses => show_details responses show_tasks
      end
  end.

(** The message for a job in [cancel_job]. *)
Definition cancel_message (r : Z * CancelJobResponse) : string :=
  match r.2 with
  | CJCanceled (_ :: _ as canceled) already_finished =>
      "Job " +:+ to_string r.1 +:+ " canceled (" +:+ to_string (Z.of_nat (length canceled))
        +:+ " tasks canceled, " +:+ to_string already_finished +:+ " tasks already finished)"
  | CJCanceled [] _ =>
      "Canceling job " +:+ to_string r.1 +:+ " failed; all tasks are already finished"
  | CJInvalidJob => "Canceling job " +:+ to_string r.1 +:+ " failed; job not found"
  | CJFailed msg => "Canceling job " +:+ to_string r.1 +:+ " failed; " +:+ msg
  end.

(** [cancel_job]: the messages. *)
Definition cancel_job (selector : Selector) : result string (list string) :=
  match rpc_call (Cancel selector) cancel_responses with
  | Err e => Err e
  | Ok responses =>
      Ok (match responses with [] => ["There is nothing to cancel"] | _ => [] end
            ++ (cancel_message <$> sort_by_key fst responses))
  end.

(** ** Commands on workers ([src/client/commands/worker.rs], [src/client/worker.rs]) *)

(** [get_worker_list] *)
Definition get_worker_list (get_online get_offline : bool) : result string (list WorkerInfo) :=
  match rpc_call WorkerList worker_infos with
  | Err e => Err e
  | Ok ws =>
      Ok (List.filter (fun w => match wi_ended w with None => get_online | Some _ => get_offline end)
            (sort_by_key wi_id ws))
  end.

(** [get_worker_info] *)
Definition get_worker_info (worker_id : Z) : result string (option WorkerInfo) :=
  rpc_call (WorkerInfoRequest worker_id) worker_details.

(** The message for a worker in [stop_worker]. *)
Definition stop_message (r : Z * StopWorkerResponse) : string :=
  match r.2 with
  | SWFailed e => "Stopping worker " +:+ to_string r.1 +:+ " failed; " +:+ e
  | SWInvalidWorker => "Stopping worker " +:+ to_string r.1 +:+ " failed; worker not found"
  | SWAlreadyStopped => "Stopping worker " +:+ to_string r.1 +:+ " failed; worker is already stopped"
  | SWStopped => "Worker " +:+ to_string r.1 +:+ " stopped"
  end.

(** [stop_worker]: the messages. *)
Definition stop_worker (selector : Selector) : result string (list string) :=
  match rpc_call (StopWorker selector) stop_responses with
  | Err e => Err e
  | Ok responses => Ok (stop_message <$> sort_by_key fst responses)
  end.

(** [worker_state] of [src/client/worker.rs] *)
Definition worker_state_cell (w : WorkerInfo) : string :=
  match wi_ended w with
  | None => "RUNNING"
  | Some e =>
      match reason e with
      | InfoConnectionLost => "CONNECTION LOST"
      | InfoHeartbeatLost => "HEARTBEAT LOST"
      | InfoIdleTimeout => "IDLE TIMEOUT"
      | InfoStopped => "STOPPED"
      end
  end.

(** The cells of the manager of a worker, if it has one. *)
Definition manager_cells (configuration : WorkerConfig) : string * string :=
  match get_manager_info manager_from_str configuration with
  | Some info => (show_manager (mi_manager info), mi_job_id info)
  | None => ("None", "N/A")
  end.

(** [print_worker_info]: the rows below the title. *)
Definition print_worker_info (workers : list WorkerInfo) : list (list string) :=
  (fun w =>
     let configuration := worker_config (wi_configuration w) in
     let manager := manager_cells configuration in
     [to_string (wi_id w); worker_state_cell w; wc_hostname configuration;
      resources_summary (wc_resources configuration); manager.1; manager.2]) <$> workers.

(** [print_worker_configuration] of [src/worker/output.rs] *)
Definition print_worker_configuration (worker_id : Z) (configuration : WorkerConfiguration) :
    list (list string) :=
  let configuration := worker_config configuration in
  let manager := manager_cells configuration in
  [["Worker ID"; to_string worker_id]; ["Hostname"; wc_hostname configuration];
   ["Data provider"; wc_listen_address configuration];
   ["Working directory"; wc_work_dir configuration]; ["Logging directory"; wc_log_dir configuration];
   ["Heartbeat"; format_duration (wc_heartbeat_interval configuration)];
   ["Idle timeout"; match wc_idle_timeout configuration with Some d => format_duration d | None => "None" end];
   ["Resources"; resources_summary (wc_resources configuration)];
   ["Manager"; manager.1]; ["Manager Job Id"; manager.2]].

(** [print_server_stats] of [src/client/commands/stats.rs] *)
Definition print_server_stats : result string (list (list string)) :=
  match rpc_call Stats (fun m => match m with StatsResponse r => Some r | _ => None end) with
  | Err e => Err e
  | Ok stats =>
      Ok [["Stream connections"; join newline (st_connections stats)];
          ["Stream registrations";
           join newline ((fun r => to_string r.1 +:+ ": " +:+ r.2) <$> st_registrations stats)];
          ["Open files"; join newline (st_files stats)]]
  end.
End view.

(** ** Lemmas: sorting *)

Lemma sort_by_key_perm {A} (f : A -> Z) l : sort_by_key f l ≡ₚ l.
Proof. apply merge_sort_Permutation. Qed.

Lemma StronglySorted_fmap {A} (f : A -> Z) l : StronglySorted (key_le f) l -> StronglySorted Z.le (f <$> l).
Proof.
  induction 1 as [|a l _ IH Ha]; simpl; constructor; [done|].
  rewrite Forall_fmap. eapply Forall_impl; [exact Ha|done].
Qed.

Lemma sort_by_key_sorted {A} (f : A -> Z) l : StronglySorted Z.le (f <$> sort_by_key f l).
Proof. apply StronglySorted_fmap, StronglySorted_merge_sort; apply _. Qed.

Lemma StronglySorted_omap {A B} (f : A -> Z) (g : B -> Z) (h : A -> option B) l :
  (forall a b, h a = Some b -> g b = f a) ->
  StronglySorted Z.le (f <$> l) -> StronglySorted Z.le (g <$> omap h l).
Proof.
  intros Hh. induction l as [|a l IH]; simpl; intros Hs; [constructor|].
  apply StronglySorted_inv in Hs as [Hs Ha]. destruct (h a) as [b|] eqn:Hb; simpl; [|auto].
  constructor; [auto|]. rewrite Forall_forall in Ha |- *.
  intros x (b' & -> & (a' & Ha' & Hb')%list_elem_of_omap)%list_elem_of_fmap.
  rewrite (Hh _ _ Hb), (Hh _ _ Hb'). apply Ha, list_elem_of_fmap. eauto.
Qed.

(** A list sorted through an image is an image of a sorted list. *)
Lemma sort_by_key_fmap {A B} (f : B -> Z) (g : A -> B) l :
  exists l', sort_by_key f (g <$> l) = g <$> l' /\ l' ≡ₚ l.
Proof.
  destruct (Permutation_map_inv g l (sort_by_key_perm f (g <$> l))) as (l' & Hl' & Hp).
  exists l'. split; [done|by symmetry].
Qed.

Lemma retainM_filter {A} (p : A -> outcome bool) (q : A -> bool) l :
  (forall a, a ∈ l -> p a = Ret (q a)) -> retainM p l = Ret (List.filter q l).
Proof.
  induction l as [|a l IH]; intros Hp; simpl; [done|].
  rewrite Hp, IH by set_solver. done.
Qed.

(** ** The list of jobs *)

Section lists.
Context `{Profile} `{Tako} `{!Terminal}.
Context (send_and_receive : FromClientMessage -> result string ToClientMessage).
Context (debug_message : ToClientMessage -> string).

(** The row of a job, from its tasks. *)
Definition job_row (j : Job) : list string :=
  [to_string (job_id j); job_name j; status_cell (documented_status (map_values (job_tasks j)));
   to_string (Z.of_nat (size (job_tasks j)))].

(** The jobs a list of statuses selects; the empty list selects all jobs. *)
Definition listed (job_filters : list Status) (j : Job) : bool :=
  match job_filters with
  | [] => true
  | _ => bool_decide (documented_status (map_values (job_tasks j)) ∈ job_filters)
  end.

Lemma retain_listed job_filters l :
  Forall job_wf l ->
  match job_filters with
  | [] => Ret (make_job_info <$> l)
  | _ => retainM (fun i => st ← job_status i; Ret (bool_decide (st ∈ job_filters))) (make_job_info <$> l)
  end = Ret (make_job_info <$> List.filter (listed job_filters) l).
Proof.
  intros Hl. destruct job_filters as [|f fs].
  - do 2 f_equal. clear Hl. induction l as [|j l IH]; simpl; congruence.
  - set (fl := f :: fs). induction Hl as [|j l Hj _ IH]; [done|].
    csimpl. rewrite (job_status_documented j Hj), bind_ret, IH. simpl.
    replace (listed fl j) with (bool_decide (documented_status (map_values (job_tasks j)) ∈ fl)) by done.
    by case_bool_decide.
Qed.

Lemma print_job_list_rows l :
  Forall job_wf l -> print_job_list (make_job_info <$> l) = Ret (job_row <$> l).
Proof.
  intros Hl. unfold print_job_list. rewrite mapM_fmap. apply mapM_ret. intros j Hj.
  rewrite Forall_forall in Hl. specialize (Hl j Hj).
  rewrite (job_status_documented j Hl). simpl. unfold job_row.
  by rewrite (n_tasks_wf j (jw_core j Hl)).
Qed.

Lemma jobs_ids s : state_wf s -> job_id <$> map_values (jobs s) = (map_to_list (jobs s)).*1.
Proof.
  intros Hwf. unfold map_values. rewrite <- list_fmap_compose. apply list_fmap_ext.
  intros i [id j] Hi. simpl. apply list_elem_of_lookup_2, elem_of_map_to_list in Hi.
  by destruct (sw_job s Hwf id j Hi) as (_ & ? & _).
Qed.

Lemma elem_of_jobs s j : state_wf s -> j ∈ map_values (jobs s) <-> jobs s !! job_id j = Some j.
Proof.
  intros Hwf. rewrite elem_of_map_values. split; [|eauto].
  intros (id & Hid). by destruct (sw_job s Hwf id j Hid) as (_ & -> & _).
Qed.

(** C21: [hq jobs] on a consistent server shows one row per job whose documented
    status is selected (every job, without a filter), with increasing job ids,
    and its computation of the statuses never panics. *)
Theorem output_job_list_correct s job_filters m :
  state_wf s ->
  compute_job_info s SelAll = Ret m -> send_and_receive (JobInfoRequest SelAll) = Ok m ->
  exists js : list Job,
    output_job_list send_and_receive debug_message job_filters = Ret (Ok (job_row <$> js))
    /\ StronglySorted Z.lt (job_id <$> js)
    /\ forall j, j ∈ js <-> jobs s !! job_id j = Some j /\
         (job_filters = [] \/ documented_status (map_values (job_tasks j)) ∈ job_filters).
Proof.
  intros Hwf Hm Hsend. simpl in Hm. simplify_eq. unfold output_job_list, rpc_call. rewrite Hsend. simpl.
  assert (Hl : Forall job_wf (map_values (jobs s))).
  { apply Forall_forall. intros j Hj%elem_of_jobs; [|done]. by destruct (sw_job s Hwf _ _ Hj). }
  rewrite retain_listed by done. simpl. set (l := List.filter _ _).
  destruct (sort_by_key_fmap ji_id make_job_info l) as (js & Hjs & Hp).
  assert (Hin : forall j, j ∈ js <-> j ∈ map_values (jobs s) /\ listed job_filters j = true).
  { intros j. rewrite Hp, !list_elem_of_In. apply filter_In. }
  exists js. split_and!.
  - rewrite Hjs, print_job_list_rows; [done|]. rewrite Forall_forall in Hl |- *. set_solver.
  - apply StronglySorted_le_lt.
    + pose proof (sort_by_key_sorted ji_id (make_job_info <$> l)) as Hs.
      by rewrite Hjs, <- list_fmap_compose in Hs.
    + rewrite Hp. apply NoDup_fmap_filter. rewrite jobs_ids by done. apply NoDup_fst_map_to_list.
  - intros j. rewrite Hin, elem_of_jobs by done. apply and_iff_compat_l.
    unfold listed. destruct job_filters; [naive_solver|]. rewrite bool_decide_eq_true. naive_solver.
Qed.

(** ** The report of failed tasks *)

(** The failed tasks of a description: the id of the task, the worker and the error. *)
Definition failed_task (t : JobTaskInfo) : option (Z * (Z * string)) :=
  match jti_state t with Failed w _ _ e => Some (jti_task_id t, (w, e)) | _ => None end.

Definition failed_row (worker_map : gmap Z string) (r : Z * (Z * string)) : list string :=
  [to_string r.1; format_worker r.2.1 worker_map; r.2.2].

Lemma failed_rows worker_map (l : list JobTaskInfo) :
  omap (make_error_row worker_map) l = failed_row worker_map <$> omap failed_task l.
Proof.
  induction l as [|t l IH]; [done|]. csimpl. rewrite IH.
  unfold make_error_row, failed_task, failed_row. by destruct (jti_state t).
Qed.

Lemma failed_count (l : list JobTaskInfo) :
  Z.of_nat (length (omap failed_task l)) = countb is_failed (jti_state <$> l).
Proof.
  induction l as [|t l IH]; [done|]. csimpl. rewrite countb_cons, <- IH.
  unfold failed_task at 1. destruct (jti_state t); simpl; lia.
Qed.

(** The descriptions of the tasks of a job have the states of its tasks. *)
Lemma detail_states j now :
  jti_state <$> jd_tasks (make_job_detail j true now) = map_values (job_tasks j).
Proof.
  unfold make_job_detail, job_tasks. simpl. destruct (job_state j) as [st|m].
  - unfold map_values. by rewrite map_to_list_singleton.
  - unfold map_values. rewrite map_to_list_fmap, <- !list_fmap_compose. done.
Qed.

Lemma detail_failed_count j now :
  job_wf j ->
  Z.of_nat (length (omap failed_task (jd_tasks (make_job_detail j true now)))) = n_failed_tasks (counters j).
Proof.
  intros [Hwf _]. rewrite failed_count, detail_states, (jw_counters j Hwf). done.
Qed.

(** C39: without [--tasks], the details of a well-formed job list its failed tasks in
    the order of their ids, the first five of them, each with its worker and its
    error, and the line below gives the exact number of failed tasks; a job without
    failed tasks gets no table. *)
Theorem failed_tasks_report j now_shown now worker_map :
  job_wf j ->
  let d := make_job_detail j true now in
  exists failed : list (Z * (Z * string)),
    failed ≡ₚ omap failed_task (jd_tasks d)
    /\ StronglySorted Z.le failed.*1
    /\ print_job_tasks now_shown (jd_tasks d) false (ji_counters (jd_info d)) worker_map =
       match failed with
       | [] => ([], None)
       | _ =>
           (failed_row worker_map <$> take 5 failed,
            Some (to_string (Z.of_nat (length failed)) +:+
                  if (5 <? length failed)%nat then " tasks failed. (5 shown)" else " tasks failed."))
       end.
Proof.
  intros Hwf d. set (sorted := sort_by_key jti_task_id (jd_tasks d)).
  assert (Hp : omap failed_task sorted ≡ₚ omap failed_task (jd_tasks d)).
  { apply omap_Permutation, sort_by_key_perm. }
  exists (omap failed_task sorted). split_and!; [done| |].
  - apply (StronglySorted_omap jti_task_id).
    + intros t [id r]. unfold failed_task. destruct (jti_state t); naive_solver.
    + apply sort_by_key_sorted.
  - unfold print_job_tasks. fold sorted. rewrite failed_rows, <- fmap_take.
    set (failed := omap failed_task sorted) in *.
    replace (n_failed_tasks (ji_counters (jd_info d))) with (Z.of_nat (length failed)).
    2: { rewrite Hp. by apply detail_failed_count. }
    destruct failed as [|r failed'] eqn:Hf; [done|]. rewrite <- Hf. clear Hp.
    rewrite !length_fmap, length_take.
    replace (fmap _ _) with (failed_row worker_map <$> take 5 failed) by done.
    destruct (failed_row worker_map <$> take 5 failed) eqn:Hrows; [by rewrite Hf in Hrows|].
    change SHOWN_TASKS with 5%nat. rewrite as_u32_id by (unfold is_u32; lia).
    destruct (Nat.ltb_spec 5 (length failed)), (Z.ltb_spec (Z.of_nat (5 `min` length failed)) (Z.of_nat (length failed)));
      try lia; [|done]. by rewrite Nat.min_l by lia.
Qed.
End lists.
