(* ===== verification/Submit.v ===== *)
(** * The submit command: [src/client/commands/submit.rs]

    The arguments of [hq submit], the request that is built from them, and what
    happens with it on the server, and the whole command with its print and its wait.
    The file system, the current directory and the answers of the server are
    arguments; warnings are collected in a list.  Texts are
    byte strings, so the length of a string is its number of bytes. *)

From S2P Require Import Prelude Nom NomImpl ArrayDef ArrayParser Resources Messages Job State Client Status Launcher Wait JobView.

Definition SUBMIT_ARRAY_LIMIT : Z := 999.
Definition DEFAULT_STDOUT_PATH : string := "job-%{JOB_ID}/stdout.%{TASK_ID}".
Definition DEFAULT_STDERR_PATH : string := "job-%{JOB_ID}/stderr.%{TASK_ID}".

(** ** Arguments *)

(** [struct ArgEnvironmentVar] *)
Record ArgEnvironmentVar := {
  key : string;
  value : string
}.

(** [s.find(c)] with the parts before and after the position. *)
Fixpoint split_once (c : ascii) (s : string) : option (string * string) :=
  match s with
  | EmptyString => None
  | String d s' =>
      if Ascii.eqb d c then Some ("", s')
      else match split_once c s' with
           | Some (a, b) => Some (String d a, b)
           | None => None
           end
  end.

(** [ArgEnvironmentVar::from_str] *)
Definition ArgEnvironmentVar_from_str (s : string) : result string ArgEnvironmentVar :=
  if String.eqb s "" then Err "Environment variable cannot be empty"
  else Ok match split_once "=" s with
          | Some (k, v) => {| key := k; value := v |}
          | None => {| key := s; value := "" |}
          end.

(** [StdioArg::from_str] *)
Definition StdioArg_from_str (s : string) : result string StdioDef :=
  Ok (if String.eqb s "none" then StdioNull else StdioFile s).

(** [str::contains] on a character. *)
Definition contains_char (c : ascii) (s : string) : bool :=
  negb (str_all (fun d => negb (Ascii.eqb d c)) s).

(** [validate_name] *)
Definition validate_name (name : string) : result string string :=
  if contains_char "010" name || contains_char "009" name
  then Err "name cannot have a newline or a tab"
  else if 40 <? Z.of_nat (String.length name)
  then Err "name cannot be more than 40 characters"
  else Ok name.

(** The items of [BufRead::split(b'\n')]: what precedes each newline, and the
    rest if it is not empty. *)
Fixpoint split_lines (s : string) : list string :=
  match s with
  | EmptyString => []
  | String c s' =>
      if Ascii.eqb c "010" then "" :: split_lines s'
      else match split_lines s' with
           | l :: ls => String c l :: ls
           | [] => [String c ""]
           end
  end.

(** [PathBuf::file_name]: the last component unless it is the parent directory;
    empty pieces and current directories are no components. *)
Definition file_name (path : string) : option string :=
  match last (List.filter (fun p => negb (String.eqb p "" || String.eqb p ".")) (split_on "/" path)) with
  | Some p => if String.eqb p ".." then None else Some p
  | None => None
  end.

Section submit.
Context `{Tako} `{Profile}.

(** [struct SubmitOpts]; numbers, durations and flags are parsed by [clap]. *)
Record SubmitOpts := {
  sub_command : string;
  sub_args : list string;
  sub_cpus : CpuRequest;
  sub_name : option string;
  sub_pin : bool;
  sub_cwd : string;
  sub_stdout : option StdioDef;
  sub_stderr : option StdioDef;
  sub_env : list ArgEnvironmentVar;
  sub_each_line : option string;
  sub_array : option IntArray;
  sub_max_fails : option Z;
  sub_priority : Z;
  sub_time_limit : option Z;
  sub_wait : bool;
  sub_log : option string
}.

(** [ResourceRequest::new] and the error of [validate] of [tako]. *)
Context (resource_request_new : CpuRequest -> ResourceRequest) (validate_error : string).
(** [fs::metadata(f)?.len()] and the content of a file. *)
Context (metadata_len : string -> result string Z) (read_file : string -> result string string).
(** [std::env::current_dir()] as a text. *)
Context (current_dir : option string).

(** [read_lines]: the lines and the warnings. *)
Definition read_lines (filename : string) : result string (list string * list string) :=
  match metadata_len filename with
  | Err e => Err e
  | Ok len =>
      let warnings := if 100 * 2 ^ 20 <? len then ["Reading file bigger then 100MB"] else [] in
      match read_file filename with
      | Err e => Err e
      | Ok content => Ok (split_lines content, warnings)
      end
  end.

(** [SubmitOpts::resource_request] *)
Definition resource_request (opts : SubmitOpts) : ResourceRequest :=
  resource_request_new (sub_cpus opts).

(** The job type and the entries. *)
Definition job_type_of (opts : SubmitOpts) :
    result string (JobType * option (list string) * list string) :=
  match sub_each_line opts with
  | Some filename =>
      match read_lines filename with
      | Err e => Err e
      | Ok (lines, warnings) =>
          Ok (Array (from_range 0 (as_u32 (Z.of_nat (length lines)))), Some lines, warnings)
      end
  | None =>
      Ok (match sub_array opts with Some a => Array a | None => Simple end, None, [])
  end.

(** [is_dir_some] *)
Definition is_dir_some (dir : option StdioDef) : bool :=
  match dir with Some StdioNull => false | _ => true end.

(** The warning about the number of files. *)
Definition array_warning (opts : SubmitOpts) (jt : JobType) : outcome (list string) :=
  match jt with
  | Array a =>
      '(task_files, active_dirs) ←
        (if is_dir_some (sub_stdout opts) then
           n ← id_count a; t ← u32_add 0 n; Ret (t, " stdout")
         else Ret (0, ""));
      '(task_files, active_dirs) ←
        (if is_dir_some (sub_stderr opts) then
           n ← id_count a; t ← u32_add task_files n; Ret (t, active_dirs +:+ " stderr")
         else Ret (task_files, active_dirs));
      Ret (match sub_log opts with
           | None =>
               if SUBMIT_ARRAY_LIMIT <? task_files
               then ["The job will create " +:+ to_string task_files +:+ " number of files for"
                       +:+ active_dirs +:+ ". You may consider using --log option to stream all outputs into one file"]
               else []
           | Some _ => []
           end)
  | Simple => Ret []
  end.

(** The name of the job. *)
Definition job_name_of (opts : SubmitOpts) : result string string :=
  match sub_name opts with
  | Some name => validate_name name
  | None => Ok (default "job" (file_name (sub_command opts)))
  end.

(** An output of the tasks. *)
Definition output_of (arg : option StdioDef) (log : option string) (default_path : string) : StdioDef :=
  match arg with
  | Some d => d
  | None => match log with None => StdioFile default_path | Some _ => StdioPipe end
  end.

(** [collect] into a map: a later pair replaces an earlier one. *)
Definition collect_env (env : list ArgEnvironmentVar) : gmap string string :=
  foldl (fun m v => <[key v := value v]> m) ∅ env.

Definition env_warning (env : list ArgEnvironmentVar) : list string :=
  if negb (Z.of_nat (size (collect_env env)) =? Z.of_nat (length env))
  then ["Some environment variables were ignored. Check if you haven't used duplicate keys."]
  else [].

(** [submit_computation], up to the message: the request and the warnings. *)
Definition submit_request (opts : SubmitOpts) : outcome (result string (SubmitRequest * list string)) :=
  let resources := resource_request opts in
  if negb (resources_validate resources) then Ret (Err validate_error)
  else
    match job_type_of opts with
    | Err e => Ret (Err e)
    | Ok (jt, entries, w1) =>
        w2 ← array_warning opts jt;
        match job_name_of opts with
        | Err e => Ret (Err e)
        | Ok name =>
            submit_dir ← unwrap current_dir;
            Ret (Ok
              ({| sr_job_type := jt; sr_name := name; sr_max_fails := sub_max_fails opts;
                  sr_spec := {| pd_args := sub_command opts :: sub_args opts;
                                pd_env := collect_env (sub_env opts);
                                pd_stdout := output_of (sub_stdout opts) (sub_log opts) DEFAULT_STDOUT_PATH;
                                pd_stderr := output_of (sub_stderr opts) (sub_log opts) DEFAULT_STDERR_PATH;
                                pd_cwd := Some (sub_cwd opts) |};
                  sr_resources := resources; sr_pin := sub_pin opts; sr_entries := entries;
                  sr_submit_dir := submit_dir; sr_priority := sub_priority opts;
                  sr_time_limit := sub_time_limit opts; sr_log := sub_log opts |},
               w1 ++ w2 ++ env_warning (sub_env opts)))
        end
    end.

End submit.

(** ** The commands *)

(** [struct ResubmitOpts] *)
Record ResubmitOpts := {
  ro_job_id : Z;
  ro_status : option (list Status)
}.

Section commands.
Context `{Tako} `{Profile} `{!Terminal}.
Context (resource_request_new : CpuRequest -> ResourceRequest) (validate_error : string).
Context (metadata_len : string -> result string Z) (read_file : string -> result string string).
Context (current_dir : option string).
(** The [k]-th answer of the server on the connection. *)
Context (send_and_receive : nat -> FromClientMessage -> result string ToClientMessage).
Context (debug_message : ToClientMessage -> string).

(** What is printed of a job: the rows of the job, and those of its tasks. *)
Abbreviation JobTables := (list (list string) * option (list (list string) * option string))%type.

Definition submit_response (m : ToClientMessage) : option JobDetail :=
  match m with SubmitResponse job => Some job | _ => None end.

(** The end of both commands: the workers are asked for, and the job is printed. *)
Definition print_submitted (job : JobDetail) : outcome (result string JobTables) :=
  match get_worker_map (send_and_receive 1) debug_message with
  | Err e => Ret (Err e)
  | Ok workers => t ← print_job_detail job true false workers; Ret (Ok t)
  end.

(** [submit_computation]: what is printed before the wait, and the result; [None]: it
    still waits after [fuel] rounds. *)
Definition submit_computation (fuel : nat) (opts : SubmitOpts) :
    option (outcome (option JobTables * result string unit)) :=
  match submit_request resource_request_new validate_error metadata_len read_file current_dir opts with
  | Panic why => Some (Panic why)
  | Ret (Err e) => Some (Ret (None, Err e))
  | Ret (Ok (message, _)) =>
      match rpc_call (send_and_receive 0) debug_message (Submit message) submit_response with
      | Err e => Some (Ret (None, Err e))
      | Ok job =>
          match print_submitted job with
          | Panic why => Some (Panic why)
          | Ret (Err e) => Some (Ret (None, Err e))
          | Ret (Ok t) =>
              if sub_wait opts then
                match wait_for_job_with_info
                        (fun k selector => rpc_call (send_and_receive (2 + k)) debug_message
                           (JobInfoRequest selector) job_infos) fuel (jd_info job) with
                | Some r => Some (r ← r; Ret (Some t, r))
                | None => None
                end
              else Some (Ret (Some t, Ok tt))
          end
      end
  end.

(** [resubmit_computation] *)
Definition resubmit_computation (opts : ResubmitOpts) : outcome (result string JobTables) :=
  match rpc_call (send_and_receive 0) debug_message
          (Resubmit {| rr_job_id := ro_job_id opts; rr_status := ro_status opts |}) submit_response with
  | Err e => Ret (Err e)
  | Ok job => print_submitted job
  end.

End commands.

(** ** Lemmas: lines *)

#[local] Arguments String.append !_ _ /.

(** A line of a file: no newline in it. *)
Definition is_line (l : string) : Prop := contains_char "010" l = false.

(** A file with the given lines, each ended by a newline. *)
Fixpoint join_lines (ls : list string) : string :=
  match ls with
  | [] => ""
  | l :: ls => l +:+ String "010" (join_lines ls)
  end.

Lemma is_line_cons c l : is_line (String c l) <-> Ascii.eqb c "010" = false /\ is_line l.
Proof.
  unfold is_line, contains_char. simpl. destruct (Ascii.eqb c "010"); simpl; naive_solver.
Qed.

Lemma split_lines_app l s : is_line l -> split_lines (l +:+ String "010" s) = l :: split_lines s.
Proof.
  induction l as [|c l IH]; intros Hl; [done|].
  apply is_line_cons in Hl as [Hc Hl]. simpl. by rewrite Hc, IH.
Qed.

Lemma split_lines_last l : is_line l -> l <> "" -> split_lines l = [l].
Proof.
  induction l as [|c l IH]; intros Hl Hne; [done|].
  apply is_line_cons in Hl as [Hc Hl]. simpl. rewrite Hc. destruct l as [|d l]; [done|].
  by rewrite IH.
Qed.

(** The lines of a file, whether or not the last one is ended by a newline. *)
Lemma split_join_lines ls l :
  Forall is_line ls -> is_line l ->
  split_lines (join_lines ls +:+ l) = ls ++ (if String.eqb l "" then [] else [l]).
Proof.
  intros Hls Hl. induction Hls as [|x ls Hx _ IH].
  - simpl. destruct (String.eqb_spec l "") as [->|Hne]; [done|]. by apply split_lines_last.
  - cbn [join_lines]. rewrite app_str_assoc. cbn [String.append].
    rewrite split_lines_app by done. by rewrite IH.
Qed.

(** ** A task for every line *)

Lemma array_ids_from_range n :
  0 <= n < 2 ^ 32 -> array_wf (from_range 0 n) /\ array_ids (from_range 0 n) = seqZ 0 n.
Proof.
  intros Hn. split.
  - split; simpl; [|lia]. apply Forall_singleton. unfold range_wf. simpl. lia.
  - unfold array_ids, from_range. cbn [ranges fmap list_fmap concat]. rewrite app_nil_r.
    unfold range_ids. cbn [start count step]. rewrite range_step_by_one. f_equal. lia.
Qed.

Section properties.
Context `{Tako} `{Profile}.
Context (resource_request_new : CpuRequest -> ResourceRequest) (validate_error : string).
Context (metadata_len : string -> result string Z) (read_file : string -> result string string).
Context (current_dir : option string).

Abbreviation submit_request :=
  (submit_request resource_request_new validate_error metadata_len read_file current_dir).

(** The lines of a file that ends with or without a newline. *)
Definition file_lines (ls : list string) (rest : string) : list string :=
  ls ++ (if String.eqb rest "" then [] else [rest]).

(** The number of tasks is far from the end of [u32]. *)
Definition lines_fit (lines : list string) : Prop := 2 * Z.of_nat (length lines) < 2 ^ 32.

Lemma array_warning_from_range opts n :
  0 <= n -> 2 * n < 2 ^ 32 ->
  exists w, array_warning opts (Array (from_range 0 n)) = Ret w.
Proof.
  intros Hn0 Hn. unfold array_warning.
  assert (Hc : id_count (from_range 0 n) = Ret n).
  { unfold id_count. rewrite u32_sum_exact; simpl; [f_equal; lia| |lia].
    repeat constructor. lia. }
  rewrite Hc. destruct (is_dir_some (sub_stdout opts)), (is_dir_some (sub_stderr opts)); simpl;
    rewrite ?u32_add_exact by lia; simpl; rewrite ?u32_add_exact by lia; by eexists.
Qed.

Lemma submit_request_each_line opts filename len ls rest name dir :
  resources_validate (resource_request resource_request_new opts) = true ->
  sub_each_line opts = Some filename -> metadata_len filename = Ok len ->
  read_file filename = Ok (join_lines ls +:+ rest) -> Forall is_line ls -> is_line rest ->
  lines_fit (file_lines ls rest) -> job_name_of opts = Ok name -> current_dir = Some dir ->
  exists r w, submit_request opts = Ret (Ok (r, w)) /\
    sr_job_type r = Array (from_range 0 (Z.of_nat (length (file_lines ls rest)))) /\
    sr_entries r = Some (file_lines ls rest) /\ sr_log r = sub_log opts /\
    sr_resources r = resource_request resource_request_new opts /\ sr_pin r = sub_pin opts /\
    sr_submit_dir r = dir /\ pd_args (sr_spec r) = sub_command opts :: sub_args opts.
Proof.
  intros Hv He Hlen Hread Hls Hrest Hfit Hname ->. unfold Submit.submit_request, job_type_of.
  rewrite Hv, He. cbn [negb]. unfold read_lines. rewrite Hlen, Hread, split_join_lines by done.
  fold (file_lines ls rest). unfold lines_fit in Hfit.
  assert (as_u32 (Z.of_nat (length (file_lines ls rest))) = Z.of_nat (length (file_lines ls rest))) as ->.
  { apply as_u32_id. unfold is_u32. lia. }
  destruct (array_warning_from_range opts (Z.of_nat (length (file_lines ls rest)))) as [w ->]; [lia..|].
  cbn [mbind outcome_bind]. rewrite Hname. cbn [unwrap mbind outcome_bind]. eauto 12.
Qed.

(** The task definition of a line. *)
Definition starts_line (opts : SubmitOpts) (job_id base : Z) (k : nat) (line : string) (d : TaskDef) : Prop :=
  td_id d = base + Z.of_nat k /\
  exists program,
    serialize {| tb_program := program; tb_pin := sub_pin opts; tb_job_id := job_id;
                 tb_task_id := Z.of_nat k |} = Some (td_body d) /\
    pd_args program = sub_command opts :: sub_args opts /\
    pd_env program !! HQ_ENTRY = Some line /\
    pd_env program !! HQ_TASK_ID = Some (to_string (Z.of_nat k)) /\
    pd_env program !! HQ_JOB_ID = Some (to_string job_id).

Lemma describes_lines opts r job_id base defs lines :
  sr_job_type r = Array (from_range 0 (Z.of_nat (length lines))) -> sr_entries r = Some lines ->
  sr_pin r = sub_pin opts -> pd_args (sr_spec r) = sub_command opts :: sub_args opts ->
  Z.of_nat (length lines) < 2 ^ 32 ->
  describes r job_id base defs ->
  Forall2 (fun kl d => starts_line opts job_id base kl.1 kl.2 d) (imap pair lines) defs.
Proof.
  intros Hjt Hen Hpin Hargs Hn [Hid Hrows].
  destruct (array_ids_from_range (Z.of_nat (length lines))) as [_ Hids]; [lia|].
  assert (Hsr : submit_rows r = zip (seqZ 0 (Z.of_nat (length lines))) (Some <$> lines)).
  { unfold submit_rows. by rewrite Hjt, Hen, Hids. }
  assert (Hlen : length (submit_rows r) = length lines).
  { rewrite Hsr, length_zip_with, length_seqZ, length_fmap. lia. }
  apply Forall2_same_length_lookup_2.
  { rewrite length_imap, <- Hlen. by apply Forall2_length in Hrows. }
  intros k [k' line] d Hkl Hd. rewrite list_lookup_imap in Hkl.
  apply fmap_Some in Hkl as (line' & Hl & [= -> ->]). cbn [fst snd].
  assert (Hk : (k < length lines)%nat) by by apply lookup_lt_Some in Hl.
  assert (Hrow : submit_rows r !! k = Some (Z.of_nat k, Some line')).
  { rewrite Hsr, lookup_zip_with, lookup_seqZ_lt by lia. simpl.
    by rewrite list_lookup_fmap, Hl. }
  destruct (Forall2_lookup_lr _ _ _ _ _ _ Hrows Hrow Hd) as (program & Hs & Henv & Ha & _).
  split.
  - assert (Hd' : (td_id <$> defs) !! k = Some (td_id d)) by by rewrite list_lookup_fmap, Hd.
    rewrite Hid, Hlen, lookup_seqZ_lt in Hd' by lia. congruence.
  - exists program. cbn [fst snd] in *. rewrite Ha, Henv, Hargs, <- Hpin. split; [done|].
    split; [done|]. unfold task_env. split_and!; by simplify_map_eq.
Qed.

(** C8: [hq submit --each-line] on a readable file makes a request with which the
    server adds one job that has exactly one waiting task per line of the file (in
    order, with or without a final newline): task [k] gets the id [base + k], runs
    the command of the submit and finds line [k] in [HQ_ENTRY]. *)
Theorem each_line_submit (serialize_total : forall b, is_Some (serialize b))
    s now opts filename len ls rest name dir :
  state_wf s -> job_id_counter s < 2 ^ 32 - 1 -> base_free s ->
  resources_validate (resource_request resource_request_new opts) = true ->
  sub_each_line opts = Some filename -> metadata_len filename = Ok len ->
  read_file filename = Ok (join_lines ls +:+ rest) -> Forall is_line ls -> is_line rest ->
  lines_fit (file_lines ls rest) -> job_name_of opts = Ok name -> current_dir = Some dir ->
  exists r w s' j ctl next defs,
    submit_request opts = Ret (Ok (r, w)) /\ handle_submit s r now = Ret (s', ctl, next) /\
    (ctl, next) = submit_next r (job_id_counter s) defs (make_job_detail j false now) /\
    jobs s' = <[job_id_counter s := j]> (jobs s) /\
    (forall t, job_tasks j !! t = (if decide (t ∈ td_id <$> defs) then Some Waiting else None)) /\
    Forall2 (fun kl d => starts_line opts (job_id_counter s) (task_id_counter s) kl.1 kl.2 d)
      (imap pair (file_lines ls rest)) defs.
Proof.
  intros Hwf Hlt Hfree Hv He Hlen Hread Hls Hrest Hfit Hname Hdir.
  destruct (submit_request_each_line opts filename len ls rest name dir)
    as (r & w & Hr & Hjt & Hen & Hlog & Hres & Hpin & _ & Hargs); [done..|].
  unfold lines_fit in Hfit.
  destruct (array_ids_from_range (Z.of_nat (length (file_lines ls rest)))) as [Hawf Hids]; [lia|].
  destruct (submit_ok serialize_total s r now) as (s' & j & defs & Hsub & _ & Hjobs & _ & _ & Hdesc & Hw & Hown);
    [done|done|by rewrite Hjt|by rewrite Hres|done|].
  destruct (submit_next r (job_id_counter s) defs (make_job_detail j false now)) as [ctl next] eqn:En.
  destruct Hsub as [Hsub _]. exists r, w, s', j, ctl, next, defs.
  split_and!; [done|done|done|done| |by eapply describes_lines; [..|exact Hdesc]; try done; lia].
  assert (Hcov : entries_cover r).
  { unfold entries_cover. rewrite Hjt, Hen, Hids, length_seqZ. lia. }
  intros t. destruct (job_tasks j !! t) as [st|] eqn:Ht.
  - rewrite decide_True by (apply Hown; by eauto). f_equal. by eapply Hw.
  - rewrite decide_False; [done|]. intros Hin%(Hown Hcov). rewrite Ht in Hin. by destruct Hin.
Qed.

End properties.

(** ** Where outputs go *)

Section outputs.
Context `{Tako} `{Profile}.
Context (resource_request_new : CpuRequest -> ResourceRequest) (validate_error : string).
Context (metadata_len : string -> result string Z) (read_file : string -> result string string).
Context (dir : string).

Abbreviation submit_request :=
  (submit_request resource_request_new validate_error metadata_len read_file (Some dir)).

(** The output of a task, as the launcher of a worker resolves it. *)
Definition task_output_def (stderr : bool) (r : SubmitRequest) (job_id task_id instance : Z)
    (date cwd : string) : StdioDef :=
  locate (sr_submit_dir r)
    (cwd_table (to_string job_id) (to_string task_id) (to_string instance) (sr_submit_dir r) date)
    cwd (if stderr then pd_stderr (sr_spec r) else pd_stdout (sr_spec r)).

Definition default_path (stderr : bool) (job_id task_id : Z) : string :=
  "job-" +:+ to_string job_id +:+ (if stderr then "/stderr." else "/stdout.") +:+ to_string task_id.

Lemma expand_default (stderr : bool) job_id task_id instance submit_dir date cwd :
  expand (("%{CWD}", cwd) :: cwd_table (to_string job_id) (to_string task_id) (to_string instance)
    submit_dir date) (if stderr then DEFAULT_STDERR_PATH else DEFAULT_STDOUT_PATH)
  = default_path stderr job_id task_id.
Proof.
  unfold default_path.
  generalize (to_string job_id), (to_string task_id), (to_string instance). intros a b c.
  transitivity ("job-" +:+ a +:+ (if stderr then "/stderr." else "/stdout.") +:+ b +:+ "").
  - destruct stderr; reflexivity.
  - by rewrite app_str_nil.
Qed.

Lemma digits_then_slash a b u v :
  str_all is_dec_digit a = true -> str_all is_dec_digit b = true ->
  a +:+ String "/" u = b +:+ String "/" v -> a = b /\ u = v.
Proof.
  revert b. induction a as [|c a IH]; intros [|d b] Ha Hb Heq; simpl in *.
  - by injection Heq.
  - injection Heq as <- _. by apply andb_true_iff in Hb as [? _].
  - injection Heq as -> _. by apply andb_true_iff in Ha as [? _].
  - injection Heq as <- Heq. apply andb_true_iff in Ha as [_ Ha], Hb as [_ Hb].
    destruct (IH b Ha Hb Heq) as [-> ->]. done.
Qed.

Lemma to_string_inj a b : is_u64 a -> is_u64 b -> to_string a = to_string b -> a = b.
Proof. intros Ha Hb Heq. rewrite <- (dec_value_to_string a), Heq by done. by apply dec_value_to_string. Qed.

Lemma default_path_inj e1 e2 j1 j2 t1 t2 :
  is_u64 j1 -> is_u64 j2 -> is_u64 t1 -> is_u64 t2 ->
  default_path e1 j1 t1 = default_path e2 j2 t2 -> e1 = e2 /\ j1 = j2 /\ t1 = t2.
Proof.
  intros Hj1 Hj2 Ht1 Ht2 Heq. unfold default_path in Heq. apply app_str_inj in Heq.
  destruct e1, e2; cbn [String.append] in Heq;
    apply digits_then_slash in Heq as [Hj Heq]; try apply to_string_digits; try discriminate;
    repeat (injection Heq as Heq); apply to_string_inj in Hj, Heq; auto.
Qed.

Lemma path_join_relative base p q :
  path_join base (String "j" p) = path_join base (String "j" q) -> p = q.
Proof.
  unfold path_join. destruct base as [|c base]; [by intros [= ->]|].
  destruct (ends_with_slash (String c base)); intros Heq; apply app_str_inj in Heq;
    by injection Heq as ->.
Qed.

Lemma submit_request_outputs opts r w :
  submit_request opts = Ret (Ok (r, w)) ->
  sr_submit_dir r = dir /\
  pd_stdout (sr_spec r) = output_of (sub_stdout opts) (sub_log opts) DEFAULT_STDOUT_PATH /\
  pd_stderr (sr_spec r) = output_of (sub_stderr opts) (sub_log opts) DEFAULT_STDERR_PATH.
Proof.
  unfold Submit.submit_request. intros Hr. destruct (negb _); [done|].
  destruct (job_type_of _ _ opts) as [[[jt es] w1]|]; [|done].
  destruct (array_warning opts jt) as [w2|]; [|done]. cbn [mbind outcome_bind] in Hr.
  destruct (job_name_of opts); [|done]. cbn [unwrap mbind outcome_bind] in Hr. by simplify_eq.
Qed.

(** The outputs of the tasks are left to the defaults. *)
Definition default_outputs (opts : SubmitOpts) : Prop :=
  sub_stdout opts = None /\ sub_stderr opts = None.

Lemma task_output_default opts r w e j t i date cwd :
  submit_request opts = Ret (Ok (r, w)) -> default_outputs opts -> sub_log opts = None ->
  task_output_def e r j t i date cwd = StdioFile (path_join dir (default_path e j t)).
Proof.
  intros Hr [Ho He] Hl. apply submit_request_outputs in Hr as (Hd & Hout & Herr).
  unfold task_output_def. rewrite Hd, Hout, Herr, Ho, He, Hl. unfold output_of.
  rewrite <- (expand_default e j t i dir date cwd). by destruct e.
Qed.


End outputs.

(** A name of forty characters can have more than forty bytes: twenty-one times
    the two bytes of an accented letter. *)
Example validate_name_counts_bytes :
  let letter := String "195" (String "169" "") in
  let name := Nat.iter 21 (String.append letter) "" in
  validate_name name = Err "name cannot be more than 40 characters".
Proof. vm_compute. reflexivity. Qed.

(** ** Arrays of the command line *)

Lemma length_unit_ids rs :
  Forall range_wf rs -> Forall (fun r => step r = 1) rs ->
  Z.of_nat (length (concat (range_ids <$> rs))) = sumZ (count <$> rs).
Proof.
  induction 1 as [|r rs Hr _ IH]; intros Hs; csimpl; [done|].
  apply Forall_cons in Hs as [Hs1 Hs]. rewrite length_app, Nat2Z.inj_add, IH by done.
  rewrite length_range_ids by done. rewrite Hs1, Z.div_1_r. lia.
Qed.

(** Distinct ids below [2 ^ 32 - 1] are less than [2 ^ 32] many. *)
Lemma distinct_array_wf a :
  Forall range_wf (ranges a) -> Forall (fun r => step r = 1) (ranges a) -> NoDup (array_ids a) ->
  array_wf a.
Proof.
  intros Hwf Hs Hnd. split; [done|]. rewrite <- length_unit_ids by done. fold (array_ids a).
  assert (Hle : (length (array_ids a) <= length (seqZ 0 (2 ^ 32 - 1)))%nat).
  { apply submseteq_length, NoDup_submseteq; [done|]. intros x Hx. apply elem_of_seqZ.
    pose proof (array_ids_small a Hwf) as Hsm. rewrite Forall_forall in Hsm.
    specialize (Hsm x Hx). unfold small_id in Hsm. lia. }
  rewrite length_seqZ in Hle. lia.
Qed.

Section arrays.
Context `{Tako} `{Profile} `{Nom}.
Context (resource_request_new : CpuRequest -> ResourceRequest) (validate_error : string).
Context (metadata_len : string -> result string Z) (read_file : string -> result string string).
Context (current_dir : option string).


End arrays.

(** With steps the count of an accepted array, which is taken over whole ranges,
    can exceed [u32] although it selects ten ids: with overflow checks the client
    panics before it sends the request, and a server that gets the request from
    another client panics too. *)
Theorem stepped_array_overflows `{Tako} (P := dev) (N := nom_impl) :
  exists a, parse_array "0-4294967290:1000000000,1-4294967290:1000000000" = Ret (Ok a) /\
    length (array_ids a) = 10%nat /\ id_count a = Panic ArithmeticOverflow /\
    (forall opts, sub_stdout opts = None -> array_warning opts (Array a) = Panic ArithmeticOverflow) /\
    (forall s r now, state_wf s -> job_id_counter s < 2 ^ 32 - 1 ->
       resources_validate (sr_resources r) = true -> sr_job_type r = Array a ->
       handle_submit s r now = Panic ArithmeticOverflow).
Proof.
  eexists. split; [vm_compute; reflexivity|].
  split; [vm_compute; reflexivity|]. split; [vm_compute; reflexivity|]. split.
  - intros opts Ho. unfold array_warning. rewrite Ho. vm_compute. reflexivity.
  - intros s r now Hwf Hlt Hv Hjt. destruct (allocate_ids s 0 Hwf Hlt ltac:(lia)) as (s1 & Hn & _).
    unfold handle_submit. rewrite Hv. cbn [negb]. rewrite Hn. cbn [mbind outcome_bind].
    rewrite Hjt. reflexivity.
Qed.
