(* ===== verification/Cli.v ===== *)
(** * The [hq] binary: [src/bin/hq.rs]

    The settings, the selectors and the commands that ask a running server: each
    one looks the server up in its directory and then runs the command of
    [JobView.v] on the connection.  The commands [hq log] read a file.  The commands
    that start processes are in [WorkerMain.v], and [main] is in [Main.v].  The
    parsing of the arguments (clap) and the printing are outside. *)

From S2P Require Import Prelude Nom ArrayDef ArrayParser Resources Messages Job State Client Status StreamServer LogFile Launcher ServerDir JobView.

(** ** Selectors ([src/bin/hq.rs]) *)

(** [enum SelectorArg] *)
Inductive SelectorArg := ArgAll | ArgLast | ArgId (a : IntArray).

(** [SelectorArg::from_str]; [IntArray::from_str] is [parse_array]. *)
Definition SelectorArg_from_str `{Profile} `{Nom} (s : string) : outcome (result string SelectorArg) :=
  if String.eqb s "last" then Ret (Ok ArgLast)
  else if String.eqb s "all" then Ret (Ok ArgAll)
  else
    a ← parse_array s;
    Ret match a with Ok a => Ok (ArgId a) | Err e => Err e end.

(** [From<SelectorArg> for Selector] *)
Definition selector_of (arg : SelectorArg) : Selector :=
  match arg with
  | ArgId a => SelSpecific a
  | ArgLast => SelLastN 1
  | ArgAll => SelAll
  end.

(** ** Settings *)

(** [enum ColorPolicy] and its [from_str] *)
Inductive ColorPolicy := PolicyAuto | PolicyAlways | PolicyNever.

Definition ColorPolicy_from_str (s : string) : result string ColorPolicy :=
  if String.eqb s "auto" then Ok PolicyAuto
  else if String.eqb s "always" then Ok PolicyAlways
  else if String.eqb s "never" then Ok PolicyNever
  else Err "Invalid color policy".

(** [cli_table::ColorChoice] *)
Inductive ColorChoice := ColorAlways | ColorAlwaysAnsi | ColorAuto | ColorNever.

(** [struct GlobalSettings] *)
Record GlobalSettings := {
  color_policy : ColorChoice;
  server_directory : string
}.

(** The color policy of [make_global_settings]; [tty]: standard output is a terminal. *)
Definition color_choice (tty : bool) (colors : ColorPolicy) : ColorChoice :=
  match colors with
  | PolicyAlways => ColorAlwaysAnsi
  | PolicyAuto => if tty then ColorAuto else ColorNever
  | PolicyNever => ColorNever
  end.

(** [set_colored_settings]: the override, if it is set. *)
Definition set_colored_settings (settings : GlobalSettings) : option bool :=
  match color_policy settings with
  | ColorAlways | ColorAlwaysAnsi => Some true
  | ColorNever => Some false
  | ColorAuto => None
  end.

(** [Channel::from_str] ([src/client/commands/log.rs]) *)
Definition Channel_from_str (s : string) : result string Channel :=
  if String.eqb s "stdout" then Ok Stdout
  else if String.eqb s "stderr" then Ok Stderr
  else Err "Invalid channel".

(** ** Commands on a log *)

(** [print_summary] *)
Definition print_summary (filename : string) (s : Summary) : list (list string) :=
  [["Filename"; filename]; ["Tasks"; to_string (su_n_tasks s)];
   ["Opened streams"; to_string (su_n_opened s)];
   ["Stdout/stderr size"; human_size (su_stdout_size s) +:+ " / " +:+ human_size (su_stderr_size s)];
   ["Superseded streams"; to_string (su_n_superseded s)];
   ["Superseded stdout/stderr size";
    human_size (su_superseded_stdout_size s) +:+ " / " +:+ human_size (su_superseded_stderr_size s)]].

(** [enum LogCommand] and what it prints *)
Inductive LogCommand := LogSummary | LogShow (opts : ShowOpts) | LogCat (opts : CatOpts).
Inductive LogOutput := OutRows (rows : list (list string)) | OutLines (lines : list ShowLine) | OutBytes (b : list Z).

(** [command_log] on the content of the file, if it can be opened. *)
Definition command_log `{ByteOrder} `{Profile} (filename : string) (file : result string (list Z))
    (command : LogCommand) : option (outcome (result string LogOutput)) :=
  match file with
  | Err e => Some (Ret (Err e))
  | Ok bytes =>
      r ← LogFile_open bytes;
      match r with
      | Err e => Some (Ret (Err e))
      | Ok log_file =>
          match command with
          | LogSummary =>
              Some (s ← summary log_file; Ret (Ok (OutRows (print_summary filename s))))
          | LogShow opts =>
              shown ← show log_file opts;
              Some (r ← shown; Ret match r with Ok l => Ok (OutLines l) | Err e => Err e end)
          | LogCat opts =>
              Some (r ← cat log_file opts; Ret match r with Ok b => Ok (OutBytes b) | Err e => Err e end)
          end
      end
  end.

(** ** Commands on a server *)

Section commands.
Context `{Profile} `{Tako} `{!Terminal} `{Keys} `{AccessFormat} `{HostEnv}.
(** The home directory, the directory for temporary files. *)
Context (home_dir : option string) (temp_dir : string) (tty : bool).

(** [make_global_settings] *)
Definition make_global_settings (server_dir : option string) (colors : ColorPolicy) : outcome GlobalSettings :=
  let default_server_directory_path := path_join (default temp_dir home_dir) ".hq-server" in
  dir ← absolute_path (default default_server_directory_path server_dir);
  Ret {| server_directory := dir; color_policy := color_choice tty colors |}.

(** The host with the servers that run, and the connection to one of them. *)
Context (w : ServerWorld).
Context (send_and_receive : AccessRecord -> FromClientMessage -> result string ToClientMessage).
Context (debug_message : ToClientMessage -> string).

(** [get_client_connection(gsettings.server_directory()).await?], then the command. *)
Definition with_client {A} (gsettings : GlobalSettings)
    (command : AccessRecord -> outcome (result string A)) : outcome (result string A) :=
  c ← get_client_connection w (server_directory gsettings);
  match c with
  | Err e => Ret (Err e)
  | Ok connection => command connection
  end.

(** [command_job_list] *)
Definition command_job_list (gsettings : GlobalSettings) (job_filters : list Status) :
    outcome (result string (list (list string))) :=
  with_client gsettings (fun c => output_job_list (send_and_receive c) debug_message job_filters).

(** [command_cancel] *)
Definition command_cancel (gsettings : GlobalSettings) (arg : SelectorArg) : outcome (result string (list string)) :=
  with_client gsettings (fun c => Ret (cancel_job (send_and_receive c) debug_message (selector_of arg))).

(** [command_worker_stop] *)
Definition command_worker_stop (gsettings : GlobalSettings) (arg : SelectorArg) : outcome (result string (list string)) :=
  with_client gsettings (fun c => Ret (stop_worker (send_and_receive c) debug_message (selector_of arg))).

(** [command_worker_list] *)
Definition command_worker_list (gsettings : GlobalSettings) (running offline : bool) :
    outcome (result string (list (list string))) :=
  with_client gsettings (fun c =>
    let '(online, offline) := if negb running && negb offline then (true, true) else (running, offline) in
    Ret match get_worker_list (send_and_receive c) debug_message online offline with
        | Err e => Err e
        | Ok workers => Ok (print_worker_info workers)
        end).

(** [command_worker_address] *)
Definition command_worker_address (gsettings : GlobalSettings) (worker_id : Z) : outcome (result string string) :=
  with_client gsettings (fun c =>
    Ret match get_worker_info (send_and_receive c) debug_message worker_id with
        | Err e => Err e
        | Ok (Some info) => Ok (hostname (wi_configuration info))
        | Ok None => Err ("Worker " +:+ to_string worker_id +:+ " not found")
        end).

(** [command_worker_info]: the table, or the message. *)
Definition command_worker_info (gsettings : GlobalSettings) (worker_id : Z) :
    outcome (result string (string + list (list string))) :=
  with_client gsettings (fun c =>
    Ret match get_worker_info (send_and_receive c) debug_message worker_id with
        | Err e => Err e
        | Ok (Some worker) => Ok (inr (print_worker_configuration worker_id (wi_configuration worker)))
        | Ok None => Ok (inl ("Worker " +:+ to_string worker_id +:+ " not found"))
        end).

(** [command_server_info] *)
Definition command_server_info (gsettings : GlobalSettings) (stats : bool) :
    outcome (result string (AccessRecord + list (list string))) :=
  if stats then
    with_client gsettings (fun c =>
      Ret match print_server_stats (send_and_receive c) debug_message with
          | Err e => Err e
          | Ok rows => Ok (inr rows)
          end)
  else
    r ← print_server_info w (server_directory gsettings);
    Ret match r with Err e => Err e | Ok record => Ok (inl record) end.

(** [command_job_detail] *)
Definition command_job_detail (gsettings : GlobalSettings) (arg : SelectorArg) (tasks : bool) :
    outcome (list Shown * result string unit) :=
  match arg with
  | ArgAll =>
      Ret ([ShownError "Specifier all is not implemented for job details, did you mean: job list?"], Ok tt)
  | _ =>
      c ← get_client_connection w (server_directory gsettings);
      match c with
      | Err e => Ret ([], Err e)
      | Ok connection => output_job_detail (send_and_receive connection) debug_message (selector_of arg) tasks
      end
  end.
End commands.
