(* ===== verification/WorkerMain.v ===== *)
(** * [hq worker start] and the commands on the server process

    [start_hq_worker] of [src/worker/start.rs] finds the server through its directory
    and joins it; [command_server_start], [command_server_stop] and
    [command_worker_start] of [src/bin/hq.rs] are the entries of the processes.  The
    name lookup and [tako]'s [run_worker] are arguments. *)

From S2P Require Import Prelude Nom ArrayDef Resources Messages Job Status State Client Server Backend Protocol Streamer Launcher TaskRun WorkerStart ServerDir Connection System Bootstrap Cli.

Section worker.
Context `{Keys} `{!AccessFormat} `{HostEnv}.
(** The arguments of [gather_configuration] ([WorkerStart.v]). *)
Context (Value : Type) (from_str : string -> result string Value).
Context (get_str : Value -> list string -> option string).
Context (info_to_string : ManagerInfo -> result string string).
Context (env_var : string -> option string) (qstat : string -> result string string).
Context (hostname tmpdir : option string).
Context `{Nom} (new_with_socket_size : Z -> Z -> ResourceDescriptor).
Context (err_to_string : nom_Err ErrorKind -> string).
Context (read_to_string : string -> result string string) (num_cpus : Z).
(** [tokio::net::lookup_host], and [tako]'s [run_worker]: the id and the configuration
    of the worker that was registered at an address with a key. *)
Context {Addr : Type} (lookup_host : string -> result string (list Addr)).
Context (run_worker : Addr -> WorkerConfig -> option SecretKey -> result string (Z * WorkerConfig)).

Abbreviation gather_configuration :=
  (gather_configuration Value from_str get_str info_to_string env_var qstat hostname tmpdir
     new_with_socket_size err_to_string read_to_string num_cpus).

(** What a started worker holds: the address and the key it and its streamer use, its
    id and its configuration. *)
Record StartedWorker := {
  sw_addr : Addr;
  sw_key : SecretKey;
  sw_id : Z;
  sw_configuration : WorkerConfig
}.

(** [start_hq_worker], up to the run of the worker. *)
Definition start_hq_worker (fs : FileSystem) (server_directory : string) (opts : WorkerStartOpts) :
    outcome (result string StartedWorker) :=
  server_dir ← ServerDir_open fs server_directory;
  match server_dir with
  | Err _ => Ret (Err "Cannot load server directory")
  | Ok server_dir =>
      match read_access_record fs server_dir with
      | Err _ => Ret (Err ("Cannot load access record from " +:+ debug_path (access_filename server_dir)))
      | Ok record =>
          let server_address := ar_host record +:+ (":" +:+ to_string (ar_worker_port record)) in
          configuration ← gather_configuration opts;
          match configuration with
          | Err e => Ret (Err e)
          | Ok configuration =>
              match lookup_host server_address with
              | Err e => Ret (Err e)
              | Ok addrs =>
                  server_addr ← unwrap (head addrs);
                  Ret match run_worker server_addr configuration (Some (ar_tako_secret_key record)) with
                      | Err e => Err e
                      | Ok (worker_id, configuration) =>
                          Ok {| sw_addr := server_addr; sw_key := ar_tako_secret_key record;
                                sw_id := worker_id; sw_configuration := configuration |}
                      end
              end
          end
      end
  end.

(** [command_worker_start] *)
Definition command_worker_start (fs : FileSystem) (gsettings : GlobalSettings) (opts : WorkerStartOpts) :
    outcome (result string StartedWorker) :=
  start_hq_worker fs (server_directory gsettings) opts.

(** A worker that is started in the directory of a running server joins exactly this
    server: it uses the worker port and the [tako] key of the record. *)
Lemma worker_joins_server w dir x w1 opts configuration addr rest :
  fresh_run (sw_fs w) dir (format_date (st_now x)) ->
  link_replaceable (sw_fs w) (path_join dir SYMLINK_PATH) ->
  initialize_server w dir x = Ret (w1, Ok (AccessRecord_new x)) ->
  gather_configuration opts = Ret (Ok configuration) ->
  lookup_host (st_host x +:+ (":" +:+ to_string (st_worker_port x))) = Ok (addr :: rest) ->
  start_hq_worker (sw_fs w1) dir opts =
    Ret match run_worker addr configuration (Some (st_tako_key x)) with
        | Err e => Err e
        | Ok (worker_id, configuration) =>
            Ok {| sw_addr := addr; sw_key := st_tako_key x; sw_id := worker_id; sw_configuration := configuration |}
        end.
Proof.
  intros Hf Hlink Hi Hg Hl. destruct (start_publishes w dir x Hf Hlink) as (text & w2 & Hi2 & _ & _ & Hpub).
  rewrite Hi in Hi2. injection Hi2 as <-. destruct (Hpub []) as (sd & Hopen & Hread & _).
  unfold start_hq_worker. rewrite Hopen. cbn [mbind outcome_bind]. rewrite Hread, Hg.
  cbn [mbind outcome_bind ar_host ar_worker_port AccessRecord_new]. by rewrite Hl.
Qed.

End worker.

(** ** The commands on the server process ([src/bin/hq.rs]) *)

Section server_commands.
Context `{Profile} `{Tako} `{Auth} `{!AccessFormat} `{HostEnv} `{Serde FromClientMessage} `{Serde ToClientMessage}.
Context {Core : Type}.
Context (process_client_message :
  Core -> FromGatewayMessage -> Core * list ToGatewayMessage * option string).

(** [struct ServerStartOpts] *)
Record ServerStartOpts := {
  so_host : option string;
  so_idle_timeout : option Z;
  so_autoalloc_interval : option Z
}.

(** [command_server_start]; [gethostname]: the host name, when it is UTF-8. *)
Definition command_server_start (gethostname : option string) (w : ServerWorld) (cwd : string)
    (gsettings : GlobalSettings) (opts : ServerStartOpts) (env : Environment) (es : list SelectEvent) :
    outcome (ServerWorld * StartResult (Core := Core)) :=
  host ← match so_host opts with Some host => Ret host | None => unwrap gethostname end;
  hq_server_start process_client_message w (server_directory gsettings) cwd
    {| cfg_host := host; cfg_idle_timeout := so_idle_timeout opts;
       cfg_autoalloc_interval := so_autoalloc_interval opts |} env es.

(** [stop_server]: the connection sends [Stop]; [write]: the outcome of the write. *)
Definition stop_server (connection : HqConnection ToClientMessage FromClientMessage)
    (write : list Z -> result string unit) : result string unit :=
  let '(_, _, r) := send connection write Stop in r.

(** [command_server_stop], with the connection to the server that is found. *)
Definition command_server_stop (w : ServerWorld) (gsettings : GlobalSettings)
    (connect : AccessRecord -> HqConnection ToClientMessage FromClientMessage)
    (write : list Z -> result string unit) : outcome (result string unit) :=
  with_client w gsettings (fun record => Ret (stop_server (connect record) write)).

End server_commands.
