(* ===== verification/Main.v ===== *)
(** * The entry of the [hq] binary: [main] of [src/bin/hq.rs]

    The sub-commands as [clap] delivers them, their dispatch, and the exit code.  The
    commands are an interface; the instance takes them from [Cli.v], [WorkerMain.v],
    [Submit.v] and [Wait.v] and drops what they print. *)

From S2P Require Import Prelude Nom ArrayDef ArrayParser Resources Messages Job State Client Server Backend Protocol Status StreamServer LogFile Launcher WorkerStart Submit ServerDir Connection System Bootstrap JobView Wait Cli WorkerMain.

(** ** Options *)

(** [enum ServerCommand] with [ServerStartOpts] and [ServerInfoOpts] *)
Inductive ServerCommand :=
| ServerStartCmd (opts : ServerStartOpts)
| ServerStopCmd
| ServerInfoCmd (stats : bool).

(** [enum WorkerCommand] with [WorkerStopOpts], [WorkerListOpts], [WorkerInfoOpts] and
    [WorkerAddressOpts] *)
Inductive WorkerCommand :=
| WorkerStartCmd (opts : WorkerStartOpts)
| WorkerStopCmd (selector_arg : SelectorArg)
| WorkerListCmd (running offline : bool)
| WorkerHwdetectCmd
| WorkerInfoCmd (worker_id : Z)
| WorkerAddressCmd (worker_id : Z).

Section main.
Context `{Tako}.

(** [enum SubCommand] with [JobListOpts], [JobDetailOpts], [CancelOpts] and [WaitOpts] *)
Inductive SubCommand :=
| ServerSub (subcmd : ServerCommand)
| JobsSub (job_filters : list Status)
| JobSub (selector_arg : SelectorArg) (tasks : bool)
| SubmitSub (opts : SubmitOpts)
| CancelSub (selector_arg : SelectorArg)
| WorkerSub (subcmd : WorkerCommand)
| ResubmitSub (opts : ResubmitOpts)
| WaitSub (selector_arg : SelectorArg)
| LogSub (filename : string) (command : LogCommand).

(** ** The commands *)

(** The result of a command; [None]: it still runs (a server, a worker, a wait). *)
Abbreviation CommandResult := (option (outcome (result string unit))).

Class Commands := {
  run_server_start : GlobalSettings -> ServerStartOpts -> CommandResult;
  run_server_stop : GlobalSettings -> CommandResult;
  run_server_info : GlobalSettings -> bool -> CommandResult;
  run_worker_start : GlobalSettings -> WorkerStartOpts -> CommandResult;
  run_worker_stop : GlobalSettings -> SelectorArg -> CommandResult;
  run_worker_list : GlobalSettings -> bool -> bool -> CommandResult;
  run_worker_info : GlobalSettings -> Z -> CommandResult;
  run_worker_hwdetect : CommandResult;
  run_worker_address : GlobalSettings -> Z -> CommandResult;
  run_job_list : GlobalSettings -> list Status -> CommandResult;
  run_job_detail : GlobalSettings -> SelectorArg -> bool -> CommandResult;
  run_submit : GlobalSettings -> SubmitOpts -> CommandResult;
  run_cancel : GlobalSettings -> SelectorArg -> CommandResult;
  run_resubmit : GlobalSettings -> ResubmitOpts -> CommandResult;
  run_wait : GlobalSettings -> SelectorArg -> CommandResult;
  run_log : GlobalSettings -> string -> LogCommand -> CommandResult
}.

(** The [match] of [main] *)
Definition dispatch `{Commands} (gsettings : GlobalSettings) (subcmd : SubCommand) : CommandResult :=
  match subcmd with
  | ServerSub (ServerStartCmd opts) => run_server_start gsettings opts
  | ServerSub ServerStopCmd => run_server_stop gsettings
  | ServerSub (ServerInfoCmd stats) => run_server_info gsettings stats
  | WorkerSub (WorkerStartCmd opts) => run_worker_start gsettings opts
  | WorkerSub (WorkerStopCmd arg) => run_worker_stop gsettings arg
  | WorkerSub (WorkerListCmd running offline) => run_worker_list gsettings running offline
  | WorkerSub (WorkerInfoCmd id) => run_worker_info gsettings id
  | WorkerSub WorkerHwdetectCmd => run_worker_hwdetect
  | WorkerSub (WorkerAddressCmd id) => run_worker_address gsettings id
  | JobsSub filters => run_job_list gsettings filters
  | JobSub arg tasks => run_job_detail gsettings arg tasks
  | SubmitSub opts => run_submit gsettings opts
  | CancelSub arg => run_cancel gsettings arg
  | ResubmitSub opts => run_resubmit gsettings opts
  | WaitSub arg => run_wait gsettings arg
  | LogSub filename command => run_log gsettings filename command
  end.

(** What the process leaves: its exit code and the error it printed. *)
Definition main `{Commands} (settings : outcome GlobalSettings) (subcmd : SubCommand) :
    option (outcome (Z * option string)) :=
  match settings with
  | Panic why => Some (Panic why)
  | Ret gsettings =>
      match dispatch gsettings subcmd with
      | None => None
      | Some r =>
          Some (r ← r;
                Ret match r with
                    | Err e => (1, Some e)
                    | Ok _ => (0, None)
                    end)
      end
  end.

(** The output of a command is dropped. *)
Definition discard {A} (r : outcome (result string A)) : CommandResult :=
  Some (r ← r; Ret match r with Ok _ => Ok tt | Err e => Err e end).

End main.

(** ** The instance *)

Section commands.
Context `{Profile} `{Tako} `{!Terminal} `{Auth} `{!AccessFormat} `{HostEnv} `{Serde FromClientMessage} `{Serde ToClientMessage} `{Nom} `{ByteOrder}.
(** The host with the servers that run, the connections to them, and the [k]-th answer
    of a server on a connection. *)
Context (w : ServerWorld) (connect : AccessRecord -> HqConnection ToClientMessage FromClientMessage).
Context (write : list Z -> result string unit).
Context (replies : AccessRecord -> nat -> FromClientMessage -> result string ToClientMessage).
Context (debug_message : ToClientMessage -> string).
(** The environment of a submit. *)
Context (resource_request_new : CpuRequest -> ResourceRequest) (validate_error : string).
Context (metadata_len : string -> result string Z) (read_text : string -> result string string).
Context (current_directory : option string).
(** The server that this process becomes: the scheduler, the host, and the events. *)
Context {Core : Type} (process_client_message :
  Core -> FromGatewayMessage -> Core * list ToGatewayMessage * option string).
Context (gethostname : option string) (cwd : string) (env : Environment (Core := Core)) (es : list (SelectEvent (Core := Core))).
(** The worker that this process becomes: what its configuration is made of, the
    network, and whether one of its two futures has ended. *)
Context (Value : Type) (from_str : string -> result string Value).
Context (get_str : Value -> list string -> option string) (info_to_string : ManagerInfo -> result string string).
Context (env_var : string -> option string) (qstat : string -> result string string) (tmpdir : option string).
Context (err_to_string : nom_Err ErrorKind -> string).
Context (new_with_socket_size : Z -> Z -> ResourceDescriptor) (num_cpus : Z).
Context {Addr : Type} (lookup_host : string -> result string (list Addr)).
Context (run_worker : Addr -> WorkerConfig -> option SecretKey -> result string (Z * WorkerConfig)).
Context (worker_ended : bool).
(** Log files, and how long a wait is followed. *)
Context (log_file : string -> result string (list Z)) (fuel : nat).

(** [command_submit] *)
Definition command_submit (gsettings : GlobalSettings) (opts : SubmitOpts) :
    option (outcome (result string unit)) :=
  match get_client_connection w (server_directory gsettings) with
  | Panic why => Some (Panic why)
  | Ret (Err e) => Some (Ret (Err e))
  | Ret (Ok c) =>
      match submit_computation resource_request_new validate_error metadata_len read_text current_directory
              (replies c) debug_message fuel opts with
      | Some r => Some (r ← r; Ret r.2)
      | None => None
      end
  end.

(** [command_resubmit] *)
Definition command_resubmit (gsettings : GlobalSettings) (opts : ResubmitOpts) :=
  with_client w gsettings (fun c => resubmit_computation (replies c) debug_message opts).

(** [command_wait] *)
Definition command_wait (gsettings : GlobalSettings) (arg : SelectorArg) :
    option (outcome (result string unit)) :=
  match get_client_connection w (server_directory gsettings) with
  | Panic why => Some (Panic why)
  | Ret (Err e) => Some (Ret (Err e))
  | Ret (Ok c) =>
      wait_for_job_with_selector
        (fun k selector => rpc_call (replies c k) debug_message (JobInfoRequest selector) job_infos)
        fuel (selector_of arg)
  end.

(** [command_server_start]; [None]: the server runs. *)
Definition server_start (gsettings : GlobalSettings) (opts : ServerStartOpts) :
    option (outcome (result string unit)) :=
  match command_server_start process_client_message gethostname w cwd gsettings opts env es with
  | Panic why => Some (Panic why)
  | Ret (_, StartEnded r) => Some (Ret r)
  | Ret (_, StartRuns _ _) => None
  end.

(** [command_worker_start], with the end of [start_hq_worker]: the worker runs until one
    of the futures of the worker and of its streamer ends. *)
Definition worker_start (gsettings : GlobalSettings) (opts : WorkerStartOpts) :
    option (outcome (result string unit)) :=
  match command_worker_start Value from_str get_str info_to_string env_var qstat gethostname tmpdir
          new_with_socket_size err_to_string read_text num_cpus lookup_host run_worker
          (sw_fs w) gsettings opts with
  | Panic why => Some (Panic why)
  | Ret (Err e) => Some (Ret (Err e))
  | Ret (Ok _) => if worker_ended then Some (Ret (Ok tt)) else None
  end.

(** [command_worker_hwdetect]: the descriptor that is printed. *)
Definition command_worker_hwdetect : outcome (result string ResourceDescriptor) :=
  detect_resource new_with_socket_size read_text num_cpus.

(** The commands of the binary. *)
Definition hq_commands : Commands :=
  let ask c := replies c 0%nat in
  {| run_server_start := server_start;
     run_server_stop gs := discard (command_server_stop w gs connect write);
     run_server_info gs stats := discard (command_server_info w ask debug_message gs stats);
     run_worker_start := worker_start;
     run_worker_stop gs arg := discard (command_worker_stop w ask debug_message gs arg);
     run_worker_list gs running offline :=
       discard (command_worker_list w ask debug_message gs running offline);
     run_worker_info gs id := discard (command_worker_info w ask debug_message gs id);
     run_worker_hwdetect := discard command_worker_hwdetect;
     run_worker_address gs id := discard (command_worker_address w ask debug_message gs id);
     run_job_list gs filters := discard (command_job_list w ask debug_message gs filters);
     run_job_detail gs arg tasks := Some (r ← command_job_detail w ask debug_message gs arg tasks; Ret r.2);
     run_submit := command_submit;
     run_cancel gs arg := discard (command_cancel w ask debug_message gs arg);
     run_resubmit gs opts := discard (command_resubmit gs opts);
     run_wait := command_wait;
     run_log gs filename command :=
       match command_log filename (log_file filename) command with
       | Some r => discard r
       | None => None
       end |}.

(** A command that needs the server fails with the error of the connection when no
    server is found, and asks nothing. *)
Definition needs_server (subcmd : SubCommand) : bool :=
  match subcmd with
  | ServerSub (ServerStartCmd _ | ServerInfoCmd false) | WorkerSub (WorkerStartCmd _ | WorkerHwdetectCmd)
  | JobSub ArgAll _ | LogSub _ _ => false
  | _ => true
  end.

Lemma no_server_exit gsettings subcmd e :
  needs_server subcmd = true -> get_client_connection w (server_directory gsettings) = Ret (Err e) ->
  main (H0 := hq_commands) (Ret gsettings) subcmd = Some (Ret (1, Some e)).
Proof.
  intros Hn Hc. unfold main.
  assert (Hw : forall A (f : AccessRecord -> outcome (result string A)), with_client w gsettings f = Ret (Err e))
    by (intros; unfold with_client; by rewrite Hc).
  assert (Hd : dispatch (H0 := hq_commands) gsettings subcmd = Some (Ret (Err e))); [|by rewrite Hd].
  destruct subcmd as [[opts| |[]]|filters|arg tasks|opts|arg|[opts|arg|running offline| |id|id]|opts|arg|file command];
    try done; cbn [dispatch run_server_stop run_server_info run_worker_stop run_worker_list run_worker_info
      run_worker_address run_job_list run_job_detail run_submit run_cancel run_resubmit run_wait hq_commands].
  - unfold command_server_stop. by rewrite Hw.
  - unfold command_server_info. by rewrite Hw.
  - unfold command_job_list. by rewrite Hw.
  - destruct arg; [done| |]; unfold command_job_detail; by rewrite Hc.
  - unfold command_submit. by rewrite Hc.
  - unfold command_cancel. by rewrite Hw.
  - unfold command_worker_stop. by rewrite Hw.
  - unfold command_worker_list. by rewrite Hw.
  - unfold command_worker_info. by rewrite Hw.
  - unfold command_worker_address. by rewrite Hw.
  - unfold command_resubmit. by rewrite Hw.
  - unfold command_wait. by rewrite Hc.
Qed.

End commands.
