(* ===== verification/WaitRun.v ===== *)
(** * Waiting for jobs of a server that runs

    [hq job wait] against the event loop of [Server.v]: the answers of the polling
    loop of [Wait.v] are those of a server that goes on handling events between
    them.  [Growth.v] has what happens to the jobs in the meantime. *)

From S2P Require Import Prelude ArrayDef Messages Job State Client Server Growth Status Wait JobView ServerDir Cli Main.

Section jobs.
Context `{Profile} `{Tako}.

(** A job description of the server is well-formed, and counts its tasks. *)
Lemma make_job_info_wf j : job_wf j -> info_wf (make_job_info j).
Proof.
  intros Hwf. pose proof (counters_bounds j is_running Hwf). pose proof (counters_bounds j is_finished Hwf).
  pose proof (counters_bounds j is_failed Hwf). pose proof (counters_bounds j is_canceled Hwf).
  pose proof (count_st_total (job_tasks j)). pose proof (count_st_bounds is_waiting (job_tasks j)).
  pose proof (jw_size j (jw_core j Hwf)).
  unfold info_wf, counters_nonneg, ctotal. simpl.
  rewrite n_tasks_wf, (jw_counters j (jw_core j Hwf)) by apply Hwf. simpl. lia.
Qed.

Lemma make_job_info_ended j : job_wf j -> ended (make_job_info j) = all_terminal (job_tasks j).
Proof.
  intros Hwf. destruct (is_terminated_agree j Hwf) as (b & Hb & Hi & _).
  rewrite is_terminated_wf in Hb by apply Hwf. rewrite info_is_terminated_wf in Hi by by apply make_job_info_wf.
  congruence.
Qed.

(** A task of the job has failed (is canceled). *)
Definition has_failed (j : Job) : bool := existsb is_failed (map_values (job_tasks j)).
Definition has_canceled (j : Job) : bool := existsb is_canceled (map_values (job_tasks j)).

(** A job without open tasks stays as it is. *)
Lemma ended_advance j j' :
  job_advance j j' -> all_terminal (job_tasks j) = true -> job_tasks j' = job_tasks j.
Proof.
  intros Ha Ht. apply map_eq. intros k. destruct (job_tasks j !! k) as [s|] eqn:Hk.
  - destruct (ja_tasks _ _ Ha k s Hk) as (s' & -> & Hs). f_equal.
    eapply rtc_task_step_terminal; [done|]. by eapply all_terminal_spec.
  - apply not_elem_of_dom. rewrite (ja_dom _ _ Ha). by apply not_elem_of_dom.
Qed.

Lemma advance_n_tasks j j' : job_wf j -> job_advance j j' -> n_tasks j' = n_tasks j.
Proof.
  intros Hwf Ha. rewrite !n_tasks_wf by (apply Hwf || apply (ja_wf _ _ Ha)).
  by rewrite <- !size_dom, (ja_dom _ _ Ha).
Qed.
End jobs.

(** ** A server that goes on *)

Section served.
Context `{Profile} `{Tako}.

(** The state of the server at each request: the events that were handled until then
    are [hist k]. *)
Record served (cwd : string) (hist : nat -> list Event) (sv : nat -> Server) : Prop := {
  sd_grow : forall k, hist k `prefix_of` hist (S k);
  sd_run : forall k, run cwd Server_new (hist k) = Ret (sv k);
  sd_ok : forall k, run_ok cwd Server_new (hist k);
  sd_len : forall k, Z.of_nat (length (hist k)) < 2 ^ 32 - 1
}.

Context {cwd : string} {hist : nat -> list Event} {sv : nat -> Server} (Hsd : served cwd hist sv).

Definition state_at (k : nat) : State := sv_state (sv k).

Lemma state_at_wf k : state_wf (state_at k).
Proof.
  apply si_state. eapply reachable_inv; [apply (sd_len _ _ _ Hsd k)|apply (sd_ok _ _ _ Hsd)|].
  apply (sd_run _ _ _ Hsd).
Qed.

Lemma state_at_grows k d : state_grows (state_at k) (state_at (k + d)).
Proof.
  induction d as [|d IH]; [rewrite Nat.add_0_r; apply grows_refl, state_at_wf|].
  eapply grows_trans; [exact IH|]. rewrite Nat.add_succ_r.
  destruct (sd_grow _ _ _ Hsd (k + d)) as [more Hm].
  pose proof (sd_len _ _ _ Hsd (S (k + d))). pose proof (sd_ok _ _ _ Hsd (S (k + d))).
  pose proof (sd_run _ _ _ Hsd (S (k + d))). rewrite Hm in *.
  eapply (prefix_grows cwd Server_new (hist (k + d)) more); [apply Server_new_inv| |done|apply Hsd|done].
  change (job_id_counter _) with 1. lia.
Qed.

(** The description of a job of the first request at the [k]-th one; [i] stands for
    a job that did not exist then. *)
Definition job_snap (i : JobInfo) (k : nat) (id : Z) : JobInfo :=
  match jobs (state_at 0) !! id, jobs (state_at k) !! id with
  | Some _, Some j => make_job_info j
  | _, _ => {| ji_id := id; ji_name := ji_name i; ji_n_tasks := 0; ji_counters := counters_default;
               ji_resources := ji_resources i |}
  end.

Definition tasks_of (id : Z) : Z := from_option n_tasks 0 (jobs (state_at 0) !! id).

(** A job of the first request, at the [k]-th one. *)
Lemma later_job k id j :
  jobs (state_at 0) !! id = Some j ->
  exists j', jobs (state_at k) !! id = Some j' /\ job_advance j j' /\ job_wf j' /\ job_id j' = id.
Proof.
  intros Hj. destruct (state_at_grows 0 k id j Hj) as (j' & Hj' & Ha).
  destruct (sw_job _ (state_at_wf k) _ _ Hj') as (Hw & Hid & _). eauto 10.
Qed.

Lemma job_snap_known i k id j :
  jobs (state_at 0) !! id = Some j ->
  exists j', jobs (state_at k) !! id = Some j' /\ job_snap i k id = make_job_info j'.
Proof.
  intros Hj. destruct (later_job k id j Hj) as (j' & Hj' & _). exists j'. unfold job_snap. by rewrite Hj, Hj'.
Qed.

Lemma job_snap_spec i k id :
  info_wf (job_snap i k id) /\ ji_id (job_snap i k id) = id /\ ji_n_tasks (job_snap i k id) = tasks_of id.
Proof.
  unfold tasks_of. destruct (jobs (state_at 0) !! id) as [j|] eqn:Hj.
  - destruct (later_job k id j Hj) as (j' & Hj' & Ha & Hw & Hid). unfold job_snap. rewrite Hj, Hj'.
    split_and!; [by apply make_job_info_wf|done|]. apply advance_n_tasks; [|done].
    by destruct (sw_job _ (state_at_wf 0) _ _ Hj).
  - unfold job_snap. rewrite Hj. split_and!; done.
Qed.

(** The answers of the server. *)
Context (rpc : nat -> Selector -> result string (list JobInfo)).
Context (rpc_server : forall k sel l,
  compute_job_info (state_at k) sel = Ret (JobInfoResponse l) -> rpc k sel = Ok l).

Lemma rpc_known i k a :
  array_wf a -> Forall (fun id => is_Some (jobs (state_at 0) !! id)) (array_ids a) ->
  rpc k (SelSpecific a) = Ok (job_snap i k <$> array_ids a).
Proof.
  intros [Ha _] Hk. apply rpc_server. unfold compute_job_info. rewrite IntArray_iter_wf by done. simpl.
  do 2 f_equal. induction Hk as [|id l [j Hj] _ IH]; [done|].
  destruct (job_snap_known i k id j Hj) as (j' & Hj' & Hs). csimpl.
  change (get_job (state_at k) id) with (jobs (state_at k) !! id). by rewrite Hj', Hs, <- IH.
Qed.

(** ** The verdict *)

(** The jobs that a query selects, and what became of a job. *)
Definition selected (s : State) (ids : list Z) : list Job := omap (get_job s) ids.
Definition later (s : State) (j : Job) : Job := default j (jobs s !! job_id j).

Lemma selected_fmap s ids :
  state_wf s -> job_id <$> selected s ids = filter (fun id => is_Some (jobs s !! id)) ids.
Proof.
  intros Hwf. unfold selected, get_job. induction ids as [|id ids IH]; [done|]. rewrite filter_cons. csimpl.
  destruct (jobs s !! id) as [j|] eqn:Hj; csimpl; [|done]. rewrite IH. f_equal. by destruct (sw_job s Hwf _ _ Hj) as (_ & ? & _).
Qed.

Lemma elem_of_selected s ids j :
  state_wf s -> j ∈ selected s ids -> jobs s !! job_id j = Some j /\ job_id j ∈ ids.
Proof.
  intros Hwf (id & Hid & Hj)%list_elem_of_omap.
  destruct (sw_job s Hwf _ _ Hj) as (_ & Heq & _). by rewrite Heq.
Qed.

Lemma query_answer s sel ids :
  state_wf s -> query_selection s sel = Ret ids ->
  compute_job_info s sel = Ret (JobInfoResponse (make_job_info <$> selected s ids)).
Proof.
  intros Hwf. unfold selected. destruct sel; simpl.
  - intros [= <-]. do 3 f_equal.
    assert (Hall : Forall (fun j => get_job s (job_id j) = Some j) (map_values (jobs s))).
    { apply Forall_forall. intros j (id & Hj)%elem_of_map_values.
      destruct (sw_job s Hwf _ _ Hj) as (_ & Heq & _). unfold get_job. by rewrite Heq. }
    induction Hall as [|j l Hj _ IH]; [done|]. csimpl. by rewrite Hj, <- IH.
  - intros ->. done.
  - intros ->. done.
Qed.

Lemma small_job id : is_Some (jobs (state_at 0) !! id) -> small_id id.
Proof.
  intros [j Hj]. destruct (sw_job _ (state_at_wf 0) _ _ Hj) as (_ & _ & ? & _).
  pose proof (sw_counter _ (state_at_wf 0)). unfold small_id. lia.
Qed.

(** There are fewer than 2^32 jobs. *)
Lemma length_jobs ids :
  NoDup ids -> Forall (fun id => is_Some (jobs (state_at 0) !! id)) ids -> Z.of_nat (length ids) < 2 ^ 32.
Proof.
  intros Hnd Hk. pose proof (sw_counter _ (state_at_wf 0)) as Hc.
  assert (length ids <= length (seqZ 1 (job_id_counter (state_at 0) - 1)))%nat.
  { apply submseteq_length, NoDup_submseteq; [done|]. intros id Hid.
    rewrite Forall_forall in Hk. destruct (Hk id Hid) as [j Hj].
    destruct (sw_job _ (state_at_wf 0) _ _ Hj) as (_ & _ & ? & _). apply elem_of_seqZ. lia. }
  rewrite length_seqZ in *. lia.
Qed.

Lemma later_lookup k id j :
  jobs (state_at 0) !! id = Some j -> later (state_at k) j = default j (jobs (state_at k) !! id).
Proof. intros Hj. unfold later. by destruct (sw_job _ (state_at_wf 0) _ _ Hj) as (_ & -> & _). Qed.

Lemma ended_snap i k id j :
  jobs (state_at 0) !! id = Some j ->
  ended_at (job_snap i) k id = all_terminal (job_tasks (later (state_at k) j)).
Proof.
  intros Hj. destruct (job_snap_known i k id j Hj) as (j' & Hj' & Hs). unfold ended_at, later.
  destruct (sw_job _ (state_at_wf 0) _ _ Hj) as (_ & -> & _). rewrite Hs, Hj'.
  apply make_job_info_ended. by destruct (sw_job _ (state_at_wf k) _ _ Hj').
Qed.

(** The counters of a job at the first request that finds it ended are those of any
    later request. *)
Lemma final_snap i n id j :
  jobs (state_at 0) !! id = Some j -> all_terminal (job_tasks (later (state_at (S n)) j)) = true ->
  final_counters (job_snap i) n id = counters_of (job_tasks (later (state_at (S n)) j)).
Proof.
  intros Hj Hend.
  destruct (first_ended_spec (job_snap i) n 1 id) as (d & Hd & Hf & He); [by rewrite (ended_snap _ _ _ j)|].
  unfold final_counters, counters_at. rewrite Hf.
  destruct (job_snap_known i (1 + d) id j Hj) as (j1 & Hj1 & ->).
  assert (Hl1 : later (state_at (1 + d)) j = j1) by by rewrite (later_lookup (1 + d) id j Hj), Hj1.
  rewrite (ended_snap _ _ _ j), Hl1 in He by done.
  destruct (sw_job _ (state_at_wf (1 + d)) _ _ Hj1) as [Hw _]. simpl. rewrite (jw_counters _ (jw_core _ Hw)).
  destruct (state_at_grows (1 + d) (n - d) id j1 Hj1) as (j2 & Hj2 & Ha).
  replace (1 + d + (n - d))%nat with (S n) in Hj2 by lia.
  rewrite (later_lookup (S n) id j Hj), Hj2. simpl. by rewrite (ended_advance j1 j2).
Qed.

Lemma existsb_snap i n ids (f : JobTaskCounters -> Z) (p : JobTaskState -> bool) :
  (forall m, f (counters_of m) = count_st p m) ->
  Forall (fun j => jobs (state_at 0) !! job_id j = Some j /\
    all_terminal (job_tasks (later (state_at (S n)) j)) = true) ids ->
  existsb (fun id => f (final_counters (job_snap i) n id) >? 0)
    (List.filter (fun id => negb (ended_at (job_snap i) 0 id)) (job_id <$> ids)) =
  existsb (fun j => existsb p (map_values (job_tasks (later (state_at (S n)) j))))
    (List.filter (fun j => negb (all_terminal (job_tasks j))) ids).
Proof.
  intros Hf. induction 1 as [|j l [Hj Hend] _ IH]; [done|]. csimpl.
  rewrite (ended_snap _ _ _ j), (later_lookup 0 _ j), Hj by done. simpl.
  destruct (all_terminal (job_tasks j)); simpl; [done|].
  by rewrite IH, (final_snap _ _ _ j), Hf, existsb_count by done.
Qed.

(** The verdict of waiting for the jobs of a selection. *)
Definition wait_result (s s' : State) (ids : list Z) : result string unit :=
  let waited := List.filter (fun j => negb (all_terminal (job_tasks j))) (selected s ids) in
  if existsb (fun j => has_failed (later s' j)) waited then Err "Some jobs have failed"
  else if existsb (fun j => has_canceled (later s' j)) waited then Err "Some jobs were canceled"
  else Ok tt.

Lemma wait_served n sel ids :
  query_selection (state_at 0) sel = Ret ids -> NoDup ids ->
  sumZ (n_tasks <$> selected (state_at 0) ids) < 2 ^ 32 ->
  Forall (fun j => all_terminal (job_tasks (later (state_at (S n)) j)) = true) (selected (state_at 0) ids) ->
  wait_for_job_with_selector rpc (S n) sel = Some (Ret (wait_result (state_at 0) (state_at (S n)) ids)).
Proof.
  intros Hq Hnd Hsum Hend. pose proof (state_at_wf 0) as Hwf.
  pose proof (query_answer _ _ _ Hwf Hq) as Ha. apply rpc_server in Ha.
  pose proof (selected_fmap _ ids Hwf) as Hids.
  assert (Hsel : Forall (fun j => jobs (state_at 0) !! job_id j = Some j) (selected (state_at 0) ids))
    by (apply Forall_forall; intros j Hj; by apply (elem_of_selected _ ids)).
  unfold wait_result. destruct (selected (state_at 0) ids) as [|j0 js] eqn:Hs.
  { unfold wait_for_job_with_selector. by rewrite Ha. }
  rewrite <- Hs in *. clear Hs js. set (i := make_job_info j0). set (l := selected (state_at 0) ids) in *.
  assert (Hk : Forall (fun id => is_Some (jobs (state_at 0) !! id)) (job_id <$> l)).
  { apply Forall_fmap. eapply Forall_impl; [exact Hsel|]. simpl. intros j Hj. by rewrite Hj. }
  rewrite (wait_verdict (job_snap i) tasks_of) with (known := fun id => is_Some (jobs (state_at 0) !! id))
    (n := n) (ids := job_id <$> l).
  - rewrite (existsb_snap i n l n_failed_tasks is_failed), (existsb_snap i n l n_canceled_tasks is_canceled);
      [done|done|by apply Forall_and|done|by apply Forall_and].
  - intros k id. apply job_snap_spec.
  - intros k id. apply job_snap_spec.
  - intros k id. apply job_snap_spec.
  - intros k a _. apply rpc_known.
  - rewrite Ha. f_equal. rewrite <- list_fmap_compose. apply list_fmap_ext. intros x j Hj. simpl.
    rewrite Forall_lookup in Hsel. specialize (Hsel x j Hj). unfold job_snap. by rewrite Hsel.
  - rewrite Hids. by apply NoDup_filter.
  - eapply Forall_impl; [exact Hk|]. intros id Hid. split; [by apply small_job|done].
  - rewrite <- list_fmap_compose. rewrite (list_fmap_ext _ n_tasks); [done|].
    intros x j Hj. rewrite Forall_lookup in Hsel. unfold tasks_of. simpl. by rewrite (Hsel x j Hj).
  - apply length_jobs; [|done]. rewrite Hids. by apply NoDup_filter.
  - intros id (j & -> & Hj)%list_elem_of_fmap. exists n. split; [lia|]. rewrite Forall_forall in Hsel, Hend.
    rewrite (ended_snap _ _ _ j) by auto. by apply Hend.
Qed.
End served.

(** ** The command *)

Section command.
Context `{Profile} `{Tako} `{Keys} `{!AccessFormat} `{HostEnv}.

(** C18: [hq wait] against a server that goes on handling events between the
    requests: when the selected jobs have ended at the last request, the command
    terminates without a panic, and it fails exactly when a job that had not ended at
    the first request has a failed task in the end (or, if none has, a canceled one);
    jobs that had ended before, or are submitted later, do not matter. *)
Theorem wait_follows_server cwd hist sv (w : ServerWorld) replies debug_message c gsettings arg n ids :
  served cwd hist sv ->
  get_client_connection w (server_directory gsettings) = Ret (Ok c) ->
  (forall k sel m, compute_job_info (sv_state (sv k)) sel = Ret m -> replies c k (JobInfoRequest sel) = Ok m) ->
  query_selection (sv_state (sv 0%nat)) (selector_of arg) = Ret ids -> NoDup ids ->
  sumZ (n_tasks <$> selected (sv_state (sv 0%nat)) ids) < 2 ^ 32 ->
  Forall (fun j => all_terminal (job_tasks (later (sv_state (sv (S n))) j)) = true)
    (selected (sv_state (sv 0%nat)) ids) ->
  command_wait w replies debug_message (S n) gsettings arg =
    Some (Ret (wait_result (sv_state (sv 0%nat)) (sv_state (sv (S n))) ids)).
Proof.
  intros Hsd Hc Hr Hq Hnd Hsum Hend. unfold command_wait. rewrite Hc.
  apply (wait_served Hsd); [|done..].
  intros k sel l Hl. unfold rpc_call. by rewrite (Hr _ _ _ Hl).
Qed.
End command.
