(* ===== verification/Witnesses.v ===== *)
(** * Concrete runs

    A concrete instance of every interface, a run of the server, a log file and
    an allocation queue, and the theorems of the development applied to them. *)

From S2P Require Import Prelude Nom NomImpl ArrayDef ArrayParser Resources Messages Job Status State Client Server StreamServer Streamer LogFile AutoAlloc AutoAllocRun Wait.

(** ** Instances *)

(** Resources are valid when they are not zero; task bodies are not encoded. *)
Definition demo_tako : Tako :=
  {| ResourceRequest := Z; resources_validate := fun n => negb (n =? 0);
     WorkerConfiguration := string; TaskData := TaskBody; serialize := Some |}.

#[local] Existing Instance demo_tako.
#[local] Existing Instance dev.

Lemma demo_serialize_total b : is_Some (serialize b).
Proof. by eexists. Defined.

(** Big-endian integers, most significant byte first. *)
Fixpoint be_put (n : nat) (x : Z) : list Z :=
  match n with
  | O => []
  | S n => be_put n (x / 256) ++ [x mod 256]
  end.

Definition be_get (l : list Z) : Z := foldl (fun acc b => acc * 256 + b) 0 l.

Lemma be_put_length n x : length (be_put n x) = n.
Proof. revert x. induction n as [|n IH]; intros x; simpl; [done|]. rewrite length_app, IH. simpl. lia. Qed.

Lemma be_get_put n x : 0 <= x < 256 ^ Z.of_nat n -> be_get (be_put n x) = x.
Proof.
  unfold be_get. revert x. induction n as [|n IH]; intros x Hx; simpl be_put.
  - simpl in *. lia.
  - rewrite foldl_app. simpl. rewrite IH.
    + pose proof (Z.div_mod x 256). lia.
    + rewrite Nat2Z.inj_succ, Z.pow_succ_r in Hx by lia.
      split; [apply Z.div_pos; lia|apply Z.div_lt_upper_bound; lia].
Qed.

Definition big_endian : ByteOrder.
Proof.
  refine {| put_u32 := be_put 4; put_u64 := be_put 8;
            get_u32 := fun b => be_get b mod 2 ^ 32; get_u64 := fun b => be_get b mod 2 ^ 64 |}.
  - intros b. apply Z.mod_pos_bound. lia.
  - intros b. apply Z.mod_pos_bound. lia.
  - intros x. apply be_put_length.
  - intros x. apply be_put_length.
  - intros x Hx. rewrite be_get_put by done. by apply Z.mod_small.
  - intros x Hx. rewrite be_get_put by done. by apply Z.mod_small.
Defined.

#[local] Existing Instance big_endian.

(** ** A run of the server *)

Definition demo_program : ProgramDefinition :=
  {| pd_args := ["sleep"; "1"]; pd_env := ∅; pd_stdout := StdioNull; pd_stderr := StdioNull;
     pd_cwd := None |}.

Definition demo_array (start count : Z) : IntArray := from_range start count.

Definition demo_submit (jt : JobType) (log : option string) : SubmitRequest :=
  {| sr_job_type := jt; sr_name := "job"; sr_max_fails := Some 0; sr_spec := demo_program;
     sr_resources := 1; sr_pin := false; sr_entries := None; sr_submit_dir := "/home";
     sr_priority := 0; sr_time_limit := None; sr_log := log |}.

(** A client submits an array of three tasks with a log, the first task starts
    on a worker. *)
Definition demo_events : list Event :=
  [EvConnect 7;
   EvClient 7 (Ok (Submit (demo_submit (Array (demo_array 1 3)) (Some "log")))) 10;
   EvRegistered 0;
   EvTako NewTasksResponse 11;
   EvResume 0 12;
   EvTako (NewWorkerMsg 1 "node") 13;
   EvTako (TaskUpdateMsg 1 (TSRunning 1)) 14].

(** Then the client cancels the job, and [tako] answers. *)
Definition demo_cancel_events : list Event :=
  [EvClient 7 (Ok (Cancel (SelSpecific (demo_array 1 1)))) 15].

Definition demo_answer_events : list Event :=
  [EvTako (CancelTasksResponse [1; 2; 3]) 16].

Definition run_from (sv : Server) (es : list Event) : Server :=
  match run "/" sv es with
  | Ret sv => sv
  | Panic _ => Server_new
  end.

Definition demo_server : Server := run_from Server_new demo_events.
Definition demo_cancelling : Server := run_from Server_new (demo_events ++ demo_cancel_events).
Definition demo_answered : Server :=
  run_from Server_new (demo_events ++ demo_cancel_events ++ demo_answer_events).

Definition returns {A} (o : outcome A) : bool := match o with Ret _ => true | Panic _ => false end.

Lemma run_from_returns sv es : returns (run "/" sv es) = true -> run "/" sv es = Ret (run_from sv es).
Proof. unfold run_from. by destruct (run "/" sv es). Qed.

Lemma demo_run : run "/" Server_new demo_events = Ret demo_server.
Proof. apply run_from_returns. vm_compute. reflexivity. Qed.

Lemma demo_run_ok : run_ok "/" Server_new demo_events.
Proof. match goal with |- ?P => apply (bool_decide_unpack P) end. vm_compute. exact I. Qed.

Lemma demo_server_inv : server_inv demo_server.
Proof. apply (reachable_inv "/" demo_events); [simpl; lia|apply demo_run_ok|apply demo_run]. Qed.

Lemma demo_cancelling_inv : server_inv demo_cancelling.
Proof.
  apply (reachable_inv "/" (demo_events ++ demo_cancel_events)); [simpl; lia| |].
  - match goal with |- ?P => apply (bool_decide_unpack P) end. vm_compute. exact I.
  - apply run_from_returns. vm_compute. reflexivity.
Qed.

Lemma demo_answered_inv : server_inv demo_answered.
Proof.
  apply (reachable_inv "/" (demo_events ++ demo_cancel_events ++ demo_answer_events)); [simpl; lia| |].
  - match goal with |- ?P => apply (bool_decide_unpack P) end. vm_compute. exact I.
  - apply run_from_returns. vm_compute. reflexivity.
Qed.

Definition demo_state : State := sv_state demo_server.

Lemma demo_state_wf : state_wf demo_state.
Proof. apply demo_server_inv. Qed.

(** The job of the run: three tasks, the first one runs. *)
Definition simple_job : Job :=
  {| job_id := 5; base_task_id := 9; max_fails := None; counters := counters_default;
     job_state := SingleTask Waiting; job_log := None; job_type := Simple; job_name := "simple";
     program_def := demo_program; job_resources := 1 : @ResourceRequest demo_tako; job_pin := false;
     job_entries := None; job_priority := 0; job_time_limit := None; submission_date := 0;
     completion_date := None |}.

Definition demo_job : Job := default simple_job (jobs demo_state !! 1).

Lemma is_some_default {A} (o : option A) d : bool_decide (is_Some o) = true -> o = Some (default d o).
Proof. intros Hs%bool_decide_eq_true. by destruct o as [a|]; [|destruct Hs]. Qed.

Lemma demo_job_at : jobs demo_state !! 1 = Some demo_job.
Proof. apply is_some_default. vm_compute. reflexivity. Qed.

Lemma demo_job_wf : job_wf demo_job.
Proof. apply (sw_job demo_state demo_state_wf 1 demo_job demo_job_at). Qed.

(** ** Arrays *)

Lemma from_ids_sorted_witness :
  exists a, from_ids [1; 2; 3; 7] = Ret a /\ IntArray_iter a = Ret [1; 2; 3; 7].
Proof. apply (from_ids_sorted [1; 2; 3; 7]); repeat constructor; lia. Defined.

(** ** Jobs *)

Lemma job_op_refines_witness :
  exists j' msgs, apply_op demo_job 1 OpFinished 20 = Ret (j', msgs) /\ job_wf j' /\
    job_tasks j' = <[1 := Finished 1 14 20]> (job_tasks demo_job) /\
    job_static j' = job_static demo_job.
Proof.
  apply (job_op_refines demo_job 1 OpFinished 20 (Messages.Running 1 14) demo_job_wf).
  vm_compute. reflexivity.
Defined.

(** The three tasks end: the second is cancelled, the third one runs and fails. *)
Definition demo_ops : list (Z * job_op * Z) :=
  [(1, OpFinished, 20); (2, OpCancel, 21); (3, OpRunning 1, 22); (3, OpFailed "error", 23)].

Definition demo_ended : Job * list StreamCtl :=
  match job_run demo_job demo_ops with Ret r => r | Panic _ => (simple_job, []) end.

Lemma job_run_invariant_witness :
  job_wf demo_ended.1 /\ counters demo_ended.1 = counters_of (job_tasks demo_ended.1) /\
  demo_ended.2 = [UnregisterStream 1].
Proof.
  destruct (job_run_invariant demo_job demo_ops demo_ended.1 demo_ended.2 demo_job_wf) as (H1 & H2 & _ & H4).
  - unfold demo_ended. destruct (job_run demo_job demo_ops) as [[j msgs]|w] eqn:E; [done|].
    exfalso. assert (Hr : returns (job_run demo_job demo_ops) = true) by (vm_compute; reflexivity).
    by rewrite E in Hr.
  - split; [exact H1|]. split; [exact H2|]. rewrite H4. vm_compute. reflexivity.
Defined.

(** ** The state *)

Lemma sparse_lookup_correct_witness :
  get_job_mut_by_tako_task_id demo_state 3 = Ret (Some (1, demo_job)).
Proof.
  rewrite (sparse_lookup_correct demo_state 3 demo_state_wf).
  destruct (owner_scan demo_state 3) as [[id j]|] eqn:E.
  - unfold owner_scan in E. apply find_some in E as [Hin _].
    apply list_elem_of_In, elem_of_map_to_list in Hin.
    assert (id = 1) as ->.
    { destruct (sw_job _ demo_state_wf _ _ Hin) as (_ & _ & Hid & _).
      assert (job_id_counter demo_state = 2) by (vm_compute; reflexivity). lia. }
    rewrite demo_job_at in Hin. by injection Hin as <-.
  - assert (Hs : bool_decide (is_Some (owner_scan demo_state 3)) = true) by (vm_compute; reflexivity).
    apply bool_decide_eq_true in Hs as [? ?]. congruence.
Defined.

Lemma demo_task_1 : task_at demo_state 1 = Some (Messages.Running 1 14).
Proof. vm_compute. reflexivity. Qed.

Lemma process_task_update_refines_witness :
  exists s' msgs, process_task_update demo_state 1 TSFinished 30 = Ret (s', msgs) /\ state_wf s' /\
    task_at s' 1 = Some (Finished 1 14 30) /\ reg_run (open_streams demo_state) msgs = Some (open_streams s').
Proof.
  pose proof (process_task_update_refines demo_state 1 TSFinished 30 demo_state_wf) as Hp.
  rewrite demo_task_1 in Hp. simpl in Hp. destruct Hp as (s' & msgs & H1 & H2 & H3 & _ & H5).
  exists s', msgs. split; [exact H1|]. split; [exact H2|]. split; [exact (H3 1)|exact H5].
Defined.

Lemma process_task_failed_max_fails_witness :
  exists s' msgs id j', process_task_failed demo_state 1 "error" 30 = Ret (s', msgs, fail_limit_cancel j') /\
    state_wf s' /\ jobs s' !! id = Some j' /\ owns j' 1.
Proof.
  destruct (process_task_failed_max_fails demo_state 1 "error" 30 1 14 demo_state_wf demo_task_1)
    as (s' & msgs & id & j' & H1 & H2 & H3 & H4 & _).
  exists s', msgs, id, j'. split; [exact H1|]. split; [exact H2|]. split; [exact H3|exact H4].
Defined.

Lemma process_worker_lost_requeues_witness :
  exists s', process_worker_lost demo_state 1 [1] LWConnectionLost 40 = Ret s' /\ state_wf s' /\
    task_at s' 1 = Some Waiting /\ task_at s' 2 = Some Waiting.
Proof.
  destruct (process_worker_lost_requeues demo_state 1 (Worker_new 1 ("node" : @WorkerConfiguration demo_tako)) [1] LWConnectionLost 40
    demo_state_wf) as (s' & H1 & H2 & H3 & _).
  - vm_compute. reflexivity.
  - repeat constructor. by intros ?%not_elem_of_nil.
  - intros t ->%list_elem_of_singleton. exists 1, 14. apply demo_task_1.
  - exists s'. split; [exact H1|]. split; [exact H2|]. rewrite !H3. split; vm_compute; reflexivity.
Defined.

(** ** Client requests *)

Lemma demo_counter : job_id_counter demo_state = 2.
Proof. vm_compute. reflexivity. Qed.

Lemma demo_base_free : base_free demo_state.
Proof.
  intros id j Hj. assert (id = 1) as ->.
  { destruct (sw_job _ demo_state_wf _ _ Hj) as (_ & _ & Hid & _). rewrite demo_counter in Hid. lia. }
  rewrite demo_job_at in Hj. injection Hj as <-. vm_compute. reflexivity.
Qed.

Lemma demo_array_wf : job_type_wf (Array (demo_array 5 2)).
Proof. split; [repeat constructor; simpl; lia|simpl; lia]. Qed.

Lemma handle_submit_correct_witness :
  exists s' j defs ctl next,
    handle_submit demo_state (demo_submit (Array (demo_array 5 2)) (Some "l")) 50 = Ret (s', ctl, next) /\
    state_wf s' /\ jobs s' !! 2 = Some j /\
    describes (demo_submit (Array (demo_array 5 2)) (Some "l")) 2 4 defs.
Proof.
  destruct (handle_submit_correct demo_serialize_total demo_state
    (demo_submit (Array (demo_array 5 2)) (Some "l")) 50 demo_state_wf) as (s' & j & defs & Hh & Hwf & Hj & _ & _ & Hd & _).
  - rewrite demo_counter. lia.
  - exact demo_array_wf.
  - reflexivity.
  - exact demo_base_free.
  - destruct (submit_next _ _ _ _) as [ctl next]. destruct Hh as [Hh _].
    exists s', j, defs, ctl, next. split; [exact Hh|]. split; [exact Hwf|]. rewrite Hj, demo_counter.
    split; [apply lookup_insert_eq|]. rewrite demo_counter in Hd.
    assert (Ht : task_id_counter demo_state = 4) by (vm_compute; reflexivity). by rewrite Ht in Hd.
Defined.

Definition empty_submit : SubmitRequest := demo_submit (Array (from_range 0 0)) None.

Definition after_empty : State :=
  match handle_submit State_new empty_submit 1 with Ret (s, _, _) => s | Panic _ => State_new end.

Lemma submit_after_empty_job_panics_witness :
  handle_submit after_empty (demo_submit Simple None) 2 = Panic AssertionFailed.
Proof.
  unfold after_empty. destruct (handle_submit State_new empty_submit 1) as [[[s ctl] next]|w] eqn:E.
  - apply (submit_after_empty_job_panics demo_serialize_total State_new empty_submit
      (demo_submit Simple None) 1 2 s ctl next State_new_wf); [simpl; lia|reflexivity|exact I|
      reflexivity|reflexivity|exact E].
  - exfalso. assert (Hr : returns (handle_submit State_new empty_submit 1) = true) by (vm_compute; reflexivity).
    by rewrite E in Hr.
Defined.

Lemma after_cancel_correct_witness :
  exists s' ctl,
    after_cancel demo_state 1 [] [] (CancelTasksResponse [2; 3]) 60 =
      Ret (s', ctl, Reply (CancelJobResponseMsg [(1, CJCanceled [2; 3] 1)])) /\ state_wf s'.
Proof.
  destruct (after_cancel_correct demo_state 1 demo_job [] [] [2; 3] 60 demo_state_wf demo_job_at)
    as (s' & ctl & Ha & Hwf & _).
  - repeat constructor; set_solver.
  - intros t Ht. exists Waiting. assert (t = 2 \/ t = 3) as [-> | ->] by set_solver; vm_compute; auto.
  - exists s', ctl. split; [|exact Hwf]. rewrite Ha. vm_compute. reflexivity.
Defined.

Lemma demo_job_many : exists m, job_state demo_job = ManyTasks m.
Proof. vm_compute. eauto. Qed.


Lemma job_info_last_n_witness :
  exists js, compute_job_info demo_state (SelLastN 5) = Ret (JobInfoResponse (make_job_info <$> js)) /\
    job_id <$> js = [1].
Proof.
  destruct (job_info_last_n demo_state 5 demo_state_wf) as (js & H1 & H2 & _); [lia|].
  exists js. split; [exact H1|]. rewrite H2. vm_compute. reflexivity.
Defined.

(** ** The server *)

Lemma server_invariant_witness : server_inv demo_server.
Proof.
  apply (server_invariant "/" demo_events demo_server); [simpl; lia|apply demo_run_ok|apply demo_run].
Defined.

Lemma stream_registrations_safe_witness :
  exists r, foldM stream_server_main StreamServerState_new (sv_control demo_server) = Ret r /\
    dom (registrations r) = open_streams (sv_state demo_server).
Proof.
  pose proof (stream_registrations_safe (R := StreamServerState) "/" demo_events demo_server
    StreamServerState_new) as Hs.
  specialize (Hs ltac:(simpl; lia) demo_run_ok demo_run ltac:(reflexivity)). exact Hs.
Defined.

Lemma demo_next_request : next_request demo_cancelling = Some (CancelTasks [3; 2; 1]).
Proof. vm_compute. reflexivity. Qed.

Lemma answer_reaches_sender_witness :
  exists sv' w, step "/" demo_cancelling (EvTako (CancelTasksResponse [1; 2; 3]) 16) = Ret sv' /\
    server_inv sv' /\ waits_for w (CancelTasks [3; 2; 1]) = true /\
    sv_woken sv' = sv_woken demo_cancelling ++ [(w, CancelTasksResponse [1; 2; 3])].
Proof.
  destruct (answer_reaches_sender "/" demo_cancelling (CancelTasksResponse [1; 2; 3]) 16
    (CancelTasks [3; 2; 1]) demo_cancelling_inv demo_next_request) as (sv' & w & H1 & H2 & _ & H4 & H5);
    [reflexivity|].
  exists sv', w. split; [exact H1|]. split; [exact H2|]. split; [exact H4|exact H5].
Defined.

Definition demo_waiter : Waiter := (Some 7, AfterCancel 1 [] []).

Lemma resume_never_panics_witness :
  exists sv', step "/" demo_answered (EvResume 0 17) = Ret sv' /\ server_inv sv'.
Proof.
  apply (resume_never_panics "/" demo_answered 0 demo_waiter (CancelTasksResponse [1; 2; 3]) 17
    demo_answered_inv); [vm_compute; reflexivity|].
  intros ids id j [= <-] [= <-] Hj. split; [apply (bool_decide_unpack (NoDup [1; 2; 3])); vm_compute; exact I|].
  intros t Ht.
  assert (Hall : forallb (fun t => match jobs (sv_state demo_answered) !! 1 with
    | Some j => match job_tasks j !! t with Some st => is_unfinished st | None => false end
    | None => false end) [1; 2; 3] = true) by (vm_compute; reflexivity).
  rewrite forallb_forall in Hall. apply list_elem_of_In, Hall in Ht. rewrite Hj in Ht.
  destruct (job_tasks j !! t) as [st|]; [eauto|done].
Defined.

(** ** The stream server and the log *)


(** Two instances of task 1 and one of task 2; the streams that are ended are
    those of the newest instances. *)
Definition demo_trace : list FromStreamerMessage :=
  [MStart 1 0; MData 1 0 0 [65; 66]; MStart 2 0; MStart 1 1; MData 2 0 1 [67];
   MData 1 1 0 [68; 10]; MData 1 1 0 [69]; MEnd 1 1; MEnd 2 0].

Definition demo_messages : list StreamMessage :=
  (fun m => {| sm_message := m; sm_sender := Some 3 |}) <$> demo_trace.

Lemma demo_trace_ok : trace_ok demo_trace.
Proof.
  unfold trace_ok. apply (bool_decide_unpack (is_Some (trace_run ∅ demo_trace))). vm_compute. exact I.
Qed.

Lemma end_is_answered_witness :
  (3, EndResponse 2) ∈ (file_writer (fun _ _ => true) (fun _ => false) "disk full" demo_messages).2 \/
  (3, StreamError "disk full") ∈ (file_writer (fun _ _ => true) (fun _ => false) "disk full" demo_messages).2.
Proof.
  apply (end_is_answered (fun _ _ => true) (fun _ => false) "disk full" demo_messages
    {| sm_message := MEnd 2 0; sm_sender := Some 3 |} 2 0 3); [|reflexivity|reflexivity].
  apply list_elem_of_fmap. exists (MEnd 2 0). split; [reflexivity|]. unfold demo_trace. set_solver.
Defined.

Lemma demo_messages_trace : sm_message <$> demo_messages = demo_trace.
Proof. reflexivity. Qed.


Definition demo_log : LogFile :=
  match LogFile_open (log_bytes demo_trace) with
  | Some (Ok lf) => lf
  | _ => {| lf_file := {| content := []; pos := 0 |}; lf_index := ∅; lf_start_pos := 0 |}
  end.

Lemma demo_log_open : LogFile_open (log_bytes demo_trace) = Some (Ok demo_log).
Proof.
  unfold demo_log. destruct (log_open _ demo_trace_ok) as (index & -> & _). reflexivity.
Qed.


(** ** Automatic allocation *)

(** A queue that accepts three workers per allocation and counts its requests. *)
Definition demo_queue : QueueDescriptor Z :=
  {| target_scale := fun _ => 10; max_workers_per_alloc := fun _ => 3;
     schedule_allocation := fun n _ => (Ok (to_string n), n + 1);
     get_allocation_status := fun n id => (Ok (Some (Queued 0)), n) |}.

#[local] Existing Instance demo_queue.

Definition demo_autoalloc : AutoAllocState :=
  put_descriptor (AutoAllocState_new 5) "queue" (DescriptorState_from 0).

Lemma demo_queue_inv : queue_inv (DescriptorState_from 0).
Proof. split; [simpl; unfold MAX_EVENT_QUEUE_LENGTH; lia|constructor|reflexivity]. Qed.

Example demo_round :
  exists d, process_descriptor 20 "queue" demo_autoalloc 7 = Ret (Some (put_descriptor demo_autoalloc "queue" d)) /\
    al_worker_count <$> allocations d = [3; 3; 3; 1].
Proof. eexists. split; vm_compute; reflexivity. Qed.

#[local] Instance demo_laws : QueueLaws Z (fun _ q => 0 <= q) (fun _ => 10).
Proof. split; simpl; lia. Qed.

(** Two queues, one of which changes between two ticks. *)
Definition demo_steps : list (AllocationStep Z) :=
  [AddQueue "a" 0; Tick 1; AddQueue "b" 5; QueueChanges "a" 9; AddQueue "b" 6].

Lemma autoalloc_keeps_targets_witness :
  exists s, autoalloc_process 20 100 (demo_steps ++ [Tick 9]) = Ret (Some s) /\
    (exists a b, get_descriptor s "a" = Some a /\ get_descriptor s "b" = Some b /\
       workers_of a = 10 /\ workers_of b = 10).
Proof.
  destruct (autoalloc_keeps_targets (fun _ q => 0 <= q) (fun _ => 10) 20 ltac:(intros; lia) 100 demo_steps)
    as (_ & _ & _ & Hall); [repeat constructor; simpl; lia|].
  destruct (Hall 9) as (s & Hr & Hw).
  { intros name q Hq. split; [reflexivity|]. simpl. eauto. }
  exists s. split; [exact Hr|].
  assert (exists a b, get_descriptor s "a" = Some a /\ get_descriptor s "b" = Some b) as (a & b & Ha & Hb).
  { revert Hr. vm_compute. intros Hr. injection Hr as <-. do 2 eexists. split; reflexivity. }
  exists a, b. split_and!; [exact Ha|exact Hb|exact (Hw _ _ Ha)|exact (Hw _ _ Hb)].
Defined.

Lemma refresh_keeps_active_witness :
  exists d', refresh_allocations "queue" demo_autoalloc 7 = put_descriptor demo_autoalloc "queue" d' /\
    allocations d' = [].
Proof.
  destruct (refresh_keeps_active "queue" demo_autoalloc (DescriptorState_from 0) 7) as (d' & H1 & H2 & _);
    [reflexivity|]. exists d'. split; [exact H1|exact H2].
Defined.

(** ** Parsers *)

#[local] Existing Instance nom_impl.

(** Texts of the tests of the sources. *)
Example parse_array_tests :
  (parse_array (H := dev) "34-40,45" =
     Ret (Ok (IntArray_new [IntRange_new 34 7 1; IntRange_new 45 1 1]))) /\
  (parse_array (H := dev) "0-10:2" = Ret (Ok (IntArray_new [IntRange_new 0 11 2]))) /\
  (parse_array (H := dev) "0-10,5" =
     Ret (Err "Semantic error at '0-10,5': Ranges overlap")) /\
  (exists e, parse_array (H := dev) "101-100" = Ret (Err e)).
Proof. split_and!; [vm_compute; reflexivity..|]. eexists. vm_compute. reflexivity. Qed.


Lemma display_parse_witness :
  IntArray_fmt (H := dev) (IntArray_new [IntRange_new 2 7 3; IntRange_new 20 1 1]) = Ret "2-8:3, 20" /\
  exists e, parse_array (H := dev) "2-8:3, 20" = Ret (Err e).
Proof.
  destruct (display_parse (H := dev) [IntRange_new 2 7 3; IntRange_new 20 1 1]) as (t & Ht & He).
  - discriminate.
  - apply (bool_decide_unpack _). vm_compute. exact I.
  - assert (Heq : IntArray_fmt (H := dev) (IntArray_new [IntRange_new 2 7 3; IntRange_new 20 1 1])
      = Ret "2-8:3, 20") by (vm_compute; reflexivity).
    split; [exact Heq|]. rewrite Heq in Ht. injection Ht as <-. exact He.
Defined.

(** A machine with two NUMA nodes. *)
Definition demo_files (path : string) : result string string :=
  if String.eqb path "/sys/devices/system/node/possible" then Ok ("0-1" +:+ String (ascii_of_nat 10) "")
  else if String.eqb path "/sys/devices/system/node/node0/cpulist" then Ok "0,2"
  else if String.eqb path "/sys/devices/system/node/node1/cpulist" then Ok "1,3"
  else Err "not found".

Lemma demo_number n : is_u32 n -> number_text (to_string n) n.
Proof. apply to_string_number_text. Defined.

Lemma demo_pair a b :
  is_u32 a -> is_u32 b -> cpulist_text (to_string a +:+ "," +:+ to_string b) [a; b].
Proof.
  intros Ha Hb. exists (to_string a +:+ "," +:+ to_string b), [[a]; [b]], "".
  split; [by rewrite app_str_nil|]. split; [|split; [by left|done]].
  apply (list_text_cons (fun u => u = ",") cpu_item_text (to_string a) "," (to_string b) [a] [[b]]).
  - constructor. by apply demo_number.
  - done.
  - repeat constructor. by apply demo_number.
Qed.

Lemma detect_resource_numa_witness :
  detect_resource (fun _ _ => {| cpus := [] |}) demo_files 4 = Ret (Ok {| cpus := [[0; 2]; [1; 3]] |}).
Proof.
  apply (detect_resource_numa (fun _ _ => {| cpus := [] |}) demo_files 4
    ("0-1" +:+ String (ascii_of_nat 10) "") [0; 1]
    (fun n => if n =? 0 then "0,2" else "1,3") (fun n => if n =? 0 then [0; 2] else [1; 3])).
  - reflexivity.
  - exists "0-1", [[0; 1]], (String (ascii_of_nat 10) ""). split; [reflexivity|].
    split; [|split; [by right|reflexivity]]. constructor.
    apply (cpu_item_to "0" "1" 0 1); [apply (demo_number 0)|apply (demo_number 1)]; unfold is_u32; lia.
  - intros n Hn. assert (n = 0 \/ n = 1) as [->| ->].
    { apply elem_of_cons in Hn as [->|Hn]; [by left|].
      apply list_elem_of_singleton in Hn as ->. by right. }
    + split; [reflexivity|]. apply (demo_pair 0 2); unfold is_u32; lia.
    + split; [reflexivity|]. apply (demo_pair 1 3); unfold is_u32; lia.
Defined.

(** ** The streamer of a worker *)

(** Two tasks of job 7 share a connection; one stream is confirmed, then the
    connection fails. *)
Definition demo_streamer_run : list StreamerEvent :=
  [EGetStream 7 0 0 100; EGetStream 7 1 0 101; EStart {| ss_conn := 0; ss_task := 0; ss_instance := 0 |};
   EForward 0; EClean; EEndResponse 0 0; EFailed 0 "reset"].


