(* ===== verification/WorkerWitnesses.v ===== *)
(** * Concrete runs of the workers and of the command line

    Submits from the command line, two workers that stream to one log, a job
    submitted to the demonstration server and started by a worker, and a worker
    started inside a PBS job. *)

From S2P Require Import Prelude Nom NomImpl ArrayDef ArrayParser Resources Messages State Client Server StreamServer Streamer LogFile Launcher TaskRun WorkerStart Pipeline Submit Witnesses.

#[local] Existing Instance demo_tako.
#[local] Existing Instance dev.
#[local] Existing Instance nom_impl.

(** ** The program of a task *)

(** [StdioDef::map_filename] *)
Definition demo_map_filename (f : string -> string) (d : StdioDef) : StdioDef :=
  match d with StdioFile path => StdioFile (f path) | _ => d end.

(** Pinning runs the program through another one. *)
Definition demo_pin (p : ProgramDefinition) : ProgramDefinition :=
  {| pd_args := "taskset" :: pd_args p; pd_env := pd_env p; pd_stdout := pd_stdout p;
     pd_stderr := pd_stderr p; pd_cwd := pd_cwd p |}.

Definition demo_pinned_submit : SubmitRequest :=
  {| sr_job_type := Simple; sr_name := "job"; sr_max_fails := None;
     sr_spec := {| pd_args := ["sleep"; "1"]; pd_env := ∅;
                   pd_stdout := StdioFile "%{CWD}/%{TASK_ID}.out"; pd_stderr := StdioPipe;
                   pd_cwd := Some "run-%{JOB_ID}/%{INSTANCE_ID}" |};
     sr_resources := 1; sr_pin := true; sr_entries := None; sr_submit_dir := "/home";
     sr_priority := 0; sr_time_limit := None; sr_log := None |}.

(** Only one directory can be created. *)
Definition demo_create_dir (path : string) : result string unit :=
  if String.eqb path "/home/run-5/2" then Ok tt else Err "permission denied".

(** [Path::parent] on the forms of paths. *)
Example path_parents :
  path_parent <$> [""; "/"; "a"; "/a"; "a/b"; "a//b/"; "./a"; "."; "a/."; "a/./b"; "/../x"; "//a/b"]
  = [None; None; Some ""; Some "/"; Some "a"; Some "a"; Some "."; Some ""; Some ""; Some "a"; Some "/.."; Some "//a"].
Proof. reflexivity. Qed.

Lemma submitted_task_program_witness :
  exists p,
    launcher_main map_to_list "2021-10-01T00:00:00Z" None demo_map_filename demo_pin demo_create_dir
      {| tb_program := add_entry (make_program_def_for_task (sr_spec demo_pinned_submit) 5 3 "/home")
           (Some "line"); tb_pin := true; tb_job_id := 5; tb_task_id := 3 |} "0,1" 2
    = Ret (Ok p) /\
    pd_args p = ["taskset"; "sleep"; "1"] /\ pd_cwd p = Some "/home/run-5/2" /\
    pd_stdout p = StdioFile "/home/run-5/2/3.out" /\ pd_stderr p = StdioPipe /\
    pd_env p !! HQ_ENTRY = Some "line" /\ pd_env p !! HQ_PIN = Some "1".
Proof.
  destruct (submitted_task_program map_to_list (fun _ => reflexivity _) demo_map_filename
    (fun _ _ => eq_refl) demo_pin (fun _ => conj eq_refl (conj eq_refl (conj eq_refl eq_refl)))
    demo_create_dir "2021-10-01T00:00:00Z" None demo_pinned_submit 5 3 (Some "line") "0,1" 2
    "run-%{JOB_ID}/%{INSTANCE_ID}")
    as (p & Hp & Ha & Hc & Ho & Hr & _ & _ & _ & _ & _ & He & Hpin).
  - split; reflexivity.
  - split; reflexivity.
  - reflexivity.
  - split; vm_compute; reflexivity.
  - exists p. split; [etransitivity; [exact Hp|]; rewrite Ho, Hr; vm_compute; reflexivity|]. split; [exact Ha|]. split; [rewrite Hc; vm_compute; reflexivity|].
    split; [rewrite Ho; vm_compute; reflexivity|]. split; [exact Hr|].
    split; [apply He; reflexivity|exact Hpin].
Defined.

(** ** A worker inside a PBS job *)

(** The text of a job information: the manager, the seconds, the identifier. *)
Definition demo_info_to_string (i : ManagerInfo) : result string string :=
  Ok (String (match mi_manager i with Pbs => "P" | Slurm => "S" end)
        (to_string (mi_time_limit i) +:+ String ":" (mi_job_id i))).

Fixpoint cut_number (acc : Z) (s : string) : option (Z * string) :=
  match s with
  | EmptyString => None
  | String c s' => if Ascii.eqb c ":" then Some (acc, s') else cut_number (acc * 10 + digit_val c) s'
  end.

Definition demo_info_from_str (s : string) : result string ManagerInfo :=
  match s with
  | String c s' =>
      match cut_number 0 s' with
      | Some (t, id) => Ok {| mi_manager := if Ascii.eqb c "P" then Pbs else Slurm;
                              mi_job_id := id; mi_time_limit := t |}
      | None => Err "no number"
      end
  | EmptyString => Err "empty"
  end.

#[local] Arguments String.append !_ _ /.

Lemma cut_number_app acc d s :
  str_all is_dec_digit d = true -> cut_number acc (d +:+ String ":" s) = Some (dec_value acc d, s).
Proof.
  revert acc. induction d as [|c d IH]; intros acc; simpl; [done|].
  intros [Hc Hd]%andb_true_iff. destruct (Ascii.eqb_spec c ":") as [->|]; [discriminate|by apply IH].
Qed.

Lemma demo_info_roundtrip i :
  is_u64 (mi_time_limit i) ->
  exists t, demo_info_to_string i = Ok t /\ demo_info_from_str t = Ok i.
Proof.
  intros Hi. eexists. split; [reflexivity|]. unfold demo_info_from_str.
  rewrite cut_number_app by apply to_string_digits. rewrite dec_value_to_string by done.
  by destruct i as [[] id t].
Qed.

(** The answer of [qstat] is a table of paths. *)
Definition demo_get_str (table : list (list string * string)) (path : list string) : option string :=
  match list_find (fun kv => kv.1 = path) table with
  | Some (_, kv) => Some kv.2
  | None => None
  end.

Definition demo_qstat : list (list string * string) :=
  [(["Jobs"; "42.master"; "Resource_List"; "walltime"], "24:00:00");
   (["Jobs"; "42.master"; "resources_used"; "walltime"], "01:30:05")].

Definition demo_env (k : string) : option string :=
  if String.eqb k "PBS_ENVIRONMENT" then Some "PBS_BATCH"
  else if String.eqb k "PBS_JOBID" then Some "42.master" else None.

Lemma pbs_worker_time_limit_witness :
  exists c,
    gather_configuration _ (fun _ => Ok demo_qstat) demo_get_str
      demo_info_to_string demo_env (fun _ => Ok "{}") (Some "node1") (Some "/tmp/hq")
      (fun _ _ => {| cpus := [[0]] |}) (fun _ => "error") demo_files 4
      {| ws_cpus := Some "4"; ws_heartbeat := 8; ws_idle_timeout := Some 300; ws_manager := MDetect |}
    = Ret (Ok c) /\
    get_manager_info demo_info_from_str c
    = Some {| mi_manager := Pbs; mi_job_id := "42.master"; mi_time_limit := 80995 |}.
Proof.
  pose proof (pbs_worker_time_limit _ (fun _ => Ok demo_qstat) demo_get_str demo_info_to_string
    demo_info_from_str demo_env (fun _ => Ok "{}") (Some "node1") (Some "/tmp/hq")
    (fun _ _ => {| cpus := [[0]] |}) (fun _ => "error") demo_files 4
    {| ws_cpus := Some "4"; ws_heartbeat := 8; ws_idle_timeout := Some 300; ws_manager := MDetect |}
    "node1" "/tmp/hq" {| cpus := [[0]] |} "42.master" "24" "00" "00" "01" "30" "05") as Hpbs.
  destruct Hpbs as (c & Hc & _ & _ & Hi).
  - exact demo_info_roundtrip.
  - left. reflexivity.
  - reflexivity.
  - reflexivity.
  - vm_compute. reflexivity.
  - discriminate.
  - reflexivity.
  - repeat split; try discriminate; vm_compute; discriminate.
  - repeat split; try discriminate; vm_compute; discriminate.
  - eexists _, _. split; [reflexivity|]. split; [reflexivity|]. split; reflexivity.
  - exists c. split; [exact Hc|]. rewrite Hi. vm_compute. reflexivity.
Defined.

(** ** Two workers stream to one log *)

#[local] Existing Instance big_endian.

(** Task 1 writes two chunks to its standard output, task 2 as well. *)
Definition demo_reads (t i c : Z) : list (list Z) :=
  if negb (c =? 0) then [] else if t =? 1 then [[65]; [66; 10]] else if t =? 2 then [[67]; [68]] else [].

Definition demo_sender (t : Z) : StreamSender := {| ss_conn := 0; ss_task := t; ss_instance := 0 |}.

(** A worker runs task [t]: the end is forwarded only by [n] rounds of the queue. *)
Definition demo_worker (t : Z) (chunks : list (list Z)) (n : nat) : list StreamerEvent :=
  EGetStream 7 t 0 100 :: EStart (demo_sender t) :: (EData (demo_sender t) 0 <$> chunks)
    ++ EClose (demo_sender t) :: replicate n (EForward 0).

(** The connection of the second worker breaks after its first chunk. *)
Definition demo_connections : list StreamedConnection :=
  [{| sc_events := demo_worker 1 [[65]; [66; 10]] 4; sc_conn := 0;
      sc_received := [MStart 1 0; MData 1 0 0 [65]; MData 1 0 0 [66; 10]; MEnd 1 0];
      sc_error := None |};
   {| sc_events := demo_worker 2 [[67]; [68]] 3; sc_conn := 0;
      sc_received := [MStart 2 0; MData 2 0 0 [67]]; sc_error := Some "reset" |}].

Definition demo_arrival : list StreamMessage :=
  [{| sm_message := MStart 1 0; sm_sender := Some 0 |};
   {| sm_message := MStart 2 0; sm_sender := Some 1 |};
   {| sm_message := MData 1 0 0 [65]; sm_sender := Some 0 |};
   {| sm_message := MData 2 0 0 [67]; sm_sender := Some 1 |};
   {| sm_message := MData 1 0 0 [66; 10]; sm_sender := Some 0 |};
   {| sm_message := MEnd 2 0; sm_sender := None |};
   {| sm_message := MEnd 1 0; sm_sender := Some 0 |}].

Definition demo_stream_run (t i : Z) : list FromStreamerMessage :=
  MStart t i :: (MData t i 0 <$> resend_stdio (demo_reads t i 0)) ++ [MEnd t i].

Lemma demo_stream_ok t i :
  run_task_messages t i (demo_reads t i 0) (demo_reads t i 1) (demo_stream_run t i).
Proof.
  eexists. split; [|reflexivity]. pose proof (interleaving_concat
    (MData t i 0 <$> resend_stdio (demo_reads t i 0)) []) as Hi. by rewrite app_nil_r in Hi.
Qed.

Lemma demo_connection_ok t0 sc :
  Forall (fun m => stream_key m = (t0, 0)) (demo_stream_run t0 0) ->
  accepted_run (sc_conn sc) streamer_start (sc_events sc) = demo_stream_run t0 0 ->
  (exists w c, foldM streamer_step streamer_start (sc_events sc) = Ret w /\
     w_conns w !! sc_conn sc = Some c /\ sc_received sc `prefix_of` c_sent c) ->
  (forall t i, MStart t i ∈ sc_received sc -> is_u32 t /\ is_u32 i) ->
  connection_ok demo_reads sc.
Proof.
  intros Hk Ha Hd Hi. split; [exact Hd| |exact Hi]. intros t i. exists (demo_stream_run t i).
  split; [apply demo_stream_ok|]. rewrite Ha. destruct (decide ((t, i) = (t0, 0))) as [[= -> ->]|Hne].
  - clear Ha. replace (filter _ (demo_stream_run t0 0)) with (demo_stream_run t0 0); [done|]. induction Hk as [|m l Hm _ IH]; [done|]. rewrite filter_cons_True by done.
    by f_equal.
  - clear Ha. replace (filter _ (demo_stream_run t0 0)) with (@nil FromStreamerMessage); [apply prefix_nil|].
    induction Hk as [|m l Hm _ IH]; [done|]. by rewrite filter_cons_False by congruence.
Qed.

Lemma demo_connections_ok : Forall (connection_ok demo_reads) demo_connections.
Proof.
  repeat (apply Forall_cons; split); [| |by apply Forall_nil].
  - apply (demo_connection_ok 1); [repeat constructor|vm_compute; reflexivity| |].
    + eexists _, _. split; [vm_compute; reflexivity|]. split; [vm_compute; reflexivity|].
      exists []. reflexivity.
    + intros t i Hin. simpl in Hin. assert (t = 1 /\ i = 0) as [-> ->] by set_solver.
      unfold is_u32. lia.
  - apply (demo_connection_ok 2); [repeat constructor|vm_compute; reflexivity| |].
    + eexists _, _. split; [vm_compute; reflexivity|]. split; [vm_compute; reflexivity|].
      exists [MData 2 0 0 [68]]. reflexivity.
    + intros t i Hin. simpl in Hin. assert (t = 2 /\ i = 0) as [-> ->] by set_solver.
      unfold is_u32. lia.
Qed.

Lemma demo_arrival_merged : merged (imap server_messages demo_connections) demo_arrival.
Proof.
  assert (Heq : imap server_messages demo_connections =
    [[{| sm_message := MStart 1 0; sm_sender := Some 0 |};
      {| sm_message := MData 1 0 0 [65]; sm_sender := Some 0 |};
      {| sm_message := MData 1 0 0 [66; 10]; sm_sender := Some 0 |};
      {| sm_message := MEnd 1 0; sm_sender := Some 0 |}];
     [{| sm_message := MStart 2 0; sm_sender := Some 1 |};
      {| sm_message := MData 2 0 0 [67]; sm_sender := Some 1 |};
      {| sm_message := MEnd 2 0; sm_sender := None |}]]) by (vm_compute; reflexivity).
  rewrite Heq. eapply (merged_cons _ 0); [reflexivity|]. eapply (merged_cons _ 1); [reflexivity|].
  eapply (merged_cons _ 0); [reflexivity|]. eapply (merged_cons _ 1); [reflexivity|].
  eapply (merged_cons _ 0); [reflexivity|]. eapply (merged_cons _ 1); [reflexivity|].
  eapply (merged_cons _ 0); [reflexivity|]. apply merged_nil. simpl. set_solver.
Qed.

Lemma demo_one_connection n1 n2 a b x y :
  demo_connections !! n1 = Some a -> demo_connections !! n2 = Some b ->
  x ∈ sc_received a -> y ∈ sc_received b -> stream_key x = stream_key y -> n1 = n2.
Proof.
  intros Ha Hb Hx Hy Hk.
  destruct n1 as [|[|n1]], n2 as [|[|n2]]; try done; injection Ha as <-; injection Hb as <-;
    simpl in Hx, Hy; exfalso;
    repeat (apply elem_of_cons in Hx as [->|Hx]; [
      repeat (apply elem_of_cons in Hy as [->|Hy]; [discriminate|]); by apply elem_of_nil in Hy|]);
    by apply elem_of_nil in Hx.
Qed.

Lemma streamed_output_is_printed_witness :
  exists lf out2,
    LogFile_open (file_writer (fun _ _ => true) (fun _ => true) "" demo_arrival).1 = Some (Ok lf) /\
    cat lf {| co_channel := Stdout; co_task := None; co_allow_unfinished := false |}
      = Ret (Ok ([65; 66; 10] ++ out2)).
Proof.
  destruct (streamed_output_is_printed demo_reads) with (conns := demo_connections)
    (sms := demo_arrival) (H0 := dev) (io_error := "") as (lf & Hopen & Hcat).
  - intros t i c. unfold demo_reads, STDIO_BUFFER_SIZE.
    destruct (negb (c =? 0)), (t =? 1), (t =? 2); repeat constructor; vm_compute; discriminate.
  - exact demo_connections_ok.
  - exact demo_one_connection.
  - exact demo_arrival_merged.
  - destruct (Hcat {| co_channel := Stdout; co_task := None; co_allow_unfinished := false |} [1; 2])
      as (outs & Hc & Hf).
    + vm_compute. reflexivity.
    + intros t Ht. apply (bool_decide_unpack (t ∈ started_tasks (sm_message <$> demo_arrival))).
      assert (t = 1 \/ t = 2) as [-> | ->] by (clear -Ht; set_solver); vm_compute; exact I.
    + apply Forall2_cons_inv_l in Hf as (out1 & outs2 & [_ H1] & _ & ->).
      exists lf, (concat outs2). split; [exact Hopen|]. rewrite Hc. cbn [concat].
      enough (out1 = [65; 66; 10]) as -> by reflexivity. apply H1. exists (nth 0 demo_connections {| sc_events := []; sc_conn := 0; sc_received := []; sc_error := None |}).
      split; [by left|]. apply (bool_decide_unpack _). vm_compute. exact I.
Defined.

(** ** Submits from the command line *)

Definition demo_opts (each_line : option string) (log : option string) : SubmitOpts :=
  {| sub_command := "/usr/bin/env"; sub_args := ["true"]; sub_cpus := CRAll; sub_name := None;
     sub_pin := false; sub_cwd := "%{SUBMIT_DIR}"; sub_stdout := None; sub_stderr := None;
     sub_env := [{| key := "A"; value := "1" |}; {| key := "A"; value := "2" |}];
     sub_each_line := each_line; sub_array := None; sub_max_fails := None; sub_priority := 0;
     sub_time_limit := None; sub_wait := false; sub_log := log |}.

Definition demo_file (f : string) : result string string :=
  if String.eqb f "in.txt" then Ok (join_lines ["first"; ""] +:+ "third") else Err "no file".

(** [ResourceRequest::new] *)
Definition demo_resources (cr : CpuRequest) : ResourceRequest (Tako := demo_tako) := (1 : Z).

Definition demo_request (opts : SubmitOpts) : outcome (result string (SubmitRequest * list string)) :=
  submit_request demo_resources "invalid" (fun _ => Ok 12) demo_file (Some "/home") opts.

(** The default name, the last value of a variable, and the warning. *)
Example demo_request_simple :
  exists r w, demo_request (demo_opts None None) = Ret (Ok (r, w)) /\ sr_name r = "env" /\
    pd_env (sr_spec r) !! "A" = Some "2" /\ length w = 1%nat.
Proof. vm_compute. eauto 10. Qed.

Lemma each_line_submit_witness :
  exists r w s' ctl next defs,
    demo_request (demo_opts (Some "in.txt") None) = Ret (Ok (r, w)) /\
    handle_submit demo_state r 50 = Ret (s', ctl, next) /\
    Forall2 (fun kl d => starts_line (demo_opts (Some "in.txt") None) 2 4 kl.1 kl.2 d)
      [(0%nat, "first"); (1%nat, ""); (2%nat, "third")] defs.
Proof.
  destruct (each_line_submit (H0 := dev) demo_resources "invalid" (fun _ => Ok 12) demo_file (Some "/home")
    demo_serialize_total demo_state 50 (demo_opts (Some "in.txt") None) "in.txt" 12
    ["first"; ""] "third" "env" "/home")
    as (r & w & s' & j & ctl & next & defs & Hr & Hh & _ & _ & _ & Hf).
  - exact demo_state_wf.
  - rewrite demo_counter. lia.
  - exact demo_base_free.
  - reflexivity.
  - reflexivity.
  - reflexivity.
  - reflexivity.
  - repeat constructor.
  - reflexivity.
  - vm_compute. reflexivity.
  - vm_compute. reflexivity.
  - reflexivity.
  - exists r, w, s', ctl, next, defs. split; [exact Hr|]. split; [exact Hh|].
    assert (Ht : task_id_counter demo_state = 4) by (vm_compute; reflexivity).
    rewrite demo_counter, Ht in Hf. exact Hf.
Defined.



(** ** The run of a task *)

(** A program with a pipe for its standard output writes two chunks and exits. *)
Definition piped_program : ProgramDefinition :=
  {| pd_args := ["prog"]; pd_env := ∅; pd_stdout := StdioPipe; pd_stderr := StdioNull; pd_cwd := None |}.

Definition piped_events : list (TaskEvent (StopReason := unit)) :=
  [TeRead false (Ok [1; 2]) (Ok tt); TeExit (Ok (true, Some 0)); TeRead false (Ok [3]) (Ok tt);
   TeRead false (Ok []) (Ok tt); TeClosed (Ok tt); TeResponse (Some (Ok tt))].

Definition piped_run : TaskRun (TaskResult := bool) :=
  match task_run true (fun _ => false) id 4 0 (task_start id 4 0 piped_program (Ok tt) (Ok tt) (Ok tt)) piped_events with
  | Ret t => t
  | Panic _ => task_start_zero true
  end.

Lemma finished_output_was_streamed_witness :
  task_result piped_run = Some (Ok true) /\
  exists out err, run_task_messages 4 0 out err (tr_sent piped_run) /\
    pipe_complete true (pipe_reads false piped_events) out.
Proof.
  assert (Hres : task_result piped_run = Some (Ok true)) by (vm_compute; reflexivity).
  split; [exact Hres|].
  destruct (finished_output_was_streamed true (fun _ : unit => false) id 4 0 piped_program (Ok tt) (Ok tt) (Ok tt)
    piped_events piped_run) as [_ Hfin]; [discriminate|vm_compute; reflexivity|].
  destruct (Hfin Hres) as [_ Hc]. destruct (Hc eq_refl) as (out & err & Hm & Ho & _).
  exists out, err. split; [exact Hm|exact Ho].
Defined.
