(* ===== verification/ServerWitnesses.v ===== *)
(** * Concrete runs of a server directory *)

From stdpp Require Import countable.
From S2P Require Import Prelude Messages Client ServerDir Connection Witnesses.

(** ** Serializers: texts of the codes of countable types *)

Fixpoint show_code (p : positive) : string :=
  match p with
  | xH => ""
  | xO p => String "0" (show_code p)
  | xI p => String "1" (show_code p)
  end.

Fixpoint read_code (s : string) : positive :=
  match s with
  | EmptyString => xH
  | String c s => if Ascii.eqb c "0" then xO (read_code s) else xI (read_code s)
  end.

Lemma read_show_code p : read_code (show_code p) = p.
Proof. induction p as [p IH|p IH|]; simpl; [by rewrite IH..|done]. Qed.

Definition code_text {A} `{Countable A} (x : A) : string := show_code (encode x).

Definition text_code {A} `{Countable A} (s : string) : result string A :=
  match decode (read_code s) with Some x => Ok x | None => Err "invalid" end.

Lemma text_code_text {A} `{Countable A} (x : A) : text_code (code_text x) = Ok x.
Proof. unfold text_code, code_text. by rewrite read_show_code, decode_encode. Qed.

Abbreviation RawTuple := (string * string * Z * Z * Z * Z * string * string)%type.

Definition raw_tuple (r : RawRecord) : RawTuple :=
  (raw_version r, raw_host r, raw_pid r, raw_server_port r, raw_worker_port r, raw_start_date r,
   raw_hq_secret_key r, raw_tako_secret_key r).

Definition tuple_raw (t : RawTuple) : RawRecord :=
  let '(v, h, p, sp, wp, d, k1, k2) := t in
  {| raw_version := v; raw_host := h; raw_pid := p; raw_server_port := sp; raw_worker_port := wp;
     raw_start_date := d; raw_hq_secret_key := k1; raw_tako_secret_key := k2 |}.

Definition demo_to_writer (r : RawRecord) : result string string := Ok (code_text (raw_tuple r)).

Definition demo_from_reader (s : string) : result string RawRecord :=
  match text_code s with Ok t => Ok (tuple_raw t) | Err e => Err e end.

Lemma demo_json_roundtrip raw :
  exists text, demo_to_writer raw = Ok text /\ demo_from_reader text = Ok raw.
Proof.
  eexists. split; [reflexivity|]. unfold demo_from_reader. rewrite text_code_text. by destruct raw.
Qed.

#[local] Instance demo_format : AccessFormat :=
  {| to_writer_pretty := demo_to_writer; from_reader := demo_from_reader;
     json_roundtrip := demo_json_roundtrip |}.

(** A key is its bytes. *)
#[local] Instance demo_keys : Keys :=
  {| SecretKey := list Z; unprotected_as_bytes := id; from_slice := Ok; hex_encode := code_text;
     hex_decode := text_code; hex_roundtrip := text_code_text;
     key_roundtrip := fun k => eq_refl |}.

#[local] Instance demo_host : HostEnv :=
  {| current_dir := Some "/home"; VERSION := "0.6.0";
     format_date := fun d => "2021-10-01-00-00-0" +:+ to_string d;
     reachable := fun _ _ => true |}.

(** ** A directory of servers *)

Definition demo_dir : string := "/home/.hq-server".

(** The directory of an older run is linked; [dirs] tells whether it is still there. *)
Definition demo_fs (old : gset string) : FileSystem :=
  {| fs_dirs := {["/"; "/home"; demo_dir]} ∪ old; fs_files := ∅;
     fs_links := {[demo_dir +:+ "/hq-current" := demo_dir +:+ "/old"]} |}.

Definition demo_start : ServerStart :=
  {| st_host := "node"; st_server_port := 1000; st_worker_port := 1001; st_now := 5; st_pid := 77;
     st_hq_key := [1; 2]; st_tako_key := [3] |}.

Definition demo_world (old : gset string) : ServerWorld :=
  {| sw_fs := demo_fs old; sw_running := [] |}.

Lemma demo_no_server old : old = {[demo_dir +:+ "/old"]} \/ old = ∅ -> no_server (demo_world old) demo_dir.
Proof. intros [-> | ->]; eexists; (split; [vm_compute; reflexivity|exact I]). Qed.

Lemma demo_fresh old :
  old = {[demo_dir +:+ "/old"]} \/ old = ∅ ->
  fresh_run (demo_fs old) demo_dir (format_date (st_now demo_start)).
Proof.
  intros Ho. split.
  - reflexivity.
  - destruct Ho as [-> | ->]; apply (bool_decide_unpack _); vm_compute; exact I.
  - apply (bool_decide_unpack _). vm_compute. exact I.
  - destruct Ho as [-> | ->]; vm_compute; reflexivity.
  - destruct Ho as [-> | ->]; apply (bool_decide_unpack _); vm_compute; exact I.
  - apply (bool_decide_unpack _). vm_compute. exact I.
  - destruct Ho as [-> | ->]; (split; [|split]);
      [apply (bool_decide_unpack _); vm_compute; exact I|reflexivity
      |apply (bool_decide_unpack _); vm_compute; exact I..|reflexivity
      |apply (bool_decide_unpack _); vm_compute; exact I].
Qed.

Lemma demo_replaceable : link_replaceable (demo_fs {[demo_dir +:+ "/old"]}) (path_join demo_dir SYMLINK_PATH).
Proof.
  unfold link_replaceable. change (path_join demo_dir SYMLINK_PATH) with (demo_dir +:+ "/hq-current").
  simpl. rewrite lookup_singleton_eq. left. set_solver.
Qed.


Lemma dangling_link_blocks_start_witness :
  exists w', init_hq_server (demo_world ∅) demo_dir demo_start = Ret (w', Err "File exists").
Proof.
  destruct (dangling_link_blocks_start (demo_world ∅) demo_dir demo_start (demo_dir +:+ "/old"))
    as (w' & Hw & _).
  - apply lookup_singleton_eq.
  - vm_compute. reflexivity.
  - apply (bool_decide_unpack _). vm_compute. exact I.
  - vm_compute. discriminate.
  - apply demo_fresh. by right.
  - apply demo_no_server. by right.
  - exists w'. exact Hw.
Defined.

(** ** Connections *)

#[local] Existing Instance demo_tako.

(** Requests to stop, and one kind of answer, are encoded. *)
#[local] Instance demo_from_serde : Serde FromClientMessage :=
  {| serialize_item := fun m => match m with Stop => Ok [7] | _ => Err "not encoded" end;
     deserialize_item := fun b => match b with [7] => Ok Stop | _ => Err "not decoded" end |}.

#[local] Instance demo_to_serde : Serde ToClientMessage :=
  {| serialize_item := fun m => match m with ErrorMsg EmptyString => Ok [8] | _ => Err "not encoded" end;
     deserialize_item := fun b => match b with [8] => Ok (ErrorMsg "") | _ => Err "not decoded" end |}.

(** Frames are numbered; the handshake compares the keys and the roles. *)
Definition demo_seal (s : option Z) (d : list Z) : option Z * list Z :=
  match s with Some n => (Some (n + 1), n :: d) | None => (None, d) end.

Definition demo_open (M : Type) `{Serde M} (o : option Z) (b : list Z) : option Z * result string M :=
  match o, b with
  | Some n, k :: d => if n =? k then (Some (n + 1), deserialize_item d) else (o, Err "cannot open")
  | Some _, [] => (o, Err "cannot open")
  | None, _ => (None, deserialize_item b)
  end.

Definition demo_handshake (a b : Endpoint) : result string (option Z * option Z) :=
  if String.eqb (ep_role a) (ep_peer_role b) && String.eqb (ep_role b) (ep_peer_role a)
     && bool_decide (ep_secret a = ep_secret b)
  then Ok (Some 0, Some 0) else Err "authentication failed".

#[local] Instance demo_auth : Auth :=
  {| StreamSealer := Z; StreamOpener := Z; do_authentication := demo_handshake;
     seal_message := demo_seal; open_message := @demo_open |}.

#[local] Instance demo_auth_laws : AuthLaws.
Proof.
  refine {| paired := eq |}.
  intros a b s o s' o'. simpl. unfold demo_handshake.
  destruct (_ && _ && _); [|done]. destruct (_ && _ && _); [|done]. by intros [= <- <-] [= <- <-].
Defined.

Lemma demo_open_seal (M : Type) `{Serde M} :
  (forall (m : M) d, serialize_item m = Ok d -> deserialize_item d = Ok m) -> OpenSeal M.
Proof.
  intros Hrt m d s o Hm Hp. change (s = o) in Hp. subst o. exists (demo_seal s d).1. split; [|done].
  simpl. unfold demo_open, demo_seal. destruct s as [n|]; simpl; [|by rewrite (Hrt m d Hm)].
  by rewrite Z.eqb_refl, (Hrt m d Hm).
Qed.

#[local] Instance demo_open_from : OpenSeal FromClientMessage.
Proof. apply demo_open_seal. intros m d Hm. destruct m; try discriminate. by injection Hm as <-. Qed.

#[local] Instance demo_open_to : OpenSeal ToClientMessage.
Proof.
  apply demo_open_seal. intros m d Hm. destruct m as [| | | | | | | |e]; try discriminate.
  destruct e; [|discriminate]. by injection Hm as <-.
Qed.

(** Two requests, an answer in between, the end of one direction, and the other
    one breaks before the second answer arrives. *)
Definition demo_write (_ : list Z) : result string unit := Ok tt.

Definition demo_link_events : list LinkEvent :=
  [ClientSend Stop demo_write; ServerReceive; ServerSend (ErrorMsg "") demo_write;
   ClientSend Stop demo_write; ClientReceive; EndUp None; ServerReceive; ServerReceive;
   ServerSend (ErrorMsg "") demo_write; EndDown (Some ("reset", 0%nat)); ClientReceive].

Definition demo_conn {R S} : HqConnection R S := {| sealer := Some 0; opener := Some 0 |}.

Definition demo_link_run : Link * list LinkObs :=
  default (link_new demo_conn demo_conn, []) (link_run (link_new demo_conn demo_conn) demo_link_events).

Example demo_link_client : omap client_saw demo_link_run.2 = [Some (Ok (ErrorMsg "")); Some (Err "reset")].
Proof. vm_compute. reflexivity. Qed.

Lemma connection_is_fifo_witness :
  omap id (omap server_saw demo_link_run.2) = Ok <$> sent (omap client_sends demo_link_run.2).
Proof.
  destruct (connection_is_fifo (st_hq_key demo_start) (st_hq_key demo_start) demo_conn demo_conn
              demo_link_events demo_link_run.1 demo_link_run.2) as [Hup _];
    [vm_compute; reflexivity..|].
  unfold fifo in Hup. replace (w_state (l_up demo_link_run.1)) with WClosed in Hup by (vm_compute; reflexivity).
  destruct Hup as (q & Hq & _ & Hend). rewrite Hq, Hend; [by rewrite app_nil_r|].
  vm_compute. repeat constructor.
Defined.
