(* ===== verification/SystemWitnesses.v ===== *)
(** * Concrete runs of the server with its clients *)

From S2P Require Import Prelude ArrayDef Messages Job Status State Client Server Backend Protocol ServerDir Connection System Bootstrap Cells Borrows Wait Cli Main WaitRun Witnesses ServerWitnesses.

#[local] Existing Instance demo_tako.
#[local] Existing Instance dev.
#[local] Existing Instance demo_keys.
#[local] Existing Instance demo_auth.
#[local] Existing Instance demo_auth_laws.

(** The requests to stop the server and to stop all workers, and its response, are encoded. *)
#[local] Instance stop_from_serde : Serde FromClientMessage :=
  {| serialize_item := fun m => match m with Stop => Ok [7] | StopWorker SelAll => Ok [9] | _ => Err "not encoded" end;
     deserialize_item := fun b => match b with [7] => Ok Stop | [9] => Ok (StopWorker SelAll) | _ => Err "not decoded" end |}.

#[local] Instance stop_to_serde : Serde ToClientMessage :=
  {| serialize_item := fun m => match m with StopWorkerResponseMsg [(1, SWStopped)] => Ok [10] | _ => Err "not encoded" end;
     deserialize_item := fun b => match b with [10] => Ok (StopWorkerResponseMsg [(1, SWStopped)]) | _ => Err "not decoded" end |}.

#[local] Instance stop_open_from : OpenSeal FromClientMessage.
Proof.
  apply demo_open_seal. intros m d Hm. destruct m as [| | | | | | | |s|]; try discriminate;
    [destruct s; try discriminate|]; by injection Hm as <-.
Qed.

#[local] Instance stop_open_to : OpenSeal ToClientMessage.
Proof.
  apply demo_open_seal. intros m d Hm. cbn in Hm. repeat (case_match; try discriminate). by injection Hm as <-.
Qed.

(** A scheduler that accepts every request. *)
Definition demo_process (core : unit) (q : FromGatewayMessage) : unit * list ToGatewayMessage * option string :=
  (core, match q with
         | NewTasks _ => [NewTasksResponse]
         | CancelTasks _ => [CancelTasksResponse []]
         | StopWorkerReq _ => [WorkerStopped]
         end, None).

Lemma demo_contract : tako_contract demo_process.
Proof. intros core [] core' pushed error [= <- <- <-]; eexists; split; reflexivity. Defined.

(** A worker registers, and a client asks to stop all workers. *)
Definition stop_key : SecretKey := st_hq_key demo_start.

Definition stop_events : list (SysEvent (Core := unit)) :=
  [SyServer (BkTako tt (NewWorkerMsg 1 "node")) demo_write;
   SyServer (BkReader 1) demo_write;
   SyConnect 7 stop_key;
   SyClient 7 (ClientSend (StopWorker SelAll) demo_write);
   SyRead 7 2 demo_write;
   SyServer BkSender demo_write;
   SyServer (BkReader 3) demo_write].

(** The handler goes on, its response is written and received. *)
Definition stop_answer_events : list (SysEvent (Core := unit)) :=
  [SyServer (BkServer (EvResume 0 4)) demo_write; SyClient 7 ClientReceive].

Definition stop_run (es : list (SysEvent (Core := unit))) : System * list (Z * LinkObs) :=
  match sys_run demo_process stop_key "/" (System_new tt) es with
  | Ret r => r
  | Panic _ => (System_new tt, [])
  end.

Definition stop_asked := stop_run stop_events.
Definition stop_answered := stop_run (stop_events ++ stop_answer_events).

Example stop_received :
  received 7 stop_answered.2 = [Ok (StopWorkerResponseMsg [(1, SWStopped)])].
Proof. vm_compute. reflexivity. Qed.

Lemma stop_events_ok : Forall sys_event_ok stop_events /\ Forall sys_event_ok stop_answer_events.
Proof. split; repeat apply Forall_cons_2; exact I || apply Forall_nil_2. Qed.

Lemma one_client_disciplined c es os :
  disciplined (omap client_sends (conn_obs c os)) -> forallb (fun o => o.1 =? c) os = true ->
  es = os -> clients_disciplined es.
Proof.
  intros Hc Hall -> d. destruct (decide (d = c)) as [->|Hd]; [done|].
  replace (conn_obs d os) with (@nil LinkObs); [done|]. clear Hc.
  induction os as [|o os IH]; [done|]. simpl in Hall. apply andb_true_iff in Hall as [Ho Hall].
  unfold conn_obs. simpl. rewrite decide_False by lia. by apply IH.
Qed.

Lemma requests_answered_in_order_witness :
  received 7 stop_answered.2 !! 0%nat = Some (Ok (StopWorkerResponseMsg [(1, SWStopped)])) /\
  exists m, requests 7 stop_answered.2 !! 0%nat = Some m /\
    response_kind (kind_of m) (StopWorkerResponseMsg [(1, SWStopped)]) = true.
Proof.
  split; [vm_compute; reflexivity|].
  destruct (requests_answered_in_order demo_process stop_key demo_contract "/" tt (stop_events ++ stop_answer_events)
    stop_answered.1 stop_answered.2) as [_ Hall]; [vm_compute; reflexivity|repeat constructor|vm_compute; reflexivity| |].
  - eapply (one_client_disciplined 7); [| |reflexivity]; vm_compute; reflexivity.
  - destruct (sy_links stop_answered.1 !! 7) as [l|] eqn:Hl; [|vm_compute in Hl; discriminate].
    destruct (Hall 7 l Hl) as [Hr _]. destruct (Hr 0%nat (StopWorkerResponseMsg [(1, SWStopped)])) as [Hm|[_ [e He]]];
      [vm_compute; reflexivity|exact Hm|discriminate].
Defined.

(** The client went away: the write fails. *)
Lemma response_written_or_abort_witness :
  sys_step demo_process stop_key "/" stop_asked.1
    (SyServer (BkServer (EvResume 0 4)) (fun _ => Err "broken pipe")) = Panic AssertionFailed.
Proof.
  pose proof (response_written_or_abort demo_process stop_key demo_contract "/" tt stop_events
    stop_asked.1 stop_asked.2 (BkServer (EvResume 0 4)) (fun _ => Err "broken pipe")) as Hw.
  destruct (bk_step demo_process "/" (sy_backend stop_asked.1) (BkServer (EvResume 0 4))) as [bk'|] eqn:Hb;
    [|vm_compute in Hb; discriminate].
  assert (Hd : drop (length (sv_replies (sy_server stop_asked.1))) (sv_replies (bk_server bk'))
    = [(7, StopWorkerResponseMsg [(1, SWStopped)])]) by (vm_compute in Hb; injection Hb as <-; vm_compute; reflexivity).
  specialize (Hw bk'). rewrite Hd in Hw.
  destruct Hw as (l & _ & Hp); [vm_compute; reflexivity|apply stop_events_ok|vm_compute; reflexivity| |reflexivity|reflexivity|].
  - eapply (one_client_disciplined 7); [| |reflexivity]; vm_compute; reflexivity.
  - exact Hp.
Defined.

(** ** The channels to [tako] *)

Definition stop_bk_events : list (BkEvent (Core := unit)) :=
  [BkTako tt (NewWorkerMsg 1 "node"); BkReader 1; BkServer (EvConnect 7);
   BkServer (EvClient 7 (Ok (StopWorker SelAll)) 2); BkSender].

Definition stop_bk : Backend (Core := unit) :=
  match bk_run demo_process "/" (Backend_new tt) stop_bk_events with Ret bk => bk | Panic _ => Backend_new tt end.

Lemma backend_refines_server_witness :
  exists bk' w q, bk_step demo_process "/" stop_bk (BkReader 3) = Ret bk' /\
    next_request (bk_server stop_bk) = Some q /\ waits_for w q = true /\ answer_kind q WorkerStopped = true.
Proof.
  destruct (backend_refines_server demo_process "/" tt stop_bk_events stop_bk demo_contract) as [_ Hr];
    [vm_compute; reflexivity|repeat constructor|vm_compute; reflexivity|].
  destruct (Hr WorkerStopped [] 3) as (bk' & w & q & H1 & _ & _ & H2 & H3 & H4);
    [vm_compute; reflexivity|reflexivity|]. by exists bk', w, q.
Defined.

(** ** The life of a server *)

#[local] Existing Instance demo_format.
#[local] Existing Instance demo_host.

Definition demo_config : ServerConfig :=
  {| cfg_host := "node"; cfg_idle_timeout := None; cfg_autoalloc_interval := None |}.

Definition demo_env : Environment (Core := unit) :=
  {| env_bind := Ok 1000; env_hq_key := st_hq_key demo_start; env_tako_key := st_tako_key demo_start;
     env_start := fun _ => Ok (1001, tt); env_now := 5; env_pid := 77 |}.

(** A client with the key asks the server to stop. *)
Definition life_events : list (SelectEvent (Core := unit)) :=
  [SeSystem (SyConnect 7 (st_hq_key demo_start)); SeSystem (SyClient 7 (ClientSend Stop demo_write));
   SeSystem (SyRead 7 1 demo_write); SeStop].

Definition life_world : ServerWorld :=
  match hq_server_start demo_process (demo_world {[demo_dir +:+ "/old"]}) demo_dir "/" demo_config demo_env life_events with
  | Ret (w, _) => w
  | Panic _ => demo_world ∅
  end.

Lemma demo_startable : startable (demo_world {[demo_dir +:+ "/old"]}) demo_dir (start_of demo_config demo_env 1000 1001).
Proof.
  split.
  - apply demo_no_server. by left.
  - apply demo_fresh. by left.
  - apply demo_replaceable.
  - split; [reflexivity|constructor].
  - split; [reflexivity|]. split; [vm_compute; reflexivity|vm_compute; discriminate].
Qed.


(** ** Borrows *)

Definition demo_cell : WrappedRcRefCell := {| inner := 3 |}.

(** Every branch and loop is entered, and the first waiting task runs next. *)
Definition onwards (n : nat) : list Decision := replicate n {| branch := true; next_task := 0 |}.
Definition idle : list Decision := [{| branch := true; next_task := 99 |}].

(** The server was left while the status of an allocation is asked for: the queue is
    borrowed, the state is not. *)
Lemma borrows_never_conflict_witness :
  exists m, machine_run (server_process [demo_cell]) (onwards 72 ++ idle) = Ret m /\
    (exists b, heap m !! inner demo_cell = Some b /\ rc_flag b = Reading 1) /\
    (exists b, heap m !! inner state_ref = Some b /\ rc_flag b = Reading 0).
Proof.
  assert (Forall (fun q => q ∉ server_cells) [demo_cell]) as Hq by (apply (bool_decide_unpack _); vm_compute; exact I).
  destruct (borrows_never_conflict [demo_cell] Hq) as [Hs _].
  destruct (Hs (onwards 72 ++ idle)) as (m & Hr & Hm).
  exists m. split; [exact Hr|].
  assert (current m = [] /\ exists b, heap m !! inner demo_cell = Some b /\ rc_flag b = Reading 1) as [Hc Hf].
  { revert Hr. vm_compute. intros Hr. injection Hr as <-. split; [reflexivity|]. eexists. split; reflexivity. }
  split; [exact Hf|]. apply Hm; [exact Hc|]. apply (bool_decide_unpack _). vm_compute. exact I.
Defined.

(** A mutable borrow that is held at an await would make another task panic. *)
Example held_at_an_await :
  machine_run (process [state_ref] [With true state_ref Await; compute_job_info_borrows])
    ({| branch := true; next_task := 0 |} :: onwards 6) = Panic BorrowFailed.
Proof. vm_compute. reflexivity. Qed.

(** ** Waiting for a job *)

(** Job 1 runs at the first request; then its first task fails, and the others are
    canceled. *)
Definition wait_history (k : nat) : list Event :=
  match k with
  | O => demo_events
  | 1%nat => demo_events ++ [EvTako (TaskFailedMsg 1 "error") 15]
  | _ => (demo_events ++ [EvTako (TaskFailedMsg 1 "error") 15]) ++
      [EvSpawned 0; EvTako (CancelTasksResponse [2; 3]) 16; EvResume 0 17]
  end.

Definition wait_server (k : nat) : Server := run_from Server_new (wait_history k).

Lemma wait_served_demo : served "/" wait_history wait_server.
Proof.
  split; intros [|[|k]].
  - by eexists.
  - by eexists.
  - by exists [].
  - apply run_from_returns. vm_compute. reflexivity.
  - apply run_from_returns. vm_compute. reflexivity.
  - apply run_from_returns. vm_compute. reflexivity.
  - exact demo_run_ok.
  - apply (bool_decide_unpack _). vm_compute. exact I.
  - apply (bool_decide_unpack _). vm_compute. exact I.
  - simpl. lia.
  - simpl. lia.
  - simpl. lia.
Qed.

(** The server of [wait_server] is the one of [demo_start]. *)
Definition wait_world : ServerWorld :=
  match init_hq_server (demo_world {[demo_dir +:+ "/old"]}) demo_dir demo_start with
  | Ret (w, _) => w
  | Panic _ => demo_world ∅
  end.

Definition wait_replies (_ : AccessRecord) (k : nat) (m : FromClientMessage) : result string ToClientMessage :=
  match m with
  | JobInfoRequest sel =>
      match compute_job_info (sv_state (wait_server k)) sel with Ret a => Ok a | Panic _ => Err "no server" end
  | _ => Err "no server"
  end.

Lemma wait_follows_server_witness :
  command_wait wait_world wait_replies (fun _ => "") 2 {| color_policy := ColorAuto; server_directory := demo_dir |} ArgLast
  = Some (Ret (Err "Some jobs have failed")).
Proof.
  rewrite (wait_follows_server "/" wait_history wait_server wait_world wait_replies (fun _ => "")
    (AccessRecord_new demo_start) _ ArgLast 1 [1]).
  - vm_compute. reflexivity.
  - exact wait_served_demo.
  - vm_compute. reflexivity.
  - intros k sel m Hm. unfold wait_replies. rewrite Hm. reflexivity.
  - vm_compute. reflexivity.
  - apply (bool_decide_unpack _). vm_compute. exact I.
  - vm_compute. reflexivity.
  - apply (bool_decide_unpack _). vm_compute. exact I.
Defined.
