(* ===== verification/ClientWitnesses.v ===== *)
(** * Concrete answers shown by the command line *)

From S2P Require Import Prelude ArrayDef Resources Messages Job Status State Client WorkerStart JobView Witnesses.

#[local] Existing Instance demo_tako.
#[local] Existing Instance dev.

(** A server that answers the request for all jobs. *)
Definition demo_answer (m : FromClientMessage) : result string ToClientMessage :=
  match m with
  | JobInfoRequest sel =>
      match compute_job_info demo_state sel with Ret a => Ok a | Panic _ => Err "server down" end
  | _ => Err "server down"
  end.

Definition demo_rows (job_filters : list Status) : outcome (result string (list (list string))) :=
  output_job_list demo_answer (fun _ => "") job_filters.

Example demo_rows_all : demo_rows [] = Ret (Ok [["1"; "job"; "RUNNING"; "3"]]).
Proof. vm_compute. reflexivity. Qed.

Lemma output_job_list_correct_witness :
  exists js : list Job,
    demo_rows [SFailed; SRunning] = Ret (Ok (job_row <$> js)) /\ demo_job ∈ js.
Proof.
  destruct (output_job_list_correct demo_answer (fun _ => "") demo_state [SFailed; SRunning]
              (JobInfoResponse (make_job_info <$> map_values (jobs demo_state))) demo_state_wf)
    as (js & H1 & _ & H3); [reflexivity..|].
  exists js. split; [exact H1|]. apply H3. split; [exact demo_job_at|]. right.
  apply (bool_decide_unpack _). vm_compute. exact I.
Defined.

Lemma demo_ended_wf : job_wf demo_ended.1.
Proof.
  unfold demo_ended. destruct (job_run demo_job demo_ops) as [[j msgs]|w] eqn:E.
  - apply job_run_from in E as [H _]; [|exact demo_job_wf]. apply H.
  - exfalso. assert (Hr : returns (job_run demo_job demo_ops) = true) by (vm_compute; reflexivity).
    by rewrite E in Hr.
Qed.

Definition demo_worker_config : WorkerConfig :=
  {| wc_resources := {| cpus := [[0]] |}; wc_listen_address := ""; wc_hostname := "node"; wc_work_dir := "work";
     wc_log_dir := "logs"; wc_heartbeat_interval := 8; wc_idle_timeout := None; wc_extra := ∅;
     wc_hw_state_poll_interval := None |}.

#[local] Instance demo_terminal : Terminal :=
  {| format_duration _ := ""; show_date _ := ""; request_cpus _ := CRAll; worker_config _ := demo_worker_config;
     resources_summary _ := ""; manager_from_str _ := Err "no manager"; Color := unit; color _ s := s;
     MAGENTA := tt; RED := tt; GREEN := tt; YELLOW := tt; CYAN := tt; chars _ _ := 0%nat |}.

Lemma failed_tasks_report_witness :
  let d := make_job_detail demo_ended.1 true 30 in
  print_job_tasks 30 (jd_tasks d) false (ji_counters (jd_info d)) {[1 := "node"]} =
  ([["3"; "node"; "error"]], Some "1 tasks failed.").
Proof.
  destruct (failed_tasks_report demo_ended.1 30 30 {[1 := "node"]} demo_ended_wf)
    as (failed & Hp & _ & Hprint).
  assert (failed = [(3, (1, "error"))]) as Hf.
  { apply Permutation_length_1_inv. symmetry. rewrite Hp. vm_compute. reflexivity. }
  rewrite Hf in Hprint. cbv zeta in Hprint |- *. rewrite Hprint. vm_compute. reflexivity.
Defined.
