(* ===== verification/Conformance.v ===== *)
(** * Conformance: the unit tests of the repository

    The tests of the modules [#[cfg(test)]] under [src/], on the definitions of the
    development: each one is the translation of the test function of its name, a
    computation that panics when an assertion fails, and an example that it passes.
    Interfaces are instantiated by the concrete instances of the witnesses.  Left out
    are the tests that need a socket of [tako] ([src/server/rpc.rs]) or the machine
    they run on ([test_read_linux_numa]). *)

From S2P Require Import Prelude Nom NomImpl ArrayDef ArrayParser Resources Messages Job Status State Client AutoAlloc Launcher Submit JobView Witnesses.

#[local] Existing Instance nom_impl.
#[local] Existing Instance demo_tako.
#[local] Existing Instance dev.

(** ** Assertions *)

(** [assert_eq!] *)
Definition assert_eq {A} `{EqDecision A} (a b : A) : outcome unit := assert (bool_decide (a = b)).

Definition is_err {E A} (r : result E A) : bool := match r with Err _ => true | Ok _ => false end.
Definition is_ok {E A} (r : result E A) : bool := negb (is_err r).

(** [Result::unwrap] *)
Definition unwrap_ok {E A} (r : result E A) : outcome A :=
  match r with Ok a => Ret a | Err _ => Panic UnwrapFailed end.

(** A list of assertions. *)
Fixpoint all_of (l : list (outcome unit)) : outcome unit :=
  match l with
  | [] => Ret tt
  | a :: l => _ ← a; all_of l
  end.

#[local] Instance CpuRequest_eq_dec : EqDecision CpuRequest.
Proof. solve_decision. Defined.
#[local] Instance StdioDef_eq_dec : EqDecision StdioDef.
Proof. solve_decision. Defined.

(** ** Numbers ([src/common/parser.rs]) *)

Definition read_u32 (s : string) : outcome (result unit Z) :=
  r ← all_consuming p_u32 s;
  Ret match r with Ok (_, v) => Ok v | Err _ => Err tt end.

Definition u32_is (s : string) (v : Z) : outcome unit := r ← read_u32 s; r ← unwrap_ok r; assert_eq r v.
Definition u32_fails (s : string) : outcome unit := r ← read_u32 s; assert (is_err r).

Definition test_parse_u32 : outcome unit := all_of [u32_is "0" 0; u32_is "1" 1; u32_is "1019" 1019].
Definition test_parse_u32_empty : outcome unit := u32_fails "".
Definition test_parse_u32_invalid : outcome unit := u32_fails "x".
Definition test_parse_u32_underscores : outcome unit :=
  all_of [u32_is "0_1" 1; u32_is "1_" 1; u32_is "100_100" 100100; u32_is "123_456_789" 123456789].
Definition test_parse_u32_repeated_underscore : outcome unit := u32_is "1___0__0_0" 1000.
Definition test_parse_u32_starts_with_underscore : outcome unit := all_of [u32_fails "_"; u32_fails "_1"].

(** ** Arrays ([src/common/arrayparser.rs]) *)

Definition array_is (s : string) (ids : list Z) : outcome unit :=
  r ← parse_array s; a ← unwrap_ok r; l ← IntArray_iter a; assert_eq l ids.
Definition array_fails (s : string) : outcome unit := r ← parse_array s; assert (is_err r).

Definition test_parse_array_def : outcome unit :=
  all_of [array_is "34" [34]; array_is "34-40" [34; 35; 36; 37; 38; 39; 40]; array_is "101-101" [101];
          array_fails "101-100"].

Definition test_parse_arrays_def : outcome unit :=
  all_of [array_is "34,35,36" [34; 35; 36]; array_is "34-40,45" [34; 35; 36; 37; 38; 39; 40; 45];
          array_is "0-10:2" [0; 2; 4; 6; 8; 10]; array_fails "0-10, 5"].

(** ** CPU requests, CPU definitions and CPU ranges *)

Definition request_is (s : string) (c : CpuRequest) : outcome unit :=
  r ← parse_cpu_request s; r ← unwrap_ok r; assert_eq r c.

(** [src/client/resources.rs] *)
Definition test_parse_cpu_request : outcome unit :=
  all_of [request_is "all" CRAll; request_is "10" (CRCompact 10); request_is "5 compact" (CRCompact 5);
          request_is "351 compact!" (CRForceCompact 351); request_is "10 scatter" (CRScatter 10)].

Definition test_parse_zero_cpus : outcome unit := r ← parse_cpu_request "0"; assert (is_err r).

(** [ResourceDescriptor::new_with_socket_size] of [tako], as the tests expect it. *)
Definition sockets_of (n size : Z) : ResourceDescriptor :=
  {| cpus := (fun i => seqZ (i * size) size) <$> seqZ 0 n |}.

Definition cpu_definition_is (s : string) (l : list (list Z)) : outcome unit :=
  r ← parse_cpu_definition sockets_of (fun _ => "") s; r ← unwrap_ok r; assert_eq (cpus r) l.

(** [src/worker/parser.rs] *)
Definition test_parse_cpu_def : outcome unit :=
  all_of [cpu_definition_is "4" [[0; 1; 2; 3]]; cpu_definition_is "2x3" [[0; 1; 2]; [3; 4; 5]]].

Definition range_is (s : string) (l : list Z) : outcome unit := r ← parse_range s; r ← unwrap_ok r; assert_eq r l.
Definition range_fails (s : string) : outcome unit := r ← parse_range s; assert (is_err r).

(** A text and the character of a new line. *)
Definition line (s : string) : string := s +:+ String (ascii_of_nat 10) "".

(** [src/worker/hwdetect.rs] *)
Definition test_parse_range : outcome unit :=
  all_of [range_is "10" [10]; range_is (line "10") [10]; range_is (line "0-3") [0; 1; 2; 3];
          range_is (line "111-115") [111; 112; 113; 114; 115]; range_is "2,7, 10" [2; 7; 10];
          range_is "2-7,10-12,20" [2; 3; 4; 5; 6; 7; 10; 11; 12; 20];
          range_fails (line "xx"); range_fails (line "-"); range_fails (line "-2"); range_fails (line "0-1-2");
          range_fails ",,"].

(** ** Status lists ([src/client/status.rs]) *)

Definition statuses_are (s : string) (l : list Status) : outcome unit :=
  r ← parse_status_list s; r ← unwrap_ok r; assert_eq r l.

Definition test_parse_status_list : outcome unit :=
  all_of [statuses_are "waiting" [SWaiting]; statuses_are "canceled" [SCanceled];
          statuses_are "running,failed,waiting" [SRunning; SFailed; SWaiting];
          statuses_are "running, failed, waiting" [SRunning; SFailed; SWaiting]].

(** ** Environment variables ([src/client/commands/submit.rs]) *)

Definition env_is (s k v : string) : outcome unit :=
  e ← unwrap_ok (ArgEnvironmentVar_from_str s); all_of [assert_eq (key e) k; assert_eq (value e) v].

Definition test_parse_env_empty : outcome unit := assert (is_err (ArgEnvironmentVar_from_str "")).
Definition test_parse_env_key : outcome unit := env_is "key" "key" "".
Definition test_parse_env_empty_value : outcome unit := env_is "key=" "key" "".
Definition test_parse_env_key_value : outcome unit := env_is "key=value" "key" "value".
Definition test_parse_env_multiple_equal_signs : outcome unit := env_is "key=value=value2" "key" "value=value2".

(** ** Sizes and durations ([src/common/format.rs]) *)

Definition test_sizes : outcome unit :=
  all_of [assert_eq (human_size 0) "0 B"; assert_eq (human_size 1) "1 B"; assert_eq (human_size 1230) "1230 B";
          assert_eq (human_size 300000) "292 KiB"; assert_eq (human_size 50000000) "47 MiB";
          assert_eq (human_size 500250000000) "465 GiB"].

(** [humantime::format_duration] on nanoseconds, for durations below a month and above
    a microsecond: the units that are not zero. *)
Definition units_of (d : Z) : list (Z * string) :=
  let days := d / (24 * HOUR) in
  [(days, if days =? 1 then "day" else "days"); (d mod (24 * HOUR) / HOUR, "h"); (d mod HOUR / MINUTE, "m");
   (d mod MINUTE / SECOND, "s"); (d mod SECOND / MILLISECOND, "ms")].

Definition show_duration (d : Z) : string :=
  match (fun u => to_string u.1 +:+ u.2) <$> List.filter (fun u => negb (u.1 =? 0)) (units_of d) with
  | [] => "0s"
  | l => String.concat " " l
  end.

Definition duration_is (d : Z) (s : string) : outcome unit := assert_eq (human_duration show_duration d) s.

Definition test_durations : outcome unit :=
  all_of [duration_is 123456 "0s"; duration_is 123456890123 "2m 3s"; duration_is (1500 * MILLISECOND) "1s 500ms";
          duration_is (1000 * MILLISECOND) "1s"; duration_is (62111 * MILLISECOND) "1m 2s";
          duration_is (100 * SECOND + 100) "1m 40s"; duration_is (11111 * SECOND) "3h 5m";
          duration_is (7 * (24 * HOUR) + 8 * HOUR + 9 * MINUTE + 11 * SECOND) "7days 8h 9m"].

(** ** Placeholders ([src/worker/start.rs]) *)

(** [program_def] of the tests *)
Definition test_program (cwd stdout stderr submit_dir : string) (job_id task_id : Z) : ProgramDefinition :=
  {| pd_args := [];
     pd_env := <[HQ_INSTANCE_ID := "0"]> (<[HQ_TASK_ID := to_string task_id]>
       (<[HQ_JOB_ID := to_string job_id]> (<[HQ_SUBMIT_DIR := submit_dir]> ∅)));
     pd_stdout := StdioFile stdout; pd_stderr := StdioFile stderr; pd_cwd := Some cwd |}.

(** [StdioDef::map_filename] of [tako], as the tests expect it. *)
Definition map_filename (f : string -> string) (d : StdioDef) : StdioDef :=
  match d with StdioFile p => StdioFile (f p) | d => d end.

Definition replaced_is (program : ProgramDefinition) (cwd stdout stderr : string) : outcome unit :=
  program ← replace_placeholders map_to_list "2021" None map_filename program;
  all_of [assert_eq (pd_cwd program) (Some cwd); assert_eq (pd_stdout program) (StdioFile stdout);
          assert_eq (pd_stderr program) (StdioFile stderr)].

Definition test_replace_task_id : outcome unit :=
  replaced_is (test_program "dir-%{TASK_ID}" "%{TASK_ID}.out" "%{TASK_ID}.err" "" 0 1) "dir-1" "1.out" "1.err".
Definition test_replace_job_id : outcome unit :=
  replaced_is (test_program "dir-%{JOB_ID}-%{TASK_ID}" "%{JOB_ID}-%{TASK_ID}.out" "%{JOB_ID}-%{TASK_ID}.err" "" 5 1)
    "dir-5-1" "5-1.out" "5-1.err".
Definition test_replace_submit_dir : outcome unit :=
  replaced_is (test_program "%{SUBMIT_DIR}" "%{SUBMIT_DIR}/out" "%{SUBMIT_DIR}/err" "/submit-dir" 5 1)
    "/submit-dir" "/submit-dir/out" "/submit-dir/err".
Definition test_replace_cwd : outcome unit :=
  replaced_is (test_program "dir-%{JOB_ID}-%{TASK_ID}" "%{CWD}.out" "%{CWD}.err" "" 5 1)
    "dir-5-1" "dir-5-1.out" "dir-5-1.err".

(** ** Jobs by their tasks ([src/server/state.rs]) *)

Definition dummy_program_definition : ProgramDefinition :=
  {| pd_args := []; pd_env := ∅; pd_stdout := StdioNull; pd_stderr := StdioNull; pd_cwd := None |}.

Definition test_job (job_type : JobType) (job_id base_task_id : Z) : outcome Job :=
  Job_new job_type job_id base_task_id "" dummy_program_definition 1 false None (Some []) 0 None None 0.

Definition add_test_job (s : State) (x : JobType * Z * Z) : outcome State :=
  let '(t, id, base) := x in
  j ← test_job t id base; add_job s j.

Definition job_of_task (s : State) (x : Z * option Z) : outcome unit :=
  let '(task, id) := x in
  r ← get_job_mut_by_tako_task_id s task;
  assert_eq (match r with Some (_, j) => Some (job_id j) | None => None end) id.

Definition test_find_job_id_by_task_id : outcome unit :=
  s ← foldM add_test_job State_new
    [(Array (from_range 0 10), 223, 100); (Array (from_range 0 15), 224, 110); (Simple, 225, 125);
     (Simple, 226, 126); (Simple, 227, 130)];
  all_of (List.map (job_of_task s) [(99, None); (100, Some 223); (101, Some 223); (109, Some 223); (110, Some 224);
    (124, Some 224); (125, Some 225); (126, Some 226); (127, None); (129, None); (130, Some 227); (131, None)]).

(** ** Automatic allocation ([src/server/autoalloc/]) *)

(** [test_add_descriptor_with_same_name_twice]: the queue [()] of the test; its other
    methods are not called there. *)
Definition unit_queue : QueueDescriptor unit :=
  {| target_scale := fun _ => 0; max_workers_per_alloc := fun _ => 1;
     schedule_allocation := fun d _ => (Err (Custom "todo"), d);
     get_allocation_status := fun d _ => (Err (Custom "todo"), d) |}.
#[local] Existing Instance unit_queue.

Definition test_add_descriptor_with_same_name_twice : outcome unit :=
  let state := AutoAllocState_new 1 in
  let r := add_descriptor state "foo" tt in
  _ ← assert (is_ok r);
  state ← unwrap_ok r;
  assert (match add_descriptor state "foo" tt with Err (DescriptorAlreadyExists _) => true | _ => false end).

(** The queue of the tests of [process.rs]: two closures with a state of their own. *)
Record Queue (S : Type) := {
  q_target_scale : Z;
  q_max_workers_per_alloc : Z;
  q_schedule_fn : S -> Z -> result AutoAllocError string * S;
  q_status_fn : S -> string -> result AutoAllocError (option AllocationStatus) * S;
  q_custom_state : S
}.
Arguments q_target_scale {S}.
Arguments q_max_workers_per_alloc {S}.
Arguments q_schedule_fn {S}.
Arguments q_status_fn {S}.
Arguments q_custom_state {S}.

Definition with_custom_state {S} (q : Queue S) (s : S) : Queue S :=
  {| q_target_scale := q_target_scale q; q_max_workers_per_alloc := q_max_workers_per_alloc q;
     q_schedule_fn := q_schedule_fn q; q_status_fn := q_status_fn q; q_custom_state := s |}.

Definition test_queue S : QueueDescriptor (Queue S) :=
  {| target_scale := q_target_scale; max_workers_per_alloc := q_max_workers_per_alloc;
     schedule_allocation := fun q n => let '(r, s) := q_schedule_fn q (q_custom_state q) n in (r, with_custom_state q s);
     get_allocation_status := fun q id => let '(r, s) := q_status_fn q (q_custom_state q) id in (r, with_custom_state q s) |}.
#[local] Existing Instance test_queue.

(** [create_state] and [add_descriptor] of the tests *)
Definition create_state {S} : AutoAllocState (D := Queue S) := AutoAllocState_new 100.

Definition add_test_descriptor {S} (state : AutoAllocState) (custom_state : S)
    (schedule_fn : S -> Z -> result AutoAllocError string * S)
    (status_fn : S -> string -> result AutoAllocError (option AllocationStatus) * S)
    (target_scale max_workers_per_alloc : Z) : outcome AutoAllocState :=
  unwrap_ok (add_descriptor state "foo"
    {| q_target_scale := target_scale; q_max_workers_per_alloc := max_workers_per_alloc;
       q_schedule_fn := schedule_fn; q_status_fn := status_fn; q_custom_state := custom_state |}).

Definition tick {S} (state : AutoAllocState (D := Queue S)) : outcome AutoAllocState :=
  r ← autoalloc_tick 100 state 0; unwrap r.

(** The state that the closures share with the test. *)
Definition custom_state {S} (state : AutoAllocState (D := Queue S)) : outcome S :=
  d ← unwrap (get_descriptor state "foo"); Ret (q_custom_state (descriptor d)).

Definition set_custom_state {S} (state : AutoAllocState (D := Queue S)) (s : S) : outcome AutoAllocState :=
  d ← unwrap (get_descriptor state "foo");
  Ret (put_descriptor state "foo" (with_descriptor d (with_custom_state (descriptor d) s))).

Definition still_queued {S} (s : S) (_ : string) : result AutoAllocError (option AllocationStatus) * S :=
  (Ok (Some (Queued 0)), s).

Definition test_do_not_overallocate_queue : outcome unit :=
  state ← add_test_descriptor create_state 0 (fun n _ => (Ok "1", n + 1)) still_queued 1 1;
  state ← tick state;
  state ← tick state;
  call_count ← custom_state state;
  assert_eq call_count 1.

(** The closure of the test asserts that it is asked for the next request: the flag. *)
Definition test_split_allocations_per_max_job_size : outcome unit :=
  let schedule_fn (s : list Z * bool) worker_count :=
    match s.1 with
    | n :: rest => (Ok (to_string (Z.of_nat (length rest))), (rest, s.2 && (worker_count =? n)))
    | [] => (Ok "", ([], false))
    end in
  state ← add_test_descriptor create_state ([3; 3; 3; 1], true) schedule_fn still_queued 10 3;
  state ← tick state;
  '(requests, asserted) ← custom_state state;
  _ ← assert asserted;
  assert_eq (length requests) 0%nat.

(** The test computes [matches!] on the first event and drops the result. *)
Definition test_log_failed_allocation_attempt : outcome unit :=
  state ← add_test_descriptor create_state tt (fun s _ => (Err (Custom "foo"), s)) still_queued 1 1;
  state ← tick state;
  descriptor ← unwrap (get_descriptor state "foo");
  event ← unwrap (head (events descriptor));
  let _ := match event.2 with QueueFail _ => true | _ => false end in
  Ret tt.

Definition test_reschedule_after_job_ends : outcome unit :=
  let schedule_fn (s : Z * option AllocationStatus) (_ : Z) := (Ok (to_string (s.1 + 1)), (s.1 + 1, s.2)) in
  let status_fn (s : Z * option AllocationStatus) (_ : string) := (Ok s.2, s) in
  state ← add_test_descriptor create_state (0, None) schedule_fn status_fn 1 1;
  state ← tick state;
  '(job_id, _) ← custom_state state;
  state ← set_custom_state state (job_id, Some (Queued 0));
  state ← tick state;
  '(job_id, _) ← custom_state state;
  state ← set_custom_state state (job_id, None);
  state ← tick state;
  '(job_id, _) ← custom_state state;
  assert_eq job_id 2.

(** ** The tests pass *)

Definition unit_tests : list (outcome unit) :=
  [test_parse_u32; test_parse_u32_empty; test_parse_u32_invalid; test_parse_u32_underscores;
   test_parse_u32_repeated_underscore; test_parse_u32_starts_with_underscore; test_parse_array_def;
   test_parse_arrays_def; test_parse_cpu_request; test_parse_zero_cpus; test_parse_cpu_def; test_parse_range;
   test_parse_status_list; test_parse_env_empty; test_parse_env_key; test_parse_env_empty_value;
   test_parse_env_key_value; test_parse_env_multiple_equal_signs; test_sizes; test_durations;
   test_replace_task_id; test_replace_job_id; test_replace_submit_dir; test_replace_cwd;
   test_find_job_id_by_task_id; test_add_descriptor_with_same_name_twice; test_do_not_overallocate_queue;
   test_split_allocations_per_max_job_size; test_log_failed_allocation_attempt; test_reschedule_after_job_ends].

Example unit_tests_pass : Forall (fun t => t = Ret tt) unit_tests.
Proof. repeat (apply Forall_cons_2; [vm_compute; reflexivity|]). apply Forall_nil_2. Qed.
