(* ===== verification/ServerConformance.v ===== *)
(** * Conformance: the unit tests of the server's directory and life

    The tests of [src/transfer/auth.rs], [src/common/serverdir.rs] and
    [src/server/bootstrap.rs], as in [Conformance.v], over a small file system with a
    temporary directory. *)

From S2P Require Import Prelude Messages Client Server Backend ServerDir Connection System Bootstrap Witnesses ServerWitnesses SystemWitnesses Conformance.

#[local] Existing Instance demo_tako.
#[local] Existing Instance dev.
#[local] Existing Instance demo_keys.
#[local] Existing Instance demo_format.
#[local] Existing Instance demo_host.
#[local] Existing Instance demo_auth.
#[local] Existing Instance stop_from_serde.
#[local] Existing Instance stop_to_serde.

(** [SecretKey::default] *)
Definition default_key : SecretKey := [0; 0].

(** [TempDir::new("foo")] *)
Definition tmp_path : string := "/tmp/foo".
Definition tmp_fs : FileSystem :=
  {| fs_dirs := {["/"; "/tmp"; tmp_path]}; fs_files := ∅; fs_links := ∅ |}.
Definition tmp_world (fs : FileSystem) : ServerWorld := {| sw_fs := fs; sw_running := [] |}.

(** [AccessRecord::new("foo", 42, 43, ..)] *)
Definition test_record : AccessRecord :=
  AccessRecord_new {| st_host := "foo"; st_server_port := 42; st_worker_port := 43; st_now := 5; st_pid := 77;
                      st_hq_key := default_key; st_tako_key := default_key |}.

(** [test_roundtrip] of [auth.rs] *)
Definition test_key_roundtrip : outcome unit :=
  let str := serialize_key default_key in
  deserialized ← unwrap_ok (deserialize_key str);
  assert_eq default_key deserialized.

(** [test_roundtrip] of [serverdir.rs] *)
Definition test_record_roundtrip : outcome unit :=
  let path := path_join tmp_path "access.json" in
  let '(fs, r) := store_access_record tmp_fs test_record path in
  _ ← unwrap_ok r;
  loaded ← unwrap_ok (load_access_file fs path);
  assert_eq test_record loaded.

Definition test_status_empty_directory : outcome unit :=
  r ← get_server_status (tmp_world tmp_fs) tmp_path;
  assert (is_err r).

(** The record is stored in [server_dir], and the server of [directory] is offline. *)
Definition stored_is_offline (fs : FileSystem) (server_dir directory : string) : outcome unit :=
  r ← ServerDir_open fs server_dir;
  server_dir ← unwrap_ok r;
  let '(fs, r) := store_access_record fs test_record (access_filename server_dir) in
  _ ← unwrap_ok r;
  r ← get_server_status (tmp_world fs) directory;
  res ← unwrap_ok r;
  assert (match res with Offline _ => true | Online _ => false end).

Definition test_status_directory_with_access_file : outcome unit := stored_is_offline tmp_fs tmp_path tmp_path.

Definition test_status_directory_with_symlink : outcome unit :=
  let actual_dir := path_join tmp_path "server-dir" in
  fs ← unwrap_ok (create_dir_all tmp_fs actual_dir);
  fs ← unwrap_ok (symlink fs actual_dir (path_join tmp_path SYMLINK_PATH));
  stored_is_offline fs actual_dir tmp_path.

(** [init_test_server] *)
Definition test_env : Environment (Core := unit) :=
  {| env_bind := Ok 1000; env_hq_key := default_key; env_tako_key := default_key;
     env_start := fun _ => Ok (1001, tt); env_now := 5; env_pid := 77 |}.

Definition init_test_server : outcome (ServerWorld * AccessRecord * System.System (Core := unit)) :=
  '(w, r) ← setup_server (tmp_world tmp_fs) tmp_path
    {| cfg_host := "localhost"; cfg_idle_timeout := None; cfg_autoalloc_interval := None |} test_env;
  '(record, sys) ← unwrap_ok r;
  Ret (w, record, sys).

(** A client connects with the key of the record and sends [Stop] ([stop_server]). *)
Definition test_start_stop : outcome unit :=
  '(w, _, sys) ← init_test_server;
  r ← get_client_connection w tmp_path;
  record ← unwrap_ok r;
  '(_, r) ← serve demo_process default_key "/" sys
    [SeSystem (SyConnect 1 (ar_hq_secret_key record)); SeSystem (SyClient 1 (ClientSend Stop demo_write));
     SeSystem (SyRead 1 1 demo_write); SeStop];
  assert (match r with inr (Ok _) => true | _ => false end).

Definition test_stop_on_end_condition : outcome unit :=
  '(_, _, sys) ← init_test_server;
  '(_, r) ← serve demo_process default_key "/" sys [SeInterrupt];
  assert (match r with inr (Ok _) => true | _ => false end).

Definition server_tests : list (outcome unit) :=
  [test_key_roundtrip; test_record_roundtrip; test_status_empty_directory; test_status_directory_with_access_file;
   test_status_directory_with_symlink; test_start_stop; test_stop_on_end_condition].

Example server_tests_pass : Forall (fun t => t = Ret tt) server_tests.
Proof. repeat (apply Forall_cons_2; [vm_compute; reflexivity|]). apply Forall_nil_2. Qed.
